(* ===== verification/_CoqProject ===== *)
-Q . S2P
Prelude.v
GoStrings.v
Sha256.v
GoTime.v
TimeFacts.v
Json.v
JsonFacts.v
Url.v
UrlFacts.v
UrlRoundtrip.v
Identity.v
Uuid.v
Payload.v
PayloadFacts.v
World.v
Schema.v
SchemaFacts.v
Repo.v
RepoFacts.v
RepoSound.v
CitizenFacts.v
Http.v
Integrations.v
WebhookService.v
WebhookFacts.v
Examples.v
WebhookProps.v
Auth.v
HttpApi.v
WsBus.v
Notify.v
Config.v
Upstream.v
Migrate.v
Server.v
IntegrationsProps.v
HttpFacts.v
HttpProps.v
AuthProps.v
NotifyFacts.v
NotifyProps.v
DrainFacts.v
DrainProps.v
DeliveryProps.v
Replicas.v
Deliveries.v
DeviceProps.v
WsBusFacts.v
WsBusProps.v
Feed.v
FeedProps.v
KeepAlive.v
KeepAliveProps.v
System.v
SystemProps.v
Shared.v
Completion.v
JourneyProps.v
UrlProps.v
ServerProps.v
SchemaProps.v
ContractProps.v
PipelineProps.v
Lifecycle.v
Witnesses.v
Runs.v
Interleavings.v
MigrationRuns.v
