(* ===== verification/Prelude.v ===== *)
(** * Desafio-backend: verification development

    The program (Go, under [src/]) receives signed events about citizens'
    requests ("chamados"), records them in PostgreSQL together with an outbox
    row, publishes the outbox on Redis, pushes it to devices and WebSocket
    connections, and lets each citizen read and acknowledge his notifications
    over a REST API.

    ** The parts and how they interact

    An event enters at POST /webhook ([internal/webhook]): its body is read up
    to 512 KiB, its HMAC verified, its JSON decoded and validated, and one
    transaction ([internal/repo]) inserts the citizen (by the keyed
    fingerprint of his CPF, [internal/identity]), the notification (unique by
    idempotency key) and the outbox row; a failed transaction leaves a dead
    letter.  The worker ([internal/notify]) claims due outbox rows in a
    transaction, publishes each on its citizen's Redis channel, settles the
    rows and, after the commit, sends pushes ([internal/integrations]).  The
    subscriber turns messages back into calls of the hub ([internal/wsbus]),
    which buffers them for the citizen's connections.  The REST handlers
    ([internal/httpapi]) run behind the token middleware
    ([internal/authjwt]), and acknowledge to the chamados API in goroutines of
    their own.  [cmd/server] wires all this from [internal/config];
    [cmd/migrate] and [internal/migrate] run the schema migrations.

    ** Files and the code they model

    - Prelude: results, 64-bit integers, bytes, lists.  GoStrings, GoTime,
      Json, Url, Sha256: what the program uses of Go's standard library,
      executable and checked on published vectors or examples (times are
      nanoseconds since the epoch; JSON decoding follows encoding/json,
      duplicates and case folding included; URLs are parsed and printed as
      net/url does in Go 1.24.0).
    - Identity, Uuid, Payload: [identity/cpf.go], [identity/fingerprint.go],
      [webhook/signature.go], [payload.go], [body.go], [idempotency.go],
      [ws_payload.go].
    - World: the tables of [migrations/] as records and finite maps, the
      outcomes the environment has in store, the state monad [ST], statements,
      transactions, Redis, HTTP and the clock.  Repo: [internal/repo], one
      definition per function and per SQL statement.  Schema: the migration
      files as data, what their statements do to a schema, and the contents
      of the tables that a schema admits; SchemaFacts: that statements keep
      the rows within their schema.
    - Http, Integrations, WebhookService, Auth, HttpApi, Notify, WsBus,
      Config, Upstream, Migrate: the packages of those names.  Server:
      [httpapi/router.go], [httpapi/ws.go], [telemetry], [db], [rdb],
      [cmd/server/main.go].  Lifecycle: what [main] opens, starts and closes,
      as a trace.  System: all of it as one transition system.
    - Replicas, Deliveries: the transactions of [notify/worker.go] and of
      [webhook/service.go] cut at their statements, many running at once.
      Shared: both on the same tables, with the single statements of the
      citizens' requests.  Completion: that none of them is ever stuck.
    - Feed: the subscriber's goroutine among the hub's others.  KeepAlive: the
      two pumps of one connection ([wsbus/client.go]) with their clock.
    - TimeFacts, JsonFacts, UrlFacts, UrlRoundtrip: what is written as a time,
      as JSON or as a URL is read back, and what is read is valid UTF-8.
      PayloadFacts, RepoFacts, RepoSound, CitizenFacts, WebhookFacts,
      HttpFacts, NotifyFacts, DrainFacts, WsBusFacts: invariants,
      specifications and composition rules.  WebhookProps, HttpProps,
      IntegrationsProps, AuthProps, NotifyProps, DrainProps, DeliveryProps,
      DeviceProps, WsBusProps, FeedProps, KeepAliveProps, UrlProps, ServerProps, SchemaProps,
      ContractProps, JourneyProps, PipelineProps, SystemProps: the theorems.
      Examples, Witnesses, Runs, Interleavings, MigrationRuns: concrete
      instances and one application of every theorem that has hypotheses.

    Definitions keep the names of the code; where a Go function holds an SQL
    text or a closure, that part is a definition of its own next to it
    ([mark_read] in [MarkNotificationRead], [summary_call] in [GetSummary]).
    Where two packages use one name, the later has its package as a prefix
    ([upstream_Register], [httpapi_Register]).

    ** Failures

    A world holds the outcomes of the database operations, publishes and HTTP
    requests still to come.  A database operation or a publish is [Fine],
    [Failed] (no effect) or [Lost] (it took effect, its reply did not arrive).
    A theorem about all worlds therefore covers every pattern of failures; one
    with [w_faults w = []] is about the run in which nothing fails.

    ** What the theorems show

    - The running system ([system_invariant]): over every sequence of
      requests, batches, acknowledgements, pings and environment changes the
      tables stay well formed, each notification has its one outbox row, a
      sent row was published, attempts are bounded.  The same one level down
      ([interleaved_servers]): however the statements of deliveries, batches
      and citizens interleave, the committed tables go through whole
      operations, one after another.  And nobody waits for ever
      ([nothing_is_stuck]): all open transactions can go on to their commit.
    - The webhook: which requests get which rejection, told by size,
      signature and event alone, and without any effect; that an accepted
      event is recorded whole or not at all under every failure (a refinement
      of [recorded] in WebhookFacts), also when deliveries interleave
      ([concurrent_deliveries_are_serial], a lemma: they end as if one ran after the
      other); that a redelivery is a duplicate; the exact inputs that pass
      signature and validation; when idempotency keys separate events, and
      that they do not always.
    - The citizen's API: a citizen can neither learn about nor change another
      citizen's rows (two runs are compared), nor reach anything without a
      valid token; listings, pages, read marks and acknowledgements are
      specified exactly; the device table refines a map; every answer keeps to
      its route's contract ([API_keeps_its_contract]) but for one: an id that
      is no UUID is answered 400 where the docs say 404.
    - From end to end: an event reported for a CPF is read by whoever holds a
      token for it, and by nobody else ([reported_events_reach_their_citizen]);
      once due it is published, and every open connection of its citizen that
      is attended gets it ([events_reach_open_connections]).
    - Delivery: the payload is the event (over the JSON encoder and decoder,
      byte by byte), at-least-once publishing, what a batch does to its rows,
      batches of several workers that never share a row
      ([concurrent_batches_are_atomic]), retries that end, ticks that drain
      the outbox in order, the worker's backoff, the round trip of a channel
      name, the subscriber's loop.
    - The hub: an invariant of every interleaving, the function [Dispatch] as
      a run of the step relation, delivery and closing when operations do not
      overlap, and the interleaving in which the process panics, which is the
      only kind.  Fed by its one subscriber, it gives each connection its
      citizen's messages in order and without gaps
      ([connections_get_every_message]).  Over time: a peer that answers its
      pings is never dropped, and time can go on for ever
      ([responsive_peers_stay_connected]); one that sends no pong is dropped
      within the pong wait, and a pump that ends takes the other one with it by
      its deferred shutdown ([silent_peers_are_dropped]); and each timed step
      is run by the hub's goroutines ([timed_pumps_are_pumps], a lemma).
    - The clients of other services and the server's start: what a breaker
      lets out, how a chamado's id travels in a URL, that the database URL of
      the migrations keeps its meaning, what the configuration guarantees, when
      the server starts, what is closed when it stops and what is not.
    - The schema: the migration files undo and redo each other, however the
      command is run, and keep the rows ([migrations_undo_and_redo]); the
      schema a started server finds admits exactly the tables the other
      theorems call well formed, among them those it finds and all that the
      servers reach ([started_schema_admits_tables]).

    ** Interfaces

    Code that is not in the repository is a class, its documented laws a
    second class where a theorem needs them: [UuidText] (printing and parsing
    UUIDs; parsing undoes printing), [Postgres] (generated UUIDs, what a
    column stores, the order of a scan; a scan yields every row once, and a
    [jsonb] column keeps an object of strings: [PostgresJsonb]), [Jwt]
    (parsing with a key function; what parses verifies under the key it was
    given), [Gobreaker] (refusals and states from settings and history),
    [Migrator] (which runs files on a database; in the order of their numbers,
    each recorded, and never on a dirty one: [VersionsOk]), [Gin] (where a
    router takes a request).  [Unicode] holds two tables of Go's standard
    library that matter beyond ASCII only: lower case and printability.
    Examples, Witnesses and MigrationRuns instantiate them.

    ** Bounds and fuel

    Parsers recurse on the input or on fuel equal to its length: each
    turn consumes a byte.  The digest recurses on blocks.  [Run] of the worker
    takes the number of ticks it has seen, [runOnce] the events of its
    channel: both loops end with their context only.  Integers are unbounded
    where the code cannot overflow them, and wrapped ([wrap64]) where it can:
    durations, backoffs, configured values.

    ** Granularity, and what is not modelled

    A step of System is one operation run to its end, with the rows other
    workers have locked part of the world ([w_locked]).  Replicas,
    Deliveries and Shared say why that is enough: cut at their statements and
    interleaved, batches, deliveries and the citizens' writes end in states
    that whole operations reach.  They assume of PostgreSQL what its manual says of READ COMMITTED:
    a transaction's rows are seen by others from its commit on, an insertion
    waits for the open transaction that holds its unique value, and [FOR
    UPDATE SKIP LOCKED] passes over locked rows.  WsBus interleaves at every
    point where the code holds no lock, and lets the pumps go on or give up at
    any time; KeepAlive adds the clock to one connection, where no time passes
    while a pump could go on, a shutdown is one step, and a blocked read or
    write fails at its deadline or when the connection is closed, as
    [net.Conn] documents.  Not modelled: the bytes of WebSocket frames and
    the handshake, which are gorilla/websocket's, request cancellation other
    than as a failure of the operation it hits, logging and tracing spans,
    locks that PostgreSQL takes while it migrates, deployment files and load
    tests. *)

From Stdlib Require Export ZArith Ascii String Lia.
From stdpp Require Export base tactics list strings gmap sorting fin_maps.

#[global] Open Scope Z_scope.

(** ** Results of fallible Go functions: [(T, error)] *)

Inductive result (E A : Type) :=
| Ok (a : A)
| Err (e : E).
Arguments Ok {E A} a.
Arguments Err {E A} e.

#[export] Instance result_eq_dec {E A} `{EqDecision E, EqDecision A} : EqDecision (result E A).
Proof. solve_decision. Defined.

Definition is_ok {E A} (r : result E A) : bool :=
  match r with Ok _ => true | Err _ => false end.

Definition ok_option {E A} (r : result E A) : option A :=
  match r with Ok a => Some a | Err _ => None end.

(** ** Machine integers: Go's [int], [int64] and [time.Duration] *)

Definition max_int64 : Z := 2 ^ 63 - 1.
Definition min_int64 : Z := - 2 ^ 63.
Definition in_int64 (z : Z) : bool := (min_int64 <=? z) && (z <=? max_int64).

(** Two's complement wrap-around of a 64-bit signed result. *)
Definition wrap64 (z : Z) : Z := (z + 2 ^ 63) mod 2 ^ 64 - 2 ^ 63.

Lemma wrap64_id z : in_int64 z = true → wrap64 z = z.
Proof.
  unfold in_int64, wrap64, min_int64, max_int64. intros H.
  apply andb_prop in H as [H1%Z.leb_le H2%Z.leb_le].
  rewrite Z.mod_small; lia.
Qed.

(** ** Bytes *)

Definition byte_val (a : ascii) : Z := Z.of_N (N_of_ascii a).
Definition byte_of (z : Z) : ascii := ascii_of_N (Z.to_N z).

Lemma byte_val_range a : 0 ≤ byte_val a < 256.
Proof. unfold byte_val. pose proof (N_ascii_bounded a). lia. Qed.

Lemma byte_of_val a : byte_of (byte_val a) = a.
Proof. unfold byte_of, byte_val. by rewrite N2Z.id, ascii_N_embedding. Qed.

Lemma byte_val_of z : 0 ≤ z < 256 → byte_val (byte_of z) = z.
Proof.
  intros H. unfold byte_of, byte_val. rewrite N_ascii_embedding; lia.
Qed.

Lemma byte_val_inj a b : byte_val a = byte_val b → a = b.
Proof. intros H. by rewrite <-(byte_of_val a), <-(byte_of_val b), H. Qed.

(** Go strings and byte slices are both sequences of bytes: [string]. *)
Abbreviation chars := list_ascii_of_string.
Abbreviation unchars := string_of_list_ascii.

Lemma chars_unchars l : chars (unchars l) = l.
Proof. apply list_ascii_of_string_of_list_ascii. Qed.

Lemma unchars_chars s : unchars (chars s) = s.
Proof. apply string_of_list_ascii_of_string. Qed.

Lemma chars_inj s t : chars s = chars t → s = t.
Proof. intros H. by rewrite <-(unchars_chars s), <-(unchars_chars t), H. Qed.

Lemma chars_app s t : chars (s +:+ t) = chars s ++ chars t.
Proof. induction s as [|a s IH]; simpl; [done|by f_equal]. Qed.

Lemma unchars_app l k : unchars (l ++ k) = unchars l +:+ unchars k.
Proof. apply chars_inj. by rewrite chars_app, !chars_unchars. Qed.

Lemma length_chars s : List.length (chars s) = String.length s.
Proof. induction s; simpl; congruence. Qed.

(** ** Generic lemmas *)

Lemma forallb_Forall {A} (f : A → bool) l : forallb f l = true ↔ Forall (λ a, f a = true) l.
Proof.
  induction l as [|a l IH]; simpl; [by split|].
  by rewrite andb_true_iff, Forall_cons, IH.
Qed.
