(* ===== verification/GoStrings.v ===== *)
(** * Go's string library, as far as the program uses it

    [strings.TrimSpace], [strings.EqualFold] against an ASCII word,
    [strings.TrimRight], [strings.ToLower], [strings.HasPrefix] /
    [strings.TrimPrefix], [encoding/hex],
    [strconv.Atoi] / [strconv.ParseInt] and [strconv.ParseBool].  A Go string
    is its sequence of bytes, so every function below works on bytes; the
    multi-byte white space of [unicode.IsSpace] is given by its UTF-8
    encodings. *)

From S2P Require Import Prelude.

(** ** Prefixes *)

Section strip.
Implicit Types p s : list ascii.

Fixpoint strip (p s : list ascii) : option (list ascii) :=
  match p, s with
  | [], _ => Some s
  | a :: p', b :: s' => if Ascii.eqb a b then strip p' s' else None
  | _ :: _, [] => None
  end.

Lemma strip_Some p s r : strip p s = Some r ↔ s = p ++ r.
Proof.
  revert s. induction p as [|a p IH]; intros s; simpl.
  - split; congruence.
  - destruct s as [|b s]; [split; [done|discriminate]|].
    destruct (Ascii.eqb_spec a b) as [->|Hne].
    + rewrite IH. split; congruence.
    + split; congruence.
Qed.

Lemma strip_app p s : strip p (p ++ s) = Some s.
Proof. by apply strip_Some. Qed.

Lemma strip_length p s r : strip p s = Some r → length s = (length p + length r)%nat.
Proof. intros ->%strip_Some. by rewrite length_app. Qed.

Lemma strip_app_l p s t r : strip p s = Some r → strip p (s ++ t) = Some (r ++ t).
Proof. intros ->%strip_Some. rewrite <-app_assoc. apply strip_app. Qed.

(** First element of [es] that is a prefix of [s], removed. *)
Fixpoint strip_any (es : list (list ascii)) (s : list ascii) : option (list ascii) :=
  match es with
  | [] => None
  | e :: es' => match strip e s with Some r => Some r | None => strip_any es' s end
  end.

Lemma strip_any_Some es s r :
  strip_any es s = Some r → ∃ e, e ∈ es ∧ s = e ++ r.
Proof.
  induction es as [|e es IH]; simpl; [done|].
  destruct (strip e s) as [r'|] eqn:E.
  - intros [= <-]. apply strip_Some in E. exists e. split; [by left|done].
  - intros (e' & ? & ?)%IH. exists e'. split; [by right|done].
Qed.

Lemma strip_any_None es s : strip_any es s = None ↔ ∀ e, e ∈ es → strip e s = None.
Proof.
  induction es as [|e es IH]; simpl.
  - split; [intros _ e He; by apply not_elem_of_nil in He|done].
  - destruct (strip e s) eqn:E; split; intros H.
    + done.
    + exfalso. specialize (H e). rewrite E in H. by discriminate H; left.
    + intros e' [->|He']%elem_of_cons; [done|]. by apply IH.
    + apply IH. intros e' He'. apply H. by right.
Qed.
End strip.

Definition HasPrefix (s p : string) : bool :=
  match strip (chars p) (chars s) with Some _ => true | None => false end.

Definition TrimPrefix (s p : string) : string :=
  match strip (chars p) (chars s) with Some r => unchars r | None => s end.

Lemma HasPrefix_app p s : HasPrefix (p +:+ s) p = true.
Proof. unfold HasPrefix. by rewrite chars_app, strip_app. Qed.

Lemma TrimPrefix_app p s : TrimPrefix (p +:+ s) p = s.
Proof. unfold TrimPrefix. by rewrite chars_app, strip_app, unchars_chars. Qed.

Lemma HasPrefix_true s p : HasPrefix s p = true → s = p +:+ TrimPrefix s p.
Proof.
  unfold HasPrefix, TrimPrefix. destruct (strip _ _) as [r|] eqn:E; [|done].
  intros _. apply strip_Some in E. apply chars_inj.
  by rewrite chars_app, chars_unchars.
Qed.

(** ** [strings.TrimSpace] *)

(** UTF-8 encodings of the runes [unicode.IsSpace] accepts. *)
Definition space_encodings : list (list ascii) :=
  map (map byte_of)
    [[9]; [10]; [11]; [12]; [13]; [32]; [194; 133]; [194; 160];
     [225; 154; 128];
     [226; 128; 128]; [226; 128; 129]; [226; 128; 130]; [226; 128; 131];
     [226; 128; 132]; [226; 128; 133]; [226; 128; 134]; [226; 128; 135];
     [226; 128; 136]; [226; 128; 137]; [226; 128; 138];
     [226; 128; 168]; [226; 128; 169]; [226; 128; 175];
     [226; 129; 159]; [227; 128; 128]].

Section trim.
Variable es : list (list ascii).
Hypothesis es_nonempty : Forall (λ e, e ≠ []) es.
Implicit Types s : list ascii.

Fixpoint trim_front_n (n : nat) (s : list ascii) : list ascii :=
  match n with
  | O => s
  | S n' => match strip_any es s with Some s' => trim_front_n n' s' | None => s end
  end.

(** Each step removes at least one byte, so the length is enough fuel. *)
Definition trim_front (s : list ascii) : list ascii := trim_front_n (length s) s.

Lemma strip_any_shorter s r : strip_any es s = Some r → (length r < length s)%nat.
Proof using es_nonempty.
  intros (e & He & ->)%strip_any_Some. rewrite length_app.
  rewrite Forall_forall in es_nonempty. specialize (es_nonempty e He).
  destruct e; [done|simpl; lia].
Qed.

Lemma trim_front_n_fixed n s : (length s ≤ n)%nat → strip_any es (trim_front_n n s) = None.
Proof using es_nonempty.
  revert s. induction n as [|n IH]; intros s Hn; simpl.
  - destruct (strip_any es s) eqn:E; [|done].
    apply strip_any_shorter in E. lia.
  - destruct (strip_any es s) as [r|] eqn:E; [|done].
    apply IH. apply strip_any_shorter in E. lia.
Qed.

Lemma trim_front_fixed s : strip_any es (trim_front s) = None.
Proof using es_nonempty. by apply trim_front_n_fixed. Qed.

Lemma trim_front_id s : strip_any es s = None → trim_front s = s.
Proof using. unfold trim_front. intros H. destruct (length s); simpl; [done|by rewrite H]. Qed.

Lemma trim_front_n_suffix n s : ∃ p, s = p ++ trim_front_n n s.
Proof using.
  revert s. induction n as [|n IH]; intros s; simpl; [by exists []|].
  destruct (strip_any es s) as [r|] eqn:E; [|by exists []].
  apply strip_any_Some in E as (e & _ & ->). destruct (IH r) as [p Hp].
  exists (e ++ p). by rewrite <-app_assoc, <-Hp.
Qed.
End trim.

Definition rev_encodings : list (list ascii) := map (@rev ascii) space_encodings.

Definition trim_back (s : list ascii) : list ascii := rev (trim_front rev_encodings (rev s)).

(** [strings.TrimSpace]. *)
Definition TrimSpace (s : string) : string :=
  unchars (trim_back (trim_front space_encodings (chars s))).

Lemma space_encodings_nonempty : Forall (λ e : list ascii, e ≠ []) space_encodings.
Proof. repeat constructor; discriminate. Qed.

Lemma rev_encodings_nonempty : Forall (λ e : list ascii, e ≠ []) rev_encodings.
Proof. repeat constructor; discriminate. Qed.

Lemma trim_back_prefix s : ∃ q, s = trim_back s ++ q.
Proof.
  unfold trim_back, trim_front.
  destruct (trim_front_n_suffix rev_encodings (length (rev s)) (rev s)) as [p Hp].
  exists (rev p). rewrite <-rev_app_distr, <-Hp. by rewrite rev_involutive.
Qed.

Lemma trim_back_front_fixed s :
  strip_any space_encodings s = None → strip_any space_encodings (trim_back s) = None.
Proof.
  intros H. apply strip_any_None. intros e He.
  destruct (strip e (trim_back s)) as [r|] eqn:E; [|done].
  destruct (trim_back_prefix s) as [q Hq].
  apply (strip_app_l _ _ q) in E. rewrite <-Hq in E.
  rewrite strip_any_None in H. rewrite H in E; done.
Qed.

(** Trimming is idempotent. *)
Lemma TrimSpace_idemp s : TrimSpace (TrimSpace s) = TrimSpace s.
Proof.
  unfold TrimSpace. rewrite chars_unchars. f_equal.
  assert (H := trim_front_fixed space_encodings space_encodings_nonempty (chars s)).
  apply trim_back_front_fixed in H. rewrite (trim_front_id _ _ H).
  set (t := trim_front _ _). unfold trim_back at 1 2. rewrite rev_involutive.
  rewrite (trim_front_id rev_encodings); [done|].
  apply trim_front_fixed, rev_encodings_nonempty.
Qed.

Lemma TrimSpace_empty : TrimSpace "" = "".
Proof. reflexivity. Qed.

Lemma TrimSpace_id s :
  strip_any space_encodings (chars s) = None →
  strip_any rev_encodings (rev (chars s)) = None → TrimSpace s = s.
Proof.
  intros H1 H2. unfold TrimSpace, trim_back.
  rewrite (trim_front_id _ _ H1), (trim_front_id _ _ H2), rev_involutive.
  apply unchars_chars.
Qed.

(** ** [strings.EqualFold] against an ASCII word, [strings.ToLower] *)

Definition ascii_lower (a : ascii) : ascii :=
  let v := byte_val a in
  if (65 <=? v) && (v <=? 90) then byte_of (v + 32) else a.

Definition is_ascii (a : ascii) : bool := byte_val a <? 128.

(** Besides their own two cases, only [s] and [k] have a further rune that
    folds to them: U+017F (bytes C5 BF) and U+212A (bytes E2 84 AA). *)
Fixpoint equal_fold (s t : list ascii) : bool :=
  match t, s with
  | [], [] => true
  | [], _ :: _ => false
  | _ :: _, [] => false
  | c :: t', a :: s' =>
      if is_ascii a then Ascii.eqb (ascii_lower a) (ascii_lower c) && equal_fold s' t'
      else match strip (map byte_of [197; 191]) s with
           | Some r => Ascii.eqb (ascii_lower c) "s" && equal_fold r t'
           | None =>
               match strip (map byte_of [226; 132; 170]) s with
               | Some r => Ascii.eqb (ascii_lower c) "k" && equal_fold r t'
               | None => false
               end
           end
  end.

(** [strings.EqualFold s t], for an ASCII [t]. *)
Definition EqualFold (s t : string) : bool := equal_fold (chars s) (chars t).

(** The tables of Unicode behind [strings.ToLower] and [strconv.IsPrint]:
    they matter beyond ASCII only. *)
Class Unicode := {
  unicode_lower : string → string;
  IsPrint : Z → bool
}.

(** [strings.ToLower]: bytewise on ASCII input. *)
Definition ToLower `{Unicode} (s : string) : string :=
  if forallb is_ascii (chars s) then unchars (map ascii_lower (chars s)) else unicode_lower s.

(** ** [strings.TrimRight s "/"] *)

Fixpoint drop_slashes (s : list ascii) : list ascii :=
  match s with
  | a :: s' => if Ascii.eqb a "/" then drop_slashes s' else s
  | [] => []
  end.

Definition TrimRightSlash (s : string) : string := unchars (rev (drop_slashes (rev (chars s)))).

Lemma drop_slashes_head s : hd_error (drop_slashes s) ≠ Some "/"%char.
Proof.
  induction s as [|a s IH]; simpl; [done|].
  destruct (Ascii.eqb_spec a "/"); [done|]. simpl. congruence.
Qed.

(** The base URL of a client never ends in a slash. *)
Lemma TrimRightSlash_no_slash s : last (chars (TrimRightSlash s)) ≠ Some "/"%char.
Proof.
  unfold TrimRightSlash. rewrite chars_unchars.
  pose proof (drop_slashes_head (rev (chars s))) as H.
  destruct (drop_slashes _) as [|a l]; simpl; [done|].
  rewrite last_snoc. exact H.
Qed.

(** ** [encoding/hex] *)

Definition hex_digit (z : Z) : ascii := byte_of (if z <? 10 then 48 + z else 87 + z).

Definition hex_val (a : ascii) : option Z :=
  let v := byte_val a in
  if (48 <=? v) && (v <=? 57) then Some (v - 48)
  else if (97 <=? v) && (v <=? 102) then Some (v - 87)
  else if (65 <=? v) && (v <=? 70) then Some (v - 55)
  else None.

Fixpoint hex_encode (s : list ascii) : list ascii :=
  match s with
  | [] => []
  | a :: s' => hex_digit (byte_val a / 16) :: hex_digit (byte_val a mod 16) :: hex_encode s'
  end.

(** [None] for an odd length or a byte that is no hexadecimal digit. *)
Fixpoint hex_decode (s : list ascii) : option (list ascii) :=
  match s with
  | [] => Some []
  | [_] => None
  | a :: b :: s' =>
      match hex_val a, hex_val b, hex_decode s' with
      | Some x, Some y, Some r => Some (byte_of (16 * x + y) :: r)
      | _, _, _ => None
      end
  end.

Definition hex_EncodeToString (b : string) : string := unchars (hex_encode (chars b)).
Definition hex_DecodeString (s : string) : option string := unchars <$> hex_decode (chars s).

Lemma hex_val_range a v : hex_val a = Some v → 0 ≤ v < 16.
Proof.
  unfold hex_val. intros Hv. repeat case_match; simplify_eq;
    repeat match goal with E : _ && _ = true |- _ => apply andb_prop in E as [?%Z.leb_le ?%Z.leb_le] end;
    lia.
Qed.

Lemma hex_val_digit z : 0 ≤ z < 16 → hex_val (hex_digit z) = Some z.
Proof.
  intros H. unfold hex_val, hex_digit.
  destruct (Z.ltb_spec z 10); rewrite byte_val_of by lia.
  - rewrite (proj2 (Z.leb_le 48 (48 + z))), (proj2 (Z.leb_le (48 + z) 57)) by lia.
    simpl. f_equal. lia.
  - rewrite (proj2 (Z.leb_gt (87 + z) 57)) by lia. rewrite andb_false_r.
    rewrite (proj2 (Z.leb_le 97 (87 + z))), (proj2 (Z.leb_le (87 + z) 102)) by lia.
    simpl. f_equal. lia.
Qed.

Lemma hex_decode_encode s : hex_decode (hex_encode s) = Some s.
Proof.
  induction s as [|a s IH]; simpl; [done|].
  pose proof (byte_val_range a) as Ha.
  assert (0 ≤ byte_val a / 16 < 16) by (split; [apply Z.div_pos|apply Z.div_lt_upper_bound]; lia).
  assert (0 ≤ byte_val a mod 16 < 16) by (apply Z.mod_pos_bound; lia).
  rewrite !hex_val_digit, IH by done.
  replace (16 * (byte_val a / 16) + byte_val a mod 16) with (byte_val a)
    by (pose proof (Z.div_mod (byte_val a) 16); lia).
  by rewrite byte_of_val.
Qed.

Lemma hex_roundtrip b : hex_DecodeString (hex_EncodeToString b) = Some b.
Proof.
  unfold hex_DecodeString, hex_EncodeToString.
  rewrite chars_unchars, hex_decode_encode. simpl. by rewrite unchars_chars.
Qed.

Lemma hex_encode_length s : length (hex_encode s) = (2 * length s)%nat.
Proof. induction s; simpl; lia. Qed.

(** ** Letters, digits and percent-encoded digits *)

Definition is_alnum (a : ascii) : bool :=
  let v := byte_val a in
  ((97 <=? v) && (v <=? 122)) || ((65 <=? v) && (v <=? 90)) || ((48 <=? v) && (v <=? 57)).

Definition upper_hex_digit (z : Z) : ascii := byte_of (if z <? 10 then 48 + z else 55 + z).

(** ** [strconv] *)

Definition digit_val (a : ascii) : option Z :=
  let v := byte_val a in if (48 <=? v) && (v <=? 57) then Some (v - 48) else None.

Fixpoint digits_val (acc : Z) (s : list ascii) : option Z :=
  match s with
  | [] => Some acc
  | a :: s' => match digit_val a with Some d => digits_val (10 * acc + d) s' | None => None end
  end.

(** Base 10, optional sign, at least one digit, and the value in [int64]:
    [strconv.Atoi] and [strconv.ParseInt v 10 64] (64-bit [int]). *)
Definition Atoi (s : string) : option Z :=
  let '(neg, ds) :=
    match chars s with
    | a :: r => if Ascii.eqb a "-" then (true, r) else if Ascii.eqb a "+" then (false, r)
                else (false, a :: r)
    | [] => (false, [])
    end in
  match ds with
  | [] => None
  | _ => match digits_val 0 ds with
         | Some n => let v := if neg : bool then - n else n in
                     if in_int64 v then Some v else None
         | None => None
         end
  end.

Definition ParseBool (s : string) : option bool :=
  if bool_decide (s ∈ ["1"; "t"; "T"; "TRUE"; "true"; "True"]) then Some true
  else if bool_decide (s ∈ ["0"; "f"; "F"; "FALSE"; "false"; "False"]) then Some false
  else None.

Lemma Atoi_range s v : Atoi s = Some v → in_int64 v = true.
Proof.
  unfold Atoi. repeat case_match; intros; simplify_eq; done.
Qed.

Example Atoi_examples :
  Atoi "42" = Some 42 ∧ Atoi "-7" = Some (-7) ∧ Atoi "+7" = Some 7 ∧ Atoi "" = None
  ∧ Atoi "-" = None ∧ Atoi "1_0" = None ∧ Atoi "9223372036854775808" = None
  ∧ Atoi "-9223372036854775808" = Some (-9223372036854775808).
Proof. by repeat split. Qed.

Example TrimSpace_example : TrimSpace "  12345678901
" = "12345678901".
Proof. reflexivity. Qed.

(** The white space tables stay folded in proofs. *)
#[global] Arguments space_encodings : simpl never.
#[global] Arguments rev_encodings : simpl never.
#[global] Arguments strip_any _ _ : simpl never.
#[global] Arguments TrimSpace _ : simpl never.
