(* ===== verification/Sha256.v ===== *)
(** * SHA-256 and HMAC ([crypto/sha256], [crypto/hmac], [crypto/subtle])

    The digest the program relies on for the webhook signature, the citizen
    fingerprint and the idempotency key, as an executable definition on
    32-bit words (FIPS 180-4) and RFC 2104's HMAC.  Test vectors are checked
    by evaluation. *)

From S2P Require Import Prelude GoStrings.

(** ** 32-bit words *)

Definition w32 (z : Z) : Z := z mod 2 ^ 32.
Definition add32 (x y : Z) : Z := w32 (x + y).
Definition rotr (n x : Z) : Z := Z.lor (Z.shiftr x n) (w32 (Z.shiftl x (32 - n))).
Definition not32 (x : Z) : Z := Z.lxor x 0xffffffff.

Definition big_sigma0 x := Z.lxor (Z.lxor (rotr 2 x) (rotr 13 x)) (rotr 22 x).
Definition big_sigma1 x := Z.lxor (Z.lxor (rotr 6 x) (rotr 11 x)) (rotr 25 x).
Definition small_sigma0 x := Z.lxor (Z.lxor (rotr 7 x) (rotr 18 x)) (Z.shiftr x 3).
Definition small_sigma1 x := Z.lxor (Z.lxor (rotr 17 x) (rotr 19 x)) (Z.shiftr x 10).
Definition ch x y z := Z.lxor (Z.land x y) (Z.land (not32 x) z).
Definition maj x y z := Z.lxor (Z.lxor (Z.land x y) (Z.land x z)) (Z.land y z).

(** The tables are derived, not listed: the first 64 primes, the fractional
    parts of their cube roots and, for the first eight, of their square roots. *)
Definition is_prime (n : Z) : bool :=
  forallb (fun d => negb (n mod d =? 0)) (map Z.of_nat (seq 2 (Z.to_nat (n - 2)))).

Definition primes : list Z := List.filter is_prime (map Z.of_nat (seq 2 310)).

(** The largest [r] with [r ^ 3 <= n], one bit at a time from [2 ^ k]. *)
Fixpoint cube_root (k : nat) (r n : Z) : Z :=
  let r' := r + 2 ^ Z.of_nat k in
  let best := if r' ^ 3 <=? n then r' else r in
  match k with O => best | S k' => cube_root k' best n end.

Definition round_constants : list Z :=
  Eval vm_compute in map (fun p => w32 (cube_root 36 0 (p * 2 ^ 96))) primes.

Record hash_state := HS { h0 : Z; h1 : Z; h2 : Z; h3 : Z; h4 : Z; h5 : Z; h6 : Z; h7 : Z }.

Definition initial_hash : hash_state :=
  Eval vm_compute in
  let root i := w32 (Z.sqrt (nth i primes 0 * 2 ^ 64)) in
  HS (root 0%nat) (root 1%nat) (root 2%nat) (root 3%nat) (root 4%nat) (root 5%nat) (root 6%nat) (root 7%nat).

(** ** Message schedule and compression *)

(** [acc] holds the schedule computed so far, latest word first. *)
Fixpoint extend_schedule (n : nat) (acc : list Z) : list Z :=
  match n with
  | O => rev acc
  | S n' =>
      let w := w32 (small_sigma1 (nth 1 acc 0) + nth 6 acc 0
                    + small_sigma0 (nth 14 acc 0) + nth 15 acc 0) in
      extend_schedule n' (w :: acc)
  end.

Definition message_schedule (block : list Z) : list Z := extend_schedule 48 (rev block).

Definition sha_round (s : hash_state) (kw : Z * Z) : hash_state :=
  let '(HS a b c d e f g h) := s in
  let t1 := w32 (h + big_sigma1 e + ch e f g + kw.1 + kw.2) in
  let t2 := w32 (big_sigma0 a + maj a b c) in
  HS (add32 t1 t2) a b c (add32 d t1) e f g.

Definition add_state (s t : hash_state) : hash_state :=
  HS (add32 (h0 s) (h0 t)) (add32 (h1 s) (h1 t)) (add32 (h2 s) (h2 t)) (add32 (h3 s) (h3 t))
     (add32 (h4 s) (h4 t)) (add32 (h5 s) (h5 t)) (add32 (h6 s) (h6 t)) (add32 (h7 s) (h7 t)).

Definition compress (s : hash_state) (block : list Z) : hash_state :=
  add_state s (fold_left sha_round (zip round_constants (message_schedule block)) s).

(** ** Bytes to words and back *)

Fixpoint words_of_bytes (bs : list Z) : list Z :=
  match bs with
  | a :: b :: c :: d :: r =>
      Z.lor (Z.shiftl a 24) (Z.lor (Z.shiftl b 16) (Z.lor (Z.shiftl c 8) d)) :: words_of_bytes r
  | _ => []
  end.

Definition be32 (w : Z) : list Z :=
  [Z.land (Z.shiftr w 24) 255; Z.land (Z.shiftr w 16) 255; Z.land (Z.shiftr w 8) 255; Z.land w 255].

Definition be64 (n : Z) : list Z := be32 (Z.shiftr n 32) ++ be32 (w32 n).

(** A one bit, zeroes up to 56 modulo 64, and the length in bits. *)
Definition sha_pad (bs : list Z) : list Z :=
  let n := Z.of_nat (length bs) in
  bs ++ [128] ++ repeat 0 (Z.to_nat ((55 - n) mod 64)) ++ be64 (8 * n).

Fixpoint absorb (n : nat) (s : hash_state) (bs : list Z) : hash_state :=
  match n with
  | O => s
  | S n' => absorb n' (compress s (words_of_bytes (take 64 bs))) (drop 64 bs)
  end.

Definition sha256_bytes (bs : list Z) : list Z :=
  let p := sha_pad bs in
  let '(HS a b c d e f g h) := absorb (Nat.div (length p) 64) initial_hash p in
  concat (map be32 [a; b; c; d; e; f; g; h]).

(** ** HMAC *)

Definition block_size : nat := 64.

Definition hmac_key (key : list Z) : list Z :=
  let k := if (block_size <? length key)%nat then sha256_bytes key else key in
  k ++ repeat 0 (block_size - length k).

Definition hmac_bytes (key msg : list Z) : list Z :=
  let k := hmac_key key in
  sha256_bytes (map (Z.lxor 0x5c) k ++ sha256_bytes (map (Z.lxor 0x36) k ++ msg)).

Definition to_bytes (s : string) : list Z := map byte_val (chars s).
Definition of_bytes (bs : list Z) : string := unchars (map byte_of bs).

(** [sha256.Sum256] and [hmac.New(sha256.New, key)], [Write], [Sum]. *)
Definition Sum256 (s : string) : string := of_bytes (sha256_bytes (to_bytes s)).
Definition hmac_sha256 (key msg : string) : string :=
  of_bytes (hmac_bytes (to_bytes key) (to_bytes msg)).

(** ** [subtle.ConstantTimeCompare] *)

(** The loop [v |= x[i] ^ y[i]] over all the bytes, no early exit. *)
Definition ConstantTimeCompare (x y : string) : Z :=
  if (String.length x =? String.length y)%nat then
    let v := fold_left (λ v p, Z.lor v (Z.lxor (byte_val p.1) (byte_val p.2)))
               (zip (chars x) (chars y)) 0 in
    if v =? 0 then 1 else 0
  else 0.

Lemma sha256_bytes_length bs : length (sha256_bytes bs) = 32%nat.
Proof. unfold sha256_bytes. by destruct (absorb _ _ _). Qed.

Lemma of_bytes_length bs : String.length (of_bytes bs) = length bs.
Proof. unfold of_bytes. by rewrite <-length_chars, chars_unchars, length_map. Qed.

Lemma Sum256_length s : String.length (Sum256 s) = 32%nat.
Proof. unfold Sum256. by rewrite of_bytes_length, sha256_bytes_length. Qed.

Lemma hmac_sha256_length k m : String.length (hmac_sha256 k m) = 32%nat.
Proof. unfold hmac_sha256, hmac_bytes. by rewrite of_bytes_length, sha256_bytes_length. Qed.

Lemma compare_fold_zero (l : list (ascii * ascii)) v :
  fold_left (λ v p, Z.lor v (Z.lxor (byte_val p.1) (byte_val p.2))) l v = 0
  ↔ v = 0 ∧ Forall (λ p, p.1 = p.2) l.
Proof.
  revert v. induction l as [|[a b] l IH]; intros v; simpl.
  - split; [by split|tauto].
  - rewrite IH, Forall_cons, Z.lor_eq_0_iff, Z.lxor_eq_0_iff. simpl.
    naive_solver eauto using byte_val_inj.
Qed.

Lemma zip_equal (l k : list ascii) :
  length l = length k → Forall (λ p, p.1 = p.2) (zip l k) ↔ l = k.
Proof.
  revert k. induction l as [|a l IH]; intros [|b k]; simpl; try done.
  intros [= Hl]. rewrite Forall_cons, IH by done. simpl. naive_solver.
Qed.

(** The constant-time comparison decides equality. *)
Lemma ConstantTimeCompare_1 x y : ConstantTimeCompare x y = 1 ↔ x = y.
Proof.
  unfold ConstantTimeCompare. destruct (Nat.eqb_spec (String.length x) (String.length y)) as [Hl|Hl].
  - assert (length (chars x) = length (chars y)) by (by rewrite !length_chars).
    destruct (_ =? 0) eqn:Hv; [apply Z.eqb_eq in Hv|apply Z.eqb_neq in Hv].
    + apply compare_fold_zero in Hv as [_ Hv]. apply zip_equal in Hv; [|done].
      split; [|done]. intros _. by apply chars_inj.
    + split; [done|intros ->]. contradict Hv.
      apply compare_fold_zero. split; [done|]. by apply zip_equal.
  - split; [done|by intros ->].
Qed.

(** ** Test vectors *)

Example sha256_abc :
  hex_EncodeToString (Sum256 "abc")
  = "ba7816bf8f01cfea414140de5dae2223b00361a396177a9cb410ff61f20015ad".
Proof. vm_compute. reflexivity. Qed.

Example sha256_two_blocks :
  hex_EncodeToString (Sum256 "abcdbcdecdefdefgefghfghighijhijkijkljklmklmnlmnomnopnopq")
  = "248d6a61d20638b8e5c026930c3e6039a33ce45964ff2167f6ecedd419db06c1".
Proof. vm_compute. reflexivity. Qed.

Example hmac_rfc4231_case2 :
  hex_EncodeToString (hmac_sha256 "Jefe" "what do ya want for nothing?")
  = "5bdcc146bf60754e6a042426089575c75a003f089d2739839dec58b964ec3843".
Proof. vm_compute. reflexivity. Qed.
