(* ===== verification/GoTime.v ===== *)
(** * Go's [time] package, as far as the program uses it

    A [time.Time] is the instant it denotes, in nanoseconds since the Unix
    epoch ([UTC()] changes the location only).  [Parse] models [time.Parse]
    for the layouts [RFC3339] and [RFC3339Nano]: the strict fast path
    [parseRFC3339], and the general layout interpreter it falls back to.
    [Format] renders an instant the way [Time.MarshalJSON] and
    [Format(RFC3339Nano)] do in UTC. *)

From S2P Require Import Prelude GoStrings.

Definition time : Type := Z.
Definition duration : Type := Z.

Definition Nanosecond : duration := 1.
Definition Microsecond : duration := 1000.
Definition Millisecond : duration := 1000000.
Definition Second : duration := 1000000000.

(** ** Civil dates *)

Definition is_leap (y : Z) : bool :=
  (y mod 4 =? 0) && (negb (y mod 100 =? 0) || (y mod 400 =? 0)).

Definition days_in (m y : Z) : Z :=
  if (m =? 2) && is_leap y then 29
  else nth (Z.to_nat (m - 1)) [31; 28; 31; 30; 31; 30; 31; 31; 30; 31; 30; 31] 0.

Definition days_before (m y : Z) : Z :=
  nth (Z.to_nat (m - 1)) [0; 31; 59; 90; 120; 151; 181; 212; 243; 273; 304; 334] 0
  + (if (2 <? m) && is_leap y then 1 else 0).

(** Leap years in [1..n] (floor division extends it below 1). *)
Definition leaps (n : Z) : Z := n / 4 - n / 100 + n / 400.

Definition days_of_civil (y m d : Z) : Z :=
  365 * (y - 1970) + leaps (y - 1) - leaps 1969 + days_before m y + (d - 1).

(** [time.Date(y, m, d, h, mi, s, ns, UTC)] with fields in range. *)
Definition Date (y m d h mi s ns : Z) : time :=
  (((days_of_civil y m d * 24 + h) * 60 + mi) * 60 + s) * Second + ns.

(** ** Digits *)

Definition is_digit (s : list ascii) (i : nat) : bool :=
  match s !! i with
  | Some a => match digit_val a with Some _ => true | None => false end
  | None => false
  end.

Fixpoint count_digits (s : list ascii) : nat :=
  match s with
  | a :: s' => match digit_val a with Some _ => S (count_digits s') | None => O end
  | [] => O
  end.

Definition comma_or_period (a : ascii) : bool := Ascii.eqb a "." || Ascii.eqb a ",".

(** [getnum s fixed]: one or two digits, two when [fixed]. *)
Definition getnum (s : list ascii) (fixed : bool) : option (Z * list ascii) :=
  match s with
  | a :: r =>
      match digit_val a with
      | None => None
      | Some x =>
          match r with
          | b :: r' => match digit_val b with
                       | Some y => Some (10 * x + y, r')
                       | None => if fixed then None else Some (x, r)
                       end
          | [] => if fixed then None else Some (x, r)
          end
      end
  | [] => None
  end.

(** [parseNanoseconds value nbytes]: the separator and at most nine digits. *)
Definition parse_nanoseconds (digits : list ascii) : option Z :=
  let ds := take 9 digits in
  match digits_val 0 ds with
  | Some n => Some (n * 10 ^ (9 - Z.of_nat (length ds)))
  | None => None
  end.

(** A fraction, when a separator and a digit come next; [Some (0, s)] when it
    is absent. *)
Definition parse_fraction (s : list ascii) : option (Z * list ascii) :=
  match s with
  | c :: r =>
      if comma_or_period c && is_digit r 0 then
        let n := count_digits r in
        match parse_nanoseconds (take n r) with
        | Some ns => Some (ns, drop n r)
        | None => None
        end
      else Some (0, s)
  | [] => Some (0, s)
  end.

(** ** The layout interpreter ([parse]) *)

Inductive chunk :=
| Lit (c : ascii)
| LongYear
| ZeroMonth
| ZeroDay
| Hour
| ZeroMinute
| ZeroSecond
| FracSecond9
| ISO8601ColonTZ.

Definition RFC3339 : list chunk :=
  [LongYear; Lit "-"; ZeroMonth; Lit "-"; ZeroDay; Lit "T"; Hour; Lit ":"; ZeroMinute;
   Lit ":"; ZeroSecond; ISO8601ColonTZ].

Definition RFC3339Nano : list chunk :=
  [LongYear; Lit "-"; ZeroMonth; Lit "-"; ZeroDay; Lit "T"; Hour; Lit ":"; ZeroMinute;
   Lit ":"; ZeroSecond; FracSecond9; ISO8601ColonTZ].

Record fields := Fields {
  f_year : Z; f_month : Z; f_day : Z; f_hour : Z; f_min : Z; f_sec : Z; f_nsec : Z;
  f_zone : Z (** offset east of UTC, in seconds *)
}.

Definition no_fields : fields := Fields 0 1 1 0 0 0 0 0.

Definition in_range (lo v hi : Z) : bool := (lo <=? v) && (v <=? hi).

(** [Z] or [(+|-)hh:mm]; hours up to 24 and minutes up to 60 are accepted. *)
Definition parse_zone (s : list ascii) : option (Z * list ascii) :=
  match s with
  | [] => None
  | sign :: rest =>
      if Ascii.eqb sign "Z" then Some (0, rest)
      else match rest with
           | a :: b :: c :: d :: e :: r =>
               match getnum [a; b] true, getnum [d; e] true with
               | Some (hh, _), Some (mm, _) =>
                   if Ascii.eqb c ":" && in_range 0 hh 24 && in_range 0 mm 60 then
                     let off := (hh * 60 + mm) * 60 in
                     if Ascii.eqb sign "+" then Some (off, r)
                     else if Ascii.eqb sign "-" then Some (- off, r)
                     else None
                   else None
               | _, _ => None
               end
           | _ => None
           end
  end.

Definition ranged (lo hi : Z) (r : option (Z * list ascii)) : option (Z * list ascii) :=
  match r with
  | Some (v, s) => if in_range lo v hi then Some (v, s) else None
  | None => None
  end.

(** One layout element.  [next] is the rest of the layout: after the seconds
    a fraction is read here unless the layout has its own element for it. *)
Definition parse_chunk (c : chunk) (next : list chunk) (s : list ascii) (f : fields)
  : option (fields * list ascii) :=
  let '(Fields y mo d h mi sec ns z) := f in
  match c with
  | Lit a => match s with
             | b :: r => if Ascii.eqb a b then Some (f, r) else None
             | [] => None
             end
  | LongYear =>
      if (4 <=? length s)%nat then
        match digits_val 0 (take 4 s) with
        | Some v => Some (Fields v mo d h mi sec ns z, drop 4 s)
        | None => None
        end
      else None
  | ZeroMonth =>
      match ranged 1 12 (getnum s true) with
      | Some (v, r) => Some (Fields y v d h mi sec ns z, r) | None => None end
  | ZeroDay =>
      match getnum s true with
      | Some (v, r) => Some (Fields y mo v h mi sec ns z, r) | None => None end
  | Hour =>
      match ranged 0 23 (getnum s false) with
      | Some (v, r) => Some (Fields y mo d v mi sec ns z, r) | None => None end
  | ZeroMinute =>
      match ranged 0 59 (getnum s true) with
      | Some (v, r) => Some (Fields y mo d h v sec ns z, r) | None => None end
  | ZeroSecond =>
      match ranged 0 59 (getnum s true) with
      | Some (v, r) =>
          match next with
          | FracSecond9 :: _ => Some (Fields y mo d h mi v ns z, r)
          | _ => match parse_fraction r with
                 | Some (n, r') => Some (Fields y mo d h mi v n z, r')
                 | None => None
                 end
          end
      | None => None
      end
  | FracSecond9 =>
      match parse_fraction s with
      | Some (n, r) => Some (Fields y mo d h mi sec n z, r) | None => None end
  | ISO8601ColonTZ =>
      match parse_zone s with
      | Some (off, r) => Some (Fields y mo d h mi sec ns off, r) | None => None end
  end.

Fixpoint parse_layout (layout : list chunk) (s : list ascii) (f : fields) : option fields :=
  match layout with
  | [] => match s with [] => Some f | _ => None end
  | c :: layout' =>
      match parse_chunk c layout' s f with
      | Some (f', s') => parse_layout layout' s' f'
      | None => None
      end
  end.

Definition time_of_fields (f : fields) : time :=
  Date (f_year f) (f_month f) (f_day f) (f_hour f) (f_min f) (f_sec f) (f_nsec f)
  - f_zone f * Second.

Definition parse (layout : list chunk) (s : list ascii) : option time :=
  match parse_layout layout s no_fields with
  | Some f => if in_range 1 (f_day f) (days_in (f_month f) (f_year f))
              then Some (time_of_fields f) else None
  | None => None
  end.

(** ** The strict fast path ([parseRFC3339]) *)

Definition parse_uint (s : list ascii) (lo hi : Z) : option Z :=
  match digits_val 0 s with
  | Some v => if in_range lo v hi then Some v else None
  | None => None
  end.

Definition slice (i j : nat) (s : list ascii) : list ascii := take (j - i) (drop i s).

Definition parseRFC3339 (s : list ascii) : option time :=
  if (length s <? 19)%nat then None
  else
    match parse_uint (slice 0 4 s) 0 9999, parse_uint (slice 5 7 s) 1 12 with
    | Some year, Some month =>
        match parse_uint (slice 8 10 s) 1 (days_in month year),
              parse_uint (slice 11 13 s) 0 23, parse_uint (slice 14 16 s) 0 59,
              parse_uint (slice 17 19 s) 0 59 with
        | Some day, Some hour, Some min, Some sec =>
            if bool_decide (s !! 4%nat = Some "-"%char ∧ s !! 7%nat = Some "-"%char
                            ∧ s !! 10%nat = Some "T"%char ∧ s !! 13%nat = Some ":"%char
                            ∧ s !! 16%nat = Some ":"%char)
            then
              let r := drop 19 s in
              match (match r with
                     | c :: r' => if Ascii.eqb c "." then parse_fraction r else Some (0, r)
                     | [] => Some (0, r)
                     end) with
              | None => None
              | Some (nsec, z) =>
                  let t := Date year month day hour min sec nsec in
                  match z with
                  | [c] => if Ascii.eqb c "Z" then Some t else None
                  | [sign; a; b; c; d; e] =>
                      match parse_uint [a; b] 0 23, parse_uint [d; e] 0 59 with
                      | Some hr, Some mm =>
                          let off := (hr * 60 + mm) * 60 in
                          if Ascii.eqb c ":" then
                            if Ascii.eqb sign "-" then Some (t + off * Second)
                            else if Ascii.eqb sign "+" then Some (t - off * Second)
                            else None
                          else None
                      | _, _ => None
                      end
                  | _ => None
                  end
              end
            else None
        | _, _, _, _ => None
        end
    | _, _ => None
    end.

(** [time.Parse layout s] for the two RFC 3339 layouts. *)
Definition Parse (layout : list chunk) (s : string) : option time :=
  match parseRFC3339 (chars s) with
  | Some t => Some t
  | None => parse layout (chars s)
  end.

(** ** The two layouts accept the same strings, with the same instants *)

Lemma parse_seconds_fraction s f :
  parse_layout [ZeroSecond; FracSecond9; ISO8601ColonTZ] s f
  = parse_layout [ZeroSecond; ISO8601ColonTZ] s f.
Proof.
  destruct f. simpl. destruct (ranged 0 59 _) as [[v r]|]; [|done].
  destruct (parse_fraction r) as [[n r']|] eqn:E; simpl; rewrite ?E; reflexivity.
Qed.

Lemma parse_layout_snoc_congr l1 k1 k2 s f :
  (∀ s f, parse_layout k1 s f = parse_layout k2 s f) →
  (∀ c, c ∈ l1 → c ≠ ZeroSecond) →
  parse_layout (l1 ++ k1) s f = parse_layout (l1 ++ k2) s f.
Proof.
  intros Hk. revert s f. induction l1 as [|c l1 IH]; intros s f Hl; simpl; [done|].
  assert (parse_chunk c (l1 ++ k1) s f = parse_chunk c (l1 ++ k2) s f) as ->.
  { destruct f, c; try done. by destruct (Hl ZeroSecond); [left|]. }
  destruct (parse_chunk c (l1 ++ k2) s f) as [[f' s']|]; [|done].
  apply IH. intros c' Hc'. apply Hl. by right.
Qed.

Lemma Parse_layouts_agree s : Parse RFC3339Nano s = Parse RFC3339 s.
Proof.
  unfold Parse. destruct (parseRFC3339 _); [done|].
  unfold parse.
  assert (parse_layout RFC3339Nano (chars s) no_fields
          = parse_layout RFC3339 (chars s) no_fields) as ->; [|done].
  apply (parse_layout_snoc_congr
    [LongYear; Lit "-"; ZeroMonth; Lit "-"; ZeroDay; Lit "T"; Hour; Lit ":"; ZeroMinute; Lit ":"]
    [ZeroSecond; FracSecond9; ISO8601ColonTZ] [ZeroSecond; ISO8601ColonTZ]);
    [apply parse_seconds_fraction|set_solver].
Qed.

(** ** Rendering *)

Record civil := Civil { cv_year : Z; cv_month : Z; cv_day : Z }.

(** The civil date of a day number, by 400-year cycles counted from 1 March. *)
Definition civil_of_days (days : Z) : civil :=
  let z := days + 719468 in
  let era := z / 146097 in
  let doe := z mod 146097 in
  let yoe := (doe - doe / 1460 + doe / 36524 - doe / 146096) / 365 in
  let doy := doe - (365 * yoe + yoe / 4 - yoe / 100) in
  let mp := (5 * doy + 2) / 153 in
  let d := doy - (153 * mp + 2) / 5 + 1 in
  let m := if mp <? 10 then mp + 3 else mp - 9 in
  let y := yoe + era * 400 + (if m <=? 2 then 1 else 0) in
  Civil y m d.

Fixpoint pad_digits (width : nat) (z : Z) : list ascii :=
  match width with
  | O => []
  | S w => pad_digits w (z / 10) ++ [byte_of (48 + z mod 10)]
  end.

Fixpoint drop_zeros (s : list ascii) : list ascii :=
  match s with
  | a :: s' => if Ascii.eqb a "0" then drop_zeros s' else s
  | [] => []
  end.

Definition fraction_digits (ns : Z) : list ascii :=
  match rev (drop_zeros (rev (pad_digits 9 ns))) with
  | [] => []
  | ds => "."%char :: ds
  end.

(** [t.UTC().Format(time.RFC3339Nano)] for a year of four digits. *)
Definition Format (t : time) : string :=
  let secs := t / Second in
  let '(Civil y m d) := civil_of_days (secs / 86400) in
  let sod := secs mod 86400 in
  unchars (pad_digits 4 y ++ ["-"%char] ++ pad_digits 2 m ++ ["-"%char] ++ pad_digits 2 d
           ++ ["T"%char] ++ pad_digits 2 (sod / 3600) ++ [":"%char]
           ++ pad_digits 2 (sod / 60 mod 60) ++ [":"%char] ++ pad_digits 2 (sod mod 60)
           ++ fraction_digits (t mod Second) ++ ["Z"%char]).

Example Parse_example : Parse RFC3339 "2024-11-15T14:30:00Z" = Some (1731681000 * Second).
Proof. vm_compute. reflexivity. Qed.

Example Parse_offset :
  Parse RFC3339 "2024-11-15T11:30:00.25-03:00" = Some (1731681000 * Second + 250 * Millisecond).
Proof. vm_compute. reflexivity. Qed.

Example Parse_lenient :
  Parse RFC3339 "2024-11-15T9:30:00,5Z" = Some (1731663000 * Second + 500 * Millisecond).
Proof. vm_compute. reflexivity. Qed.

Example Parse_rejects :
  Parse RFC3339 "not-a-date" = None ∧ Parse RFC3339 "2023-02-29T00:00:00Z" = None
  ∧ Parse RFC3339 "2024-11-15T24:00:00Z" = None ∧ Parse RFC3339 "2024-11-15T14:30:00" = None.
Proof. by vm_compute. Qed.

Example Format_example :
  Format (1731681000 * Second + 250 * Millisecond) = "2024-11-15T14:30:00.25Z".
Proof. vm_compute. reflexivity. Qed.
