(* ===== verification/TimeFacts.v ===== *)
(** * Dates and times round-trip

    Every day number is a date of the calendar, and an instant whose UTC year
    has four digits is read back exactly from its rendering. *)

From S2P Require Import Prelude GoStrings GoTime.

(** ** Years *)

(** The days of a 400-year cycle before its [y]-th year. *)
Definition ystart (y : Z) : Z := 365 * y + y / 4 - y / 100.

Lemma yoe_spec doe :
  0 ≤ doe < 146097 →
  let y := (doe - doe / 1460 + doe / 36524 - doe / 146096) / 365 in
  0 ≤ y ≤ 399 ∧ 0 ≤ doe - ystart y ≤ 365
  ∧ (doe - ystart y = 365 → (y + 1) mod 4 = 0 ∧ ((y + 1) mod 100 ≠ 0 ∨ y = 399)).
Proof.
  intros H. cbv zeta. unfold ystart.
  set (y := (doe - doe / 1460 + doe / 36524 - doe / 146096) / 365).
  assert (0 ≤ y ≤ 399) by (unfold y; Z.to_euclidean_division_equations; lia).
  assert (0 ≤ doe - (365 * y + y / 4 - y / 100)) by (unfold y in *; Z.to_euclidean_division_equations; lia).
  split; [done|].
  assert (doe - (365 * y + y / 4 - y / 100) ≤ 365) by (unfold y in *; Z.to_euclidean_division_equations; lia).
  split; [done|]. intros H365.
  split.
  - unfold y in *. Z.to_euclidean_division_equations. lia.
  - unfold y in *. Z.to_euclidean_division_equations. lia.
Qed.

Lemma is_leap_true y : is_leap y = true ↔ y mod 4 = 0 ∧ (y mod 100 ≠ 0 ∨ y mod 400 = 0).
Proof.
  unfold is_leap. rewrite andb_true_iff, orb_true_iff, negb_true_iff, !Z.eqb_eq, Z.eqb_neq. done.
Qed.

Lemma leaps_step y : leaps y = leaps (y - 1) + (if is_leap y then 1 else 0).
Proof.
  pose proof (is_leap_true y) as Hl. unfold leaps. destruct (is_leap y).
  - destruct Hl as [Hl _]. specialize (Hl eq_refl). Z.to_euclidean_division_equations; lia.
  - assert (¬ (y mod 4 = 0 ∧ (y mod 100 ≠ 0 ∨ y mod 400 = 0))) by (intros ?%Hl; done).
    clear Hl. Z.to_euclidean_division_equations; lia.
Qed.

(** Evaluate what is constant in a calendar goal. *)
Ltac eval_in_goal t := let v := eval vm_compute in t in change t with v in *.
Ltac eval_dates :=
  repeat match goal with
  | |- context [if (?a <? ?b) && ?c then ?x else ?y] => eval_in_goal (a <? b)
  | |- context [if ?a <? ?b then ?x else ?y] => eval_in_goal (if a <? b then x else y)
  | |- context [if ?a <=? ?b then ?x else ?y] => eval_in_goal (if a <=? b then x else y)
  | |- context [(?a =? ?b)] => eval_in_goal (a =? b)
  | |- context [nth ?n ?l ?d] => eval_in_goal (nth n l d)
  | |- context [(153 * ?k + 2) / 5] => eval_in_goal ((153 * k + 2) / 5)
  | H : context [(153 * ?k + 2) / 5] |- _ => eval_in_goal ((153 * k + 2) / 5)
  end; rewrite ?Z.add_0_r.

(** Month and day of a day of the year counted from 1 March. *)
Lemma month_cases doy :
  0 ≤ doy ≤ 365 →
  let mp := (5 * doy + 2) / 153 in
  0 ≤ mp ≤ 11 ∧ (153 * mp + 2) / 5 ≤ doy ∧ (mp < 11 → doy < (153 * (mp + 1) + 2) / 5).
Proof. intros Hd. cbv zeta. Z.to_euclidean_division_equations; lia. Qed.

Lemma Z_cases_12 k : 0 ≤ k ≤ 11 →
  k = 0 ∨ k = 1 ∨ k = 2 ∨ k = 3 ∨ k = 4 ∨ k = 5 ∨ k = 6 ∨ k = 7 ∨ k = 8 ∨ k = 9 ∨ k = 10 ∨ k = 11.
Proof. lia. Qed.

(** The date of a day number is a date of the calendar, that day's. *)
Lemma civil_of_days_spec z :
  let c := civil_of_days z in
  1 ≤ cv_month c ≤ 12 ∧ 1 ≤ cv_day c ≤ days_in (cv_month c) (cv_year c)
  ∧ days_of_civil (cv_year c) (cv_month c) (cv_day c) = z.
Proof.
  unfold civil_of_days. cbv zeta.
  set (era := (z + 719468) / 146097). set (doe := (z + 719468) mod 146097).
  assert (0 ≤ doe < 146097) as Hdoe by (apply Z.mod_pos_bound; lia).
  assert (z = era * 146097 + doe - 719468) as Hz by (unfold era, doe; pose proof (Z.div_mod (z + 719468) 146097); lia).
  clearbody era doe. pose proof (yoe_spec doe Hdoe) as Hy. cbv zeta in Hy.
  set (yoe := (doe - doe / 1460 + doe / 36524 - doe / 146096) / 365) in *. clearbody yoe.
  replace (doe - (365 * yoe + yoe / 4 - yoe / 100)) with (doe - ystart yoe) by (unfold ystart; lia).
  assert (∃ doy, doy = doe - ystart yoe) as [doy Hdoy] by eauto. rewrite <-Hdoy in *.
  destruct Hy as (Hyoe & Hd & Hlast). pose proof (month_cases doy Hd) as (Hmp & Hlo & Hhi).
  set (mp := (5 * doy + 2) / 153) in *. clearbody mp.
  assert (∃ Y, Y = yoe + era * 400) as [Y HY] by eauto. rewrite <-HY.
  assert (365 * Y + leaps Y = 365 * era * 400 + era * 97 + ystart yoe) as Hleaps.
  { unfold leaps, ystart. subst Y. clear -Hyoe. Z.to_euclidean_division_equations; lia. }
  assert (doy ≤ 364 ∨ is_leap (Y + 1) = true) as Hleap.
  { destruct (decide (doy = 365)) as [H365|]; [right|left; lia].
    apply is_leap_true. specialize (Hlast H365). subst Y.
    clear -Hlast Hyoe. Z.to_euclidean_division_equations; lia. }
  pose proof (leaps_step (Y + 1)) as Hstep. rewrite Z.add_simpl_r in Hstep.
  pose proof (leaps_step Y) as Hstep0.
  unfold days_of_civil. change (leaps 1969) with 477. simpl cv_month. simpl cv_day. simpl cv_year.
  destruct (Z_cases_12 mp Hmp) as [->|[->|[->|[->|[->|[->|[->|[->|[->|[->|[->| ->]]]]]]]]]]];

    unfold days_in, days_before; eval_dates; destruct (is_leap Y), (is_leap (Y + 1)) eqn:?; cbn [andb]; eval_dates.
  all: rewrite ?Z.add_simpl_r; destruct Hleap as [Hleap|Hleap]; try discriminate Hleap; lia.
Qed.

(** ** Digits *)

Lemma digit_val_of z : 0 ≤ z < 10 → digit_val (byte_of (48 + z)) = Some z.
Proof.
  intros Hz. unfold digit_val. rewrite byte_val_of by lia.
  rewrite (proj2 (Z.leb_le _ _)), (proj2 (Z.leb_le _ _)) by lia. simpl. f_equal. lia.
Qed.

Lemma digits_val_app acc l k :
  digits_val acc (l ++ k) = (v ← digits_val acc l; digits_val v k).
Proof.
  revert acc. induction l as [|a l IH]; intros acc; simpl; [done|]. by destruct (digit_val a).
Qed.

Lemma digits_val_pad w z acc :
  0 ≤ z < 10 ^ Z.of_nat w → digits_val acc (pad_digits w z) = Some (acc * 10 ^ Z.of_nat w + z).
Proof.
  revert z. induction w as [|w IH]; intros z Hz; simpl.
  { f_equal. change (10 ^ Z.of_nat 0) with 1 in *. lia. }
  rewrite Nat2Z.inj_succ, Z.pow_succ_r in * by lia.
  rewrite digits_val_app, IH.
  - simpl. rewrite digit_val_of by (apply Z.mod_pos_bound; lia). f_equal.
    pose proof (Z.div_mod z 10). lia.
  - split; [apply Z.div_pos; lia|apply Z.div_lt_upper_bound; lia].
Qed.

Lemma length_pad_digits w z : length (pad_digits w z) = w.
Proof.
  revert z. induction w as [|w IH]; intros z; simpl; [done|]. rewrite length_app, IH. simpl. lia.
Qed.

(** [parse_uint] of a padded number in range. *)
Lemma parse_uint_pad w z lo hi :
  0 ≤ z < 10 ^ Z.of_nat w → lo ≤ z ≤ hi → parse_uint (pad_digits w z) lo hi = Some z.
Proof.
  intros Hz Hr. unfold parse_uint. rewrite digits_val_pad by done. rewrite Z.mul_0_l, Z.add_0_l.
  unfold in_range. by rewrite (proj2 (Z.leb_le _ _)), (proj2 (Z.leb_le _ _)) by lia.
Qed.

(** ** Fractions *)

Lemma drop_zeros_spec s : ∃ k, s = repeat "0"%char k ++ drop_zeros s.
Proof.
  induction s as [|a s [k IH]]; [by exists 0%nat|]. simpl.
  destruct (Ascii.eqb_spec a "0") as [->|]; [|by exists 0%nat].
  exists (S k). simpl. by rewrite <-IH.
Qed.

Lemma digits_val_zeros acc k : digits_val acc (repeat "0"%char k) = Some (acc * 10 ^ Z.of_nat k).
Proof.
  revert acc. induction k as [|k IH]; intros acc.
  { simpl. f_equal. change (10 ^ Z.of_nat 0) with 1. lia. }
  change (digits_val acc (repeat "0"%char (S k)))
    with (digits_val (10 * acc + 0) (repeat "0"%char k)). rewrite IH. f_equal.
  rewrite Nat2Z.inj_succ, Z.pow_succ_r by lia. ring.
Qed.

Lemma digits_val_digit acc a s v :
  digits_val acc (a :: s) = Some v → ∃ d, digit_val a = Some d.
Proof. simpl. destruct (digit_val a); eauto. Qed.

Lemma count_digits_app ds acc v c r :
  digits_val acc ds = Some v → digit_val c = None → count_digits (ds ++ c :: r) = length ds.
Proof.
  revert acc. induction ds as [|a ds IH]; intros acc Hv Hc; simpl.
  { by rewrite Hc. }
  simpl in Hv. destruct (digit_val a); [|done]. f_equal. by eapply IH.
Qed.

(** The fraction a rendering writes: none for zero, else digits that spell the
    nanoseconds with zeros appended. *)
Lemma fraction_digits_spec ns :
  0 ≤ ns < Second →
  (fraction_digits ns = [] ∧ ns = 0)
  ∨ ∃ ds v k, fraction_digits ns = "."%char :: ds ∧ ds ≠ []
      ∧ (length ds + k = 9)%nat ∧ digits_val 0 ds = Some v ∧ ns = v * 10 ^ Z.of_nat k.
Proof.
  intros Hns. unfold fraction_digits.
  destruct (drop_zeros_spec (rev (pad_digits 9 ns))) as [k Hk].
  set (dz := drop_zeros _) in *.
  assert (pad_digits 9 ns = rev dz ++ repeat "0"%char k) as Hpad.
  { rewrite <-(rev_involutive (pad_digits 9 ns)), Hk, rev_app_distr, rev_repeat. done. }
  pose proof (digits_val_pad 9 ns 0) as Hv. rewrite Hpad, digits_val_app in Hv.
  specialize (Hv Hns). rewrite Z.mul_0_l, Z.add_0_l in Hv.
  pose proof (length_pad_digits 9 ns) as Hl. rewrite Hpad, length_app, repeat_length in Hl.
  destruct (digits_val 0 (rev dz)) as [v|] eqn:Ev; [|done]. simpl in Hv.
  rewrite digits_val_zeros in Hv. injection Hv as Hv.
  destruct (rev dz) as [|a ds] eqn:Ed.
  - left. split; [done|]. simpl in Ev. injection Ev as <-. lia.
  - right. exists (a :: ds), v, k. split_and!; [done|done|done|done|lia].
Qed.

Lemma parse_fraction_digits ns :
  0 ≤ ns < Second →
  (match fraction_digits ns ++ ["Z"%char] with
   | c :: r' => if Ascii.eqb c "." then parse_fraction (fraction_digits ns ++ ["Z"%char])
                else Some (0, fraction_digits ns ++ ["Z"%char])
   | [] => Some (0, fraction_digits ns ++ ["Z"%char])
   end) = Some (ns, ["Z"%char]).
Proof.
  intros Hns. destruct (fraction_digits_spec ns Hns) as [[-> ->]|(ds & v & k & -> & Hne & Hl & Hv & ->)];
    [done|].
  cbn [app]. change (Ascii.eqb "." ".") with true. cbv iota. unfold parse_fraction.
  assert (is_digit (ds ++ ["Z"%char]) 0 = true) as ->.
  { destruct ds as [|a ds]; [done|]. destruct (digits_val_digit _ _ _ _ Hv) as [d Hd].
    unfold is_digit. simpl. by rewrite Hd. }
  change (comma_or_period "." && true) with true. cbv iota zeta.
  rewrite (count_digits_app ds 0 v "Z" []) by done.
  rewrite take_app_length, drop_app_length. unfold parse_nanoseconds.
  rewrite take_ge by lia. rewrite Hv. do 4 f_equal. lia.
Qed.

(** ** Rendering and parsing *)

(** The instants RFC 3339 can write: a UTC year of four digits. *)
Definition four_digit_year (t : time) : Prop :=
  0 ≤ cv_year (civil_of_days (t / Second / 86400)) ≤ 9999.

Lemma days_in_le_31 m y : days_in m y ≤ 31.
Proof.
  unfold days_in. destruct (_ && _); [lia|].
  destruct (Z.to_nat (m - 1)) as [|[|[|[|[|[|[|[|[|[|[|[|n]]]]]]]]]]]]; simpl; try lia. by destruct n.
Qed.

Lemma parseRFC3339_Format t : four_digit_year t → parseRFC3339 (chars (Format t)) = Some t.
Proof.
  unfold four_digit_year. intros Hy. unfold Format.
  set (secs := t / Second) in *. pose proof (civil_of_days_spec (secs / 86400)) as Hc.
  destruct (civil_of_days (secs / 86400)) as [y m d]. simpl in Hy, Hc. destruct Hc as (Hm & Hd & Hdays).
  pose proof (days_in_le_31 m y) as H31. set (sod := secs mod 86400).
  assert (0 ≤ sod < 86400) as Hsod by (apply Z.mod_pos_bound; lia).
  assert (0 ≤ sod / 3600 < 24 ∧ 0 ≤ sod / 60 mod 60 < 60 ∧ 0 ≤ sod mod 60 < 60
          ∧ (sod / 3600 * 60 + sod / 60 mod 60) * 60 + sod mod 60 = sod) as (Hh & Hmi & Hs & Hsplit)
    by (clear -Hsod; Z.to_euclidean_division_equations; lia).
  assert (0 ≤ t mod Second < Second) as Hns by (apply Z.mod_pos_bound; done).
  pose proof (parse_uint_pad 4 y 0 9999 ltac:(simpl; lia) Hy) as Py.
  pose proof (parse_uint_pad 2 m 1 12 ltac:(simpl; lia) Hm) as Pm.
  pose proof (parse_uint_pad 2 d 1 (days_in m y) ltac:(simpl; lia) Hd) as Pd.
  pose proof (parse_uint_pad 2 (sod / 3600) 0 23 ltac:(simpl; lia) ltac:(lia)) as Ph.
  pose proof (parse_uint_pad 2 (sod / 60 mod 60) 0 59 ltac:(simpl; lia) ltac:(lia)) as Pmi.
  pose proof (parse_uint_pad 2 (sod mod 60) 0 59 ltac:(simpl; lia) ltac:(lia)) as Ps.
  pose proof (parse_fraction_digits _ Hns) as Pf.
  rewrite chars_unchars. revert Py Pm Pd Ph Pmi Ps.
  assert (∀ z, ∃ a b, pad_digits 2 z = [a; b]) as Hpad2 by (intros z; eauto).
  assert (∃ a b c e, pad_digits 4 y = [a; b; c; e]) as (y1 & y2 & y3 & y4 & ->) by eauto 10.
  destruct (Hpad2 m) as (m1 & m2 & ->), (Hpad2 d) as (d1 & d2 & ->),
    (Hpad2 (sod / 3600)) as (h1 & h2 & ->), (Hpad2 (sod / 60 mod 60)) as (i1 & i2 & ->),
    (Hpad2 (sod mod 60)) as (s1 & s2 & ->). intros Py Pm Pd Ph Pmi Ps.
  set (tail := fraction_digits (t mod Second) ++ ["Z"%char]) in *.
  unfold parseRFC3339, slice. cbn [app length Nat.ltb Nat.leb Nat.sub drop take].
  rewrite Py, Pm, Pd, Ph, Pmi, take_0, Ps. rewrite bool_decide_eq_true_2 by done. rewrite drop_0, Pf. simpl.
  f_equal. unfold Date. rewrite Hdays. rewrite (Z.div_mod t Second) at 2 by done. fold secs.
  rewrite (Z.div_mod secs 86400) at 2 by done. fold sod. lia.
Qed.

Lemma Parse_Format layout t : four_digit_year t → Parse layout (Format t) = Some t.
Proof. intros Hy. unfold Parse. by rewrite parseRFC3339_Format. Qed.
