(* ===== verification/Json.v ===== *)
(** * Go's [encoding/json], as far as the program uses it

    JSON values, [json.Marshal] (with its HTML-safe string escaping), the
    decoder's grammar on bytes, [Decoder.Decode] (first value, the rest is
    left unread) and [json.Unmarshal] (whole input), and the assignment of an
    object's members to the string fields of a struct: exact name first, then
    case folding; [null] leaves a field alone; another type is an error; an
    unknown name is an error under [DisallowUnknownFields]. *)

From S2P Require Import Prelude GoStrings.

Inductive json :=
| JNull
| JBool (b : bool)
| JNum (literal : string)
| JStr (s : string)
| JArr (l : list json)
| JObj (members : list (string * json)).

Definition JInt (z : Z) : json := JNum (pretty.pretty z).

(** ** UTF-8 *)

Definition cont (a : ascii) : bool := (128 <=? byte_val a) && (byte_val a <=? 191).
Definition between (lo hi : Z) (a : ascii) : bool := (lo <=? byte_val a) && (byte_val a <=? hi).

(** Size of the valid encoding at the head of [s], 0 when it is invalid. *)
Definition rune_size (s : list ascii) : nat :=
  match s with
  | [] => 0
  | a :: r =>
      if byte_val a <? 128 then 1
      else if between 194 223 a then
        match r with b :: _ => if cont b then 2 else 0 | _ => 0 end
      else if between 224 239 a then
        match r with
        | b :: c :: _ =>
            let lo := if byte_val a =? 224 then 160 else 128 in
            let hi := if byte_val a =? 237 then 159 else 191 in
            if between lo hi b && cont c then 3 else 0
        | _ => 0
        end
      else if between 240 244 a then
        match r with
        | b :: c :: d :: _ =>
            let lo := if byte_val a =? 240 then 144 else 128 in
            let hi := if byte_val a =? 244 then 143 else 191 in
            if between lo hi b && cont c && cont d then 4 else 0
        | _ => 0
        end
      else 0
  end.

Definition encode_rune (c : Z) : list ascii :=
  map byte_of
    (if c <? 0x80 then [c]
     else if c <? 0x800 then [192 + c / 64; 128 + c mod 64]
     else if c <? 0x10000 then [224 + c / 4096; 128 + c / 64 mod 64; 128 + c mod 64]
     else [240 + c / 262144; 128 + c / 4096 mod 64; 128 + c / 64 mod 64; 128 + c mod 64]).

Definition replacement_char : list ascii := encode_rune 0xFFFD.

(** ** Rendering ([json.Marshal]) *)

Definition quote_char : ascii := byte_of 34.
Definition backslash : ascii := byte_of 92.

Definition escape_u (v : Z) : list ascii :=
  [backslash; "u"%char; hex_digit (v / 4096); hex_digit (v / 256 mod 16);
   hex_digit (v / 16 mod 16); hex_digit (v mod 16)].

(** Escape of one ASCII byte. *)
Definition escape_ascii (a : ascii) : list ascii :=
  let v := byte_val a in
  if (v =? 34) || (v =? 92) then [backslash; a]
  else if v =? 8 then [backslash; "b"%char]
  else if v =? 12 then [backslash; "f"%char]
  else if v =? 10 then [backslash; "n"%char]
  else if v =? 13 then [backslash; "r"%char]
  else if v =? 9 then [backslash; "t"%char]
  else if (v <? 32) || (v =? 60) || (v =? 62) || (v =? 38) then escape_u v
  else [a].

Fixpoint escape_n (n : nat) (s : list ascii) : list ascii :=
  match n, s with
  | S n', a :: r =>
      match rune_size s with
      | O => escape_u 0xFFFD ++ escape_n n' r
      | S O => escape_ascii a ++ escape_n n' r
      | k =>
          let c := take k s in
          let out := if bool_decide (c = encode_rune 0x2028) then escape_u 0x2028
                     else if bool_decide (c = encode_rune 0x2029) then escape_u 0x2029
                     else c in
          out ++ escape_n n' (drop k s)
      end
  | _, _ => []
  end.

Definition encode_string (s : string) : list ascii :=
  quote_char :: escape_n (String.length s) (chars s) ++ [quote_char].

Fixpoint encode (v : json) : list ascii :=
  match v with
  | JNull => chars "null"
  | JBool true => chars "true"
  | JBool false => chars "false"
  | JNum lit => chars lit
  | JStr s => encode_string s
  | JArr l =>
      let items := (fix items (l : list json) : list ascii :=
        match l with
        | [] => []
        | [x] => encode x
        | x :: l' => encode x ++ ","%char :: items l'
        end) in
      "["%char :: items l ++ ["]"%char]
  | JObj ms =>
      let members := (fix members (l : list (string * json)) : list ascii :=
        match l with
        | [] => []
        | [(k, x)] => encode_string k ++ ":"%char :: encode x
        | (k, x) :: l' => encode_string k ++ ":"%char :: encode x ++ ","%char :: members l'
        end) in
      "{"%char :: members ms ++ ["}"%char]
  end.

Definition Marshal (v : json) : string := unchars (encode v).

(** ** Reading *)

Definition is_json_space (a : ascii) : bool :=
  let v := byte_val a in (v =? 32) || (v =? 9) || (v =? 10) || (v =? 13).

Fixpoint skip_space (s : list ascii) : list ascii :=
  match s with
  | a :: r => if is_json_space a then skip_space r else s
  | [] => []
  end.

Definition hex4 (s : list ascii) : option (Z * list ascii) :=
  match s with
  | a :: b :: c :: d :: r =>
      match hex_val a, hex_val b, hex_val c, hex_val d with
      | Some w, Some x, Some y, Some z => Some (((w * 16 + x) * 16 + y) * 16 + z, r)
      | _, _, _, _ => None
      end
  | _ => None
  end.

Definition is_surrogate (c : Z) : bool := (0xD800 <=? c) && (c <? 0xE000).

(** The second half of a surrogate pair, when it follows. *)
Definition low_surrogate (hi : Z) (s : list ascii) : option (Z * list ascii) :=
  match s with
  | a :: b :: r =>
      if Ascii.eqb a backslash && Ascii.eqb b "u" && (hi <? 0xDC00) then
        match hex4 r with
        | Some (lo, r') =>
            if (0xDC00 <=? lo) && (lo <? 0xE000)
            then Some ((hi - 0xD800) * 1024 + (lo - 0xDC00) + 0x10000, r') else None
        | None => None
        end
      else None
  | _ => None
  end.

(** One escape sequence, after the backslash: its bytes and the rest. *)
Definition read_escape (s : list ascii) : option (list ascii * list ascii) :=
  match s with
  | [] => None
  | a :: r =>
      let v := byte_val a in
      if (v =? 34) || (v =? 92) || (v =? 47) then Some ([a], r)
      else if Ascii.eqb a "b" then Some ([byte_of 8], r)
      else if Ascii.eqb a "f" then Some ([byte_of 12], r)
      else if Ascii.eqb a "n" then Some ([byte_of 10], r)
      else if Ascii.eqb a "r" then Some ([byte_of 13], r)
      else if Ascii.eqb a "t" then Some ([byte_of 9], r)
      else if Ascii.eqb a "u" then
        match hex4 r with
        | None => None
        | Some (c, r') =>
            if is_surrogate c then
              match low_surrogate c r' with
              | Some (c', r'') => Some (encode_rune c', r'')
              | None => Some (replacement_char, r')
              end
            else Some (encode_rune c, r')
        end
      else None
  end.

(** The body of a string literal up to its closing quote.  An invalid UTF-8
    byte becomes U+FFFD; a control character is an error. *)
Fixpoint read_string_n (n : nat) (s : list ascii) : option (list ascii * list ascii) :=
  match n, s with
  | S n', a :: r =>
      if Ascii.eqb a quote_char then Some ([], r)
      else if Ascii.eqb a backslash then
        match read_escape r with
        | Some (out, r') =>
            match read_string_n n' r' with
            | Some (t, rest) => Some (out ++ t, rest) | None => None end
        | None => None
        end
      else if byte_val a <? 32 then None
      else
        let '(out, r') := match rune_size s with
                          | O => (replacement_char, r)
                          | k => (take k s, drop k s)
                          end in
        match read_string_n n' r' with
        | Some (t, rest) => Some (out ++ t, rest) | None => None end
  | _, _ => None
  end.

Definition read_string (s : list ascii) : option (string * list ascii) :=
  match read_string_n (length s) s with
  | Some (t, r) => Some (unchars t, r)
  | None => None
  end.

Fixpoint span_digits (s : list ascii) : list ascii * list ascii :=
  match s with
  | a :: r => match digit_val a with
              | Some _ => let '(ds, r') := span_digits r in (a :: ds, r')
              | None => ([], s)
              end
  | [] => ([], [])
  end.

(** [-?(0|[1-9][0-9]* )([.][0-9]+)?([eE][+-]?[0-9]+)?] *)
Definition read_number (s : list ascii) : option (string * list ascii) :=
  let '(sign, s1) := match s with
                     | a :: r => if Ascii.eqb a "-" then ([a], r) else ([], s)
                     | [] => ([], s)
                     end in
  let int_part :=
    match s1 with
    | a :: r => if Ascii.eqb a "0" then Some ([a], r)
                else match span_digits s1 with ([], _) => None | p => Some p end
    | [] => None
    end in
  match int_part with
  | None => None
  | Some (ip, s2) =>
      let frac :=
        match s2 with
        | a :: r => if Ascii.eqb a "." then
                      match span_digits r with ([], _) => None | (ds, r') => Some (a :: ds, r') end
                    else Some ([], s2)
        | [] => Some ([], s2)
        end in
      match frac with
      | None => None
      | Some (fp, s3) =>
          let exp :=
            match s3 with
            | a :: r =>
                if Ascii.eqb a "e" || Ascii.eqb a "E" then
                  let '(sg, r1) := match r with
                                   | b :: r' => if Ascii.eqb b "+" || Ascii.eqb b "-"
                                                then ([b], r') else ([], r)
                                   | [] => ([], r)
                                   end in
                  match span_digits r1 with
                  | ([], _) => None | (ds, r2) => Some (a :: sg ++ ds, r2) end
                else Some ([], s3)
            | [] => Some ([], s3)
            end in
          match exp with
          | None => None
          | Some (ep, s4) => Some (unchars (sign ++ ip ++ fp ++ ep), s4)
          end
      end
  end.

Definition max_nesting_depth : Z := 10000.

(** The items of an array after its bracket, with the reader of a value. *)
Fixpoint read_items (value : list ascii → option (json * list ascii)) (m : nat) (s : list ascii)
  : option (list json * list ascii) :=
  match m with
  | O => None
  | S m' =>
      match value s with
      | None => None
      | Some (x, r) =>
          match skip_space r with
          | a :: r' =>
              if Ascii.eqb a "," then
                match read_items value m' r' with
                | Some (xs, rest) => Some (x :: xs, rest) | None => None end
              else if Ascii.eqb a "]" then Some ([x], r') else None
          | [] => None
          end
      end
  end.

(** A member: its name, a colon, its value. *)
Definition read_member (value : list ascii → option (json * list ascii)) (s : list ascii)
  : option ((string * json) * list ascii) :=
  match skip_space s with
  | q :: s1 =>
      if Ascii.eqb q quote_char then
        match read_string s1 with
        | None => None
        | Some (k, s2) =>
            match skip_space s2 with
            | c :: s3 =>
                if Ascii.eqb c ":" then
                  match value s3 with
                  | None => None
                  | Some (x, r) => Some ((k, x), r)
                  end
                else None
            | [] => None
            end
        end
      else None
  | [] => None
  end.

(** The members of an object after its brace. *)
Fixpoint read_members (value : list ascii → option (json * list ascii)) (m : nat) (s : list ascii)
  : option (list (string * json) * list ascii) :=
  match m with
  | O => None
  | S m' =>
      match read_member value s with
      | None => None
      | Some (x, r) =>
          match skip_space r with
          | a :: r' =>
              if Ascii.eqb a "," then
                match read_members value m' r' with
                | Some (xs, rest) => Some (x :: xs, rest) | None => None end
              else if Ascii.eqb a "}" then Some ([x], r') else None
          | [] => None
          end
      end
  end.

(** [null], [true], [false] or a number. *)
Definition read_literal (s : list ascii) : option (json * list ascii) :=
  match strip (chars "null") s with
  | Some r' => Some (JNull, r')
  | None =>
      match strip (chars "true") s with
      | Some r' => Some (JBool true, r')
      | None =>
          match strip (chars "false") s with
          | Some r' => Some (JBool false, r')
          | None => match read_number s with
                    | Some (lit, r') => Some (JNum lit, r')
                    | None => None
                    end
          end
      end
  end.

(** One value and the unread rest.  Every recursive call is on a strictly
    shorter input, so the length of the input bounds the fuel. *)
Fixpoint read_value (n : nat) (depth : Z) (s : list ascii) : option (json * list ascii) :=
  match n with
  | O => None
  | S n' =>
      match skip_space s with
      | [] => None
      | a :: r =>
          if Ascii.eqb a quote_char then
            match read_string r with Some (t, r') => Some (JStr t, r') | None => None end
          else if Ascii.eqb a "{" then
            if max_nesting_depth <=? depth then None
            else match skip_space r with
                 | b :: r' => if Ascii.eqb b "}" then Some (JObj [], r')
                              else match read_members (read_value n' (depth + 1)) n' r with
                                   | Some (ms, r'') => Some (JObj ms, r'') | None => None end
                 | [] => None
                 end
          else if Ascii.eqb a "[" then
            if max_nesting_depth <=? depth then None
            else match skip_space r with
                 | b :: r' => if Ascii.eqb b "]" then Some (JArr [], r')
                              else match read_items (read_value n' (depth + 1)) n' r with
                                   | Some (xs, r'') => Some (JArr xs, r'') | None => None end
                 | [] => None
                 end
          else read_literal (a :: r)
      end
  end.

(** [json.NewDecoder(r).Decode]: the first value, whatever follows it. *)
Definition decode_first (s : string) : option (json * string) :=
  match read_value (S (String.length s)) 0 (chars s) with
  | Some (v, r) => Some (v, unchars r)
  | None => None
  end.

(** [json.Unmarshal]: one value, then white space only. *)
Definition Unmarshal (s : string) : option json :=
  match read_value (S (String.length s)) 0 (chars s) with
  | Some (v, r) => match skip_space r with [] => Some v | _ => None end
  | None => None
  end.

(** ** Decoding into a struct of strings *)

Section decode_struct.
Context {P : Type}.
Variable names : list string.              (** the struct's JSON names *)
Variable set : string → string → P → P.    (** assign the field of a name *)
Variable disallow_unknown : bool.

Definition match_field (key : string) : option string :=
  if bool_decide (key ∈ names) then Some key
  else List.find (λ n, EqualFold key n) names.

Fixpoint decode_members (ms : list (string * json)) (p : P) : option P :=
  match ms with
  | [] => Some p
  | (k, v) :: ms' =>
      match match_field k with
      | None => if disallow_unknown then None else decode_members ms' p
      | Some f =>
          match v with
          | JStr s => decode_members ms' (set f s p)
          | JNull => decode_members ms' p
          | _ => None
          end
      end
  end.

(** [None] for an [UnmarshalTypeError] or an unknown field. *)
Definition decode_struct (v : json) (p : P) : option P :=
  match v with
  | JObj ms => decode_members ms p
  | JNull => Some p
  | _ => None
  end.
End decode_struct.

(** Value of a member, the last one of that name. *)
Definition member (k : string) (v : json) : option json :=
  match v with
  | JObj ms => snd <$> List.find (λ p, bool_decide (p.1 = k)) (rev ms)
  | _ => None
  end.

Definition q (s : string) : string := unchars [quote_char] +:+ s +:+ unchars [quote_char].

Example Marshal_example :
  Marshal (JObj [("a<b", JStr (unchars (map byte_of [9; 97; 195; 163; 255])));
                 ("n", JArr [JInt 12; JBool true; JNull])])
  = "{" +:+ q "a\u003cb" +:+ ":" +:+ q ("\ta" +:+ unchars (map byte_of [195; 163]) +:+ "\ufffd")
    +:+ "," +:+ q "n" +:+ ":[12,true,null]}".
Proof. vm_compute. reflexivity. Qed.

Example decode_example :
  decode_first (" {" +:+ q "k" +:+ " : [1.5e3, " +:+ q "\u00e3\ud83d\ude00\/" +:+ ", {}] } trailing")
  = Some (JObj [("k", JArr [JNum "1.5e3";
             JStr (unchars (map byte_of [195; 163; 240; 159; 152; 128; 47])); JObj []])], " trailing").
Proof. vm_compute. reflexivity. Qed.

Example decode_rejects :
  decode_first "" = None ∧ decode_first "{,}" = None ∧ decode_first "[1,]" = None
  ∧ Unmarshal "1 2" = None ∧ Unmarshal " [01]" = None ∧ Unmarshal " null " = Some JNull.
Proof. by vm_compute. Qed.
