(* ===== verification/JsonFacts.v ===== *)
(** * Strings and flat objects survive JSON

    What [Marshal] writes for an object of strings, [Unmarshal] reads back,
    up to invalid UTF-8; and every string the decoder produces is valid
    UTF-8, so it survives unchanged. *)

From S2P Require Import Prelude GoStrings Json.

(** ** UTF-8 *)

(** A sequence of valid encodings. *)
Inductive utf8 : list ascii → Prop :=
| utf8_nil : utf8 []
| utf8_rune c s : c ≠ [] → rune_size c = length c → utf8 s → utf8 (c ++ s).

Lemma utf8_one c : c ≠ [] → rune_size c = length c → utf8 c.
Proof. intros Hne Hc. rewrite <-(app_nil_r c). by apply utf8_rune; [| |constructor]. Qed.

Lemma utf8_app s t : utf8 s → utf8 t → utf8 (s ++ t).
Proof. induction 1; intros Ht; [done|]. rewrite <-app_assoc. by apply utf8_rune; auto. Qed.

(** The size of a rune depends on its own bytes only. *)
Lemma rune_size_take s X :
  rune_size s ≠ 0%nat →
  rune_size (take (rune_size s) s ++ X) = rune_size s ∧ (rune_size s ≤ length s)%nat.
Proof.
  destruct s as [|a [|b [|c [|d r]]]]; unfold rune_size; simpl; [done|..];
    repeat (match goal with
            | |- context [if ?x then _ else _] => destruct x eqn:?
            end; simpl; try done);
    intros _; repeat (match goal with E : ?x = _ |- context [?x] => rewrite E end; simpl);
    split; first [done|lia].
Qed.

(** Only multi-byte encodings start with a byte of 194 or more. *)
Lemma rune_size_multi a s : (2 ≤ rune_size (a :: s))%nat → 194 ≤ byte_val a.
Proof.
  unfold rune_size. destruct (Z.ltb_spec (byte_val a) 128); [lia|].
  unfold between. destruct (Z.leb_spec 194 (byte_val a)); [done|simpl].
  destruct (Z.leb_spec 224 (byte_val a)); simpl; [lia|].
  destruct (Z.leb_spec 240 (byte_val a)); simpl; lia.
Qed.

(** Every invalid byte replaced by U+FFFD. *)
Fixpoint valid_n (n : nat) (s : list ascii) : list ascii :=
  match n, s with
  | S n', a :: r =>
      match rune_size s with
      | O => replacement_char ++ valid_n n' r
      | k => take k s ++ valid_n n' (drop k s)
      end
  | _, _ => []
  end.

Definition to_valid (s : string) : string := unchars (valid_n (String.length s) (chars s)).

Lemma rune_size_app c s : c ≠ [] → rune_size c = length c → rune_size (c ++ s) = length c.
Proof.
  intros Hne Hc. destruct (rune_size_take c s) as [H1 _].
  { rewrite Hc. by destruct c. }
  by rewrite Hc, firstn_all in H1.
Qed.

Lemma valid_n_utf8 n s : utf8 s → (length s ≤ n)%nat → valid_n n s = s.
Proof.
  intros Hs. revert n. induction Hs as [|c s Hne Hc Hs IH]; intros n Hn; [by destruct n|].
  pose proof (rune_size_app c s Hne Hc) as Hk. destruct c as [|a c]; [done|].
  rewrite length_app in Hn. simpl in Hn. destruct n as [|n]; [lia|].
  cbn [valid_n app]. cbn [app] in Hk. rewrite Hk. cbn [length].
  change (a :: c ++ s) with ((a :: c) ++ s).
  rewrite (take_app_length' (a :: c)), (drop_app_length' (a :: c)) by done. rewrite IH; [done|lia].
Qed.

Lemma to_valid_utf8 s : utf8 (chars s) → to_valid s = s.
Proof.
  intros Hs. unfold to_valid. rewrite valid_n_utf8; [apply unchars_chars|done|].
  by rewrite length_chars.
Qed.

(** ** Reading back an escaped string *)

(** One element of a string literal that is not its end. *)
Definition read_element (s : list ascii) : option (list ascii * list ascii) :=
  match s with
  | [] => None
  | a :: r =>
      if Ascii.eqb a quote_char then None
      else if Ascii.eqb a backslash then read_escape r
      else if byte_val a <? 32 then None
      else Some (match rune_size s with
                 | O => (replacement_char, r)
                 | k => (take k s, drop k s)
                 end)
  end.

Lemma read_string_element n s out r :
  read_element s = Some (out, r) →
  read_string_n (S n) s
  = match read_string_n n r with Some (t, rest) => Some (out ++ t, rest) | None => None end.
Proof.
  destruct s as [|a s]; [done|]. unfold read_element. cbn [read_string_n].
  destruct (Ascii.eqb a quote_char); [done|]. destruct (Ascii.eqb a backslash).
  - intros ->. done.
  - destruct (byte_val a <? 32); [done|]. generalize (rune_size (a :: s)) as k.
    intros [|k] Heq; injection Heq as <- <-; done.
Qed.

Lemma escape_ascii_element a X :
  byte_val a < 128 → read_element (escape_ascii a ++ X) = Some ([a], X).
Proof.
  assert (∀ b, b = a → byte_val b < 128 → read_element (escape_ascii b ++ X) = Some ([b], X)) as Hb;
    [|by apply Hb].
  intros b _. destruct b as [[] [] [] [] [] [] [] []]; intros Hb; first [reflexivity|by vm_compute in Hb].
Qed.

Lemma raw_element s X :
  (2 ≤ rune_size s)%nat →
  read_element (take (rune_size s) s ++ X) = Some (take (rune_size s) s, X).
Proof.
  intros Hk. destruct (rune_size_take s X) as [Hr Hl]; [lia|].
  destruct s as [|a s]; [simpl in Hk; lia|]. pose proof (rune_size_multi a s Hk) as Ha.
  set (k := rune_size (a :: s)) in *. unfold read_element.
  destruct (take k (a :: s) ++ X) as [|b r] eqn:E.
  { destruct k; [lia|done]. }
  assert (b = a) as -> by (destruct k; [lia|]; simpl in E; by simplify_eq).
  assert (∀ c, byte_val c < 194 → Ascii.eqb a c = false) as Hne.
  { intros c Hc. apply Ascii.eqb_neq. intros ->. lia. }
  rewrite !Hne by by vm_compute. destruct (Z.ltb_spec (byte_val a) 32); [lia|].
  rewrite Hr, <-E. assert (length (take k (a :: s)) = k) as Hlen by (rewrite length_take; lia).
  destruct k as [|k]; [lia|].
  by rewrite (take_app_length' (take _ _)), (drop_app_length' (take _ _)) by done.
Qed.

(** An escaped string, its closing quote, then anything. *)
Lemma read_escaped n s m X :
  (length s ≤ n)%nat → (length (escape_n n s) < m)%nat →
  read_string_n m (escape_n n s ++ quote_char :: X) = Some (valid_n n s, X).
Proof.
  revert s m. induction n as [|n IH]; intros s m Hn Hm.
  { destruct s; [|simpl in Hn; lia]. destruct m; [simpl in Hm; lia|]. done. }
  destruct s as [|a s]; [destruct m; [simpl in Hm; lia|done]|].
  cbn [escape_n valid_n] in *. simpl in Hn.
  assert (∀ out c r, (0 < length out)%nat →
    (length (out ++ escape_n n r) < m)%nat → (length r ≤ n)%nat →
    read_element (out ++ escape_n n r ++ quote_char :: X) = Some (c, escape_n n r ++ quote_char :: X) →
    read_string_n m ((out ++ escape_n n r) ++ quote_char :: X) = Some (c ++ valid_n n r, X)) as Hstep.
  { intros out c r Hout Hm' Hr He. destruct m as [|m]; [lia|]. rewrite length_app in Hm'.
    rewrite <-app_assoc, (read_string_element _ _ _ _ He), IH; [done|done|lia]. }
  destruct (rune_size (a :: s)) as [|[|k]] eqn:Ek.
  - apply Hstep; [simpl; lia|done|lia|reflexivity].
  - apply (Hstep (escape_ascii a) [a] s); [|done|lia|].
    + by destruct a as [[] [] [] [] [] [] [] []]; vm_compute; lia.
    + apply escape_ascii_element. unfold rune_size in Ek.
      destruct (Z.ltb_spec (byte_val a) 128); [done|]. repeat case_match; simplify_eq.
  - destruct (rune_size_take (a :: s) []) as [_ Hl]; [lia|].
    assert (length (drop (S (S k)) (a :: s)) ≤ n)%nat as Hd by (rewrite length_drop; simpl; lia).
    assert (0 < length (take (S (S k)) (a :: s)))%nat as Ht by (rewrite length_take; lia).
    revert Hm. case_bool_decide as E1; [|case_bool_decide as E2]; intros Hm.
    { rewrite E1. by apply (Hstep (escape_u 0x2028)); [vm_compute; lia|..]. }
    { rewrite E2. by apply (Hstep (escape_u 0x2029)); [vm_compute; lia|..]. }
    apply Hstep; try done. rewrite <-Ek. apply raw_element. lia.
Qed.

Lemma read_encoded_string s X :
  read_string (escape_n (String.length s) (chars s) ++ quote_char :: X) = Some (to_valid s, X).
Proof.
  unfold read_string. rewrite read_escaped; [done|by rewrite length_chars|].
  rewrite length_app. simpl. lia.
Qed.

(** ** Objects of strings *)

(** An object whose members are strings. *)
Definition strings (ms : list (string * string)) : list (string * json) :=
  (λ p, (p.1, JStr p.2)) <$> ms.

Definition to_valids (ms : list (string * string)) : list (string * string) :=
  (λ p, (to_valid p.1, to_valid p.2)) <$> ms.

Definition encode_member (p : string * string) : list ascii :=
  encode_string p.1 ++ ":"%char :: encode_string p.2.

Fixpoint encode_members (ms : list (string * string)) : list ascii :=
  match ms with
  | [] => []
  | [p] => encode_member p
  | p :: ms' => encode_member p ++ ","%char :: encode_members ms'
  end.

Lemma encode_strings ms :
  encode (JObj (strings ms)) = "{"%char :: encode_members ms ++ ["}"%char].
Proof.
  set (M := fix members (l : list (string * json)) : list ascii :=
        match l with
        | [] => []
        | [(k, x)] => encode_string k ++ ":"%char :: encode x
        | (k, x) :: l' => encode_string k ++ ":"%char :: encode x ++ ","%char :: members l'
        end).
  change (encode (JObj (strings ms))) with ("{"%char :: M (strings ms) ++ ["}"%char]).
  f_equal. f_equal. induction ms as [|p ms IH]; [done|]. destruct ms as [|p' ms]; [done|].
  change (M (strings (p :: p' :: ms))) with
    (encode_string p.1 ++ ":"%char :: encode_string p.2 ++ ","%char :: M (strings (p' :: ms))).
  rewrite IH.
  change (encode_members (p :: p' :: ms)) with (encode_member p ++ ","%char :: encode_members (p' :: ms)).
  unfold encode_member. by rewrite <-app_assoc.
Qed.

Lemma skip_space_quote X : skip_space (quote_char :: X) = quote_char :: X.
Proof. reflexivity. Qed.

Lemma encode_string_cons s X :
  encode_string s ++ X = quote_char :: escape_n (String.length s) (chars s) ++ quote_char :: X.
Proof. unfold encode_string. simpl. by rewrite <-app_assoc. Qed.

Lemma read_value_string n d s X :
  read_value (S n) d (encode_string s ++ X) = Some (JStr (to_valid s), X).
Proof.
  rewrite encode_string_cons. cbn [read_value]. rewrite skip_space_quote, Ascii.eqb_refl.
  by rewrite read_encoded_string.
Qed.

Lemma read_member_encoded n d p X :
  read_member (read_value (S n) d) (encode_member p ++ X)
  = Some ((to_valid p.1, JStr (to_valid p.2)), X).
Proof.
  unfold read_member, encode_member.
  replace ((encode_string p.1 ++ ":"%char :: encode_string p.2) ++ X)
    with (encode_string p.1 ++ ":"%char :: encode_string p.2 ++ X) by (by rewrite <-app_assoc).
  rewrite encode_string_cons, skip_space_quote, Ascii.eqb_refl, read_encoded_string.
  change (skip_space (":"%char :: encode_string p.2 ++ X)) with (":"%char :: encode_string p.2 ++ X).
  cbv iota beta. change (Ascii.eqb ":" ":") with true. cbv iota. by rewrite read_value_string.
Qed.

Lemma read_members_encoded n d p ms m X :
  (length ms < m)%nat →
  read_members (read_value (S n) d) m (encode_members (p :: ms) ++ "}"%char :: X)
  = Some (strings (to_valids (p :: ms)), X).
Proof.
  revert p m. induction ms as [|p' ms IH]; intros p m Hm; (destruct m as [|m]; [simpl in Hm; lia|]).
  - cbn [encode_members read_members]. by rewrite read_member_encoded.
  - change (encode_members (p :: p' :: ms)) with (encode_member p ++ ","%char :: encode_members (p' :: ms)).
    rewrite <-app_assoc. cbn [app read_members]. rewrite read_member_encoded.
    change (skip_space (","%char :: ?r)) with (","%char :: r). cbv iota.
    change (Ascii.eqb "," ",") with true. cbv iota. rewrite IH; [done|simpl in Hm; lia].
Qed.

Lemma encode_members_length p ms : (length ms < length (encode_members (p :: ms)))%nat.
Proof.
  revert p. induction ms as [|p' ms IH]; intros p.
  { cbn [encode_members]. unfold encode_member. rewrite length_app. simpl length. lia. }
  change (encode_members (p :: p' :: ms)) with (encode_member p ++ ","%char :: encode_members (p' :: ms)).
  rewrite length_app. specialize (IH p'). simpl length in *. lia.
Qed.

(** What [Marshal] writes of an object of strings, [Unmarshal] reads, with
    invalid UTF-8 replaced. *)
Theorem Unmarshal_Marshal_strings ms :
  Unmarshal (Marshal (JObj (strings ms))) = Some (JObj (strings (to_valids ms))).
Proof.
  unfold Unmarshal, Marshal. rewrite encode_strings, chars_unchars.
  assert (String.length (unchars ("{"%char :: encode_members ms ++ ["}"%char]))
          = S (length (encode_members ms ++ ["}"%char]))) as ->
    by (by rewrite <-length_chars, chars_unchars).
  destruct ms as [|p ms]; [done|].
  pose proof (encode_members_length p ms) as Hl. set (e := encode_members (p :: ms)) in *.
  assert (∃ r, e = quote_char :: r) as [r Hr].
  { unfold e. destruct ms; cbn [encode_members]; unfold encode_member, encode_string; simpl; eauto. }
  assert (length (e ++ ["}"%char]) = S (length e)) as -> by (rewrite length_app; simpl; lia).
  set (n := length e) in *. remember (S (S n)) as m eqn:Em. cbn [read_value].
  change (skip_space ("{"%char :: ?r)) with ("{"%char :: r). cbv iota.
  change (Ascii.eqb "{" quote_char) with false. change (Ascii.eqb "{" "{") with true. cbv iota.
  change (max_nesting_depth <=? 0) with false. cbv iota.
  replace (skip_space (e ++ ["}"%char])) with (quote_char :: r ++ ["}"%char])
    by (by rewrite Hr). cbv iota. change (Ascii.eqb quote_char "}") with false. cbv iota.
  assert (length ms < m)%nat as Hn by lia.
  pose proof (read_members_encoded (S n) (0 + 1) p ms m [] Hn) as Hread. rewrite <-Em in Hread.
  fold e in Hread. rewrite Hread. reflexivity.
Qed.

(** ** What the decoder produces is valid UTF-8 *)

Lemma hex4_range s c r : hex4 s = Some (c, r) → 0 ≤ c < 65536.
Proof.
  unfold hex4. intros Hc. destruct s as [|w [|x [|y [|z s]]]]; try done.
  destruct (hex_val w) eqn:E1; [|done]. destruct (hex_val x) eqn:E2; [|done].
  destruct (hex_val y) eqn:E3; [|done]. destruct (hex_val z) eqn:E4; [|done].
  apply hex_val_range in E1, E2, E3, E4. simplify_eq. lia.
Qed.

(** Unicode scalar values. *)
Definition scalar (c : Z) : Prop := 0 ≤ c < 0x110000 ∧ is_surrogate c = false.

Ltac decide_bounds :=
  repeat match goal with
  | |- context [?a =? ?b] => destruct (Z.eqb_spec a b); [try lia|try lia]
  | |- context [?a <? ?b] => destruct (Z.ltb_spec a b); [try lia|try lia]
  | |- context [?a <=? ?b] => destruct (Z.leb_spec a b); [try lia|try lia]
  end; try done; try lia.

Lemma encode_rune_utf8 c : scalar c → utf8 (encode_rune c).
Proof.
  intros [Hc Hs]. unfold is_surrogate in Hs. apply andb_false_iff in Hs.
  assert (c < 0xD800 ∨ 0xE000 ≤ c) as Hs' by (destruct Hs as [?%Z.leb_gt|?%Z.ltb_ge]; lia). clear Hs.
  apply utf8_one; [unfold encode_rune; repeat case_match; done|].
  pose proof (Z.div_mod c 64 ltac:(lia)). pose proof (Z.mod_pos_bound c 64 ltac:(lia)).
  pose proof (Z.div_mod (c / 64) 64 ltac:(lia)). pose proof (Z.mod_pos_bound (c / 64) 64 ltac:(lia)).
  pose proof (Z.div_mod (c / 4096) 64 ltac:(lia)). pose proof (Z.mod_pos_bound (c / 4096) 64 ltac:(lia)).
  assert (c / 4096 = c / 64 / 64) as E1 by (by rewrite Z.div_div).
  assert (c / 262144 = c / 4096 / 64) as E2 by (by rewrite Z.div_div).
  unfold encode_rune, rune_size, between, cont.
  destruct (Z.ltb_spec c 0x80); [|destruct (Z.ltb_spec c 0x800); [|destruct (Z.ltb_spec c 0x10000)]];
    cbn [map]; rewrite !byte_val_of by lia; cbn [length]; decide_bounds.
Qed.

Lemma read_escape_utf8 s out r : read_escape s = Some (out, r) → utf8 out.
Proof.
  destruct s as [|a s]; [done|]. unfold read_escape.
  assert (∀ b, byte_val b < 128 → utf8 [b]) as Hone.
  { intros b Hb. apply utf8_one; [done|]. unfold rune_size. by rewrite (proj2 (Z.ltb_lt _ _) Hb). }
  assert (utf8 replacement_char) as Hrep by (by apply encode_rune_utf8).
  destruct (_ || _) eqn:E.
  { intros [= <- _]. apply Hone. rewrite !orb_true_iff, !Z.eqb_eq in E. lia. }
  repeat (destruct (Ascii.eqb a _); [try (intros [= <- _]; by apply Hone)|]); [|done].
  destruct (hex4 s) as [[c r']|] eqn:Hc; [|done]. apply hex4_range in Hc.
  destruct (is_surrogate c) eqn:Hs; [|intros [= <- _]; apply encode_rune_utf8; split; [lia|done]].
  destruct (low_surrogate c r') as [[c' r'']|] eqn:Hl; [|by intros [= <- _]].
  intros [= <- _]. apply encode_rune_utf8. unfold low_surrogate in Hl.
  destruct r' as [|x [|y r']]; try done. destruct (_ && _) eqn:Hb; [|done].
  destruct (hex4 r') as [[lo r3]|]; [|done]. destruct (_ && (lo <? _)) eqn:Hlo; [|done]. simplify_eq.
  unfold is_surrogate in *. rewrite !andb_true_iff, ?Z.leb_le, ?Z.ltb_lt in *.
  split; [lia|]. apply andb_false_iff. right. apply Z.ltb_ge. lia.
Qed.

Lemma read_string_n_utf8 n s t r : read_string_n n s = Some (t, r) → utf8 t.
Proof.
  revert s t r. induction n as [|n IH]; intros s t r; [done|].
  destruct s as [|a s]; [done|]. destruct (read_element (a :: s)) as [[out r']|] eqn:He.
  - rewrite (read_string_element _ _ _ _ He). destruct (read_string_n n r') as [[t' rest]|] eqn:E; [|done].
    intros [= <- _]. apply utf8_app; [|by eapply IH]. unfold read_element in He.
    destruct (Ascii.eqb a quote_char); [done|]. destruct (Ascii.eqb a backslash).
    { by apply read_escape_utf8 in He. }
    destruct (byte_val a <? 32); [done|]. pose proof (rune_size_take (a :: s) []) as Hk.
    destruct (rune_size (a :: s)) as [|k]; injection He as <- _; [by apply encode_rune_utf8|].
    destruct Hk as [Hk Hl]; [done|]. rewrite app_nil_r in Hk.
    apply (utf8_one (take (S k) (a :: s))); [done|]. rewrite Hk, length_take. lia.
  - cbn [read_string_n]. unfold read_element in He.
    destruct (Ascii.eqb a quote_char); [by intros [= <- _]; constructor|].
    destruct (Ascii.eqb a backslash); [by rewrite He|].
    by destruct (byte_val a <? 32).
Qed.

(** A value that is no string, or a valid one. *)
Definition utf8_value (v : json) : Prop :=
  match v with JStr s => utf8 (chars s) | _ => True end.

Definition utf8_members (v : json) : Prop :=
  match v with JObj ms => Forall (λ p, utf8_value p.2) ms | _ => True end.

Lemma read_literal_value s v r : read_literal s = Some (v, r) → utf8_value v ∧ utf8_members v.
Proof. unfold read_literal. intros Hr. by repeat case_match; simplify_eq. Qed.

Lemma read_members_utf8 value m s ms r :
  (∀ s v r, value s = Some (v, r) → utf8_value v) →
  read_members value m s = Some (ms, r) → Forall (λ p, utf8_value p.2) ms.
Proof.
  intros Hv. revert s ms r. induction m as [|m IH]; intros s ms r; [done|]. cbn [read_members].
  destruct (read_member value s) as [[x r1]|] eqn:Hx; [|done].
  assert (utf8_value x.2) as Hx2.
  { unfold read_member in Hx. repeat (case_match; try done). simplify_eq. by eapply Hv. }
  destruct (skip_space r1) as [|a r2]; [done|]. destruct (Ascii.eqb a ",").
  - destruct (read_members value m r2) as [[xs rest]|] eqn:E; [|done]. intros [= <- _].
    constructor; [done|by eapply IH].
  - destruct (Ascii.eqb a "}"); [|done]. intros [= <- _]. by constructor.
Qed.

Lemma read_value_utf8 n d s v r :
  read_value n d s = Some (v, r) → utf8_value v ∧ utf8_members v.
Proof.
  revert d s v r. induction n as [|n IH]; intros d s v r; [done|]. cbn [read_value].
  destruct (skip_space s) as [|a s']; [done|]. destruct (Ascii.eqb a quote_char).
  { unfold read_string. destruct (read_string_n _ s') as [[t r']|] eqn:E; [|done].
    intros [= <- _]. split; [|done]. simpl. rewrite chars_unchars. by eapply read_string_n_utf8. }
  destruct (Ascii.eqb a "{").
  { destruct (_ <=? d); [done|]. destruct (skip_space s') as [|b r']; [done|].
    destruct (Ascii.eqb b "}"); [intros [= <- _]; split; [done|constructor]|].
    destruct (read_members _ n s') as [[ms r'']|] eqn:E; [|done]. intros [= <- _]. split; [done|].
    eapply read_members_utf8; [|exact E]. intros s2 v2 r2 H2. by apply IH in H2 as [? _]. }
  destruct (Ascii.eqb a "["); [|apply read_literal_value].
  destruct (_ <=? d); [done|]. destruct (skip_space s') as [|b r']; [done|].
  destruct (Ascii.eqb b "]"); [by intros [= <- _]|].
  destruct (read_items _ n s') as [[xs r'']|]; [|done]. by intros [= <- _].
Qed.

(** A struct decoded from JSON holds valid strings, if it did before. *)
Lemma decode_first_struct {P} (Inv : P → Prop) names set strict body v rest p p' :
  (∀ f s p, utf8 (chars s) → Inv p → Inv (set f s p)) → Inv p →
  decode_first body = Some (v, rest) → decode_struct names set strict v p = Some p' → Inv p'.
Proof.
  intros Hset Hp Hd. unfold decode_first in Hd.
  destruct (read_value _ 0 (chars body)) as [[v' r]|] eqn:E; [|done]. injection Hd as -> _.
  apply read_value_utf8 in E as [_ Hms]. destruct v as [| | | | |ms]; simpl; try done; [by intros [= <-]|].
  simpl in Hms. revert p Hp. induction ms as [|[k x] ms IH]; intros p Hp; simpl; [by intros [= <-]|].
  apply Forall_cons in Hms as [Hx Hms]. destruct (match_field _ k) as [f|].
  - destruct x; try done; apply IH; auto.
  - destruct strict; [done|]. by apply IH.
Qed.
