(* ===== verification/UrlFacts.v ===== *)
(** * URLs: lemmas

    Cutting at a byte, percent-encoding and its inverse, what an encoder's
    output consists of, and when a component's hint is used. *)

From S2P Require Import Prelude GoStrings Json Url.

(** ** Cutting *)

Section cutting.
Implicit Types (c : ascii) (s x y : bytes).

Lemma cut_Some c s x y : cut c s = Some (x, y) ↔ s = x ++ c :: y ∧ c ∉ x.
Proof.
  revert x. induction s as [|a s IH]; intros x; simpl.
  - split; [done|]. by intros [?%(f_equal length) _]; rewrite length_app in *; simpl in *; lia.
  - destruct (Ascii.eqb_spec a c) as [->|Hne].
    + split; [intros [= <- <-]; split; [done|apply not_elem_of_nil]|].
      intros [Heq Hx]. destruct x as [|b x]; [by injection Heq as <-|].
      injection Heq as <- _. destruct Hx. left.
    + destruct (cut c s) as [[x' y']|] eqn:E.
      * destruct (IH x') as [Hi _]. split.
        -- intros [= <- <-]. destruct Hi as [-> Hx]; [done|]. split; [done|].
           by apply not_elem_of_cons.
        -- intros [Heq Hx]. destruct x as [|b x]; [by injection Heq|].
           injection Heq as <- Heq. apply not_elem_of_cons in Hx as [_ Hx].
           specialize (IH x). destruct IH as [_ IH]. by injection (IH (conj Heq Hx)) as -> ->.
      * split; [done|]. intros [Heq Hx]. destruct x as [|b x]; [by injection Heq|].
        injection Heq as <- Heq. apply not_elem_of_cons in Hx as [_ Hx].
        specialize (IH x). destruct IH as [_ IH]. by specialize (IH (conj Heq Hx)).
Qed.

Lemma cut_None c s : cut c s = None ↔ c ∉ s.
Proof.
  split.
  - intros Hc Hin. apply list_elem_of_split_l in Hin as (x & y & -> & Hx).
    by rewrite (proj2 (cut_Some c _ x y)) in Hc.
  - intros Hc. destruct (cut c s) as [[x y]|] eqn:E; [|done].
    apply cut_Some in E as [-> _]. destruct Hc. apply elem_of_app. right. left.
Qed.

Lemma cut_last_None c s : cut_last c s = None ↔ c ∉ s.
Proof.
  induction s as [|a s IH]; simpl; [split; [intros _; apply not_elem_of_nil|done]|].
  rewrite not_elem_of_cons. destruct (cut_last c s) as [[x y]|].
  - split; [done|]. intros [_ Hs]. by apply IH in Hs.
  - destruct (Ascii.eqb_spec a c) as [->|Hne]; [split; [done|by intros [? _]]|].
    split; [|done]. intros _. split; [done|]. by apply IH.
Qed.

Lemma cut_last_app c x y : c ∉ y → cut_last c (x ++ c :: y) = Some (x, y).
Proof.
  intros Hy. induction x as [|a x IH]; simpl.
  - by rewrite (proj2 (cut_last_None c y) Hy), Ascii.eqb_refl.
  - by rewrite IH.
Qed.

Lemma cut_last_Some c s x y : cut_last c s = Some (x, y) → s = x ++ c :: y ∧ c ∉ y.
Proof.
  revert x. induction s as [|a s IH]; intros x; simpl; [done|].
  destruct (cut_last c s) as [[x' y']|] eqn:E.
  - intros [= <- <-]. destruct (IH _ eq_refl) as [-> ?]. done.
  - destruct (Ascii.eqb_spec a c) as [->|_]; [|done]. intros [= <- <-].
    split; [done|]. by apply cut_last_None.
Qed.

Lemma contains_true c s : contains c s = true ↔ c ∈ s.
Proof.
  unfold contains. rewrite existsb_exists. split.
  - intros (a & Ha & ->%Ascii.eqb_eq). by apply list_elem_of_In.
  - intros Hc. exists c. split; [by apply list_elem_of_In|apply Ascii.eqb_refl].
Qed.

Lemma before_app c x y : c ∉ x → before c (x ++ c :: y) = x.
Proof. intros Hx. unfold before. by rewrite (proj2 (cut_Some c _ x y)). Qed.

Lemma before_id c s : c ∉ s → before c s = s.
Proof. intros Hs. unfold before. by rewrite (proj2 (cut_None c s)). Qed.

Lemma split_at_None pat s :
  split_at pat s = None ↔ ∀ x y, s ≠ x ++ pat ++ y.
Proof.
  split.
  - intros Hn x y ->. revert Hn. induction x as [|a x IH]; simpl.
    + destruct (pat ++ y) eqn:E; simpl; rewrite <-?E, strip_app; done.
    + destruct (strip _ _); [done|]. destruct (split_at pat (x ++ pat ++ y)) as [[? ?]|]; [done|].
      intros _. by apply IH.
  - induction s as [|a s IH]; intros Hn; simpl.
    + destruct (strip pat []) eqn:E; [|done]. apply strip_Some in E. by destruct (Hn [] l).
    + destruct (strip pat (a :: s)) eqn:E.
      * apply strip_Some in E. by destruct (Hn [] l).
      * rewrite IH; [done|]. intros x y ->. by destruct (Hn (a :: x) y).
Qed.

Lemma split_at_Some pat s x y :
  split_at pat s = Some (x, y) → s = x ++ y ∧ ∃ w, y = pat ++ w.
Proof.
  revert x. induction s as [|a s IH]; intros x; simpl.
  - destruct (strip pat []) as [w|] eqn:E; [|done]. intros [= <- <-]. apply strip_Some in E. eauto.
  - destruct (strip pat (a :: s)) as [w|] eqn:E.
    + intros [= <- <-]. apply strip_Some in E. eauto.
    + destruct (split_at pat s) as [[x' y']|]; [|done]. intros [= <- <-].
      destruct (IH x') as [-> Hw]; done.
Qed.
End cutting.

(** ** Percent-encoding *)

Lemma hex_val_upper z : 0 ≤ z < 16 → hex_val (upper_hex_digit z) = Some z.
Proof.
  intros Hz. assert (z ∈ seqZ 0 16) as Hin by (apply elem_of_seqZ; lia).
  revert Hin. vm_compute seqZ. clear. rewrite list_elem_of_In. simpl. intuition (subst; reflexivity).
Qed.

Lemma upper_hex_alnum z : 0 ≤ z < 16 → is_alnum (upper_hex_digit z) = true.
Proof.
  intros Hz. assert (z ∈ seqZ 0 16) as Hin by (apply elem_of_seqZ; lia).
  revert Hin. vm_compute seqZ. clear. rewrite list_elem_of_In. simpl. intuition (subst; reflexivity).
Qed.

Lemma nibbles a : 0 ≤ byte_val a / 16 < 16 ∧ 0 ≤ byte_val a mod 16 < 16.
Proof.
  pose proof (byte_val_range a) as Ha.
  split; [split; [apply Z.div_pos|apply Z.div_lt_upper_bound]; lia|apply Z.mod_pos_bound; lia].
Qed.

Lemma nibbles_val a : byte_of (16 * (byte_val a / 16) + byte_val a mod 16) = a.
Proof. rewrite <-Z.div_mod by lia. apply byte_of_val. Qed.

(** The encoded bytes may stand encoded in this part. *)
Definition escapable (mode : encoding) (a : ascii) : bool :=
  negb (shouldEscape mode a) || escape_allowed mode (byte_val a / 16) (byte_val a mod 16).

Lemma percent_escaped mode : shouldEscape mode "%" = true.
Proof. by destruct mode. Qed.

(** Decoding undoes encoding. *)
Lemma unescape_escape_app mode s t :
  forallb (escapable mode) s = true →
  unescape mode (escape mode s ++ t)
  = match unescape mode t with Ok r => Ok (s ++ r) | Err e => Err e end.
Proof.
  induction s as [|a s IH]; simpl; [by destruct (unescape mode t)|].
  intros [Ha Hs]%andb_true_iff. specialize (IH Hs). unfold escapable in Ha.
  destruct (shouldEscape mode a) eqn:E; simpl in *.
  - destruct (nibbles a) as [H1 H2]. rewrite !hex_val_upper, Ha, IH, nibbles_val by done.
    by destruct (unescape mode t).
  - destruct (Ascii.eqb_spec a "%") as [->|_]; [by rewrite percent_escaped in E|].
    rewrite E, andb_false_r, IH. by destruct (unescape mode t).
Qed.

Lemma unescape_escape mode s :
  forallb (escapable mode) s = true → unescape mode (escape mode s) = Ok s.
Proof.
  intros Hs. rewrite <-(app_nil_r (escape mode s)), unescape_escape_app by done.
  simpl. by rewrite app_nil_r.
Qed.

Lemma escapable_outside mode s : in_host mode = false → forallb (escapable mode) s = true.
Proof.
  intros Hm. apply forallb_Forall, list.Forall_forall. intros a _. unfold escapable.
  by destruct mode; rewrite ?orb_true_r.
Qed.

Lemma escape_app mode s t : escape mode (s ++ t) = escape mode s ++ escape mode t.
Proof. induction s as [|a s IH]; simpl; [done|]. destruct (shouldEscape mode a); simpl; by rewrite IH. Qed.

Lemma escape_id mode s : forallb (λ a, negb (shouldEscape mode a)) s = true → escape mode s = s.
Proof.
  induction s as [|a s IH]; simpl; [done|]. intros [Ha%negb_true_iff Hs]%andb_true_iff.
  by rewrite Ha, IH.
Qed.

(** An encoder writes [%], hexadecimal digits and what needs no encoding. *)
Lemma escape_Forall (P : ascii → Prop) mode s :
  P "%"%char → (∀ a, shouldEscape mode a = false → P a) → Forall P (escape mode s).
Proof.
  intros Hp Hu. assert (∀ z, 0 ≤ z < 16 → P (upper_hex_digit z)) as Hh.
  { intros z Hz. apply Hu. unfold shouldEscape. by rewrite upper_hex_alnum. }
  induction s as [|a s IH]; simpl; [constructor|]. destruct (nibbles a).
  destruct (shouldEscape mode a) eqn:E; repeat constructor; auto.
Qed.

Lemma escape_avoids mode c s :
  shouldEscape mode c = true → c ≠ "%"%char → c ∉ escape mode s.
Proof.
  intros Hc Hne. assert (Forall (λ a, a ≠ c) (escape mode s)) as HF.
  { apply escape_Forall; [done|]. intros a Ha ->. congruence. }
  rewrite list.Forall_forall in HF. intros Hin. by destruct (HF c).
Qed.

Lemma escape_nil mode s : escape mode s = [] → s = [].
Proof. destruct s as [|a s]; [done|]. simpl. by destruct (shouldEscape mode a). Qed.

(** Decoding goes from left to right. *)
Lemma unescape_app mode s t r :
  unescape mode s = Ok r →
  unescape mode (s ++ t) = match unescape mode t with Ok r' => Ok (r ++ r') | Err e => Err e end.
Proof.
  remember (length s) as n eqn:Hn. revert s r Hn.
  induction (lt_wf n) as [n _ IH]. intros s r ->.
  destruct s as [|a s]; simpl; [intros [= <-]; by destruct (unescape mode t)|].
  assert (∀ v s' r', (length s' < length (a :: s))%nat → ok_cons v (unescape mode s') = Ok r' →
    ok_cons v (unescape mode (s' ++ t))
    = match unescape mode t with Ok r'' => Ok (r' ++ r'') | Err e => Err e end) as Hcons.
  { intros v s' r' Hl Hr. destruct (unescape mode s') as [r0|] eqn:E; [|done].
    injection Hr as <-. rewrite (IH _ Hl s' r0 eq_refl E). by destruct (unescape mode t). }
  destruct (Ascii.eqb a "%").
  - destruct s as [|b [|c s]]; [done|done|]. simpl.
    destruct (hex_val b), (hex_val c); try done. destruct (escape_allowed mode z z0); [|done].
    apply Hcons. simpl. lia.
  - destruct (in_host mode && is_ascii a && shouldEscape mode a); [done|].
    apply Hcons. simpl. lia.
Qed.

(** What a successful decoding of a concatenation at a plain byte says. *)
Lemma unescape_split mode s c t r :
  hex_val c = None → c ≠ "%"%char → unescape mode (s ++ c :: t) = Ok r →
  ∃ x y, unescape mode s = Ok x ∧ unescape mode t = Ok y ∧ r = x ++ c :: y.
Proof.
  intros Hc Hp. remember (length s) as n eqn:Hn. revert s r Hn.
  induction (lt_wf n) as [n _ IH]. intros s r ->.
  destruct s as [|a s]; simpl.
  - destruct (Ascii.eqb_spec c "%") as [?|_]; [done|].
    destruct (in_host mode && is_ascii c && shouldEscape mode c); [done|].
    destruct (unescape mode t) as [y|]; [|done]. intros [= <-]. eauto.
  - assert (∀ v s' r', (length s' < length (a :: s))%nat →
      ok_cons v (unescape mode (s' ++ c :: t)) = Ok r' →
      ∃ x y, ok_cons v (unescape mode s') = Ok x ∧ unescape mode t = Ok y ∧ r' = x ++ c :: y) as Hcons.
    { intros v s' r' Hl Hr. destruct (unescape mode (s' ++ c :: t)) as [r0|] eqn:E; [|done].
      injection Hr as <-. destruct (IH _ Hl s' r0 eq_refl E) as (x & y & -> & -> & ->). eauto. }
    destruct (Ascii.eqb a "%").
    + destruct s as [|b [|d s]]; simpl.
      * destruct t as [|d t]; [done|]. by rewrite Hc.
      * rewrite Hc. by destruct (hex_val b).
      * destruct (hex_val b), (hex_val d); try done. destruct (escape_allowed mode z z0); [|done].
        apply Hcons. simpl. lia.
    + destruct (in_host mode && is_ascii a && shouldEscape mode a); [done|].
      apply Hcons. simpl. lia.
Qed.

Lemma unescape_nil mode s : unescape mode s = Ok [] → s = [].
Proof.
  destruct s as [|a s]; simpl; [done|].
  assert (∀ v r, ok_cons v r ≠ Ok []) as Hno by (intros v r; by destruct r).
  destruct (Ascii.eqb a "%").
  - destruct s as [|b [|d s]]; [done|done|]. destruct (hex_val b), (hex_val d); try done.
    destruct (escape_allowed mode z z0); [|done]. intros Hr. by apply Hno in Hr.
  - destruct (in_host mode && is_ascii a && shouldEscape mode a); [done|].
    intros Hr. by apply Hno in Hr.
Qed.

(** ** Components and their hints *)

(** A component as it is printed. *)
Definition shown (mode : encoding) (raw component : bytes) : bytes :=
  default (escape mode component) (hinted mode raw component).

Lemma hinted_Some mode raw c r :
  hinted mode raw c = Some r → r = raw ∧ raw ≠ [] ∧ unescape mode raw = Ok c.
Proof.
  unfold hinted. destruct raw as [|a raw]; [done|]. cbn [nonempty]. rewrite andb_true_l.
  destruct (validEncoded mode (a :: raw)); [|done].
  destruct (unescape mode (a :: raw)) as [p|]; [|done]. unfold bytes_eqb.
  case_bool_decide as Hp; [|done]. intros [= <-]. by rewrite Hp.
Qed.

Lemma decoded_Ok mode p c raw :
  decoded mode p = Ok (c, raw) →
  unescape mode p = Ok c ∧ raw = if bytes_eqb p (escape mode c) then [] else p.
Proof. unfold decoded, unescaped. destruct (unescape mode p); [|done]. by intros [= <- <-]. Qed.

Lemma decoded_escape mode c :
  in_host mode = false → decoded mode (escape mode c) = Ok (c, []).
Proof.
  intros Hm. unfold decoded, unescaped. rewrite unescape_escape by by apply escapable_outside.
  unfold bytes_eqb. by rewrite bool_decide_eq_true_2.
Qed.

(** What is printed is the text that was read, when that is encoded as it
    should be, *)
Lemma shown_valid mode p c raw :
  decoded mode p = Ok (c, raw) → validEncoded mode p = true → shown mode raw c = p.
Proof.
  intros [Hp ->]%decoded_Ok Hv. unfold shown, hinted, bytes_eqb. case_bool_decide as He; [by rewrite He|].
  destruct p as [|a p]; [by injection Hp as <-|]. by rewrite Hv, Hp, bool_decide_eq_true_2.
Qed.

(** and in any case reads as the same component, printed the same way. *)
Lemma decoded_shown mode p c raw :
  in_host mode = false → decoded mode p = Ok (c, raw) →
  ∃ raw', decoded mode (shown mode raw c) = Ok (c, raw') ∧ shown mode raw' c = shown mode raw c.
Proof.
  intros Hm Hp. unfold shown at 1 3. destruct (hinted mode raw c) as [r|] eqn:E; simpl.
  - pose proof E as (-> & Hne & Hu)%hinted_Some. apply decoded_Ok in Hp as [Hp Hraw].
    exists raw. unfold shown. rewrite E. split; [|done].
    unfold decoded, unescaped. rewrite Hu. revert Hraw. unfold bytes_eqb.
    case_bool_decide; [done|]. intros ->. by rewrite bool_decide_eq_false_2.
  - exists []. split; [by apply decoded_escape|done].
Qed.

Lemma shown_Forall (P : ascii → Prop) mode p c raw :
  decoded mode p = Ok (c, raw) → Forall P p →
  P "%"%char → (∀ a, shouldEscape mode a = false → P a) → Forall P (shown mode raw c).
Proof.
  intros [_ ->]%decoded_Ok HP Hpc Hu. unfold shown.
  destruct (hinted mode _ c) as [r|] eqn:E; simpl; [|by apply escape_Forall].
  apply hinted_Some in E as (-> & _ & _). by destruct (bytes_eqb p _).
Qed.

(** The paths a URL with a scheme can have. *)
Definition rooted (p : bytes) : bool := match p with "/"%char :: _ => true | _ => false end.
Definition path_like (p : bytes) : Prop := p = [] ∨ rooted p = true.

Lemma shown_path p c raw :
  decoded encodePath p = Ok (c, raw) → path_like p →
  path_like (shown encodePath raw c) ∧ path_like c ∧ (c = [] ↔ p = [])
  ∧ (shown encodePath raw c = [] ↔ p = []).
Proof.
  intros Hp Hlike. pose proof Hp as [Hu Hraw]%decoded_Ok. destruct Hlike as [->|Hr].
  - injection Hu as <-. rewrite Hraw. unfold path_like. by repeat split; try left.
  - destruct p as [|a p]; [done|]. destruct (Ascii.eqb_spec a "/") as [->|Hne].
    2:{ destruct a as [[] [] [] [] [] [] [] []]; done. }
    assert (∃ c', c = "/"%char :: c') as [c' ->].
    { simpl in Hu. destruct (unescape encodePath p); [|done]. injection Hu as <-. eauto. }
    assert (∃ s, shown encodePath raw ("/"%char :: c') = "/"%char :: s) as [s ->].
    { unfold shown. destruct (hinted _ _ _) as [r|] eqn:E; [|simpl; eauto].
      apply hinted_Some in E as (-> & Hne & _). destruct (bytes_eqb _ _); [by destruct Hne|]. rewrite Hraw. eauto. }
    unfold path_like. by repeat split; try right.
Qed.

Lemma EscapedPath_shown u :
  path_like (u_Path u) → EscapedPath u = shown encodePath (u_RawPath u) (u_Path u).
Proof.
  intros Hp. unfold EscapedPath, shown. destruct (hinted _ _ _); [done|]. unfold bytes_eqb.
  case_bool_decide as E; [|done]. rewrite E in Hp. by destruct Hp.
Qed.

Lemma EscapedFragment_shown u :
  EscapedFragment u = shown encodeFragment (u_RawFragment u) (u_Fragment u).
Proof. unfold EscapedFragment, shown. by destruct (hinted _ _ _). Qed.

(** ** Hosts *)

(** What decoding a host can yield. *)
Lemma unescape_host s r :
  unescape encodeHost s = Ok r →
  Forall (λ a, a = "%"%char ∨ 128 ≤ byte_val a ∨ a ∈ s ∧ shouldEscape encodeHost a = false) r.
Proof.
  remember (length s) as n eqn:Hn. revert s r Hn.
  induction (lt_wf n) as [n _ IH]. intros s r ->.
  destruct s as [|a s]; cbn [unescape]; [intros [= <-]; constructor|].
  assert (∀ v s', (length s' < length (a :: s))%nat → (∀ b, b ∈ s' → b ∈ a :: s) →
    (v = "%"%char ∨ 128 ≤ byte_val v ∨ v ∈ a :: s ∧ shouldEscape encodeHost v = false) →
    ok_cons v (unescape encodeHost s') = Ok r →
    Forall (λ b, b = "%"%char ∨ 128 ≤ byte_val b
                 ∨ b ∈ a :: s ∧ shouldEscape encodeHost b = false) r) as Hcons.
  { intros v s' Hl Hsub Hv Hr. destruct (unescape encodeHost s') as [r0|] eqn:E; [|done].
    injection Hr as <-. constructor; [done|].
    eapply Forall_impl; [by apply (IH _ Hl s')|]. simpl. naive_solver. }
  destruct (Ascii.eqb_spec a "%") as [->|Hne].
  - destruct s as [|b [|c s]]; [done|done|].
    destruct (hex_val b) as [x|] eqn:Ex, (hex_val c) as [y|] eqn:Ey; try done.
    apply hex_val_range in Ex, Ey. destruct (escape_allowed encodeHost x y) eqn:Ea; [|done].
    apply Hcons; [simpl; lia|intros; by repeat right|]. unfold escape_allowed in Ea.
    apply orb_true_iff in Ea as [Hx%Z.leb_le|Hv%Z.eqb_eq].
    + right; left. rewrite byte_val_of by lia. lia.
    + left. by rewrite Hv.
  - destruct (in_host encodeHost && is_ascii a && shouldEscape encodeHost a) eqn:E; [done|].
    apply Hcons; [simpl; lia|intros; by right|]. right. apply andb_false_iff in E as [E|E].
    + left. unfold is_ascii in E. simpl in E. apply Z.ltb_ge in E. lia.
    + right. split; [left|done].
Qed.

Lemma host_escapable s r :
  unescape encodeHost s = Ok r → forallb (escapable encodeHost) r = true.
Proof.
  intros Hr%unescape_host. apply forallb_Forall. eapply Forall_impl; [done|]. simpl.
  intros a [->|[Ha|[_ Ha]]]; [done| |]; unfold escapable.
  - apply orb_true_iff. right. unfold escape_allowed. apply orb_true_iff. left. apply Z.leb_le.
    apply Z.div_le_lower_bound; lia.
  - by rewrite Ha.
Qed.

Lemma is_digit_alnum a : is_digit a = true → is_alnum a = true.
Proof.
  unfold is_digit, is_alnum. intros Ha. apply orb_true_iff. by right.
Qed.

Lemma digits_plain mode s : forallb is_digit s = true → escape mode s = s ∧ unescape mode s = Ok s.
Proof.
  intros Hs. assert (forallb (λ a, negb (shouldEscape mode a)) s = true) as Hn.
  { apply forallb_Forall. apply forallb_Forall in Hs. eapply Forall_impl; [done|]. simpl.
    intros a Ha%is_digit_alnum. unfold shouldEscape. by rewrite Ha. }
  pose proof (escape_id mode s Hn) as He. split; [done|]. rewrite <-He at 1.
  apply unescape_escape. apply forallb_Forall. apply forallb_Forall in Hn.
  eapply Forall_impl; [done|]. unfold escapable. intros a ->. done.
Qed.

Lemma digit_not a c : is_digit a = true → is_digit c = false → a ≠ c.
Proof. intros Ha Hc ->. congruence. Qed.

Lemma digits_avoid c s : forallb is_digit s = true → is_digit c = false → c ∉ s.
Proof.
  intros Hs Hc Hin. apply forallb_Forall in Hs. rewrite list.Forall_forall in Hs.
  rewrite (Hs c Hin) in Hc. done.
Qed.

(** An encoder adds nothing but [%] and hexadecimal digits. *)
Lemma escape_elem mode c s :
  c ∈ escape mode s → c = "%"%char ∨ is_alnum c = true ∨ c ∈ s.
Proof.
  induction s as [|a s IH]; simpl; [by intros ?%elem_of_nil|]. destruct (nibbles a) as [H1 H2].
  destruct (shouldEscape mode a); rewrite !elem_of_cons; [|naive_solver].
  intros [->|[->|[->|Hin]]]; [by left| | |naive_solver]; right; left; by apply upper_hex_alnum.
Qed.

Lemma split_at_escaped s :
  "%"%char ∉ s → forallb (escapable encodeHost) s = true →
  split_at (chars "%25") (escape encodeHost s) = None.
Proof.
  change (chars "%25") with ["%"; "2"; "5"]%char. induction s as [|a s IH]; [done|]. rewrite not_elem_of_cons. intros [Hne Hs]. cbn [forallb].
  intros [Ha Hall]%andb_true_iff. specialize (IH Hs Hall). unfold escapable in Ha.
  cbn [escape]. destruct (shouldEscape encodeHost a) eqn:E; cbn [negb orb] in Ha.
  - destruct (nibbles a) as [H1 H2]. pose proof (nibbles_val a) as Hv.
    set (x := byte_val a / 16) in *. set (y := byte_val a mod 16) in *.
    assert (∀ z, 0 ≤ z < 16 → upper_hex_digit z ≠ "%"%char) as Hpc.
    { intros z Hz Hq. pose proof (upper_hex_alnum z Hz) as Hal. by rewrite Hq in Hal. }
    assert (8 ≤ x) as Hx.
    { unfold escape_allowed in Ha. apply orb_true_iff in Ha as [Ha%Z.leb_le|Ha%Z.eqb_eq]; [done|].
      rewrite Ha in Hv. by destruct Hne. }
    assert (upper_hex_digit x ≠ "2"%char) as H2'.
    { intros Hq. pose proof (hex_val_upper x H1) as Hh. rewrite Hq in Hh.
      change (Some 2 = Some x) in Hh. injection Hh. lia. }
    cbn [split_at strip]. rewrite Ascii.eqb_refl.
    rewrite (proj2 (Ascii.eqb_neq "2" _)) by done.
    rewrite !(proj2 (Ascii.eqb_neq "%" _)) by (apply not_eq_sym, Hpc; done).
    by rewrite IH.
  - cbn [split_at strip].
    rewrite (proj2 (Ascii.eqb_neq "%" a)) by done. by rewrite IH.
Qed.

(** Outside a host the decoder does not depend on the part. *)
Lemma unescape_segment_app s t :
  unescape encodePath (escape encodePathSegment s ++ t)
  = match unescape encodePath t with Ok r => Ok (s ++ r) | Err e => Err e end.
Proof.
  induction s as [|a s IH]; cbn [escape app]; [by destruct (unescape encodePath t)|].
  destruct (shouldEscape encodePathSegment a) eqn:E; cbn [app unescape].
  - destruct (nibbles a) as [H1 H2]. rewrite !hex_val_upper by done. cbn [escape_allowed].
    rewrite IH, nibbles_val. by destruct (unescape encodePath t).
  - destruct (Ascii.eqb_spec a "%") as [->|_]; [done|]. cbn [in_host andb].
    rewrite IH. by destruct (unescape encodePath t).
Qed.

Lemma PathEscape_inj s t : PathEscape s = PathEscape t → s = t.
Proof.
  unfold PathEscape. intros He%(f_equal (λ x, unescape encodePathSegment (chars x))).
  rewrite !chars_unchars, !unescape_escape in He by by apply escapable_outside.
  injection He as He. by apply chars_inj.
Qed.
