(* ===== verification/UrlRoundtrip.v ===== *)
(** * A URL that was parsed is printed and read back

    First the authority, then the whole URL.  Two things do not survive in
    net/url and are excluded by name: an IPv6 zone identifier ([no_zone]; its
    bytes beyond ASCII are printed in a form the parser refuses), and
    credentials of which both halves are empty ([prints_user]; they print as
    nothing). *)

From S2P Require Import Prelude GoStrings Json Url UrlFacts.

(** ** Hosts *)

Definition no_zone (host : bytes) : Prop :=
  match host with "["%char :: _ => "%"%char ∉ host | _ => True end.

Lemma not_bracket {A} (host : bytes) (x y : A) :
  head host ≠ Some "["%char → match host with "["%char :: _ => x | _ => y end = y.
Proof. destruct host as [|[[] [] [] [] [] [] [] []] s]; done. Qed.

Lemma escape_host_head s :
  head s ≠ Some "["%char → head (escape encodeHost s) ≠ Some "["%char.
Proof. destruct s as [|a s]; [done|]. simpl. by destruct (shouldEscape encodeHost a). Qed.

Lemma unescape_host_head s r :
  unescape encodeHost s = Ok r → head s ≠ Some "["%char → head r ≠ Some "["%char.
Proof.
  intros Hu Hs. destruct s as [|a s]; [by injection Hu as <-|].
  pose proof (unescape_host _ _ Hu) as Hr. cbn [unescape] in Hu.
  destruct (Ascii.eqb_spec a "%") as [->|Hne].
  - destruct s as [|b [|c s]]; [done|done|].
    destruct (hex_val b) as [x|] eqn:Ex, (hex_val c) as [y|] eqn:Ey; try done.
    apply hex_val_range in Ex, Ey. destruct (escape_allowed encodeHost x y) eqn:Ea; [|done].
    destruct (unescape encodeHost s); [|done]. injection Hu as <-. simpl. intros [= Hb].
    apply (f_equal byte_val) in Hb. rewrite byte_val_of in Hb by lia.
    change (byte_val "[") with 91 in Hb. assert (x = 5 ∧ y = 11) as [-> ->] by lia. done.
  - destruct (in_host encodeHost && _ && _); [done|].
    destruct (unescape encodeHost s); [|done]. by injection Hu as <-.
Qed.

(** The text of a port is not changed by encoding. *)
Lemma port_plain mode p :
  validOptionalPort p = true → shouldEscape mode ":" = false →
  escape mode p = p ∧ unescape mode p = Ok p.
Proof.
  destruct p as [|a p]; [done|]. cbn [validOptionalPort].
  intros [->%Ascii.eqb_eq Hp]%andb_true_iff Hc.
  destruct (digits_plain mode p Hp) as [He Hu]. cbn [escape unescape]. rewrite Hc, He, Hu.
  by rewrite andb_false_r.
Qed.

Lemma port_avoids c p :
  validOptionalPort p = true → is_digit c = false → c ≠ ":"%char → c ∉ p.
Proof.
  destruct p as [|a p]; simpl; [intros _ _ _; apply not_elem_of_nil|].
  intros [->%Ascii.eqb_eq Hp]%andb_true_iff Hc Hne. apply not_elem_of_cons.
  split; [done|]. by apply digits_avoid.
Qed.

Lemma unescaped_Ok mode s r : unescaped mode s = Ok r → unescape mode s = Ok r.
Proof. unfold unescaped. destruct (unescape mode s); [|done]. by intros [= ->]. Qed.

Lemma unescaped_host s r :
  unescape encodeHost s = Ok r → unescaped encodeHost (escape encodeHost r) = Ok r.
Proof.
  intros Hu. unfold unescaped. by rewrite unescape_escape by by eapply host_escapable.
Qed.

(** A host without brackets. *)
Lemma parseHost_plain h0 host :
  head h0 ≠ Some "["%char → parseHost h0 = Ok host →
  parseHost (escape encodeHost host) = Ok host.
Proof.
  intros Hh Hp. unfold parseHost in *. rewrite not_bracket in Hp by done.
  assert (unescape encodeHost h0 = Ok host) as Hu.
  { destruct (cut_last ":" h0) as [[x port]|]; [destruct (validOptionalPort _); [|done]|];
      by apply unescaped_Ok. }
  rewrite not_bracket by by eapply escape_host_head, unescape_host_head.
  destruct (cut_last ":" h0) as [[x port]|] eqn:Ec.
  - destruct (validOptionalPort (":"%char :: port)) eqn:Ev; [|done].
    apply cut_last_Some in Ec as [-> Hport].
    destruct (unescape_split encodeHost x ":" port host) as (hx & hp & Hx & Hq & ->); [done..|].
    destruct (digits_plain encodeHost port) as [He Hu']; [done|]. rewrite Hu' in Hq.
    injection Hq as <-. rewrite escape_app. cbn [escape].
    change (shouldEscape encodeHost ":") with false. cbv iota.
    rewrite He, cut_last_app, Ev by done.
    rewrite <-He at 1. rewrite <-(unescaped_host _ _ Hu), escape_app. done.
  - rewrite (proj2 (cut_last_None ":" (escape encodeHost host))); [by eapply unescaped_host|].
    intros [?|[?|Hin]]%escape_elem; [done..|]. apply cut_last_None in Ec. apply Ec.
    apply unescape_host in Hu. rewrite list.Forall_forall in Hu.
    destruct (Hu _ Hin) as [?|[Hge|[? _]]]; [done| |done].
    change (byte_val ":") with 58 in Hge. lia.
Qed.

(** A zone leaves its percent sign in the host. *)
Lemma zone_shows inside h1 z r1 r2 :
  split_at (chars "%25") ("["%char :: inside) = Some (h1, z) →
  unescape encodeHost h1 = Ok r1 → unescape encodeZone z = Ok r2 →
  ∃ x y, r1 = "["%char :: x ∧ r2 = "%"%char :: y.
Proof.
  intros [Heq [w ->]]%split_at_Some H1 H2. destruct h1 as [|b h1]; [done|]. injection Heq as <- _.
  cbn in H1, H2. destruct (unescape encodeHost h1); [|done]. destruct (unescape encodeZone w); [|done].
  injection H1 as <-. injection H2 as <-. eauto.
Qed.

(** An address in brackets. *)
Lemma parseHost_literal h0 host :
  head h0 = Some "["%char → parseHost h0 = Ok host → no_zone host →
  parseHost (escape encodeHost host) = Ok host.
Proof.
  intros Hh Hp Hz. destruct h0 as [|a h0]; [done|]. injection Hh as ->.
  unfold parseHost in Hp. destruct (cut_last "]" _) as [[inside cp]|] eqn:Ec; [|done].
  destruct (validOptionalPort cp) eqn:Ev; [|done]. cbn [negb] in Hp.
  apply cut_last_Some in Ec as [Heq Hcp].
  destruct inside as [|a inside]; [done|]. injection Heq as <- Heq. rename h0 into tail0.
  destruct (split_at _ ("["%char :: inside)) as [[h1 z]|] eqn:Es.
  - exfalso. destruct (unescaped encodeHost h1) as [r1|] eqn:E1; [|done].
    destruct (unescaped encodeZone z) as [r2|] eqn:E2; [|done].
    destruct (unescaped encodeHost ("]"%char :: cp)) as [r3|] eqn:E3; [|done]. injection Hp as <-.
    apply unescaped_Ok in E1, E2. destruct (zone_shows inside h1 z r1 r2) as (x & y & -> & ->); [done..|].
    apply Hz. right. apply elem_of_app. right. left.
  - apply unescaped_Ok in Hp. rewrite Heq in Hp.
    change ("["%char :: inside ++ "]"%char :: cp) with (("["%char :: inside) ++ "]"%char :: cp) in Hp.
    pose proof (host_escapable _ _ Hp) as Hesc. pose proof Hp as Hun.
    destruct (unescape_split encodeHost ("["%char :: inside) "]" cp host) as (hi & c' & Hi & Hc & ->);
      [done..|].
    destruct (port_plain encodeHost cp Ev) as [He Hu]; [done|]. rewrite Hu in Hc. injection Hc as <-.
    assert (∃ hi', hi = "["%char :: hi') as [hi' ->].
    { cbn in Hi. destruct (unescape encodeHost inside); [|done]. injection Hi as <-. eauto. }
    assert (escape encodeHost ("["%char :: hi') = "["%char :: escape encodeHost hi') as Hbr by done.
    assert (escape encodeHost (("["%char :: hi') ++ "]"%char :: cp)
            = ("["%char :: escape encodeHost hi') ++ "]"%char :: cp) as Hpr.
    { rewrite escape_app, Hbr. cbn [escape]. change (shouldEscape encodeHost "]") with false.
      cbv iota. by rewrite He. }
    pose proof (unescaped_host _ _ Hun) as Hfin. rewrite Hpr in *. unfold parseHost. cbn [app].
    change ("["%char :: escape encodeHost hi' ++ "]"%char :: cp)
      with (("["%char :: escape encodeHost hi') ++ "]"%char :: cp).
    rewrite cut_last_app, Ev by done. cbn [negb]. rewrite <-Hbr, split_at_escaped; [by rewrite Hbr|..].
    + intros Hin. apply Hz. apply (elem_of_app ("["%char :: hi')). by left.
    + rewrite forallb_app in Hesc. by apply andb_true_iff in Hesc as [? _].
Qed.

Lemma parseHost_print h0 host :
  parseHost h0 = Ok host → no_zone host → parseHost (escape encodeHost host) = Ok host.
Proof.
  intros Hp Hz. destruct (decide (head h0 = Some "["%char)).
  - by eapply parseHost_literal.
  - by eapply parseHost_plain.
Qed.

(** ** Authorities *)

Definition prints_user (user : option Userinfo) : Prop :=
  user ≠ Some {| ui_username := []; ui_password := []; ui_passwordSet := true |}.

(** Only a password that was set has a text. *)
Definition user_ok (ui : Userinfo) : Prop := ui_passwordSet ui = false → ui_password ui = [].

Lemma parse_userinfo_ok raw ui : parse_userinfo raw = Ok ui → user_ok ui.
Proof.
  unfold parse_userinfo. destruct (negb _); [done|].
  destruct (cut ":" raw) as [[n p]|]; [|destruct (unescaped _ _); [by intros [= <-]|done]].
  destruct (unescaped _ n); [|done]. destruct (unescaped _ p); [|done]. by intros [= <-].
Qed.

Lemma escaped_userinfo s : validUserinfo (escape encodeUserPassword s) = true.
Proof.
  apply forallb_Forall, escape_Forall; [done|]. intros a.
  by destruct a as [[] [] [] [] [] [] [] []].
Qed.

Lemma unescaped_user s : unescaped encodeUserPassword (escape encodeUserPassword s) = Ok s.
Proof. unfold unescaped. by rewrite unescape_escape by by apply escapable_outside. Qed.

Lemma parse_userinfo_print ui :
  user_ok ui → prints_user (Some ui) → parse_userinfo (Userinfo_String ui) = Ok ui.
Proof.
  destruct ui as [name pw set]. unfold user_ok, Userinfo_String, prints_user, parse_userinfo.
  cbn [ui_username ui_password ui_passwordSet]. intros Hok Hp.
  destruct set.
  - destruct (nonempty name || nonempty pw) eqn:E.
    2:{ by destruct name, pw. }
    unfold validUserinfo. rewrite forallb_app. fold (validUserinfo (escape encodeUserPassword name)).
    cbn [forallb]. fold (validUserinfo (escape encodeUserPassword pw)).
    rewrite !escaped_userinfo. cbn [andb negb].
    rewrite (proj2 (cut_Some ":" _ (escape encodeUserPassword name) (escape encodeUserPassword pw)))
      by (split; [done|by apply escape_avoids]).
    by rewrite !unescaped_user.
  - rewrite (Hok eq_refl). rewrite app_nil_r.
    assert ((if nonempty name || nonempty [] then escape encodeUserPassword name else [])
            = escape encodeUserPassword name) as -> by by destruct name.
    rewrite escaped_userinfo. cbn [negb].
    rewrite (proj2 (cut_None ":" _)) by by apply escape_avoids. by rewrite unescaped_user.
Qed.

Definition print_auth (user : option Userinfo) (host : bytes) : bytes :=
  match user with Some ui => Userinfo_String ui ++ ["@"%char] | None => [] end
  ++ escape encodeHost host.

Lemma parseAuthority_print a user host :
  parseAuthority a = Ok (user, host) → no_zone host → prints_user user →
  parseAuthority (print_auth user host) = Ok (user, host).
Proof.
  unfold parseAuthority at 1. intros Ha Hz Hu.
  assert (∃ h0, parseHost h0 = Ok host ∧ ∀ ui, user = Some ui → user_ok ui) as (h0 & Hh & Hok).
  { destruct (cut_last "@" a) as [[info h]|].
    - destruct (parseHost h) as [h'|] eqn:E; [|done].
      destruct (parse_userinfo info) as [ui|] eqn:E'; [|done]. injection Ha as <- <-.
      exists h. split; [done|]. intros ? [= <-]. by eapply parse_userinfo_ok.
    - destruct (parseHost a) as [h'|] eqn:E; [|done]. injection Ha as <- <-. by exists a. }
  pose proof (parseHost_print _ _ Hh Hz) as Hp. unfold parseAuthority, print_auth.
  assert ("@"%char ∉ escape encodeHost host) as Hat by by apply escape_avoids.
  destruct user as [ui|].
  - rewrite <-app_assoc. cbn [app]. rewrite cut_last_app, Hp by done.
    rewrite parse_userinfo_print; [done|by apply Hok|done].
  - cbn [app]. by rewrite (proj2 (cut_last_None "@" _)), Hp by done.
Qed.

(** ** The characters of the parts *)

Definition is_control (a : ascii) : bool := (byte_val a <? 32) || (byte_val a =? 127).

(** Neither a control character nor one of [seps]. *)
Definition plain (seps : bytes) (a : ascii) : Prop := (is_control a || one_of seps a) = false.

Lemma plain_no_control seps s : Forall (plain seps) s → has_control s = false.
Proof.
  induction 1 as [|a s Ha _ IH]; [done|]. unfold has_control in *. simpl. unfold plain in Ha.
  apply orb_false_iff in Ha as [Ha _]. unfold is_control in Ha. by rewrite Ha.
Qed.

Lemma no_control_plain s : has_control s = false → Forall (plain []) s.
Proof.
  induction s as [|a s IH]; [constructor|]. unfold has_control. simpl.
  intros [Ha Hs]%orb_false_iff. constructor; [|by apply IH]. unfold plain, is_control.
  by rewrite Ha.
Qed.

Lemma plain_avoids seps c s : c ∈ seps → Forall (plain seps) s → c ∉ s.
Proof.
  intros Hc Hs Hin. rewrite list.Forall_forall in Hs. specialize (Hs c Hin). unfold plain in Hs.
  apply orb_false_iff in Hs as [_ Hs]. rewrite (proj2 (contains_true c seps) Hc : one_of seps c = true) in Hs.
  done.
Qed.

Lemma plain_cons c seps s : Forall (plain seps) s → c ∉ s → Forall (plain (c :: seps)) s.
Proof.
  intros Hs Hc. rewrite list.Forall_forall in *. intros a Ha. specialize (Hs a Ha). unfold plain in *.
  simpl. destruct (Ascii.eqb_spec a c) as [->|_]; [done|done].
Qed.

Lemma plain_fewer seps seps' s :
  (∀ c, c ∈ seps' → c ∈ seps) → Forall (plain seps) s → Forall (plain seps') s.
Proof.
  intros Hsub Hs. eapply Forall_impl; [exact Hs|]. intros a [Hc Ha]%orb_false_iff.
  unfold plain. rewrite Hc.
  destruct (one_of seps' a) eqn:E; [|done].
  apply (contains_true a seps'), Hsub, (contains_true a seps) in E. unfold contains in E.
  unfold one_of in Ha. congruence.
Qed.

Definition path_seps : bytes := ["#"; "?"]%char.
Definition auth_seps : bytes := ["/"; "#"; "?"]%char.

Lemma escape_plain mode seps s :
  plain seps "%" → (∀ a, shouldEscape mode a = false → plain seps a) →
  Forall (plain seps) (escape mode s).
Proof. apply escape_Forall. Qed.

Lemma host_plain s : Forall (plain auth_seps) (escape encodeHost s).
Proof. apply escape_plain; [done|]. intros a. by destruct a as [[] [] [] [] [] [] [] []]. Qed.

Lemma user_plain s : Forall (plain auth_seps) (escape encodeUserPassword s).
Proof. apply escape_plain; [done|]. intros a. by destruct a as [[] [] [] [] [] [] [] []]. Qed.

Lemma auth_plain user host : Forall (plain auth_seps) (print_auth user host).
Proof.
  unfold print_auth. apply Forall_app. split; [|apply host_plain]. destruct user as [ui|]; [|constructor].
  apply Forall_app. split; [|by repeat constructor]. unfold Userinfo_String.
  destruct (_ || _); [|constructor]. apply Forall_app. split; [apply user_plain|].
  destruct (ui_passwordSet ui); [|constructor]. constructor; [done|apply user_plain].
Qed.

Lemma path_plain p path raw :
  decoded encodePath p = Ok (path, raw) → Forall (plain path_seps) p →
  Forall (plain path_seps) (shown encodePath raw path).
Proof.
  intros Hp Hc. eapply shown_Forall; [done..|]. intros a. by destruct a as [[] [] [] [] [] [] [] []].
Qed.

(** ** What a parsed URL with a scheme is made of *)

Definition pquery (force : bool) (query : bytes) : bytes :=
  if force || nonempty query then "?"%char :: query else [].

Lemma split_query_spec rest hier force query :
  split_query rest = (hier, force, query) →
  rest = hier ++ pquery force query ∧ ("?"%char ∉ hier) ∧ (force = true → query = []).
Proof.
  unfold split_query, pquery. destruct (cut "?" rest) as [[x y]|] eqn:E.
  - apply cut_Some in E as [-> Hx]. by destruct y; intros [= <- <- <-].
  - apply cut_None in E. intros [= <- <- <-]. simpl. by rewrite app_nil_r.
Qed.

Lemma split_query_print hier force query :
  "?"%char ∉ hier → (force = true → query = []) →
  split_query (hier ++ pquery force query) = (hier, force, query).
Proof.
  intros Hh Hf. unfold split_query, pquery. destruct (force || nonempty query) eqn:E.
  - rewrite (proj2 (cut_Some "?" _ hier query)) by done.
    destruct query; [by destruct force|]. destruct force; [by specialize (Hf eq_refl)|done].
  - apply orb_false_iff in E as [-> Hq]. destruct query; [|done].
    rewrite app_nil_r. by rewrite (proj2 (cut_None "?" hier)).
Qed.

Lemma getScheme_at_Some i s x y : getScheme_at i s = Ok (Some (x, y)) → s = x ++ ":"%char :: y.
Proof.
  revert i x. induction s as [|a s IH]; intros i x; simpl; [done|]. destruct (_ || _).
  - destruct (getScheme_at (S i) s) as [[[x' y']|]|] eqn:E; try done. intros [= <- <-].
    simpl. by rewrite (IH _ _ E).
  - destruct (Ascii.eqb_spec a ":") as [->|_]; [|done]. destruct (Nat.eqb i 0); [done|].
    by intros [= <- <-].
Qed.

Lemma getScheme_at_any i s x y r :
  getScheme_at i s = Ok (Some (x, y)) → getScheme_at i (x ++ ":"%char :: r) = Ok (Some (x, r)).
Proof.
  revert i x. induction s as [|a s IH]; intros i x; cbn [getScheme_at]; [done|].
  destruct (_ || _) eqn:Ea.
  - destruct (getScheme_at (S i) s) as [[[x' y']|]|] eqn:E; try done. intros [= <- <-].
    cbn [app getScheme_at]. by rewrite Ea, (IH _ _ E).
  - destruct (Ascii.eqb_spec a ":") as [->|_]; [|done]. destruct (Nat.eqb i 0) eqn:Ei; [done|].
    intros [= <- <-]. by destruct i.
Qed.

(** A scheme is read whatever follows it. *)
Lemma getScheme_any raw s0 rest r :
  getScheme raw = Ok (s0, rest) → s0 ≠ [] →
  raw = s0 ++ ":"%char :: rest ∧ getScheme (s0 ++ ":"%char :: r) = Ok (s0, r).
Proof.
  unfold getScheme. destruct (getScheme_at 0 raw) as [[[x y]|]|] eqn:E; try done.
  - intros [= <- <-] _. split; [by eapply getScheme_at_Some|].
    by rewrite (getScheme_at_any _ _ _ _ r E).
  - by intros [= <- <-].
Qed.

Lemma split_authority_Some scheme rest a p :
  split_authority scheme rest = Some (a, p) →
  rest = chars "//" ++ a ++ p ∧ ("/"%char ∉ a) ∧ path_like p.
Proof.
  unfold split_authority, path_like. destruct (nonempty scheme || _); [|done].
  destruct (strip (chars "//") rest) as [r|] eqn:E; [|done]. apply strip_Some in E as ->.
  destruct (cut "/" r) as [[x y]|] eqn:Ec; intros [= <- <-].
  - apply cut_Some in Ec as [-> Hx]. by repeat split; try right.
  - apply cut_None in Ec. rewrite app_nil_r. by repeat split; try left.
Qed.

Lemma split_authority_print scheme a p :
  nonempty scheme = true → "/"%char ∉ a → path_like p →
  split_authority scheme (chars "//" ++ a ++ p) = Some (a, p).
Proof.
  intros Hs Ha Hp. unfold split_authority. rewrite Hs, strip_app. simpl. destruct Hp as [->|Hr].
  - rewrite app_nil_r. by rewrite (proj2 (cut_None "/" a)).
  - destruct p as [|b p]; [done|]. destruct (Ascii.eqb_spec b "/") as [->|Hne].
    + by rewrite (proj2 (cut_Some "/" _ a p)).
    + by destruct b as [[] [] [] [] [] [] [] []].
Qed.

(** The hierarchical part: nothing but an opaque text, or an authority and a
    path ([u_OmitHost] apart). *)
Inductive hier_parts (u : URL) : Prop :=
| OpaquePart :
    u_User u = None → u_Host u = [] → u_Path u = [] → u_RawPath u = [] → u_OmitHost u = false →
    rooted (u_Opaque u) = false → Forall (plain path_seps) (u_Opaque u) → hier_parts u
| AuthorityPart a p :
    u_Opaque u = [] → u_OmitHost u = false →
    parseAuthority a = Ok (u_User u, u_Host u) →
    decoded encodePath p = Ok (u_Path u, u_RawPath u) → path_like p →
    Forall (plain path_seps) p → hier_parts u
| OmittedHost : u_OmitHost u = true → hier_parts u.

Record query_parts (u : URL) : Prop := {
  qp_plain : Forall (plain ["#"%char]) (u_RawQuery u);
  qp_force : u_ForceQuery u = true → u_RawQuery u = []
}.

Lemma parse_hier_parts scheme rest user host path raw omit :
  parse_hier scheme rest = Ok (user, host, path, raw, omit) → nonempty scheme = true →
  rooted rest = true →
  (omit = true) ∨ (omit = false ∧ ∃ a p, rest = chars "//" ++ a ++ p ∧ path_like p
    ∧ parseAuthority a = Ok (user, host) ∧ decoded encodePath p = Ok (path, raw)).
Proof.
  unfold parse_hier. intros Hp Hs Hr. destruct (split_authority scheme rest) as [[a p]|] eqn:E.
  - right. apply split_authority_Some in E as (-> & _ & Hlike).
    destruct (parseAuthority a) as [[us ho]|] eqn:Ea; [|done].
    destruct (decoded encodePath p) as [[pa ra]|] eqn:Ed; [|done]. injection Hp as <- <- <- <- <-.
    split; [done|]. by exists a, p.
  - left. destruct (decoded encodePath rest) as [[pa ra]|]; [|done]. injection Hp as <- <- <- <- <-.
    rewrite Hs. unfold rooted in Hr. by rewrite Hr.
Qed.

Lemma parse_parts raw u :
  parse raw = Ok u → "#"%char ∉ raw → nonempty (u_Scheme u) = true →
  hier_parts u ∧ query_parts u ∧ u_Fragment u = [] ∧ u_RawFragment u = [].
Proof.
  unfold parse. destruct (has_control raw) eqn:Hc; [done|]. intros Hp Hno Hs.
  destruct (bytes_eqb raw ["*"%char]); [by injection Hp as <-|].
  destruct (getScheme raw) as [[s0 rest0]|] eqn:Eg; [|done].
  destruct (split_query rest0) as [[rest force] query] eqn:Eq. cbv zeta in Hp.
  fold (rooted rest) in Hp.
  assert (nonempty (map ascii_lower s0) = true) as Hs0.
  { revert Hp. destruct (negb (rooted rest) && nonempty (map ascii_lower s0)); [by intros [= <-]|].
    destruct (negb (rooted rest) && _); [done|].
    destruct (parse_hier _ rest) as [[[[[? ?] ?] ?] ?]|]; [by intros [= <-]|done]. }
  apply (getScheme_any _ _ _ []) in Eg as [Hraw _]; [|by destruct s0].
  apply split_query_spec in Eq as (-> & Hq & Hf).
  assert (Forall (plain ["#"%char]) (rest ++ pquery force query)) as Hall.
  { apply no_control_plain in Hc. apply (plain_cons "#") in Hc; [|done].
    rewrite Hraw in Hc. apply Forall_app in Hc as [_ Hc]. by inversion Hc. }
  apply Forall_app in Hall as [Hrest Hquery].
  assert (Forall (plain ["#"%char]) query) as Hquery'.
  { unfold pquery in Hquery. destruct query; [constructor|]. rewrite orb_true_r in Hquery.
    by inversion Hquery. }
  assert (Forall (plain path_seps) rest) as Hrest'.
  { apply (plain_cons "?") in Hrest; [|done]. eapply plain_fewer; [|done]. set_solver. }
  rewrite Hs0, andb_true_r in Hp. destruct (rooted rest) eqn:Hr; cbn [negb andb] in Hp.
  - destruct (parse_hier _ rest) as [[[[[user host] path] rp] omit]|] eqn:E; [|done].
    injection Hp as <-. split; [|by split].
    apply parse_hier_parts in E as [->|(-> & a & p & -> & Hlike & Ha & Hd)]; [by apply OmittedHost| |done..].
    apply (AuthorityPart _ a p); try done. by apply Forall_app in Hrest' as [_ [_ ?]%Forall_app].
  - injection Hp as <-. split; [by apply OpaquePart|by split].
Qed.

(** ** Printing and reading back *)

(** Equal in everything a server or a client sees of a URL. *)
Record same_url (u v : URL) : Prop := {
  same_Scheme : u_Scheme v = u_Scheme u;
  same_Opaque : u_Opaque v = u_Opaque u;
  same_User : u_User v = u_User u;
  same_Host : u_Host v = u_Host u;
  same_Path : u_Path v = u_Path u;
  same_EscapedPath : EscapedPath v = EscapedPath u;
  same_ForceQuery : u_ForceQuery v = u_ForceQuery u;
  same_RawQuery : u_RawQuery v = u_RawQuery u;
  same_Fragment : u_Fragment v = u_Fragment u;
  same_EscapedFragment : EscapedFragment v = EscapedFragment u
}.

Record scheme_like (s : bytes) : Prop := {
  sl_nonempty : nonempty s = true;
  sl_read r : getScheme (s ++ ":"%char :: r) = Ok (s, r);
  sl_lower : map ascii_lower s = s;
  sl_plain : Forall (plain path_seps) s
}.

(** The hierarchical part as it is printed. *)
Definition body (u : URL) : bytes :=
  if nonempty (u_Opaque u) then u_Opaque u else print_authority u ++ print_path u.

Lemma body_authority u :
  nonempty (u_Scheme u) = true → u_Opaque u = [] → u_OmitHost u = false → path_like (u_Path u) →
  path_like (EscapedPath u) → (EscapedPath u = [] ↔ u_Path u = []) →
  body u = if nonempty (u_Host u) || nonempty (u_Path u) || has_user u
           then chars "//" ++ print_auth (u_User u) (u_Host u) ++ EscapedPath u else [].
Proof.
  intros Hs Ho Hom Hp Hep Hnil. unfold body, print_authority, print_path, print_scheme, print_auth.
  rewrite Ho, Hs, Hom. cbn [nonempty orb andb]. cbv zeta.
  destruct (u_Scheme u) as [|a s]; [done|]. cbn [app nonempty negb andb].
  assert (match EscapedPath u with [] | "/"%char :: _ => []
          | _ => if nonempty (u_Host u) then ["/"%char] else [] end = []) as ->.
  { destruct Hep as [->|Hr]; [done|]. destruct (EscapedPath u) as [|b p]; [done|].
    by destruct b as [[] [] [] [] [] [] [] []]. }
  cbn [app]. destruct (_ || has_user u) eqn:E; [by rewrite <-!app_assoc|].
  apply orb_false_iff in E as [[Hh Hpa]%orb_false_iff Hu].
  destruct (u_Host u), (u_Path u); try done. unfold has_user in Hu. destruct (u_User u); [done|].
  by rewrite (proj2 Hnil eq_refl).
Qed.


(** The steps of [parse] that every URL with a scheme takes. *)
Lemma parse_steps s hier force query :
  scheme_like s → Forall (plain path_seps) hier → Forall (plain ["#"%char]) query →
  (force = true → query = []) →
  parse (s ++ ":"%char :: hier ++ pquery force query)
  = if rooted hier then
      match parse_hier s hier with
      | Err e => Err e
      | Ok (user, host, path, raw, omit) =>
          Ok {| u_Scheme := s; u_Opaque := []; u_User := user; u_Host := host; u_Path := path;
                u_RawPath := raw; u_OmitHost := omit; u_ForceQuery := force; u_RawQuery := query;
                u_Fragment := []; u_RawFragment := [] |}
      end
    else Ok {| u_Scheme := s; u_Opaque := hier; u_User := None; u_Host := []; u_Path := [];
               u_RawPath := []; u_OmitHost := false; u_ForceQuery := force; u_RawQuery := query;
               u_Fragment := []; u_RawFragment := [] |}.
Proof.
  intros Hs Hh Hq Hf. unfold parse. rewrite (plain_no_control []).
  2:{ apply Forall_app. split; [eapply plain_fewer; [|apply (sl_plain _ Hs)]; set_solver|].
      constructor; [done|]. apply Forall_app. split; [eapply plain_fewer; [|exact Hh]; set_solver|].
      unfold pquery. destruct (_ || _); [|constructor]. constructor; [done|].
      eapply plain_fewer; [|exact Hq]. set_solver. }
  assert (bytes_eqb (s ++ ":"%char :: hier ++ pquery force query) ["*"%char] = false) as ->.
  { apply bool_decide_eq_false_2. intros Heq%(f_equal length). rewrite length_app in Heq.
    pose proof (sl_nonempty _ Hs). destruct s; [done|]. simpl in Heq. lia. }
  rewrite (sl_read _ Hs), (sl_lower _ Hs), (sl_nonempty _ Hs). cbv zeta.
  rewrite split_query_print; [|by eapply plain_avoids; [|exact Hh]; set_solver|done].
  fold (rooted hier). rewrite andb_true_r. by destruct (rooted hier).
Qed.

Lemma parse_hier_print s a user host p path raw :
  nonempty s = true → parseAuthority a = Ok (user, host) → no_zone host → prints_user user →
  decoded encodePath p = Ok (path, raw) → path_like p →
  ∃ raw', parse_hier s (chars "//" ++ print_auth user host ++ shown encodePath raw path)
            = Ok (user, host, path, raw', false)
    ∧ shown encodePath raw' path = shown encodePath raw path.
Proof.
  intros Hs Ha Hz Hu Hd Hp. destruct (shown_path _ _ _ Hd Hp) as (Hshown & _).
  destruct (decoded_shown encodePath _ _ _ eq_refl Hd) as (raw' & Hd' & Hsh). exists raw'.
  split; [|done]. unfold parse_hier. rewrite split_authority_print; [|done| |done].
  - by rewrite (parseAuthority_print _ _ _ Ha Hz Hu), Hd'.
  - eapply plain_avoids; [|apply auth_plain]. left.
Qed.

Lemma parse_body u :
  scheme_like (u_Scheme u) → hier_parts u → query_parts u → u_OmitHost u = false →
  no_zone (u_Host u) → prints_user (u_User u) →
  ∃ raw, parse (u_Scheme u ++ ":"%char :: body u ++ print_query u)
    = Ok {| u_Scheme := u_Scheme u; u_Opaque := u_Opaque u; u_User := u_User u; u_Host := u_Host u;
            u_Path := u_Path u; u_RawPath := raw; u_OmitHost := false;
            u_ForceQuery := u_ForceQuery u; u_RawQuery := u_RawQuery u;
            u_Fragment := []; u_RawFragment := [] |}
    ∧ path_like (u_Path u)
    ∧ shown encodePath raw (u_Path u) = shown encodePath (u_RawPath u) (u_Path u)
    ∧ Forall (plain path_seps) (body u).
Proof.
  intros Hs Hh [Hq Hf] Hom Hz Hu. fold (pquery (u_ForceQuery u) (u_RawQuery u)).
  change (print_query u) with (pquery (u_ForceQuery u) (u_RawQuery u)).
  pose proof (sl_nonempty _ Hs) as Hne.
  destruct Hh as [E1 E2 E3 E4 _ Hr Hpl|a p Ho _ Ha Hd Hp Hpl|]; [| |congruence].
  - assert (body u = u_Opaque u) as Eb.
    { unfold body. destruct (u_Opaque u) eqn:Eo; [|done]. cbn [nonempty].
      unfold print_authority, print_path, print_scheme, has_user. rewrite Hne, E1, E2, E3, Hom.
      unfold EscapedPath. rewrite E3, E4. cbn. by destruct (u_Scheme u). }
    exists []. rewrite Eb, parse_steps, Hr, E1, E2, E3, E4 by done. unfold path_like. auto.
  - destruct (shown_path _ _ _ Hd Hp) as (Hshown & Hlike & Hnil & Hnil').
    pose proof (EscapedPath_shown u Hlike) as Hep.
    rewrite (body_authority u) by (rewrite ?Hep; tauto). rewrite Hep.
    destruct (_ || has_user u) eqn:E.
    + destruct (parse_hier_print (u_Scheme u) a _ _ p _ _ Hne Ha Hz Hu Hd Hp) as (raw & Hph & Hsh).
      assert (Forall (plain path_seps) (chars "//" ++ print_auth (u_User u) (u_Host u)
              ++ shown encodePath (u_RawPath u) (u_Path u))) as Hplain.
      { apply Forall_app. split; [by repeat constructor|]. apply Forall_app.
        split; [|by eapply path_plain]. eapply plain_fewer; [|apply auth_plain]. set_solver. }
      exists raw. rewrite parse_steps, Hph, Ho by done. done.
    + apply orb_false_iff in E as [[Hh0 Hp0]%orb_false_iff Hu0].
      destruct (u_Host u), (u_Path u); try done. unfold has_user in Hu0.
      destruct (u_User u); [done|]. exists []. rewrite parse_steps, Ho by done. cbn [rooted].
      split; [done|]. split; [by left|]. split; [|constructor].
      rewrite (proj2 Hnil') by by apply Hnil. done.
Qed.

(** The fragment, when there is one, is what the decoder makes of some text. *)
Definition fragment_parts (u : URL) : Prop :=
  u_Fragment u = [] ∧ u_RawFragment u = []
  ∨ ∃ f, decoded encodeFragment f = Ok (u_Fragment u, u_RawFragment u).

Lemma empty_fragment u : fragment_parts u → u_Fragment u = [] → u_RawFragment u = [].
Proof.
  intros [[_ ?]|[f Hd]] Hf; [done|]. apply decoded_Ok in Hd as [Hu Hr]. rewrite Hf in *.
  apply unescape_nil in Hu as ->. done.
Qed.

Lemma url_parts_of raw u :
  parse_url raw = Ok u → nonempty (u_Scheme u) = true →
  hier_parts u ∧ query_parts u ∧ fragment_parts u.
Proof.
  unfold parse_url. intros Hp Hs. destruct (cut "#" raw) as [[x [|b f]]|] eqn:Ec.
  - apply cut_Some in Ec as [-> Hx]. rewrite before_app in Hp by done.
    destruct (parse x) as [r|] eqn:E; [|done]. injection Hp as <-.
    apply parse_parts in E as (? & ? & ? & ?); [|done..].
    split; [done|]. split; [done|by left].
  - apply cut_Some in Ec as [-> Hx]. destruct (parse x) as [r|] eqn:E; [|done].
    destruct (decoded encodeFragment (b :: f)) as [[fr rf]|] eqn:Ed; [|done]. injection Hp as <-.
    apply parse_parts in E as (Hh & [Hq Hf] & _); [|done..]. split.
    + destruct Hh as [| |]; [by apply OpaquePart|by eapply AuthorityPart|by apply OmittedHost].
    + split; [by split|]. right. by exists (b :: f).
  - apply cut_None in Ec. rewrite before_id in Hp by done.
    destruct (parse raw) as [r|] eqn:E; [|done]. injection Hp as <-.
    apply parse_parts in E as (? & ? & ? & ?); [|done..].
    split; [done|]. split; [done|by left].
Qed.

Lemma print_parse u :
  scheme_like (u_Scheme u) → hier_parts u → query_parts u → fragment_parts u →
  u_OmitHost u = false → no_zone (u_Host u) → prints_user (u_User u) →
  ∃ v, parse_url (print_url u) = Ok v ∧ same_url u v.
Proof.
  intros Hs Hh Hq Hf Hom Hz Hu.
  destruct (parse_body u Hs Hh Hq Hom Hz Hu) as (raw & Hp & Hlike & Hsh & Hpl).
  set (front := u_Scheme u ++ ":"%char :: body u ++ print_query u) in *.
  assert (print_url u = front ++ print_fragment u) as ->.
  { unfold print_url, print_scheme, front. rewrite (sl_nonempty _ Hs). fold (body u).
    rewrite <-!app_assoc. cbn [app]. by rewrite <-!app_assoc. }
  assert ("#"%char ∉ front) as Hno.
  { assert (Forall (plain ["#"%char]) front) as HF.
    { unfold front. apply Forall_app. split; [eapply plain_fewer; [|apply (sl_plain _ Hs)]; set_solver|].
      constructor; [done|]. apply Forall_app. split; [eapply plain_fewer; [|exact Hpl]; set_solver|].
      unfold print_query. destruct (_ || _); [|constructor]. constructor; [done|apply Hq]. }
    eapply plain_avoids; [|exact HF]. left. }
  unfold parse_url, print_fragment. destruct (nonempty (u_Fragment u)) eqn:Ef.
  - destruct Hf as [[Hf _]|[f Hd]]; [by rewrite Hf in Ef|]. rewrite EscapedFragment_shown.
    rewrite (proj2 (cut_Some "#" _ front (shown encodeFragment (u_RawFragment u) (u_Fragment u))))
      by done.
    destruct (decoded_shown encodeFragment _ _ _ eq_refl Hd) as (rf & Hd' & Hrf).
    destruct (shown encodeFragment (u_RawFragment u) (u_Fragment u)) as [|b t] eqn:Esh.
    { apply decoded_Ok in Hd' as [[= Hun] _]. by rewrite <-Hun in Ef. }
    rewrite Hp, Hd'. eexists. split; [reflexivity|].
    split; try done; [by rewrite !EscapedPath_shown|by rewrite !EscapedFragment_shown, Esh].
  - rewrite app_nil_r. rewrite (proj2 (cut_None "#" _) Hno), before_id, Hp by done.
    destruct (u_Fragment u) eqn:Efr; [|done].
    eexists. split; [reflexivity|]. split; try done; [by rewrite !EscapedPath_shown|].
    by rewrite (EscapedFragment_shown u), (empty_fragment u Hf Efr), Efr.
Qed.
