(* ===== verification/Identity.v ===== *)
(** * internal/identity: CPF normalisation and the citizen fingerprint *)

From S2P Require Import Prelude GoStrings Sha256.

Definition is_decimal (a : ascii) : bool :=
  match digit_val a with Some _ => true | None => false end.

(** [NormalizeCPF11]: the range test on runes fails on every byte of a
    multi-byte rune, so it is a test on bytes. *)
Definition NormalizeCPF11 (s : string) : result string string :=
  let s := TrimSpace s in
  if negb (String.length s =? 11)%nat then Err "cpf must be exactly 11 digits"
  else if negb (forallb is_decimal (chars s)) then Err "cpf must contain only digits"
  else Ok s.

Definition CitizenFingerprint (pepper cpf11Digits : string) : string :=
  hmac_sha256 pepper cpf11Digits.

(** What a normalised CPF is: eleven ASCII digits. *)
Definition cpf11 (s : string) : Prop :=
  String.length s = 11%nat ∧ Forall (λ a, is_decimal a = true) (chars s).

Lemma NormalizeCPF11_Ok s d : NormalizeCPF11 s = Ok d ↔ d = TrimSpace s ∧ cpf11 d.
Proof.
  unfold NormalizeCPF11, cpf11.
  destruct (Nat.eqb_spec (String.length (TrimSpace s)) 11) as [Hl|Hl]; simpl; [|naive_solver].
  destruct (forallb is_decimal (chars (TrimSpace s))) eqn:Hd; simpl.
  - apply forallb_Forall in Hd. naive_solver.
  - split; [done|]. intros (-> & _ & H). apply forallb_Forall in H. congruence.
Qed.

Lemma is_decimal_range a : is_decimal a = true → 48 ≤ byte_val a ≤ 57.
Proof.
  unfold is_decimal, digit_val. destruct (_ && _) eqn:E; [|done].
  intros _. apply andb_prop in E as [?%Z.leb_le ?%Z.leb_le]. lia.
Qed.

(** No white space encoding starts or ends with a digit. *)
Lemma strip_any_digit es a s :
  (∀ e, e ∈ es → ∃ b r, e = b :: r ∧ ¬ 48 ≤ byte_val b ≤ 57) →
  is_decimal a = true → strip_any es (a :: s) = None.
Proof.
  intros Hes Ha. apply strip_any_None. intros e (b & r & -> & Hb)%Hes. simpl.
  destruct (Ascii.eqb_spec b a) as [->|]; [|done].
  by apply is_decimal_range in Ha.
Qed.

Lemma space_heads_not_digits :
  Forall (λ e, ∃ b r, e = b :: r ∧ ¬ 48 ≤ byte_val b ≤ 57) (space_encodings ++ rev_encodings).
Proof.
  apply Forall_forall. intros e He.
  assert (forallb (λ e, match e with
    | b :: _ => negb ((48 <=? byte_val b) && (byte_val b <=? 57)) | [] => false end)
    (space_encodings ++ rev_encodings) = true) as H by (by vm_compute).
  rewrite forallb_forall in H. specialize (H e (proj1 (list_elem_of_In _ _) He)).
  destruct e as [|b r]; [done|]. exists b, r. split; [done|]. lia.
Qed.

Lemma TrimSpace_digits s :
  s ≠ "" → Forall (λ a, is_decimal a = true) (chars s) → TrimSpace s = s.
Proof.
  intros Hne Hd. pose proof space_heads_not_digits as Hh. rewrite Forall_app in Hh.
  destruct Hh as [Hh1 Hh2]. rewrite Forall_forall in Hh1, Hh2.
  apply TrimSpace_id.
  - destruct s as [|a s]; [done|]. cbn [list_ascii_of_string] in *. apply Forall_cons in Hd as [Ha _].
    by apply strip_any_digit.
  - apply Forall_rev in Hd. destruct (rev (chars s)) as [|a r] eqn:E.
    + destruct s; [done|]. apply (f_equal length) in E. rewrite length_rev in E. done.
    + apply Forall_cons in Hd as [Ha _]. by apply strip_any_digit.
Qed.

Lemma NormalizeCPF11_cpf11 d : cpf11 d → NormalizeCPF11 d = Ok d.
Proof.
  intros [Hl Hd]. apply NormalizeCPF11_Ok. rewrite TrimSpace_digits; [done| |done].
  by intros ->.
Qed.

Lemma CitizenFingerprint_length pepper cpf : String.length (CitizenFingerprint pepper cpf) = 32%nat.
Proof. apply hmac_sha256_length. Qed.
