(* ===== verification/Uuid.v ===== *)
(** * UUIDs ([github.com/google/uuid])

    A UUID is sixteen bytes, here the number they spell in big-endian order
    (the order PostgreSQL compares them in).  The text form belongs to the
    library, so [uuid.UUID.String] and [uuid.Parse] are an interface; what the
    program relies on is that parsing undoes printing. *)

From S2P Require Import Prelude.
From Stdlib Require Import DecimalString DecimalN.

Record uuid := Uuid { uuid_val : N }.

#[export] Instance uuid_eq_dec : EqDecision uuid.
Proof. solve_decision. Defined.

#[export] Instance uuid_countable : Countable uuid.
Proof. by apply (inj_countable' uuid_val Uuid); intros []. Defined.

Definition uuid_Nil : uuid := Uuid 0.

(** Byte order, used by [ORDER BY ... id]. *)
Definition uuid_leb (x y : uuid) : bool := (uuid_val x <=? uuid_val y)%N.

Class UuidText := {
  uuid_String : uuid → string;
  uuid_Parse : string → option uuid
}.

Class UuidTextOk `(UuidText) := {
  uuid_Parse_String u : uuid_Parse (uuid_String u) = Some u
}.

(** A text form to evaluate examples with: decimal digits. *)
Definition decimal_uuid_text : UuidText := {|
  uuid_String u := NilEmpty.string_of_uint (N.to_uint (uuid_val u));
  uuid_Parse s := match NilEmpty.uint_of_string s with
                  | Some d => Some (Uuid (N.of_uint d)) | None => None end
|}.

Lemma decimal_uuid_text_ok : UuidTextOk decimal_uuid_text.
Proof.
  constructor. intros [n]. simpl. rewrite NilEmpty.usu. simpl.
  by rewrite DecimalN.Unsigned.of_to.
Qed.
