(* ===== verification/Payload.v ===== *)
(** * internal/webhook: signature, payload, idempotency key, outbox payload

    The pure part of the webhook: what is verified, decoded, validated and
    derived before anything is stored. *)

From S2P Require Import Prelude GoStrings Sha256 GoTime Json Identity Uuid.

(** ** errors.go *)

Inductive webhook_error :=
| ErrMissingSignature
| ErrInvalidSignature
| ErrInvalidPayload (detail : string).

(** ** signature.go *)

Definition stripSHA256Prefix (s : string) : string * bool :=
  let s := TrimSpace s in
  if (String.length s <? 7)%nat then ("", false)
  else if negb (EqualFold (unchars (take 7 (chars s))) "sha256=") then ("", false)
  else (unchars (drop 7 (chars s)), true).

Definition VerifySignature (body secret header : string) : option webhook_error :=
  let header := TrimSpace header in
  if String.eqb header "" then Some ErrMissingSignature
  else
    let '(hexPart, ok) := stripSHA256Prefix header in
    if negb ok then Some ErrInvalidSignature
    else match hex_DecodeString hexPart with
         | None => Some ErrInvalidSignature
         | Some gotMAC =>
             if negb (String.length gotMAC =? 32)%nat then Some ErrInvalidSignature
             else
               let wantMAC := hmac_sha256 secret body in
               if negb (ConstantTimeCompare gotMAC wantMAC =? 1) then Some ErrInvalidSignature
               else None
         end.

(** ** payload.go *)

Record EventPayload := {
  ChamadoID : string;
  Tipo : string;
  CPF : string;
  StatusAnterior : string;
  StatusNovo : string;
  Titulo : string;
  Descricao : string;
  Timestamp : string
}.

Definition empty_payload : EventPayload :=
  {| ChamadoID := ""; Tipo := ""; CPF := ""; StatusAnterior := ""; StatusNovo := "";
     Titulo := ""; Descricao := ""; Timestamp := "" |}.

Definition set_CPF (c : string) (p : EventPayload) : EventPayload :=
  {| ChamadoID := ChamadoID p; Tipo := Tipo p; CPF := c; StatusAnterior := StatusAnterior p;
     StatusNovo := StatusNovo p; Titulo := Titulo p; Descricao := Descricao p;
     Timestamp := Timestamp p |}.

Definition blank (s : string) : bool := String.eqb (TrimSpace s) "".

(** [Validate] writes the normalised CPF back into the payload: the payload as
    the call leaves it, and the error. *)
Definition Validate (p : EventPayload) : EventPayload * option webhook_error :=
  if blank (ChamadoID p) || blank (Tipo p) || blank (StatusNovo p) || blank (Titulo p)
     || blank (Descricao p) || blank (Timestamp p)
  then (p, Some (ErrInvalidPayload "missing required fields"))
  else match NormalizeCPF11 (CPF p) with
       | Err e => (p, Some (ErrInvalidPayload e))
       | Ok digits =>
           let p := set_CPF digits p in
           match Parse RFC3339Nano (Timestamp p) with
           | Some _ => (p, None)
           | None => match Parse RFC3339 (Timestamp p) with
                     | Some _ => (p, None)
                     | None => (p, Some (ErrInvalidPayload "invalid timestamp"))
                     end
           end
       end.

Definition ParsedTimestamp (p : EventPayload) : option time :=
  match Parse RFC3339Nano (Timestamp p) with
  | Some t => Some t
  | None => Parse RFC3339 (Timestamp p)
  end.

(** ** idempotency.go *)

Definition canonical (p : EventPayload) : string :=
  "v1|" +:+ ChamadoID p +:+ "|" +:+ StatusNovo p +:+ "|" +:+ Timestamp p +:+ "|" +:+ Tipo p.

Definition IdempotencyKey (p : EventPayload) : string := hex_EncodeToString (Sum256 (canonical p)).

(** ** body.go *)

Inductive body_error :=
| errBodyTooLarge
| ReadError (msg : string).

(** A request body as the connection delivers it: its bytes, then end of file
    or a read error. *)
Record body_stream := { delivered : string; read_error : option string }.

Definition maxWebhookBodyBytes : Z := Z.shiftl 512 10.

(** [http.MaxBytesReader] fails once more than [limit] bytes arrive. *)
Definition readLimitedBody (b : body_stream) (limit : Z) : result body_error string :=
  if limit <? Z.of_nat (String.length (delivered b)) then Err errBodyTooLarge
  else match read_error b with
       | Some e => Err (ReadError e)
       | None => Ok (delivered b)
       end.

Definition payload_names : list string :=
  ["chamado_id"; "tipo"; "cpf"; "status_anterior"; "status_novo"; "titulo"; "descricao";
   "timestamp"].

Definition set_payload_field (f v : string) (p : EventPayload) : EventPayload :=
  let upd g old := if String.eqb f g then v else old in
  {| ChamadoID := upd "chamado_id" (ChamadoID p); Tipo := upd "tipo" (Tipo p);
     CPF := upd "cpf" (CPF p); StatusAnterior := upd "status_anterior" (StatusAnterior p);
     StatusNovo := upd "status_novo" (StatusNovo p); Titulo := upd "titulo" (Titulo p);
     Descricao := upd "descricao" (Descricao p); Timestamp := upd "timestamp" (Timestamp p) |}.

(** [None]: a syntax error, a member that is no string, or an unknown member. *)
Definition unmarshalStrictJSON (body : string) (p : EventPayload) : option EventPayload :=
  match decode_first body with
  | None => None
  | Some (v, _) => decode_struct payload_names set_payload_field true v p
  end.

(** ** ws_payload.go *)

(** [time.Time.MarshalJSON] refuses years that do not have four digits. *)
Definition time_json (t : time) : result string json :=
  let y := cv_year (civil_of_days (t / Second / 86400)) in
  if (0 <=? y) && (y <=? 9999) then Ok (JStr (Format t))
  else Err "Time.MarshalJSON: year outside of range [0,9999]".

Record notificationOutbox := {
  no_Type : string;
  no_ID : string;
  no_ChamadoID : string;
  no_Title : string;
  no_Body : string;
  no_CreatedAt : time;
  no_StatusAnterior : option string;
  no_StatusNovo : option string;
  no_EventType : option string;
  no_SourceTimestamp : option time
}.

Definition omitempty (k : string) (v : option string) : list (string * json) :=
  match v with Some s => [(k, JStr s)] | None => [] end.

(** The struct's JSON tags. *)
Definition notificationOutbox_json (o : notificationOutbox) : result string json :=
  match time_json (no_CreatedAt o) with
  | Err e => Err e
  | Ok created =>
      let head :=
        [("type", JStr (no_Type o)); ("id", JStr (no_ID o)); ("chamado_id", JStr (no_ChamadoID o));
         ("title", JStr (no_Title o)); ("body", JStr (no_Body o)); ("created_at", created)]
        ++ omitempty "status_anterior" (no_StatusAnterior o)
        ++ omitempty "status_novo" (no_StatusNovo o) ++ omitempty "event_type" (no_EventType o) in
      match no_SourceTimestamp o with
      | None => Ok (JObj head)
      | Some t => match time_json t with
                  | Ok j => Ok (JObj (head ++ [("source_timestamp", j)]))
                  | Err e => Err e
                  end
      end
  end.

Definition trimmed (s : string) : option string :=
  let t := TrimSpace s in if String.eqb t "" then None else Some t.

Section outbox_payload.
Context `{UuidText}.

Definition outbox_of (nid : uuid) (p : EventPayload) (createdAt : time) : notificationOutbox :=
  {| no_Type := "notification"; no_ID := uuid_String nid; no_ChamadoID := ChamadoID p;
     no_Title := Titulo p; no_Body := Descricao p; no_CreatedAt := createdAt;
     no_StatusAnterior := trimmed (StatusAnterior p); no_StatusNovo := trimmed (StatusNovo p);
     no_EventType := trimmed (Tipo p); no_SourceTimestamp := ParsedTimestamp p |}.

Definition OutboxPayloadJSON (nid : uuid) (p : EventPayload) (createdAt : time)
  : result string string :=
  match notificationOutbox_json (outbox_of nid p createdAt) with
  | Ok j => Ok (Marshal j)
  | Err e => Err e
  end.
End outbox_payload.
