(* ===== verification/PayloadFacts.v ===== *)
(** * Properties of signature checking, validation and idempotency keys *)

From S2P Require Import Prelude GoStrings Sha256 GoTime Json Identity Uuid Payload.

(** ** Helper lemmas *)

Lemma stripSHA256Prefix_true s h :
  stripSHA256Prefix s = (h, true) ↔
  (7 ≤ String.length (TrimSpace s))%nat
  ∧ EqualFold (unchars (take 7 (chars (TrimSpace s)))) "sha256=" = true
  ∧ h = unchars (drop 7 (chars (TrimSpace s))).
Proof.
  unfold stripSHA256Prefix. destruct (Nat.ltb_spec (String.length (TrimSpace s)) 7).
  - split; [done|lia].
  - destruct (EqualFold _ _); simpl; naive_solver.
Qed.

Lemma stripSHA256Prefix_app x :
  TrimSpace ("sha256=" +:+ x) = "sha256=" +:+ x → stripSHA256Prefix ("sha256=" +:+ x) = (x, true).
Proof.
  intros Ht. apply stripSHA256Prefix_true. rewrite Ht, chars_app. split_and!.
  - rewrite <-length_chars, chars_app, length_app. simpl. lia.
  - reflexivity.
  - simpl. by rewrite drop_0, unchars_chars.
Qed.

(** Bytes of a signature header: no white space encoding starts or ends with
    a letter, a digit or [=]. *)
Lemma strip_any_alnum es a s :
  (∀ e, e ∈ es → ∃ b r, e = b :: r ∧ is_alnum b = false) →
  is_alnum a = true → strip_any es (a :: s) = None.
Proof.
  intros Hes Ha. apply strip_any_None. intros e (b & r & -> & Hb)%Hes. simpl.
  destruct (Ascii.eqb_spec b a) as [->|]; congruence.
Qed.

Lemma space_heads_not_alnum :
  Forall (λ e, ∃ b r, e = b :: r ∧ is_alnum b = false) (space_encodings ++ rev_encodings).
Proof.
  assert (forallb (λ e, match e with b :: _ => negb (is_alnum b) | [] => false end)
    (space_encodings ++ rev_encodings) = true) as H by (by vm_compute).
  apply forallb_Forall in H. eapply Forall_impl; [exact H|].
  intros [|b r]; [done|]. intros Hb%negb_true_iff. eauto.
Qed.

Lemma TrimSpace_alnum_ends a s z :
  is_alnum a = true → is_alnum z = true → TrimSpace (unchars (a :: s ++ [z])) = unchars (a :: s ++ [z]).
Proof.
  intros Ha Hz. pose proof space_heads_not_alnum as [H1 H2]%Forall_app.
  rewrite Forall_forall in H1, H2. apply TrimSpace_id; rewrite chars_unchars.
  - by apply strip_any_alnum.
  - rewrite app_comm_cons, rev_app_distr. simpl. by apply strip_any_alnum.
Qed.

Lemma hex_digit_alnum z : 0 ≤ z < 16 → is_alnum (hex_digit z) = true.
Proof.
  intros H. unfold is_alnum, hex_digit. destruct (Z.ltb_spec z 10).
  - rewrite byte_val_of by lia. lia.
  - rewrite byte_val_of by lia. lia.
Qed.

Lemma hex_encode_snoc s :
  s ≠ [] → ∃ l z, hex_encode s = l ++ [z] ∧ is_alnum z = true.
Proof.
  intros Hs. destruct (exists_last Hs) as (s' & a & ->).
  exists (hex_encode s' ++ [hex_digit (byte_val a / 16)]), (hex_digit (byte_val a mod 16)).
  split; [|apply hex_digit_alnum, Z.mod_pos_bound; lia].
  clear. induction s' as [|b s' IH]; simpl; [done|]. by rewrite IH.
Qed.

Lemma blank_false s : blank s = false ↔ TrimSpace s ≠ "".
Proof. unfold blank. by rewrite <-String.eqb_neq. Qed.

Definition no_bar (s : string) : Prop := "|"%char ∉ chars s.

Lemma bar_split (s t s' t' : list ascii) :
  "|"%char ∉ s → "|"%char ∉ s' → s ++ "|"%char :: t = s' ++ "|"%char :: t' → s = s' ∧ t = t'.
Proof.
  revert s'. induction s as [|a s IH]; intros [|b s'] Hs Hs'; simpl.
  - by intros [= ->].
  - intros [= <- _]. by destruct Hs'; left.
  - intros [= -> _]. by destruct Hs; left.
  - rewrite not_elem_of_cons in Hs, Hs'. intros [= -> Heq].
    apply IH in Heq as [-> ->]; naive_solver.
Qed.

Lemma canonical_chars p :
  chars (canonical p) =
  chars "v1|" ++ chars (ChamadoID p) ++ "|"%char :: chars (StatusNovo p) ++ "|"%char ::
    chars (Timestamp p) ++ "|"%char :: chars (Tipo p).
Proof. unfold canonical. by rewrite !chars_app. Qed.

Lemma VerifySignature_only_signature_errors body secret header :
  VerifySignature body secret header = None
  ∨ VerifySignature body secret header = Some ErrMissingSignature
  ∨ VerifySignature body secret header = Some ErrInvalidSignature.
Proof. unfold VerifySignature. repeat case_match; auto. Qed.

(** A header that carries the signature of a body. *)
Definition signed (secret body header : string) : Prop :=
  let h := TrimSpace header in
  (7 ≤ String.length h)%nat
  ∧ EqualFold (unchars (take 7 (chars h))) "sha256=" = true
  ∧ hex_DecodeString (unchars (drop 7 (chars h))) = Some (hmac_sha256 secret body).

Lemma VerifySignature_None body secret header :
  VerifySignature body secret header = None ↔ signed secret body header.
Proof.
  unfold VerifySignature, signed. cbv zeta.
  destruct (String.eqb_spec (TrimSpace header) "") as [->|Hne].
  { split; [done|]. simpl. lia. }
  destruct (stripSHA256Prefix (TrimSpace header)) as [h []] eqn:Es; simpl.
  - apply stripSHA256Prefix_true in Es as (Hl & Hf & ->).
    rewrite TrimSpace_idemp in *.
    destruct (hex_DecodeString _) as [mac|] eqn:Ed; [|naive_solver].
    destruct (Nat.eqb_spec (String.length mac) 32) as [Hm|Hm]; simpl.
    + destruct (Z.eqb_spec (ConstantTimeCompare mac (hmac_sha256 secret body)) 1) as [Hc|Hc]; simpl.
      * apply ConstantTimeCompare_1 in Hc as ->. naive_solver.
      * split; [done|]. intros (_ & _ & [= ->]). contradict Hc. by apply ConstantTimeCompare_1.
    + split; [done|]. intros (_ & _ & [= ->]). contradict Hm. apply hmac_sha256_length.
  - split; [done|]. intros (Hl & Hf & _). exfalso.
    assert (stripSHA256Prefix (TrimSpace header)
            = (unchars (drop 7 (chars (TrimSpace header))), true)) as Hs.
    { apply stripSHA256Prefix_true. by rewrite TrimSpace_idemp. }
    rewrite Hs in Es. discriminate.
Qed.

(** An event with its six required fields, a CPF of eleven digits up to
    surrounding white space, and an RFC 3339 timestamp. *)
Record valid_event (p : EventPayload) : Prop := {
  ve_fields : Forall (λ s, TrimSpace s ≠ "")
    [ChamadoID p; Tipo p; StatusNovo p; Titulo p; Descricao p; Timestamp p];
  ve_CPF : cpf11 (TrimSpace (CPF p));
  ve_timestamp : is_Some (Parse RFC3339 (Timestamp p))
}.

Lemma Validate_cases p :
  (valid_event p ∧ Validate p = (set_CPF (TrimSpace (CPF p)) p, None))
  ∨ (¬ valid_event p ∧ ∃ q msg, Validate p = (q, Some (ErrInvalidPayload msg))).
Proof.
  unfold Validate. destruct (_ || _) eqn:Eb.
  { right. split; [|eauto]. intros [Hf _ _]. rewrite !Forall_cons in Hf.
    destruct Hf as (?&?&?&?&?&?&_). rewrite !orb_true_iff, <-!not_false_iff_true, !blank_false in Eb. tauto. }
  rewrite !orb_false_iff, !blank_false in Eb.
  destruct (NormalizeCPF11 (CPF p)) as [d|e] eqn:En.
  2:{ right. split; [|eauto]. intros [_ Hc _].
      assert (NormalizeCPF11 (CPF p) = Ok (TrimSpace (CPF p))) by by apply NormalizeCPF11_Ok. congruence. }
  apply NormalizeCPF11_Ok in En as [-> Hd]. cbv zeta. simpl. rewrite Parse_layouts_agree.
  destruct (Parse RFC3339 (Timestamp p)) as [t|] eqn:Et.
  - left. split; [|done]. split; [rewrite !Forall_cons; naive_solver|done|by rewrite Et].
  - right. split; [|eauto]. intros [_ _ Ht]. rewrite Et in Ht. by destruct Ht.
Qed.

(** ** Properties *)

(** C28: the signature check accepts exactly the headers that carry, after an
    optional-case [sha256=] prefix, a hexadecimal rendering of the
    HMAC-SHA256 of the raw body under the secret; white space around the
    header is ignored. *)
Theorem VerifySignature_accepts_iff body secret header :
  VerifySignature body secret header = None ↔
  let h := TrimSpace header in
  (7 ≤ String.length h)%nat
  ∧ EqualFold (unchars (take 7 (chars h))) "sha256=" = true
  ∧ hex_DecodeString (unchars (drop 7 (chars h))) = Some (hmac_sha256 secret body).
Proof. apply VerifySignature_None. Qed.

(** Signing and verifying round trip: the header
    [sha256=<lower-case hex of HMAC-SHA256>] is accepted for every body and
    secret, and the check only ever fails with one of the two signature
    errors (so the handler's other branch is dead). *)
Lemma VerifySignature_roundtrip body secret :
  VerifySignature body secret ("sha256=" +:+ hex_EncodeToString (hmac_sha256 secret body)) = None
  ∧ ∀ header, VerifySignature body secret header
              ∈ [None; Some ErrMissingSignature; Some ErrInvalidSignature].
Proof.
  split.
  - set (m := hmac_sha256 secret body).
    assert (chars m ≠ []) as Hm.
    { intros Hn. apply (f_equal length) in Hn. rewrite length_chars in Hn.
      unfold m in Hn. by rewrite hmac_sha256_length in Hn. }
    destruct (hex_encode_snoc _ Hm) as (l & z & Hl & Hz).
    assert (TrimSpace ("sha256=" +:+ hex_EncodeToString m)
            = "sha256=" +:+ hex_EncodeToString m) as Ht.
    { unfold hex_EncodeToString. rewrite Hl.
      change "sha256=" with (unchars (chars "sha256=")). rewrite <-unchars_app, app_assoc.
      by apply (TrimSpace_alnum_ends "s" (chars "ha256=" ++ l) z). }
    unfold VerifySignature. rewrite Ht. cbv zeta.
    destruct (stripSHA256Prefix _) as [h b] eqn:Es.
    rewrite (stripSHA256Prefix_app _ Ht) in Es.
    simplify_eq. simpl.
    rewrite hex_roundtrip. unfold m. rewrite hmac_sha256_length. simpl.
    by rewrite (proj2 (ConstantTimeCompare_1 _ _) eq_refl).
  - intros header.
    destruct (VerifySignature_only_signature_errors body secret header) as [->|[->| ->]]; set_solver.
Qed.

(** C27: what [Validate] accepts.  It succeeds exactly on the events whose six
    required fields have a non-blank content, whose CPF is eleven digits up to
    surrounding white space and whose timestamp is an RFC 3339 one, and then
    leaves the input with the trimmed CPF.  What it leaves validates again,
    unchanged, and has a parsed timestamp, so the parse error of [persist]
    cannot occur.  Every other event gets the one error that is answered
    400. *)
Theorem Validate_ok_iff p :
  (∀ p', Validate p = (p', None) ↔
     Forall (λ s, TrimSpace s ≠ "")
       [ChamadoID p; Tipo p; StatusNovo p; Titulo p; Descricao p; Timestamp p]
     ∧ cpf11 (TrimSpace (CPF p)) ∧ is_Some (Parse RFC3339 (Timestamp p))
     ∧ p' = set_CPF (TrimSpace (CPF p)) p)
  ∧ (∀ p', Validate p = (p', None) →
       Validate p' = (p', None) ∧ cpf11 (CPF p') ∧ is_Some (ParsedTimestamp p'))
  ∧ ((∀ p', Validate p ≠ (p', None)) ↔ ∃ q msg, Validate p = (q, Some (ErrInvalidPayload msg))).
Proof.
  split; [|split].
  - intros p'. destruct (Validate_cases p) as [[[? ? ?] Hv]|[Hno (q & msg & Hv)]]; rewrite Hv.
    + split; [by intros [= <-]|by intros (_ & _ & _ & ->)].
    + split; [done|]. intros (? & ? & ? & _). by destruct Hno.
  - intros p' Hp. destruct (Validate_cases p) as [[[Hf Hc Ht] Hv]|[_ (q & msg & Hv)]];
      rewrite Hv in Hp; [|done]. injection Hp as <-.
    destruct (Validate_cases (set_CPF (TrimSpace (CPF p)) p)) as [[_ Hv']|[Hno _]].
    + rewrite Hv'. simpl. rewrite TrimSpace_idemp. split; [done|]. split; [done|].
      unfold ParsedTimestamp. simpl. by rewrite Parse_layouts_agree; destruct (Parse RFC3339 _).
    + destruct Hno. split; [done|simpl; by rewrite TrimSpace_idemp|done].
  - destruct (Validate_cases p) as [[_ Hv]|[_ (q & msg & Hv)]]; rewrite Hv; [|naive_solver].
    split; [intros Hno; by destruct (Hno (set_CPF (TrimSpace (CPF p)) p))|by intros (? & ? & ?)].
Qed.

Definition example_payload (ch st : string) : EventPayload :=
  {| ChamadoID := ch; Tipo := "status_change"; CPF := "12345678901";
     StatusAnterior := "em_analise"; StatusNovo := st; Titulo := "Buraco";
     Descricao := "Equipe a caminho"; Timestamp := "2024-11-15T14:30:00Z" |}.

Lemma IdempotencyKey_length p : String.length (IdempotencyKey p) = 64%nat.
Proof.
  unfold IdempotencyKey, hex_EncodeToString.
  by rewrite <-length_chars, chars_unchars, hex_encode_length, length_chars, Sum256_length.
Qed.

(** C39: idempotency keys separate events, as long as no field contains the
    separator.  Keys are 64 hexadecimal digits; when no field contains [|] and
    SHA-256 does not collide on the two canonical texts, two payloads get the
    same key only if they agree on ticket, new status, timestamp and type.
    The separator is not escaped: two payloads that differ in ticket and
    status, both accepted by [Validate], have the same canonical text and
    hence the same key whatever the hash. *)
Theorem IdempotencyKey_separates :
  (∀ p p',
     Forall no_bar [ChamadoID p; StatusNovo p; Timestamp p;
                    ChamadoID p'; StatusNovo p'; Timestamp p'] →
     (Sum256 (canonical p) = Sum256 (canonical p') → canonical p = canonical p') →
     String.length (IdempotencyKey p) = 64%nat
     ∧ (IdempotencyKey p = IdempotencyKey p' →
        ChamadoID p = ChamadoID p' ∧ StatusNovo p = StatusNovo p'
        ∧ Timestamp p = Timestamp p' ∧ Tipo p = Tipo p'))
  ∧ ∃ p p', Validate p = (p, None) ∧ Validate p' = (p', None)
      ∧ ChamadoID p ≠ ChamadoID p' ∧ StatusNovo p ≠ StatusNovo p'
      ∧ canonical p = canonical p' ∧ IdempotencyKey p = IdempotencyKey p'.
Proof.
  split.
  - intros p p' Hbar Hcoll. split; [apply IdempotencyKey_length|].
    intros Hk. apply (f_equal hex_DecodeString) in Hk. unfold IdempotencyKey in Hk.
    rewrite !hex_roundtrip in Hk. injection Hk as Hk%Hcoll.
    apply (f_equal list_ascii_of_string) in Hk. rewrite !canonical_chars in Hk.
    apply app_inv_head in Hk. rewrite !Forall_cons in Hbar.
    destruct Hbar as (?&?&?&?&?&?&_).
    apply bar_split in Hk as [Heq1 Hk]; [|done..].
    apply bar_split in Hk as [Heq2 Hk]; [|done..].
    apply bar_split in Hk as [Heq3 Hk]; [|done..].
    split_and!; by apply chars_inj.
  - exists (example_payload "CH-1" "x|aberto"), (example_payload "CH-1|x" "aberto").
    split_and!; try (by vm_compute); done.
Qed.

Lemma IdempotencyKey_separates_witness :
  IdempotencyKey (example_payload "CH-1" "a") ≠ IdempotencyKey (example_payload "CH-1" "b").
Proof.
  intros Hk.
  assert (∀ s, bool_decide ("|"%char ∉ chars s) = true → no_bar s) as Hb
    by (intros s Hs; apply bool_decide_eq_true in Hs; exact Hs).
  destruct (proj1 IdempotencyKey_separates (example_payload "CH-1" "a") (example_payload "CH-1" "b"))
    as [_ H].
  - repeat (apply Forall_cons; split; [apply Hb; vm_compute; reflexivity|]). apply Forall_nil. exact I.
  - intros Hs. vm_compute in Hs. discriminate Hs.
  - specialize (H Hk) as (_ & Hst & _). vm_compute in Hst. discriminate Hst.
Defined.
