(* ===== verification/World.v ===== *)
(** * The world the program runs in

    The PostgreSQL schema of [migrations/], the state of the environment
    (database, open transaction, Redis, HTTP peers, clocks), and the state
    monad the operations are written in.  What the environment decides is
    explicit: the outcome of each coming database statement, Redis publish and
    HTTP request is read from the world, so a theorem over all worlds covers
    every pattern of failures. *)

From S2P Require Import Prelude GoTime Uuid.

(** ** Tables *)

Record citizen := Citizen {
  ct_fingerprint : string;
  ct_created_at : time;
  ct_preferences : string; (** jsonb, as text *)
  ct_last_seen_at : option time
}.

Record notification := Notification {
  nt_citizen_id : uuid;
  nt_chamado_id : string;
  nt_title : string;
  nt_body : string;
  nt_read_at : option time;
  nt_idempotency_key : option string;
  nt_created_at : time;
  nt_status_anterior : option string;
  nt_status_novo : option string;
  nt_event_type : option string;
  nt_source_timestamp : option time
}.

Inductive outbox_status := pending | sent | dead.

#[export] Instance outbox_status_eq_dec : EqDecision outbox_status.
Proof. solve_decision. Defined.

Record outbox := Outbox {
  ob_citizen_id : uuid;
  ob_notification_id : uuid;
  ob_payload : string; (** jsonb, as text *)
  ob_status : outbox_status;
  ob_attempts : Z;
  ob_next_attempt_at : time;
  ob_last_error : option string;
  ob_created_at : time;
  ob_sent_at : option time
}.

Record dlq := Dlq {
  dq_received_at : time;
  dq_raw_body : string;
  dq_signature : option string;
  dq_error_code : string;
  dq_error_msg : string
}.

Record device := Device {
  dv_citizen_id : uuid;
  dv_platform : string;
  dv_token : string;
  dv_created_at : time;
  dv_updated_at : time
}.

Record database := Database {
  citizens : gmap uuid citizen;
  notifications : gmap uuid notification;
  event_outbox : gmap uuid outbox;
  webhook_dlq : gmap uuid dlq;
  push_devices : gmap uuid device
}.

Definition empty_database : database := Database ∅ ∅ ∅ ∅ ∅.

Definition set_citizens m d :=
  Database m (notifications d) (event_outbox d) (webhook_dlq d) (push_devices d).
Definition set_notifications m d :=
  Database (citizens d) m (event_outbox d) (webhook_dlq d) (push_devices d).
Definition set_outbox m d :=
  Database (citizens d) (notifications d) m (webhook_dlq d) (push_devices d).
Definition set_dlq m d :=
  Database (citizens d) (notifications d) (event_outbox d) m (push_devices d).
Definition set_devices m d :=
  Database (citizens d) (notifications d) (event_outbox d) (webhook_dlq d) m.

(** ** PostgreSQL, as far as the SQL text leaves it open *)

Class Postgres := {
  (** the [n]-th value of [gen_random_uuid()] *)
  gen_random_uuid : nat → uuid;
  (** an instant as a [timestamptz] column holds it *)
  pg_timestamptz : time → time;
  (** is the byte string acceptable as [text]? *)
  pg_text : string → bool;
  (** text of a [jsonb] value read back, when the input is acceptable *)
  pg_jsonb : string → option string;
  (** row order of a query without [ORDER BY] *)
  pg_scan {A} : gmap uuid A → list (uuid * A)
}.

(** A scan returns every row once. *)
Class PostgresOk `(Postgres) := {
  pg_scan_perm {A} (m : gmap uuid A) : pg_scan m ≡ₚ map_to_list m
}.

(** ** Outcomes the environment chooses *)

(** [Lost]: the operation took effect but its reply was lost. *)
Inductive fault :=
| Fine
| Failed (msg : string)
| Lost (msg : string).

Inductive http_outcome :=
| HttpError (msg : string)
| HttpResponse (status : Z) (body : string) (read_error : option string).

Inductive db_error :=
| ErrNoRows
| DbError (msg : string).

Definition db_error_text (e : db_error) : string :=
  match e with ErrNoRows => "no rows in result set" | DbError m => m end.

(** What a circuit breaker has seen: calls let through or turned away, how the
    former ended, and readings of its state. *)
Inductive breaker_event :=
| LetThrough (at_ : time)
| Refused (at_ : time)
| Finished (at_ : time) (success : bool)
| Observed (at_ : time).

(** ** Observable effects, in order *)

Inductive effect :=
| Published (channel payload : string)
| HttpRequest (method url body : string)
| SpawnNotifyRead (chamado_id citizen_ref : string).

Record world := World {
  w_db : database;             (** committed state *)
  w_tx : option database;      (** the open transaction's view *)
  w_locked : gset uuid;        (** outbox rows locked by other transactions *)
  w_gen : nat;                 (** statements issued so far *)
  w_pgnow : time;              (** [now()] *)
  w_faults : list fault;       (** outcomes of the coming database operations *)
  w_redis : list fault;        (** outcomes of the coming publishes *)
  w_http : list http_outcome;  (** outcomes of the coming HTTP requests *)
  w_clock : nat → time;        (** readings of [time.Now()] *)
  w_reads : nat;
  w_chamados : list breaker_event; (** history of each client's breaker *)
  w_mapas : list breaker_event;
  w_push : list breaker_event;
  w_effects : list effect
}.

Definition init_world (d : database) : world :=
  World d None ∅ 0 0 [] [] [] (λ _, 0) 0 [] [] [] [].

Definition with_db d w :=
  World d (w_tx w) (w_locked w) (w_gen w) (w_pgnow w) (w_faults w) (w_redis w) (w_http w)
    (w_clock w) (w_reads w) (w_chamados w) (w_mapas w) (w_push w) (w_effects w).
Definition with_tx t w :=
  World (w_db w) t (w_locked w) (w_gen w) (w_pgnow w) (w_faults w) (w_redis w) (w_http w)
    (w_clock w) (w_reads w) (w_chamados w) (w_mapas w) (w_push w) (w_effects w).
Definition with_gen g w :=
  World (w_db w) (w_tx w) (w_locked w) g (w_pgnow w) (w_faults w) (w_redis w) (w_http w)
    (w_clock w) (w_reads w) (w_chamados w) (w_mapas w) (w_push w) (w_effects w).
Definition with_faults f w :=
  World (w_db w) (w_tx w) (w_locked w) (w_gen w) (w_pgnow w) f (w_redis w) (w_http w)
    (w_clock w) (w_reads w) (w_chamados w) (w_mapas w) (w_push w) (w_effects w).
Definition with_redis r w :=
  World (w_db w) (w_tx w) (w_locked w) (w_gen w) (w_pgnow w) (w_faults w) r (w_http w)
    (w_clock w) (w_reads w) (w_chamados w) (w_mapas w) (w_push w) (w_effects w).
Definition with_http h w :=
  World (w_db w) (w_tx w) (w_locked w) (w_gen w) (w_pgnow w) (w_faults w) (w_redis w) h
    (w_clock w) (w_reads w) (w_chamados w) (w_mapas w) (w_push w) (w_effects w).
Definition with_reads n w :=
  World (w_db w) (w_tx w) (w_locked w) (w_gen w) (w_pgnow w) (w_faults w) (w_redis w) (w_http w)
    (w_clock w) n (w_chamados w) (w_mapas w) (w_push w) (w_effects w).
Definition with_chamados h w :=
  World (w_db w) (w_tx w) (w_locked w) (w_gen w) (w_pgnow w) (w_faults w) (w_redis w) (w_http w)
    (w_clock w) (w_reads w) h (w_mapas w) (w_push w) (w_effects w).
Definition with_mapas h w :=
  World (w_db w) (w_tx w) (w_locked w) (w_gen w) (w_pgnow w) (w_faults w) (w_redis w) (w_http w)
    (w_clock w) (w_reads w) (w_chamados w) h (w_push w) (w_effects w).
Definition with_push h w :=
  World (w_db w) (w_tx w) (w_locked w) (w_gen w) (w_pgnow w) (w_faults w) (w_redis w) (w_http w)
    (w_clock w) (w_reads w) (w_chamados w) (w_mapas w) h (w_effects w).
Definition with_effects e w :=
  World (w_db w) (w_tx w) (w_locked w) (w_gen w) (w_pgnow w) (w_faults w) (w_redis w) (w_http w)
    (w_clock w) (w_reads w) (w_chamados w) (w_mapas w) (w_push w) e.

(** ** The state monad, and its fallible layer *)

Definition ST (A : Type) : Type := world → world * A.

#[export] Instance ST_ret : MRet ST := λ A a w, (w, a).
#[export] Instance ST_bind : MBind ST := λ A B k m w, let '(w', a) := m w in k a w'.

Abbreviation M A := (ST (result db_error A)).

(** Sequencing that stops at the first error, Go's [if err != nil { return }]. *)
Definition ebind {E A B} (m : ST (result E A)) (k : A → ST (result E B)) : ST (result E B) :=
  λ w, let '(w', r) := m w in
       match r with
       | Ok a => k a w'
       | Err e => (w', Err e)
       end.

Definition ok {E A} (a : A) : ST (result E A) := mret (Ok a).
Definition fail {E A} (e : E) : ST (result E A) := mret (Err e).

Declare Scope go_scope.
Delimit Scope go_scope with go.
#[global] Open Scope go_scope.
Notation "x <-? m ;; k" := (ebind m (λ x, k))
  (at level 100, m at next level, right associativity) : go_scope.
Notation "m ;;? k" := (ebind m (λ _, k))
  (at level 100, right associativity) : go_scope.

Definition emit (e : effect) : ST unit := λ w, (with_effects (w_effects w ++ [e]) w, tt).

(** [time.Now()]. *)
Definition time_Now : ST time := λ w, (with_reads (S (w_reads w)) w, w_clock w (w_reads w)).

Definition next_fault : ST fault :=
  λ w, match w_faults w with
       | [] => (w, Fine)
       | f :: fs => (with_faults fs w, f)
       end.

(** ** Statements and transactions *)

(** What a statement sees besides the tables. *)
Record sql_context := { cx_uuid : uuid; cx_now : time; cx_locked : gset uuid }.

Definition sql (A : Type) : Type := sql_context → database → result db_error (A * database).

Section statements.
Context `{Postgres}.

(** Issue a statement on the pool ([in_tx = false]) or on the open
    transaction; every statement draws its own random UUID. *)
Definition run_sql {A} (in_tx : bool) (st : sql A) : M A :=
  λ w,
    let cx := {| cx_uuid := gen_random_uuid (w_gen w); cx_now := w_pgnow w;
                 cx_locked := w_locked w |} in
    let '(w, f) := next_fault (with_gen (S (w_gen w)) w) in
    match f with
    | Failed m => (w, Err (DbError m))
    | _ =>
        match (if in_tx then w_tx w else Some (w_db w)) with
        | None => (w, Err (DbError "tx is closed"))
        | Some d =>
            match st cx d with
            | Err e => (w, Err e)
            | Ok (a, d') =>
                let w := if in_tx then with_tx (Some d') w else with_db d' w in
                (w, match f with Lost m => Err (DbError m) | _ => Ok a end)
            end
        end
    end.

Definition pool_sql {A} (st : sql A) : M A := run_sql false st.
Definition tx_sql {A} (st : sql A) : M A := run_sql true st.

Definition Begin : M unit :=
  λ w, let '(w, f) := next_fault w in
       match f with
       | Fine => (with_tx (Some (w_db w)) w, Ok tt)
       | Failed m | Lost m => (w, Err (DbError m))
       end.

(** A commit whose reply is lost has taken effect. *)
Definition Commit : M unit :=
  λ w, match w_tx w with
       | None => (w, Err (DbError "tx is closed"))
       | Some d =>
           let '(w, f) := next_fault w in
           match f with
           | Fine => (with_tx None (with_db d w), Ok tt)
           | Lost m => (with_tx None (with_db d w), Err (DbError m))
           | Failed m => (with_tx None w, Err (DbError m))
           end
       end.

(** [defer func() { _ = tx.Rollback(ctx) }()] around the rest of a function. *)
Definition defer_rollback {A} (m : ST A) : ST A :=
  λ w, let '(w', a) := m w in (with_tx None w', a).
End statements.

(** [redis.Publish]: [None] on success. *)
Definition Publish (channel payload : string) : ST (option string) :=
  λ w,
    let '(w, f) := match w_redis w with
                   | [] => (w, Fine) | f :: fs => (with_redis fs w, f) end in
    let delivered := with_effects (w_effects w ++ [Published channel payload]) w in
    match f with
    | Fine => (delivered, None)
    | Failed m => (w, Some m)
    | Lost m => (delivered, Some m)
    end.

(** [http.Client.Do]; without a further outcome the peer does not answer. *)
Definition http_Do (method url body : string) : ST http_outcome :=
  λ w,
    let w := with_effects (w_effects w ++ [HttpRequest method url body]) w in
    match w_http w with
    | [] => (w, HttpError "connection refused")
    | o :: os => (with_http os w, o)
    end.
