(* ===== verification/Schema.v ===== *)
(** * migrations/: the schema and its migrations

    The statements of the migration files as data, what each does to a schema,
    and the files, up and down, in their order.  A schema then says which
    contents of the tables it admits: types, [NOT NULL], [CHECK], keys and
    references. *)

From S2P Require Import Prelude GoStrings Uuid GoTime World.

(** ** Schemas *)

Inductive sql_type := TUuid | TBytea | TText | TJsonb | TTimestamptz | TInt.

Record column := Column {
  col_name : string;
  col_type : sql_type;
  col_not_null : bool;
  col_default : option string
}.

Inductive table_constraint :=
| PrimaryKey (col : string)
| Unique (cols : list string)
| References (col table ref : string)     (** [ON DELETE CASCADE] *)
| CheckIn (col : string) (values : list string).

Record table := Table {
  tb_columns : list column;
  tb_constraints : list table_constraint
}.

Inductive index_filter := Always | WhereNull (col : string) | WhereIs (col value : string).

(** Columns with their direction, descending or not. *)
Record index := Index {
  ix_table : string;
  ix_columns : list (string * bool);
  ix_where : index_filter
}.

(** In the order of their creation. *)
Record schema := Schema {
  sc_tables : list (string * table);
  sc_indexes : list (string * index)
}.

Definition empty_schema : schema := Schema [] [].

#[export] Instance sql_type_eq_dec : EqDecision sql_type.
Proof. solve_decision. Defined.
#[export] Instance column_eq_dec : EqDecision column.
Proof. solve_decision. Defined.
#[export] Instance table_constraint_eq_dec : EqDecision table_constraint.
Proof. solve_decision. Defined.
#[export] Instance table_eq_dec : EqDecision table.
Proof. solve_decision. Defined.
#[export] Instance index_filter_eq_dec : EqDecision index_filter.
Proof. solve_decision. Defined.
#[export] Instance index_eq_dec : EqDecision index.
Proof. solve_decision. Defined.
#[export] Instance schema_eq_dec : EqDecision schema.
Proof. solve_decision. Defined.

(** ** Statements *)

Inductive ddl :=
| CreateTable (if_not_exists : bool) (name : string) (t : table)
| DropTable (name : string)                              (** [IF EXISTS] *)
| AddColumn (name : string) (c : column)
| DropColumn (name col : string)                         (** [IF EXISTS] *)
| CreateIndex (if_not_exists : bool) (name : string) (ix : index)
| DropIndex (name : string).                             (** [IF EXISTS] *)

Definition assoc {A} (k : string) (l : list (string * A)) : option A :=
  snd <$> List.find (λ p, String.eqb p.1 k) l.
Definition remove_key {A} (k : string) (l : list (string * A)) : list (string * A) :=
  List.filter (λ p, negb (String.eqb p.1 k)) l.
Definition update_key {A} (k : string) (f : A → A) (l : list (string * A)) : list (string * A) :=
  (λ p, if String.eqb p.1 k then (p.1, f p.2) else p) <$> l.

Definition has_column (t : table) (c : string) : bool :=
  existsb (λ x, String.eqb (col_name x) c) (tb_columns t).

(** The columns of its own table a constraint is about. *)
Definition constraint_columns (k : table_constraint) : list string :=
  match k with
  | PrimaryKey c | References c _ _ | CheckIn c _ => [c]
  | Unique cs => cs
  end.

Definition references (name : string) (k : table_constraint) : bool :=
  match k with References _ t _ => String.eqb t name | _ => false end.
Definition references_column (name col : string) (k : table_constraint) : bool :=
  match k with References _ t c => String.eqb t name && String.eqb c col | _ => false end.

Definition is_unique (t : table) (c : string) : bool :=
  existsb (λ k, match k with
                | PrimaryKey c' => String.eqb c' c
                | Unique [c'] => String.eqb c' c
                | _ => false
                end) (tb_constraints t).

(** Tables and indexes share one name space. *)
Definition name_taken (name : string) (s : schema) : bool :=
  match assoc name (sc_tables s), assoc name (sc_indexes s) with None, None => false | _, _ => true end.

Definition table_valid (s : schema) (name : string) (t : table) : bool :=
  bool_decide (NoDup (col_name <$> tb_columns t))
  && forallb (λ k,
       forallb (has_column t) (constraint_columns k)
       && match k with
          | References _ r c =>
              match (if String.eqb r name then Some t else assoc r (sc_tables s)) with
              | Some t' => is_unique t' c
              | None => false
              end
          | _ => true
          end) (tb_constraints t).

Definition index_uses (col : string) (ix : index) : bool :=
  existsb (λ p, String.eqb p.1 col) (ix_columns ix)
  || match ix_where ix with Always => false | WhereNull c | WhereIs c _ => String.eqb c col end.

Definition index_valid (s : schema) (ix : index) : bool :=
  match assoc (ix_table ix) (sc_tables s) with
  | Some t => forallb (λ p, has_column t p.1) (ix_columns ix)
              && match ix_where ix with Always => true | WhereNull c | WhereIs c _ => has_column t c end
  | None => false
  end.

Definition add_column (c : column) (t : table) : table :=
  Table (tb_columns t ++ [c]) (tb_constraints t).

(** A dropped column takes its table's constraints on it along. *)
Definition drop_column (col : string) (t : table) : table :=
  Table (List.filter (λ c, negb (String.eqb (col_name c) col)) (tb_columns t))
    (List.filter (λ k, negb (existsb (String.eqb col) (constraint_columns k))) (tb_constraints t)).

(** None of the files says [CASCADE]: what others refer to stays, with an
    error.  A new [NOT NULL] column needs a default for the rows there are. *)
Definition exec (st : ddl) (s : schema) : result string schema :=
  match st with
  | CreateTable ine name t =>
      if name_taken name s then (if ine then Ok s else Err "already exists")
      else if table_valid s name t then Ok (Schema (sc_tables s ++ [(name, t)]) (sc_indexes s))
      else Err "invalid table"
  | DropTable name =>
      match assoc name (sc_tables s) with
      | None => Ok s
      | Some _ =>
          let others := remove_key name (sc_tables s) in
          if existsb (λ p, existsb (references name) (tb_constraints p.2)) others
          then Err "other objects depend on it"
          else Ok (Schema others
                     (List.filter (λ p, negb (String.eqb (ix_table p.2) name)) (sc_indexes s)))
      end
  | AddColumn name c =>
      match assoc name (sc_tables s) with
      | None => Err "no such table"
      | Some t =>
          if has_column t (col_name c) then Err "column already exists"
          else if col_not_null c && negb (bool_decide (is_Some (col_default c)))
          then Err "column contains null values"
          else Ok (Schema (update_key name (add_column c) (sc_tables s)) (sc_indexes s))
      end
  | DropColumn name col =>
      match assoc name (sc_tables s) with
      | None => Err "no such table"
      | Some t =>
          if existsb (λ p, existsb (references_column name col) (tb_constraints p.2)) (sc_tables s)
          then Err "other objects depend on it"
          else Ok (Schema (update_key name (drop_column col) (sc_tables s))
                     (List.filter (λ p, negb (String.eqb (ix_table p.2) name && index_uses col p.2))
                        (sc_indexes s)))
      end
  | CreateIndex ine name ix =>
      if name_taken name s then (if ine then Ok s else Err "already exists")
      else if index_valid s ix then Ok (Schema (sc_tables s) (sc_indexes s ++ [(name, ix)]))
      else Err "invalid index"
  | DropIndex name => Ok (Schema (sc_tables s) (remove_key name (sc_indexes s)))
  end.

Fixpoint exec_all (l : list ddl) (s : schema) : result string schema :=
  match l with
  | [] => Ok s
  | st :: l' => match exec st s with Ok s' => exec_all l' s' | Err e => Err e end
  end.

(** ** The files *)

Definition id_column : column := Column "id" TUuid true (Some "gen_random_uuid()").
Definition not_null (name : string) (ty : sql_type) : column := Column name ty true None.
Definition nullable (name : string) (ty : sql_type) : column := Column name ty false None.
Definition now_column (name : string) : column := Column name TTimestamptz true (Some "now()").

Record migration := Migration { mg_up : list ddl; mg_down : list ddl }.

Definition init_000001_up : list ddl :=
  [CreateTable false "citizens"
     (Table [id_column; not_null "fingerprint" TBytea; now_column "created_at"]
        [PrimaryKey "id"; Unique ["fingerprint"]]);
   CreateTable false "notifications"
     (Table [id_column; not_null "citizen_id" TUuid; not_null "chamado_id" TText;
             not_null "title" TText; not_null "body" TText; nullable "read_at" TTimestamptz;
             nullable "idempotency_key" TText; now_column "created_at"]
        [PrimaryKey "id"; References "citizen_id" "citizens" "id"; Unique ["idempotency_key"]]);
   CreateIndex false "idx_notifications_citizen"
     (Index "notifications" [("citizen_id", false); ("created_at", true)] Always);
   CreateIndex false "idx_notifications_unread"
     (Index "notifications" [("citizen_id", false)] (WhereNull "read_at"))].

Definition init_000001_down : list ddl :=
  [DropIndex "idx_notifications_unread"; DropIndex "idx_notifications_citizen";
   DropTable "notifications"; DropTable "citizens"].

Definition webhook_metadata_000002_up : list ddl :=
  [AddColumn "notifications" (nullable "status_anterior" TText);
   AddColumn "notifications" (nullable "status_novo" TText);
   AddColumn "notifications" (nullable "event_type" TText);
   AddColumn "notifications" (nullable "source_timestamp" TTimestamptz)].

Definition webhook_metadata_000002_down : list ddl :=
  [DropColumn "notifications" "status_anterior"; DropColumn "notifications" "status_novo";
   DropColumn "notifications" "event_type"; DropColumn "notifications" "source_timestamp"].

Definition event_outbox_000003_up : list ddl :=
  [CreateTable true "event_outbox"
     (Table [id_column; not_null "citizen_id" TUuid; not_null "notification_id" TUuid;
             not_null "payload" TJsonb; Column "status" TText true (Some "pending");
             Column "attempts" TInt true (Some "0"); now_column "next_attempt_at";
             nullable "last_error" TText; now_column "created_at"; nullable "sent_at" TTimestamptz]
        [PrimaryKey "id"; References "citizen_id" "citizens" "id";
         References "notification_id" "notifications" "id";
         CheckIn "status" ["pending"; "sent"; "dead"]]);
   CreateIndex true "idx_event_outbox_pending"
     (Index "event_outbox" [("next_attempt_at", false); ("created_at", false)]
        (WhereIs "status" "pending"))].

Definition event_outbox_000003_down : list ddl :=
  [DropTable "event_outbox"].

Definition webhook_dlq_000004_up : list ddl :=
  [CreateTable true "webhook_dlq"
     (Table [id_column; now_column "received_at"; not_null "raw_body" TBytea;
             nullable "signature" TText; not_null "error_code" TText; not_null "error_msg" TText]
        [PrimaryKey "id"]);
   CreateIndex true "idx_webhook_dlq_received" (Index "webhook_dlq" [("received_at", true)] Always)].

Definition webhook_dlq_000004_down : list ddl :=
  [DropTable "webhook_dlq"].

Definition citizens_push_000005_up : list ddl :=
  [AddColumn "citizens" (Column "preferences" TJsonb true (Some "{}"));
   AddColumn "citizens" (nullable "last_seen_at" TTimestamptz);
   CreateTable false "push_devices"
     (Table [id_column; not_null "citizen_id" TUuid; not_null "platform" TText;
             not_null "token" TText; now_column "created_at"; now_column "updated_at"]
        [PrimaryKey "id"; References "citizen_id" "citizens" "id"; Unique ["citizen_id"; "token"]]);
   CreateIndex false "idx_push_devices_citizen" (Index "push_devices" [("citizen_id", false)] Always)].

Definition citizens_push_000005_down : list ddl :=
  [DropIndex "idx_push_devices_citizen"; DropTable "push_devices";
   DropColumn "citizens" "last_seen_at"; DropColumn "citizens" "preferences"].

(** [//go:embed *.sql], in the order of their numbers. *)
Definition migration_files : list migration :=
  [Migration init_000001_up init_000001_down;
   Migration webhook_metadata_000002_up webhook_metadata_000002_down;
   Migration event_outbox_000003_up event_outbox_000003_down;
   Migration webhook_dlq_000004_up webhook_dlq_000004_down;
   Migration citizens_push_000005_up citizens_push_000005_down].

(** The statements between two versions: the up files to a later one, the down
    files, last first, to an earlier one. *)
Definition statements (from to : nat) : list ddl :=
  if (from <=? to)%nat then drop from (take to migration_files) ≫= mg_up
  else reverse (drop to (take from migration_files)) ≫= mg_down.

Definition migrate_to (from to : nat) (s : schema) : result string schema :=
  exec_all (statements from to) s.

(** The schema of a version. *)
Definition schema_at (v : nat) : result string schema := migrate_to 0 v empty_schema.

(** ** Contents *)

Inductive sql_value :=
| VNull
| VUuid (u : uuid)
| VBytea (s : string)
| VText (s : string)
| VJsonb (s : string)
| VTime (t : time)
| VInt (z : Z).

#[export] Instance sql_value_eq_dec : EqDecision sql_value.
Proof. solve_decision. Defined.

Abbreviation row := (list (string * sql_value)).

Definition int4 (z : Z) : bool := (- 2 ^ 31 <=? z) && (z <=? 2 ^ 31 - 1).

Definition has_type (ty : sql_type) (v : sql_value) : bool :=
  match ty, v with
  | _, VNull | TUuid, VUuid _ | TBytea, VBytea _ | TText, VText _ | TJsonb, VJsonb _
  | TTimestamptz, VTime _ => true
  | TInt, VInt z => int4 z
  | _, _ => false
  end.

Definition fits (c : column) (p : string * sql_value) : bool :=
  String.eqb p.1 (col_name c) && has_type (col_type c) p.2
  && negb (col_not_null c && bool_decide (p.2 = VNull)).

Definition get (c : string) (r : row) : sql_value := default VNull (assoc c r).

(** No two rows with the same values, none of them null, in the columns. *)
Definition distinct_on (cols : list string) (rows : list row) : Prop :=
  ∀ i j r r', rows !! i = Some r → rows !! j = Some r' →
    Forall (λ c, get c r = get c r' ∧ get c r ≠ VNull) cols → i = j.

Definition holds_in (contents : string → list row) (rows : list row) (k : table_constraint) : Prop :=
  match k with
  | PrimaryKey c => distinct_on [c] rows
  | Unique cs => distinct_on cs rows
  | References c t ref =>
      Forall (λ r, get c r ≠ VNull → Exists (λ r', get ref r' = get c r) (contents t)) rows
  | CheckIn c values =>
      Forall (λ r, get c r ≠ VNull → ∃ s, get c r = VText s ∧ s ∈ values) rows
  end.

Definition table_admits (contents : string → list row) (rows : list row) (t : table) : Prop :=
  Forall (λ r, Forall2 fits (tb_columns t) r) rows
  ∧ Forall (holds_in contents rows) (tb_constraints t).

Definition admits (s : schema) (contents : string → list row) : Prop :=
  Forall (λ p, table_admits contents (contents p.1) p.2) (sc_tables s).

(** What a statement does to the rows: a new column gets its default, a
    dropped one is left out, a dropped table is empty, and so is a new one. *)
Definition default_value (c : column) : sql_value :=
  match col_default c, col_type c with
  | Some text, TText => VText text
  | Some text, TJsonb => VJsonb text
  | _, _ => VNull
  end.

(** Is every default of an added column a literal of the above? *)
Definition literal_default (st : ddl) : bool :=
  match st with
  | AddColumn _ c =>
      match col_default c, col_type c with None, _ | Some _, TText | Some _, TJsonb => true | _, _ => false end
  | _ => true
  end.

Definition drop_field (col : string) (r : row) : row :=
  List.filter (λ p, negb (String.eqb p.1 col)) r.

Definition row_change (st : ddl) (name : string) (r : row) : row :=
  match st with
  | AddColumn n c => if String.eqb name n then r ++ [(col_name c, default_value c)] else r
  | DropColumn n col => if String.eqb name n then drop_field col r else r
  | _ => r
  end.

Definition exec_rows (st : ddl) (contents : string → list row) (name : string) : list row :=
  match st with
  | DropTable n => if String.eqb name n then [] else contents name
  | _ => row_change st name <$> contents name
  end.

Fixpoint exec_all_rows (l : list ddl) (contents : string → list row) : string → list row :=
  match l with
  | [] => contents
  | st :: l' => exec_all_rows l' (exec_rows st contents)
  end.

(** The tables of a [database]. *)
Definition opt {A} (f : A → sql_value) (o : option A) : sql_value :=
  match o with Some a => f a | None => VNull end.

Definition status_text (s : outbox_status) : string :=
  match s with pending => "pending" | sent => "sent" | dead => "dead" end.

Definition citizen_row (p : uuid * citizen) : row :=
  [("id", VUuid p.1); ("fingerprint", VBytea (ct_fingerprint p.2));
   ("created_at", VTime (ct_created_at p.2)); ("preferences", VJsonb (ct_preferences p.2));
   ("last_seen_at", opt VTime (ct_last_seen_at p.2))].

Definition notification_sql_row (p : uuid * notification) : row :=
  [("id", VUuid p.1); ("citizen_id", VUuid (nt_citizen_id p.2)); ("chamado_id", VText (nt_chamado_id p.2));
   ("title", VText (nt_title p.2)); ("body", VText (nt_body p.2)); ("read_at", opt VTime (nt_read_at p.2));
   ("idempotency_key", opt VText (nt_idempotency_key p.2)); ("created_at", VTime (nt_created_at p.2));
   ("status_anterior", opt VText (nt_status_anterior p.2)); ("status_novo", opt VText (nt_status_novo p.2));
   ("event_type", opt VText (nt_event_type p.2)); ("source_timestamp", opt VTime (nt_source_timestamp p.2))].

Definition outbox_sql_row (p : uuid * outbox) : row :=
  [("id", VUuid p.1); ("citizen_id", VUuid (ob_citizen_id p.2));
   ("notification_id", VUuid (ob_notification_id p.2)); ("payload", VJsonb (ob_payload p.2));
   ("status", VText (status_text (ob_status p.2))); ("attempts", VInt (ob_attempts p.2));
   ("next_attempt_at", VTime (ob_next_attempt_at p.2)); ("last_error", opt VText (ob_last_error p.2));
   ("created_at", VTime (ob_created_at p.2)); ("sent_at", opt VTime (ob_sent_at p.2))].

Definition dlq_row (p : uuid * dlq) : row :=
  [("id", VUuid p.1); ("received_at", VTime (dq_received_at p.2)); ("raw_body", VBytea (dq_raw_body p.2));
   ("signature", opt VText (dq_signature p.2)); ("error_code", VText (dq_error_code p.2));
   ("error_msg", VText (dq_error_msg p.2))].

Definition device_row (p : uuid * device) : row :=
  [("id", VUuid p.1); ("citizen_id", VUuid (dv_citizen_id p.2)); ("platform", VText (dv_platform p.2));
   ("token", VText (dv_token p.2)); ("created_at", VTime (dv_created_at p.2));
   ("updated_at", VTime (dv_updated_at p.2))].

Definition contents_of (d : database) (name : string) : list row :=
  if String.eqb name "citizens" then citizen_row <$> map_to_list (citizens d)
  else if String.eqb name "notifications" then notification_sql_row <$> map_to_list (notifications d)
  else if String.eqb name "event_outbox" then outbox_sql_row <$> map_to_list (event_outbox d)
  else if String.eqb name "webhook_dlq" then dlq_row <$> map_to_list (webhook_dlq d)
  else if String.eqb name "push_devices" then device_row <$> map_to_list (push_devices d)
  else [].
