(* ===== verification/SchemaFacts.v ===== *)
(** * Statements keep the tables within their schema

    When the rows satisfy a schema, they satisfy it again after a statement
    that succeeds: types, [NOT NULL], checks, keys and references. *)

From S2P Require Import Prelude GoStrings Uuid GoTime World Schema.

(** ** Fields *)

Lemma assoc_app {A} k (l l' : list (string * A)) :
  is_Some (assoc k l) → assoc k (l ++ l') = assoc k l.
Proof.
  unfold assoc. intros [a Ha]. induction l as [|[k' a'] l IH]; [done|]. simpl in *.
  destruct (String.eqb k' k); [done|]. by apply IH.
Qed.

Lemma assoc_elem {A} k (l : list (string * A)) a : assoc k l = Some a → (k, a) ∈ l.
Proof.
  unfold assoc. intros ([k' a'] & Hf & ->)%fmap_Some. apply find_some in Hf as [Hin Hk].
  simpl in Hk. apply String.eqb_eq in Hk as ->. by apply list_elem_of_In.
Qed.

Lemma assoc_none {A} k (l : list (string * A)) : assoc k l = None → ∀ a, (k, a) ∉ l.
Proof.
  unfold assoc. intros Hf%fmap_None a Hin%list_elem_of_In.
  pose proof (find_none _ _ Hf _ Hin) as Hk. simpl in Hk. by rewrite String.eqb_refl in Hk.
Qed.

Lemma assoc_filter {A} k (P : string → bool) (l : list (string * A)) :
  P k = true → assoc k (List.filter (λ p, P p.1) l) = assoc k l.
Proof.
  intros Hk. unfold assoc. induction l as [|[k' a] l IH]; [done|]. simpl.
  destruct (P k') eqn:Hp; simpl; destruct (String.eqb_spec k' k) as [->|]; try done. congruence.
Qed.

(** A row has a field for each column of its table. *)
Lemma fits_field t c r : Forall2 fits (tb_columns t) r → has_column t c = true → is_Some (assoc c r).
Proof.
  unfold has_column, assoc. induction 1 as [|x [k v] cols r Hfit _ IH]; [done|]. simpl.
  unfold fits in Hfit. simpl in Hfit. destruct (String.eqb_spec k (col_name x)) as [->|]; [|done].
  destruct (String.eqb (col_name x) c); [by eexists|apply IH].
Qed.

Lemma get_add c r x : is_Some (assoc c r) → get c (r ++ [x]) = get c r.
Proof. intros Hc. unfold get. by rewrite assoc_app. Qed.

Lemma get_drop c col r : c ≠ col → get c (drop_field col r) = get c r.
Proof.
  intros Hc. unfold get, drop_field. rewrite (assoc_filter c (λ k, negb (String.eqb k col))); [done|].
  by apply negb_true_iff, String.eqb_neq.
Qed.

Lemma fits_drop col cols r :
  Forall2 fits cols r →
  Forall2 fits (List.filter (λ c, negb (String.eqb (col_name c) col)) cols) (drop_field col r).
Proof.
  unfold drop_field. induction 1 as [|x [k v] cols r Hfit _ IH]; [done|]. simpl.
  pose proof Hfit as Hk. unfold fits in Hk. simpl in Hk.
  destruct (String.eqb_spec k (col_name x)) as [->|]; [|done].
  destruct (String.eqb (col_name x) col); simpl; [done|by constructor].
Qed.

Lemma fits_default c :
  literal_default (AddColumn EmptyString c) = true →
  col_not_null c = false ∨ is_Some (col_default c) → fits c (col_name c, default_value c).
Proof.
  destruct c as [name ty nn def]. unfold fits, default_value. simpl. rewrite String.eqb_refl.
  destruct def as [text|], ty; simpl; intros Hlit Hnull; try done;
    first [by destruct nn|by destruct Hnull as [->|[? ?]]].
Qed.

(** ** Constraints under a change of rows *)

Section constraints.
Variables (contents : string → list row) (f : string → row → row).

(** What a constraint reads is kept. *)
Lemma holds_in_change n k :
  (∀ c r, c ∈ constraint_columns k → r ∈ contents n → get c (f n r) = get c r) →
  (∀ c t ref r, k = References c t ref → r ∈ contents t → get ref (f t r) = get ref r) →
  holds_in contents (contents n) k →
  holds_in (λ n, f n <$> contents n) (f n <$> contents n) k.
Proof.
  intros Hown Href. assert (∀ cs, (∀ c r, c ∈ cs → r ∈ contents n → get c (f n r) = get c r) →
    distinct_on cs (contents n) → distinct_on cs (f n <$> contents n)) as Hdist.
  { intros cs Hcs Hd i j r r' Hi Hj Hall. rewrite list_lookup_fmap in Hi, Hj.
    apply fmap_Some in Hi as (r1 & Hi & ->), Hj as (r2 & Hj & ->).
    apply (Hd i j r1 r2 Hi Hj). rewrite Forall_forall in Hall |- *. intros c Hc.
    pose proof (list_elem_of_lookup_2 _ _ _ Hi). pose proof (list_elem_of_lookup_2 _ _ _ Hj).
    specialize (Hall c Hc). rewrite !Hcs in Hall by done. done. }
  destruct k as [c|cs|c t ref|c values]; simpl in *.
  - apply Hdist. intros c' r Hc. by apply Hown.
  - apply Hdist. intros c' r Hc. by apply Hown.
  - rewrite Forall_fmap, !Forall_forall. intros Hall r Hr. simpl.
    rewrite (Hown c) by (done || by left). intros Hnull.
    apply Exists_fmap, Exists_exists. apply (Hall r Hr), Exists_exists in Hnull as (r' & Hr' & Heq).
    exists r'. split; [done|]. simpl. by rewrite (Href c t ref).
  - rewrite Forall_fmap, !Forall_forall. intros Hall r Hr. simpl.
    rewrite (Hown c) by (done || by left). by apply Hall.
Qed.

(** Only the referenced tables matter. *)
Lemma holds_in_local contents' rows k :
  (∀ c t ref, k = References c t ref → contents' t = contents t) →
  holds_in contents rows k → holds_in contents' rows k.
Proof. destruct k as [| |c t ref|]; simpl; try done. intros Heq. by rewrite (Heq c t ref). Qed.
End constraints.

(** ** Tables of a schema *)

(** Names are unique, and every table's constraints are about its columns and
    refer to unique columns. *)
Definition schema_ok (s : schema) : bool :=
  bool_decide (NoDup (sc_tables s).*1)
  && forallb (λ p, table_valid s p.1 p.2) (sc_tables s).

(** Nothing is stored outside the tables. *)
Definition within (s : schema) (contents : string → list row) : Prop :=
  ∀ name, assoc name (sc_tables s) = None → contents name = [].

Definition stored (s : schema) (contents : string → list row) : Prop :=
  admits s contents ∧ within s contents.

Section tables.
Variable s : schema.
Hypothesis Hs : schema_ok s = true.

Lemma names_unique : NoDup (sc_tables s).*1.
Proof. unfold schema_ok in Hs. apply andb_true_iff in Hs as [Hn _]. by apply bool_decide_eq_true in Hn. Qed.

Lemma assoc_unique name t : (name, t) ∈ sc_tables s → assoc name (sc_tables s) = Some t.
Proof.
  pose proof names_unique as Hnd. unfold assoc. revert Hnd.
  induction (sc_tables s) as [|[k t'] l IH]; simpl; [by intros _ ?%elem_of_nil|].
  intros [Hni Hnd]%NoDup_cons [Heq|Hin]%elem_of_cons.
  - simplify_eq. by rewrite String.eqb_refl.
  - destruct (String.eqb_spec k name) as [->|]; [|by apply IH].
    destruct Hni. apply list_elem_of_fmap. by exists (name, t).
Qed.

Lemma table_is_valid name t : (name, t) ∈ sc_tables s → table_valid s name t = true.
Proof.
  unfold schema_ok in Hs. apply andb_true_iff in Hs as [_ Hv]. rewrite forallb_forall in Hv.
  intros Hin%list_elem_of_In. by apply (Hv (name, t)).
Qed.

(** A constraint of a table. *)
Lemma constraint_valid name t k :
  (name, t) ∈ sc_tables s → k ∈ tb_constraints t →
  (∀ c, c ∈ constraint_columns k → has_column t c = true)
  ∧ ∀ c r ref, k = References c r ref →
      ∃ t', (r, t') ∈ sc_tables s ∧ has_column t' ref = true.
Proof.
  intros Hin Hk. pose proof (table_is_valid name t Hin) as Hv. unfold table_valid in Hv.
  apply andb_true_iff in Hv as [_ Hv]. rewrite forallb_forall in Hv.
  pose proof (Hv k ltac:(by apply list_elem_of_In)) as [Hcols Href]%andb_true_iff.
  rewrite forallb_forall in Hcols. split; [intros c ?; by apply Hcols, list_elem_of_In|].
  intros c r ref ->. assert ((if String.eqb r name then Some t else assoc r (sc_tables s))
    = assoc r (sc_tables s)) as Heq.
  { destruct (String.eqb_spec r name) as [->|]; [|done]. by rewrite (assoc_unique name t). }
  rewrite Heq in Href. destruct (assoc r (sc_tables s)) as [t'|] eqn:Ha; [|done].
  apply assoc_elem in Ha. exists t'. split; [done|].
  unfold is_unique in Href. apply existsb_exists in Href as (k' & Hk' & Hu).
  pose proof (table_is_valid r t' Ha) as Hv'. unfold table_valid in Hv'.
  apply andb_true_iff in Hv' as [_ Hv']. rewrite forallb_forall in Hv'.
  apply Hv', andb_true_iff in Hk' as [Hc _]. rewrite forallb_forall in Hc.
  destruct k' as [c'|[|c' []]| |]; try done; apply String.eqb_eq in Hu as ->; apply Hc; by left.
Qed.
End tables.

(** ** Statements *)

Lemma stored_ext s c c' : (∀ name, c' name = c name) → stored s c → stored s c'.
Proof.
  intros Heq [Ha Hw]. split; [|intros name Hn; rewrite Heq; by apply Hw].
  unfold admits, table_admits in *. rewrite Forall_forall in Ha |- *. intros p Hp.
  destruct (Ha p Hp) as [Hf Hk]. rewrite Heq. split; [done|].
  eapply Forall_impl; [exact Hk|]. intros k. apply holds_in_local. intros *. by rewrite Heq.
Qed.

Lemma stored_rows s c name t r :
  stored s c → (name, t) ∈ sc_tables s → r ∈ c name → Forall2 fits (tb_columns t) r.
Proof.
  intros [Ha _] Hin Hr. unfold admits in Ha. rewrite Forall_forall in Ha.
  destruct (Ha (name, t) Hin) as [Hf _]. rewrite Forall_forall in Hf. by apply Hf.
Qed.

Lemma assoc_update {A} k name (h : A → A) l :
  assoc k (update_key name h l) = None → assoc k l = None.
Proof.
  unfold assoc, update_key. induction l as [|[k' a] l IH]; [done|]. simpl.
  destruct (String.eqb k' name); simpl; destruct (String.eqb k' k); done || exact IH.
Qed.

(** A change of one table's columns and of its rows with them. *)
Lemma stored_update s c name h f ixs :
  stored s c →
  (∀ n t r, (n, t) ∈ sc_tables s → r ∈ c n →
     Forall2 fits (tb_columns (if String.eqb n name then h t else t)) (f n r)) →
  (∀ n t k, (n, t) ∈ sc_tables s →
     k ∈ tb_constraints (if String.eqb n name then h t else t) → k ∈ tb_constraints t
     ∧ (∀ col r, col ∈ constraint_columns k → r ∈ c n → get col (f n r) = get col r)
     ∧ ∀ col t' ref r, k = References col t' ref → r ∈ c t' → get ref (f t' r) = get ref r) →
  stored (Schema (update_key name h (sc_tables s)) ixs) (λ n, f n <$> c n).
Proof.
  intros Hst Hfit Hcon. pose proof Hst as [Ha Hw].
  split; [|intros n Hn%assoc_update; by rewrite Hw].
  unfold admits, update_key in *. simpl. rewrite Forall_fmap, !Forall_forall in *.
  intros [n t] Hin. specialize (Ha (n, t) Hin) as [_ Hk]. simpl.
  assert (∀ p : string * table, p = (n, if String.eqb n name then h t else t) →
    table_admits (λ n, f n <$> c n) (f p.1 <$> c p.1) p.2) as Hgoal.
  { intros p ->. simpl in *. split.
    - apply Forall_fmap, Forall_forall. intros r Hr. by apply Hfit.
    - rewrite Forall_forall in Hk |- *. intros k Hin'. destruct (Hcon n t k Hin Hin') as (? & ? & ?).
      apply holds_in_change; [done| |by apply Hk]. done. }
  simpl. destruct (String.eqb_spec n name); by apply (Hgoal (_, _)).
Qed.

Lemma add_column_stored s c name col t ixs :
  schema_ok s = true → stored s c → assoc name (sc_tables s) = Some t →
  has_column t (col_name col) = false → literal_default (AddColumn name col) = true →
  col_not_null col = false ∨ is_Some (col_default col) →
  stored (Schema (update_key name (add_column col) (sc_tables s)) ixs) (exec_rows (AddColumn name col) c).
Proof.
  intros Hs Hst Hn Hnew Hlit Hnull.
  assert (∀ n t' r c', (n, t') ∈ sc_tables s → r ∈ c n → has_column t' c' = true →
    get c' (row_change (AddColumn name col) n r) = get c' r) as Hget.
  { intros n t' r c' Hin Hr Hc. simpl. destruct (String.eqb n name); [|done].
    apply get_add. eapply fits_field; [by eapply stored_rows|done]. }
  apply (stored_update s c name (add_column col) (row_change (AddColumn name col))); [done|..].
  - intros n t' r Hin Hr. pose proof (stored_rows s c n t' r Hst Hin Hr) as Hf. simpl.
    destruct (String.eqb n name); [|done]. simpl. apply Forall2_app; [done|].
    constructor; [|constructor]. by apply fits_default.
  - intros n t' k Hin Hk. assert (k ∈ tb_constraints t') as Hk' by by destruct (String.eqb n name).
    destruct (constraint_valid s Hs n t' k Hin Hk') as [Hcols Href]. split; [done|]. split.
    + intros c' r Hc Hr. by eapply Hget, Hcols.
    + intros c' r' ref r -> Hr. destruct (Href c' r' ref eq_refl) as (t2 & Ht2 & Hc2). by eapply Hget.
Qed.

Lemma drop_column_stored s c name col ixs :
  stored s c →
  existsb (λ p, existsb (references_column name col) (tb_constraints p.2)) (sc_tables s) = false →
  stored (Schema (update_key name (drop_column col) (sc_tables s)) ixs) (exec_rows (DropColumn name col) c).
Proof.
  intros Hst Hno.
  apply (stored_update s c name (drop_column col) (row_change (DropColumn name col))); [done|..].
  - intros n t' r Hin Hr. pose proof (stored_rows s c n t' r Hst Hin Hr) as Hf. simpl.
    destruct (String.eqb n name); [|done]. by apply fits_drop.
  - intros n t' k Hin Hk.
    assert (k ∈ tb_constraints t' ∧ (n = name → col ∉ constraint_columns k)) as [Hk' Hcol].
    { destruct (String.eqb_spec n name) as [->|]; [|by split]. simpl in Hk.
      apply list_elem_of_In, filter_In in Hk as [Hk Hc]. split; [by apply list_elem_of_In|].
      intros _ Hin'%list_elem_of_In. apply negb_true_iff in Hc.
      rewrite <-not_true_iff_false, existsb_exists in Hc. apply Hc. exists col.
      by rewrite String.eqb_refl. }
    split; [done|]. split.
    + intros c' r Hc _. simpl. destruct (String.eqb_spec n name) as [->|]; [|done].
      apply get_drop. intros ->. by apply Hcol.
    + intros c' t2 ref r -> _. simpl. destruct (String.eqb_spec t2 name) as [->|]; [|done].
      apply get_drop. intros ->. rewrite <-not_true_iff_false, existsb_exists in Hno. apply Hno.
      exists (n, t'). split; [by apply list_elem_of_In|]. apply existsb_exists.
      exists (References c' name col). split; [by apply list_elem_of_In|]. simpl. by rewrite !String.eqb_refl.
Qed.

Lemma remove_key_elem {A} k name (l : list (string * A)) a :
  (k, a) ∈ remove_key name l ↔ k ≠ name ∧ (k, a) ∈ l.
Proof.
  unfold remove_key. rewrite !list_elem_of_In, filter_In. simpl.
  rewrite negb_true_iff, String.eqb_neq. tauto.
Qed.

Lemma assoc_remove {A} k name (l : list (string * A)) :
  k ≠ name → assoc k (remove_key name l) = assoc k l.
Proof.
  intros Hk. unfold remove_key. apply (assoc_filter k (λ x, negb (String.eqb x name))).
  by apply negb_true_iff, String.eqb_neq.
Qed.

Lemma drop_table_stored s c name ixs :
  stored s c →
  existsb (λ p, existsb (references name) (tb_constraints p.2)) (remove_key name (sc_tables s)) = false →
  stored (Schema (remove_key name (sc_tables s)) ixs) (exec_rows (DropTable name) c).
Proof.
  intros [Ha Hw] Hno. split.
  - unfold admits in *. simpl. rewrite Forall_forall in Ha |- *. intros [n t] Hin.
    pose proof Hin as [Hne Hin0]%remove_key_elem. specialize (Ha (n, t) Hin0). simpl in *.
    destruct (String.eqb_spec n name) as [|_]; [done|]. destruct Ha as [Hf Hk]. split; [done|].
    rewrite Forall_forall in Hk |- *. intros k Hk'. eapply holds_in_local; [|by apply Hk].
    intros c' t' ref ->. simpl. destruct (String.eqb_spec t' name) as [->|]; [|done].
    rewrite <-not_true_iff_false, existsb_exists in Hno. destruct Hno.
    exists (n, t). split; [by apply list_elem_of_In|]. apply existsb_exists.
    exists (References c' name ref). split; [by apply list_elem_of_In|]. simpl. by rewrite String.eqb_refl.
  - intros n Hn. simpl in *. destruct (String.eqb_spec n name) as [|Hne]; [done|].
    rewrite assoc_remove in Hn by done. by apply Hw.
Qed.

Lemma assoc_app_none {A} k (l l' : list (string * A)) :
  assoc k (l ++ l') = None → assoc k l = None.
Proof.
  intros Hn. destruct (assoc k l) as [a|] eqn:Ha; [|done]. by rewrite assoc_app, Ha in Hn by by rewrite Ha.
Qed.

Lemma create_table_stored s c name t ixs :
  stored s c → assoc name (sc_tables s) = None →
  stored (Schema (sc_tables s ++ [(name, t)]) ixs) c.
Proof.
  intros [Ha Hw] Hn. split; [|intros n Hn'%assoc_app_none; by apply Hw].
  apply Forall_app. split; [done|]. apply Forall_singleton. simpl. rewrite Hw by done.
  split; [done|]. apply Forall_forall. intros k _. destruct k; simpl; try done; intros i *; done.
Qed.

Lemma unchanged_stored s s' c st :
  sc_tables s' = sc_tables s → (∀ name, exec_rows st c name = c name) →
  stored s c → stored s' (exec_rows st c).
Proof.
  intros Ht Hc Hst. apply (stored_ext _ c); [done|]. destruct Hst as [Ha Hw].
  split; [unfold admits in *; by rewrite Ht|intros n; rewrite Ht; apply Hw].
Qed.

(** A statement that succeeds keeps the rows within the schema. *)
Lemma exec_stored st s s' c :
  schema_ok s = true → literal_default st = true → exec st s = Ok s' → stored s c →
  stored s' (exec_rows st c).
Proof.
  intros Hs Hlit Hexec Hst. assert (∀ name, (λ r : row, r) <$> c name = c name) as Hid
    by (intros; apply list_fmap_id).
  destruct st as [ine name t|name|name col|name col|ine name ix|name]; simpl in Hexec.
  - destruct (name_taken name s) eqn:Htaken; [destruct ine; [|done]; simplify_eq; by apply (unchanged_stored s')|].
    destruct (table_valid s name t); [|done]. injection Hexec as <-.
    apply (stored_ext _ c); [done|]. apply create_table_stored; [done|].
    unfold name_taken in Htaken. by destruct (assoc name (sc_tables s)).
  - destruct (assoc name (sc_tables s)) as [t|] eqn:Hn; [|injection Hexec as <-].
    + destruct (existsb _ _) eqn:Hno; [done|]. injection Hexec as <-. by apply drop_table_stored.
    + apply (unchanged_stored s); [done| |done]. intros n. simpl.
      destruct (String.eqb_spec n name) as [->|]; [|done]. by rewrite (proj2 Hst).
  - destruct (assoc name (sc_tables s)) as [t|] eqn:Hn; [|done].
    destruct (has_column t (col_name col)) eqn:Hnew; [done|].
    destruct (_ && _) eqn:Hnull; [done|]. injection Hexec as <-.
    eapply add_column_stored; try done. apply andb_false_iff in Hnull as [|Hd]; [by left|right].
    by apply negb_false_iff, bool_decide_eq_true in Hd.
  - destruct (assoc name (sc_tables s)) as [t|] eqn:Hn; [|done].
    destruct (existsb _ _) eqn:Hno; [done|]. injection Hexec as <-. by apply drop_column_stored.
  - destruct (name_taken name s); [destruct ine; [|done]|destruct (index_valid s ix); [|done]];
      injection Hexec as <-; by apply (unchanged_stored s).
  - injection Hexec as <-. by apply (unchanged_stored s).
Qed.

(** ** Sequences of statements *)

(** Every statement meets a schema of which [exec_stored] speaks. *)
Fixpoint all_ok (l : list ddl) (s : schema) : bool :=
  match l with
  | [] => true
  | st :: l' =>
      schema_ok s && literal_default st
      && match exec st s with Ok s' => all_ok l' s' | Err _ => false end
  end.

Lemma exec_all_stored l s s' c :
  all_ok l s = true → exec_all l s = Ok s' → stored s c → stored s' (exec_all_rows l c).
Proof.
  revert s c. induction l as [|st l IH]; intros s c Hok Hexec Hst; simpl in *; [by simplify_eq|].
  apply andb_true_iff in Hok as [[Hs Hlit]%andb_true_iff Hok].
  destruct (exec st s) as [s1|] eqn:He; [|done]. eapply IH; [done|done|]. by eapply exec_stored.
Qed.

(** What only adds leaves every row where it is, with its fields. *)
Definition only_adds (st : ddl) : bool :=
  match st with DropTable _ | DropColumn _ _ => false | _ => true end.

Lemma exec_all_rows_extend l c name :
  forallb only_adds l = true → Forall2 prefix (c name) (exec_all_rows l c name).
Proof.
  revert c. induction l as [|st l IH]; intros c; simpl; [done|].
  intros [Hst Hl]%andb_true_iff. etransitivity; [|by apply IH].
  assert (∀ r, r `prefix_of` row_change st name r) as Hr.
  { intros r. destruct st; try done. simpl. destruct (String.eqb _ _); [by eexists|done]. }
  destruct st; try done; simpl; apply Forall2_fmap_r, Forall_Forall2_diag, Forall_true; exact Hr.
Qed.
