(* ===== verification/Repo.v ===== *)
(** * internal/repo: the SQL of the program

    One definition per repository function, its SQL text read against the
    schema of [migrations/]: unique constraints, foreign keys, [ON CONFLICT],
    [RETURNING], ordering and limits. *)

From S2P Require Import Prelude GoTime Uuid World.

Section repo.
Context `{Postgres}.

(** ** Reading tables *)

Definition select {A} (P : uuid → A → bool) (m : gmap uuid A) : list (uuid * A) :=
  List.filter (λ p, P p.1 p.2) (pg_scan m).

(** [QueryRow(...).Scan]: the first row, or [pgx.ErrNoRows]. *)
Definition query_row {A B} (f : uuid * A → B) (rows : list (uuid * A)) : result db_error B :=
  match rows with
  | [] => Err ErrNoRows
  | r :: _ => Ok (f r)
  end.

Definition bad_text {A} : result db_error A :=
  Err (DbError "ERROR: invalid byte sequence for encoding UTF8 (SQLSTATE 22021)").
Definition unique_violation {A} : result db_error A :=
  Err (DbError "ERROR: duplicate key value violates unique constraint (SQLSTATE 23505)").
Definition foreign_key_violation {A} : result db_error A :=
  Err (DbError "ERROR: violates foreign key constraint (SQLSTATE 23503)").
Definition bad_json {A} : result db_error A :=
  Err (DbError "ERROR: invalid input syntax for type json (SQLSTATE 22P02)").
Definition out_of_range {A} : result db_error A :=
  Err (DbError "ERROR: integer out of range (SQLSTATE 22003)").

Definition text_ok (l : list string) : bool := forallb pg_text l.
Definition opt_list (o : option string) : list string :=
  match o with Some s => [s] | None => [] end.

(** ** citizens.go *)

Definition LookupCitizenID (fingerprint : string) : M (option uuid) :=
  r ← pool_sql (λ _ d,
        match query_row fst (select (λ _ c, String.eqb (ct_fingerprint c) fingerprint)
                               (citizens d)) with
        | Ok id => Ok (id, d) | Err e => Err e end);
  match r with
  | Err ErrNoRows => ok None
  | Err e => fail e
  | Ok id => ok (Some id)
  end.

(** [UPDATE citizens SET last_seen_at = now() WHERE id = $1] *)
Definition touch_last_seen (citizenID : uuid) : sql unit :=
  λ cx d,
    Ok (tt, set_citizens
              (alter (λ c, Citizen (ct_fingerprint c) (ct_created_at c) (ct_preferences c)
                             (Some (cx_now cx))) citizenID (citizens d)) d).

Definition TouchCitizenLastSeen (citizenID : uuid) : M unit :=
  pool_sql (touch_last_seen citizenID).

Record CitizenMeRow := {
  me_ID : uuid;
  me_CreatedAt : time;
  me_LastSeenAt : option time;
  me_Preferences : string
}.

Definition GetCitizenByID (citizenID : uuid) : M (option CitizenMeRow) :=
  r ← pool_sql (λ _ d,
        match citizens d !! citizenID with
        | Some c => Ok ({| me_ID := citizenID; me_CreatedAt := ct_created_at c;
                           me_LastSeenAt := ct_last_seen_at c;
                           me_Preferences := ct_preferences c |}, d)
        | None => Err ErrNoRows
        end);
  match r with
  | Err ErrNoRows => ok None
  | Err e => fail e
  | Ok row => ok (Some row)
  end.

(** ** webhook.go *)

Record WebhookInsertParams := {
  wp_Fingerprint : string;
  wp_ChamadoID : string;
  wp_Title : string;
  wp_Body : string;
  wp_IdempotencyKey : string;
  wp_StatusAnterior : string;
  wp_StatusNovo : string;
  wp_EventType : string;
  wp_SourceTimestamp : option time
}.

Definition nullIfEmpty (s : string) : option string :=
  if String.eqb s "" then None else Some s.

Definition has_fingerprint (fp : string) (m : gmap uuid citizen) : bool :=
  existsb (λ p, String.eqb (ct_fingerprint p.2) fp) (map_to_list m).

(** [INSERT INTO citizens (fingerprint) ... ON CONFLICT (fingerprint) DO NOTHING] *)
Definition insert_citizen (fingerprint : string) : sql unit :=
  λ cx d,
    if has_fingerprint fingerprint (citizens d) then Ok (tt, d)
    else match citizens d !! cx_uuid cx with
         | Some _ => unique_violation
         | None => Ok (tt, set_citizens
             (<[cx_uuid cx := Citizen fingerprint (cx_now cx) "{}" None]> (citizens d)) d)
         end.

Definition select_citizen (fingerprint : string) : sql uuid :=
  λ _ d,
    match query_row fst (select (λ _ c, String.eqb (ct_fingerprint c) fingerprint)
                           (citizens d)) with
    | Ok id => Ok (id, d) | Err e => Err e end.

Definition EnsureCitizenID (fingerprint : string) : M uuid :=
  tx_sql (insert_citizen fingerprint) ;;?
  tx_sql (select_citizen fingerprint).

Definition has_key (key : string) (m : gmap uuid notification) : bool :=
  existsb (λ p, bool_decide (nt_idempotency_key p.2 = Some key)) (map_to_list m).

(** [INSERT INTO notifications ... ON CONFLICT (idempotency_key) DO NOTHING
    RETURNING id]: no row is returned on conflict. *)
Definition insert_notification (citizenID : uuid) (p : WebhookInsertParams) : sql uuid :=
  λ cx d,
    let ante := nullIfEmpty (wp_StatusAnterior p) in
    let novo := nullIfEmpty (wp_StatusNovo p) in
    let tipo := nullIfEmpty (wp_EventType p) in
    if negb (text_ok ([wp_ChamadoID p; wp_Title p; wp_Body p; wp_IdempotencyKey p]
                      ++ opt_list ante ++ opt_list novo ++ opt_list tipo)) then bad_text
    else if has_key (wp_IdempotencyKey p) (notifications d) then Err ErrNoRows
    else match notifications d !! cx_uuid cx, citizens d !! citizenID with
         | Some _, _ => unique_violation
         | None, None => foreign_key_violation
         | None, Some _ =>
             let row :=
               {| nt_citizen_id := citizenID; nt_chamado_id := wp_ChamadoID p;
                  nt_title := wp_Title p; nt_body := wp_Body p; nt_read_at := None;
                  nt_idempotency_key := Some (wp_IdempotencyKey p);
                  nt_created_at := cx_now cx; nt_status_anterior := ante;
                  nt_status_novo := novo; nt_event_type := tipo;
                  nt_source_timestamp := pg_timestamptz <$> wp_SourceTimestamp p |} in
             Ok (cx_uuid cx, set_notifications (<[cx_uuid cx := row]> (notifications d)) d)
         end.

(** [(inserted, citizenID, notificationID)]. *)
Definition InsertNotificationIdempotent (p : WebhookInsertParams) : M (bool * uuid * uuid) :=
  citizenID <-? EnsureCitizenID (wp_Fingerprint p) ;;
  r ← tx_sql (insert_notification citizenID p);
  match r with
  | Err ErrNoRows => ok (false, citizenID, uuid_Nil)
  | Err e => fail e
  | Ok nid => ok (true, citizenID, nid)
  end.

(** ** webhook_dlq.go *)

Definition nullString (s : string) : option string := nullIfEmpty s.

(** [INSERT INTO webhook_dlq] *)
Definition insert_dead_letter (rawBody signature errorCode errorMsg : string) : sql unit :=
  λ cx d,
    if negb (text_ok ([errorCode; errorMsg] ++ opt_list (nullString signature))) then bad_text
    else match webhook_dlq d !! cx_uuid cx with
         | Some _ => unique_violation
         | None => Ok (tt, set_dlq
             (<[cx_uuid cx := Dlq (cx_now cx) rawBody (nullString signature) errorCode errorMsg]>
                (webhook_dlq d)) d)
         end.

Definition InsertWebhookDLQ (rawBody signature errorCode errorMsg : string) : M unit :=
  pool_sql (insert_dead_letter rawBody signature errorCode errorMsg).

(** ** outbox.go *)

Record OutboxRow := {
  or_ID : uuid;
  or_CitizenID : uuid;
  or_Payload : string;
  or_Attempts : Z;
  or_NextAttemptAt : time
}.

Definition insert_outbox (citizenID notificationID : uuid) (payload : string) : sql unit :=
  λ cx d,
    match pg_jsonb payload with
    | None => bad_json
    | Some text =>
        match event_outbox d !! cx_uuid cx, citizens d !! citizenID,
              notifications d !! notificationID with
        | Some _, _, _ => unique_violation
        | None, Some _, Some _ =>
            Ok (tt, set_outbox
              (<[cx_uuid cx := Outbox citizenID notificationID text pending 0 (cx_now cx) None
                                 (cx_now cx) None]> (event_outbox d)) d)
        | None, _, _ => foreign_key_violation
        end
    end.

Definition InsertOutbox (citizenID notificationID : uuid) (payload : string) : M unit :=
  tx_sql (insert_outbox citizenID notificationID payload).

(** [ORDER BY created_at ASC, id ASC] *)
Definition outbox_le (x y : uuid * outbox) : Prop :=
  ob_created_at x.2 < ob_created_at y.2
  ∨ ob_created_at x.2 = ob_created_at y.2 ∧ (uuid_val x.1 ≤ uuid_val y.1)%N.

#[export] Instance outbox_le_dec x y : Decision (outbox_le x y).
Proof using. unfold outbox_le. apply _. Defined.

(** [WHERE status = 'pending' AND next_attempt_at <= now()], less the rows
    [SKIP LOCKED] passes over. *)
Definition claimable (cx : sql_context) (id : uuid) (o : outbox) : bool :=
  bool_decide (ob_status o = pending) && (ob_next_attempt_at o <=? cx_now cx)
  && negb (bool_decide (id ∈ cx_locked cx)).

Definition outbox_row (p : uuid * outbox) : OutboxRow :=
  {| or_ID := p.1; or_CitizenID := ob_citizen_id p.2; or_Payload := ob_payload p.2;
     or_Attempts := ob_attempts p.2; or_NextAttemptAt := ob_next_attempt_at p.2 |}.

Definition select_pending (batch : Z) : sql (list OutboxRow) :=
  λ cx d,
    Ok (outbox_row <$> take (Z.to_nat batch)
                         (merge_sort outbox_le (select (claimable cx) (event_outbox d))), d).

Definition SelectPendingOutboxForUpdate (batch : Z) : M (list OutboxRow) :=
  let batch := if batch <? 1 then 1 else batch in
  tx_sql (select_pending batch).

Definition mark_sent (now : time) (o : outbox) : outbox :=
  Outbox (ob_citizen_id o) (ob_notification_id o) (ob_payload o) sent (ob_attempts o)
    (ob_next_attempt_at o) None (ob_created_at o) (Some now).

Definition MarkOutboxSent (id : uuid) : M unit :=
  tx_sql (λ cx d, Ok (tt, set_outbox (alter (mark_sent (cx_now cx)) id (event_outbox d)) d)).

Definition mark_failed (lastErr : string) (nextAttemptAt : time) (dead_ : bool) (o : outbox)
  : outbox :=
  let status := if dead_ then dead else pending in
  Outbox (ob_citizen_id o) (ob_notification_id o) (ob_payload o) status (ob_attempts o + 1)
    (pg_timestamptz nextAttemptAt) (Some lastErr) (ob_created_at o) (ob_sent_at o).

Definition MarkOutboxPublishFailed (id : uuid) (lastErr : string) (nextAttemptAt : time)
    (dead_ : bool) : M unit :=
  tx_sql (λ _ d,
    if negb (text_ok [lastErr]) then bad_text
    else match event_outbox d !! id with
         | Some o =>
             if 2 ^ 31 - 1 <=? ob_attempts o then out_of_range
             else Ok (tt, set_outbox (<[id := mark_failed lastErr nextAttemptAt dead_ o]>
                                        (event_outbox d)) d)
         | None => Ok (tt, d)
         end).

(** ** notifications.go *)

Record NotificationRow := {
  nr_ID : uuid;
  nr_ChamadoID : string;
  nr_Title : string;
  nr_Body : string;
  nr_ReadAt : option time;
  nr_CreatedAt : time;
  nr_StatusAnterior : option string;
  nr_StatusNovo : option string;
  nr_EventType : option string;
  nr_SourceTimestamp : option time
}.

Definition notification_row (p : uuid * notification) : NotificationRow :=
  {| nr_ID := p.1; nr_ChamadoID := nt_chamado_id p.2; nr_Title := nt_title p.2;
     nr_Body := nt_body p.2; nr_ReadAt := nt_read_at p.2; nr_CreatedAt := nt_created_at p.2;
     nr_StatusAnterior := nt_status_anterior p.2; nr_StatusNovo := nt_status_novo p.2;
     nr_EventType := nt_event_type p.2; nr_SourceTimestamp := nt_source_timestamp p.2 |}.

Definition owned_by (cid : uuid) (n : notification) : bool :=
  bool_decide (nt_citizen_id n = cid).
Definition unread (n : notification) : bool :=
  match nt_read_at n with None => true | Some _ => false end.

(** [ORDER BY created_at DESC, id DESC] *)
Definition newest_first (x y : uuid * notification) : Prop :=
  nt_created_at y.2 < nt_created_at x.2
  ∨ nt_created_at x.2 = nt_created_at y.2 ∧ (uuid_val y.1 ≤ uuid_val x.1)%N.

#[export] Instance newest_first_dec x y : Decision (newest_first x y).
Proof using. unfold newest_first. apply _. Defined.

Definition count_rows {A} (l : list A) : Z := Z.of_nat (length l).

Definition citizen_rows (cid : uuid) (d : database) : list (uuid * notification) :=
  select (λ _ n, owned_by cid n) (notifications d).

(** [LIMIT] and [OFFSET] on a list of rows. *)
Fixpoint dropZ {A} (n : Z) (l : list A) : list A :=
  match l with
  | [] => []
  | _ :: l' => if n <=? 0 then l else dropZ (n - 1) l'
  end.
Fixpoint takeZ {A} (n : Z) (l : list A) : list A :=
  match l with
  | [] => []
  | a :: l' => if n <=? 0 then [] else a :: takeZ (n - 1) l'
  end.

Definition list_page (cid : uuid) (limit offset : Z) (d : database) : list NotificationRow :=
  notification_row <$>
    takeZ limit (dropZ offset (merge_sort newest_first (citizen_rows cid d))).

Definition ListNotificationsByCitizen (cid : uuid) (limit offset : Z)
  : M (list NotificationRow * Z) :=
  total <-? pool_sql (λ _ d, Ok (count_rows (citizen_rows cid d), d)) ;;
  rows <-? pool_sql (λ _ d, Ok (list_page cid limit offset d, d)) ;;
  ok (rows, total).

Definition set_read (now : time) (n : notification) : notification :=
  Notification (nt_citizen_id n) (nt_chamado_id n) (nt_title n) (nt_body n) (Some now)
    (nt_idempotency_key n) (nt_created_at n) (nt_status_anterior n) (nt_status_novo n)
    (nt_event_type n) (nt_source_timestamp n).

(** [UPDATE ... WHERE id AND citizen_id AND read_at IS NULL RETURNING chamado_id] *)
Definition mark_read (cid nid : uuid) : sql string :=
  λ cx d,
    match notifications d !! nid with
    | Some n =>
        if owned_by cid n && unread n
        then Ok (nt_chamado_id n,
                 set_notifications (<[nid := set_read (cx_now cx) n]> (notifications d)) d)
        else Err ErrNoRows
    | None => Err ErrNoRows
    end.

(** [Some chamadoID] when a row was marked. *)
Definition MarkNotificationRead (cid nid : uuid) : M (option string) :=
  r ← pool_sql (mark_read cid nid);
  match r with
  | Err ErrNoRows => ok None
  | Err e => fail e
  | Ok chamadoID => ok (Some chamadoID)
  end.

Definition GetNotificationByCitizen (cid nid : uuid) : M (option NotificationRow) :=
  r ← pool_sql (λ _ d,
        match notifications d !! nid with
        | Some n => if owned_by cid n then Ok (notification_row (nid, n), d) else Err ErrNoRows
        | None => Err ErrNoRows
        end);
  match r with
  | Err ErrNoRows => ok None
  | Err e => fail e
  | Ok row => ok (Some row)
  end.

Definition CitizenHasNotificationForChamado (cid : uuid) (chamadoID : string) : M bool :=
  n <-? pool_sql (λ _ d,
          if negb (text_ok [chamadoID]) then bad_text
          else Ok (count_rows (select (λ _ n, owned_by cid n
                                        && String.eqb (nt_chamado_id n) chamadoID)
                                (notifications d)), d)) ;;
  ok (0 <? n).

Definition to_mark (cid : uuid) (n : notification) : bool := owned_by cid n && unread n.

Definition mark_all_read (cid : uuid) : sql (list string) :=
  λ cx d,
    Ok ((λ p, nt_chamado_id p.2) <$> select (λ _ n, to_mark cid n) (notifications d),
        set_notifications
          ((λ n, if to_mark cid n then set_read (cx_now cx) n else n) <$> notifications d) d).

Definition MarkAllNotificationsRead (cid : uuid) : M (list string * Z) :=
  chamados <-? pool_sql (mark_all_read cid) ;;
  ok (chamados, count_rows chamados).

Definition unread_rows (cid : uuid) (d : database) : list (uuid * notification) :=
  select (λ _ n, to_mark cid n) (notifications d).

Definition CountUnreadNotifications (cid : uuid) : M Z :=
  pool_sql (λ _ d, Ok (count_rows (unread_rows cid d), d)).

(** ** push_devices.go *)

Definition has_token (cid : uuid) (token : string) (v : device) : bool :=
  bool_decide (dv_citizen_id v = cid) && String.eqb (dv_token v) token.

(** [INSERT ... ON CONFLICT (citizen_id, token) DO UPDATE] *)
Definition upsert_device (cid : uuid) (platform token : string) : sql unit :=
  λ cx d,
    if negb (text_ok [platform; token]) then bad_text
    else
      match select (λ _ v, has_token cid token v) (push_devices d) with
      | (id, v) :: _ =>
          Ok (tt, set_devices
            (<[id := Device cid platform token (dv_created_at v) (cx_now cx)]> (push_devices d)) d)
      | [] =>
          match push_devices d !! cx_uuid cx, citizens d !! cid with
          | Some _, _ => unique_violation
          | None, None => foreign_key_violation
          | None, Some _ =>
              Ok (tt, set_devices
                (<[cx_uuid cx := Device cid platform token (cx_now cx) (cx_now cx)]>
                   (push_devices d)) d)
          end
      end.

Definition UpsertPushDevice (cid : uuid) (platform token : string) : M unit :=
  pool_sql (upsert_device cid platform token).

(** [DELETE FROM push_devices WHERE citizen_id = $1 AND token = $2] *)
Definition delete_device (cid : uuid) (token : string) : sql Z :=
  λ _ d,
    if negb (text_ok [token]) then bad_text
    else Ok (count_rows (select (λ _ v, has_token cid token v) (push_devices d)),
             set_devices (filter (λ p, has_token cid token p.2 = false) (push_devices d)) d).

Definition DeletePushDevice (cid : uuid) (token : string) : M Z :=
  pool_sql (delete_device cid token).

Definition ListPushTokensByCitizen (cid : uuid) : M (list string) :=
  pool_sql (λ _ d,
    Ok ((λ p, dv_token p.2) <$>
          select (λ _ v, bool_decide (dv_citizen_id v = cid)) (push_devices d), d)).
End repo.

#[global] Arguments text_ok {_} _ : simpl never.
