(* ===== verification/RepoFacts.v ===== *)
(** * Invariants of the tables

    [wf]: the constraints of the schema (unique keys, foreign keys).
    [evolves]: what any step of the program may change — rows are never
    removed (devices apart), a notification keeps its content and a read mark,
    an outbox row leaves [pending] for good.  [respects] lifts a relation on
    databases from statements to operations and transactions. *)

From S2P Require Import Prelude GoTime Uuid World Repo.

(** ** Reading a scan *)

Section scan.
Context `{PostgresOk}.

Lemma elem_of_select {A} (P : uuid → A → bool) m i a :
  (i, a) ∈ select P m ↔ m !! i = Some a ∧ P i a = true.
Proof.
  unfold select. rewrite list_elem_of_In, filter_In, <-list_elem_of_In, pg_scan_perm,
    elem_of_map_to_list. done.
Qed.

Lemma select_perm {A} (P : uuid → A → bool) m :
  select P m ≡ₚ List.filter (λ p, P p.1 p.2) (map_to_list m).
Proof.
  unfold select. pose proof (pg_scan_perm m) as Hp.
  induction Hp as [|x l l' _ IH|x y l|l l' l'' _ IH1 _ IH2]; simpl; [done| | |by etrans].
  - destruct (P x.1 x.2); [by constructor|done].
  - destruct (P x.1 x.2), (P y.1 y.2); try reflexivity. by constructor.
Qed.

Lemma select_NoDup {A} (P : uuid → A → bool) m : NoDup (select P m).*1.
Proof.
  assert (NoDup (pg_scan m).*1) as Hn.
  { rewrite (pg_scan_perm m). apply NoDup_fst_map_to_list. }
  unfold select. induction (pg_scan m) as [|[i a] l IH]; simpl in *; [done|].
  apply NoDup_cons in Hn as [Hi Hl]. destruct (P i a); simpl; [|by apply IH].
  apply NoDup_cons. split; [|by apply IH]. contradict Hi.
  apply list_elem_of_fmap in Hi as ([j b] & -> & Hj). simpl.
  apply list_elem_of_In, filter_In in Hj as [Hj _].
  apply list_elem_of_fmap. exists (j, b). split; [done|]. by apply list_elem_of_In.
Qed.

Lemma select_nil {A} (P : uuid → A → bool) m :
  select P m = [] ↔ ∀ i a, m !! i = Some a → P i a = false.
Proof.
  split.
  - intros Hn i a Hi. destruct (P i a) eqn:E; [|done].
    assert ((i, a) ∈ select P m) as Hin by (by apply elem_of_select).
    rewrite Hn in Hin. by apply not_elem_of_nil in Hin.
  - intros Hf. destruct (select P m) as [|[i a] l] eqn:E; [done|].
    assert ((i, a) ∈ select P m) as Hin by (rewrite E; left).
    apply elem_of_select in Hin as [Hi Ht]. by rewrite (Hf i a Hi) in Ht.
Qed.

Lemma query_row_fst {A} (P : uuid → A → bool) m i :
  query_row fst (select P m) = Ok i → ∃ a, m !! i = Some a ∧ P i a = true.
Proof.
  destruct (select P m) as [|[j a] l] eqn:E; simpl; [done|]. intros [= ->].
  exists a. apply elem_of_select. rewrite E. left.
Qed.
End scan.

Lemma has_fingerprint_true fp m :
  has_fingerprint fp m = true ↔ ∃ i c, m !! i = Some c ∧ ct_fingerprint c = fp.
Proof.
  unfold has_fingerprint. rewrite existsb_exists. split.
  - intros ([i c] & Hin & Heq%String.eqb_eq). exists i, c. split; [|done].
    by apply elem_of_map_to_list, list_elem_of_In.
  - intros (i & c & Hin & Heq). exists (i, c). split; [|by apply String.eqb_eq].
    by apply list_elem_of_In, elem_of_map_to_list.
Qed.

Lemma has_key_true k m :
  has_key k m = true ↔ ∃ i n, m !! i = Some n ∧ nt_idempotency_key n = Some k.
Proof.
  unfold has_key. rewrite existsb_exists. split.
  - intros ([i n] & Hin & Heq%bool_decide_eq_true). exists i, n. split; [|done].
    by apply elem_of_map_to_list, list_elem_of_In.
  - intros (i & n & Hin & Heq). exists (i, n). split; [|by apply bool_decide_eq_true].
    by apply list_elem_of_In, elem_of_map_to_list.
Qed.

Lemma has_fingerprint_false fp m i c :
  has_fingerprint fp m = false → m !! i = Some c → ct_fingerprint c ≠ fp.
Proof.
  intros Hf Hi Heq. assert (has_fingerprint fp m = true); [|congruence].
  apply has_fingerprint_true. eauto.
Qed.

Lemma has_key_false k m i n :
  has_key k m = false → m !! i = Some n → nt_idempotency_key n ≠ Some k.
Proof.
  intros Hf Hi Heq. assert (has_key k m = true); [|congruence]. apply has_key_true. eauto.
Qed.

Lemma has_token_true cid token v :
  has_token cid token v = true ↔ dv_citizen_id v = cid ∧ dv_token v = token.
Proof. unfold has_token. by rewrite andb_true_iff, bool_decide_eq_true, String.eqb_eq. Qed.

(** ** Well-formed tables *)

Record wf (d : database) : Prop := {
  wf_fingerprint i j c c' :
    citizens d !! i = Some c → citizens d !! j = Some c' →
    ct_fingerprint c = ct_fingerprint c' → i = j;
  wf_key i j n n' k :
    notifications d !! i = Some n → notifications d !! j = Some n' →
    nt_idempotency_key n = Some k → nt_idempotency_key n' = Some k → i = j;
  wf_owner i n : notifications d !! i = Some n → is_Some (citizens d !! nt_citizen_id n);
  wf_outbox_citizen i o : event_outbox d !! i = Some o → is_Some (citizens d !! ob_citizen_id o);
  wf_outbox_notification i o :
    event_outbox d !! i = Some o → is_Some (notifications d !! ob_notification_id o);
  wf_device_citizen i v : push_devices d !! i = Some v → is_Some (citizens d !! dv_citizen_id v);
  wf_device_token i j v v' :
    push_devices d !! i = Some v → push_devices d !! j = Some v' →
    dv_citizen_id v = dv_citizen_id v' → dv_token v = dv_token v' → i = j
}.

Lemma wf_empty : wf empty_database.
Proof. split; intros *; simpl; rewrite lookup_empty; done. Qed.

(** ** How tables may change *)

Definition citizen_le (c c' : citizen) : Prop :=
  ct_fingerprint c' = ct_fingerprint c ∧ ct_created_at c' = ct_created_at c
  ∧ ct_preferences c' = ct_preferences c.

(** Only the read mark changes, and only from unset to set. *)
Definition notification_le (n n' : notification) : Prop :=
  n' = n ∨ nt_read_at n = None ∧ ∃ t, n' = set_read t n.

Definition outbox_same (o o' : outbox) : Prop :=
  ob_citizen_id o' = ob_citizen_id o ∧ ob_notification_id o' = ob_notification_id o
  ∧ ob_payload o' = ob_payload o ∧ ob_created_at o' = ob_created_at o.

(** A row that left [pending] is not touched again. *)
Definition outbox_progress (o o' : outbox) : Prop :=
  outbox_same o o' ∧ (ob_status o ≠ pending → o' = o) ∧ ob_attempts o ≤ ob_attempts o'.

Definition grows {A} (R : A → A → Prop) (m m' : gmap uuid A) : Prop :=
  ∀ i a, m !! i = Some a → ∃ a', m' !! i = Some a' ∧ R a a'.

Record evolves (d d' : database) : Prop := {
  ev_citizens : grows citizen_le (citizens d) (citizens d');
  ev_notifications : grows notification_le (notifications d) (notifications d');
  ev_outbox : grows outbox_progress (event_outbox d) (event_outbox d');
  ev_dlq : grows eq (webhook_dlq d) (webhook_dlq d')
}.

Lemma citizen_le_refl c : citizen_le c c.
Proof. done. Qed.
Lemma outbox_progress_refl o : outbox_progress o o.
Proof. split; [done|]. split; [done|lia]. Qed.
Lemma notification_le_refl n : notification_le n n.
Proof. by left. Qed.

#[export] Instance citizen_le_pre : PreOrder citizen_le.
Proof.
  split; [intros c; apply citizen_le_refl|].
  unfold citizen_le. intros a b c (?&?&?) (?&?&?). split_and!; congruence.
Qed.

#[export] Instance notification_le_pre : PreOrder notification_le.
Proof.
  split; [intros n; apply notification_le_refl|].
  intros a b c [->|[Ha [t ->]]] [->|[Hb [t' ->]]]; [by left|right; eauto|right; eauto|done].
Qed.

#[export] Instance outbox_progress_pre : PreOrder outbox_progress.
Proof.
  split; [intros n; apply outbox_progress_refl|].
  unfold outbox_progress, outbox_same. intros a b c ((?&?&?&?)&Hs&?) ((?&?&?&?)&Hs'&?).
  split_and!; try congruence; [|lia].
  intros Hne. rewrite Hs'; [by apply Hs|by rewrite Hs].
Qed.

#[export] Instance grows_pre {A} (R : A → A → Prop) `{!PreOrder R} : PreOrder (grows R).
Proof.
  split.
  - intros m i a Hi. exists a. split; [done|reflexivity].
  - intros m m' m'' H1 H2 i a (b & Hb & Rab)%H1. apply H2 in Hb as (c & Hc & Rbc).
    exists c. split; [done|]. by transitivity b.
Qed.

#[export] Instance evolves_pre : PreOrder evolves.
Proof.
  split.
  - intros d. by split.
  - intros d d' d'' [] []. split; by etrans.
Qed.

(** What every operation of the program guarantees. *)
Definition sound (d d' : database) : Prop := wf d → wf d' ∧ evolves d d'.

#[export] Instance sound_pre : PreOrder sound.
Proof.
  split.
  - intros d Hd. by split.
  - intros d d' d'' H1 H2 Hd. destruct (H1 Hd) as [Hd' ?]. destruct (H2 Hd') as [? ?].
    split; [done|]. by etrans.
Qed.

Lemma grows_insert_new {A} (R : A → A → Prop) `{!PreOrder R} (m : gmap uuid A) i a :
  m !! i = None → grows R m (<[i:=a]> m).
Proof.
  intros Hi j b Hj. exists b. split; [|reflexivity]. rewrite lookup_insert_ne; congruence.
Qed.

Lemma grows_insert_old {A} (R : A → A → Prop) `{!PreOrder R} (m : gmap uuid A) i a b :
  m !! i = Some a → R a b → grows R m (<[i:=b]> m).
Proof.
  intros Hi Hab j c Hj. destruct (decide (i = j)) as [->|Hne].
  - rewrite lookup_insert_eq. exists b. split; [done|congruence].
  - rewrite lookup_insert_ne by done. exists c. split; [done|reflexivity].
Qed.

Lemma grows_alter {A} (R : A → A → Prop) `{!PreOrder R} (m : gmap uuid A) i f :
  (∀ a, m !! i = Some a → R a (f a)) → grows R m (alter f i m).
Proof.
  intros Hf j c Hj. destruct (decide (i = j)) as [->|Hne].
  - rewrite lookup_alter_eq, Hj. exists (f c). split; [done|by apply Hf].
  - rewrite lookup_alter_ne by done. exists c. split; [done|reflexivity].
Qed.

Lemma grows_dom {A} (R : A → A → Prop) (m m' : gmap uuid A) i :
  grows R m m' → is_Some (m !! i) → is_Some (m' !! i).
Proof. intros Hg [a (b & Hb & _)%Hg]. eauto. Qed.

(** ** Lifting a relation on databases to operations *)

Lemma next_fault_state w w' f :
  next_fault w = (w', f) → w_db w' = w_db w ∧ w_tx w' = w_tx w ∧ w_pgnow w' = w_pgnow w.
Proof. unfold next_fault. destruct (w_faults w); intros; simplify_eq; done. Qed.

(** An operation that does not touch the database. *)
Definition inert {A} (m : ST A) : Prop :=
  ∀ w w' a, m w = (w', a) → w_db w' = w_db w ∧ w_tx w' = w_tx w.

Section respects.
Context `{Postgres}.
Variable R : database → database → Prop.
Context `{!PreOrder R}.

Definition sql_respects {A} (st : sql A) : Prop :=
  ∀ cx d a d', st cx d = Ok (a, d') → R d d'.

(** Outside a transaction. *)
Definition pool_op {A} (m : ST A) : Prop :=
  ∀ w w' a, w_tx w = None → m w = (w', a) → w_tx w' = None ∧ R (w_db w) (w_db w').

(** The open transaction's view stays [R]-above the committed state. *)
Definition view_ok (w : world) : Prop := ∀ d, w_tx w = Some d → R (w_db w) d.

Definition keeps {A} (m : ST A) : Prop :=
  ∀ w w' a, view_ok w → m w = (w', a) → R (w_db w) (w_db w') ∧ view_ok w'.

Lemma inert_pool_op {A} (m : ST A) : inert m → pool_op m.
Proof. intros Hm w w' a Hw [-> ->]%Hm. done. Qed.

Lemma inert_keeps {A} (m : ST A) : inert m → keeps m.
Proof.
  intros Hm w w' a Hw [Hd Ht]%Hm. unfold view_ok. by rewrite Hd, Ht.
Qed.

Lemma pool_op_bind {A B} (m : ST A) (k : A → ST B) :
  pool_op m → (∀ a, pool_op (k a)) → pool_op (m ≫= k).
Proof.
  intros Hm Hk w w' b Hw. unfold mbind, ST_bind. destruct (m w) as [w1 a] eqn:E.
  apply Hm in E as [Hw1 ?]; [|done]. intros [? ?]%Hk; [|done]. split; [done|by etrans].
Qed.

Lemma keeps_bind {A B} (m : ST A) (k : A → ST B) :
  keeps m → (∀ a, keeps (k a)) → keeps (m ≫= k).
Proof.
  intros Hm Hk w w' b Hw. unfold mbind, ST_bind. destruct (m w) as [w1 a] eqn:E.
  apply Hm in E as [? Hw1]; [|done]. intros [? ?]%Hk; [|done]. split; [by etrans|done].
Qed.

Lemma pool_op_ebind {E A B} (m : ST (result E A)) (k : A → ST (result E B)) :
  pool_op m → (∀ a, pool_op (k a)) → pool_op (ebind m k).
Proof.
  intros Hm Hk w w' b Hw. unfold ebind. destruct (m w) as [w1 [a|e]] eqn:Em.
  - apply Hm in Em as [Hw1 ?]; [|done]. intros [? ?]%Hk; [|done]. split; [done|by etrans].
  - intros ?; simplify_eq. by eapply Hm.
Qed.

Lemma keeps_ebind {E A B} (m : ST (result E A)) (k : A → ST (result E B)) :
  keeps m → (∀ a, keeps (k a)) → keeps (ebind m k).
Proof.
  intros Hm Hk w w' b Hw. unfold ebind. destruct (m w) as [w1 [a|e]] eqn:Em.
  - apply Hm in Em as [? Hw1]; [|done]. intros [? ?]%Hk; [|done]. split; [by etrans|done].
  - intros ?; simplify_eq. by eapply Hm.
Qed.

Lemma inert_ret {A} (a : A) : inert (mret a).
Proof. by intros w w' b [= <- <-]. Qed.

Lemma pool_op_sql {A} (st : sql A) : sql_respects st → pool_op (pool_sql st).
Proof.
  intros Hst w w' a Hw. unfold pool_sql, run_sql.
  destruct (next_fault _) as [w1 f] eqn:Ef. apply next_fault_state in Ef as (Hd & Ht & _).
  simpl in Hd, Ht.
  destruct f; simpl; intros; repeat case_match; simplify_eq; simpl; (split; [congruence|]);
    first [rewrite Hd; reflexivity|rewrite <-Hd; eapply Hst; eauto].
Qed.

Lemma keeps_tx_sql {A} (st : sql A) : sql_respects st → keeps (tx_sql st).
Proof.
  intros Hst w w' a Hw. unfold tx_sql, run_sql.
  destruct (next_fault _) as [w1 f] eqn:Ef. apply next_fault_state in Ef as (Hd & Ht & _).
  simpl in Hd, Ht. unfold view_ok in *.
  assert (R (w_db w) (w_db w1) ∧ view_ok w1) as Hkeep.
  { unfold view_ok. rewrite Hd, Ht. done. }
  destruct f; simpl; intros; repeat case_match; simplify_eq; try exact Hkeep;
    simpl; rewrite Hd; (split; [done|]); intros ? [= <-];
    (etrans; [apply Hw; symmetry; eassumption|eapply Hst; eauto]).
Qed.

Lemma keeps_Begin : keeps Begin.
Proof.
  intros w w' a Hw. unfold Begin.
  destruct (next_fault w) as [w1 f] eqn:Ef. apply next_fault_state in Ef as (Hd & Ht & _).
  unfold view_ok in *. destruct f; intros; simplify_eq; simpl; rewrite ?Hd, ?Ht;
    (split; [done|]); try done. by intros ? [= <-].
Qed.

Lemma keeps_Commit : keeps Commit.
Proof.
  intros w w' a Hw. unfold Commit. destruct (w_tx w) as [d|] eqn:Et.
  - destruct (next_fault w) as [w1 f] eqn:Ef. apply next_fault_state in Ef as (Hd & Ht & _).
    destruct f; intros; simplify_eq; simpl; (split; [|by intros ?]);
      rewrite ?Hd; first [by apply Hw|reflexivity].
  - intros; simplify_eq. done.
Qed.

Lemma pool_op_transaction {A} (m : ST A) : keeps m → pool_op (defer_rollback m).
Proof.
  intros Hm w w' a Hw. unfold defer_rollback. destruct (m w) as [w1 b] eqn:E.
  intros; simplify_eq. simpl. split; [done|].
  apply Hm in E; [tauto|]. intros d Hd. congruence.
Qed.
End respects.

Lemma inert_bind {A B} (m : ST A) (k : A → ST B) :
  inert m → (∀ a, inert (k a)) → inert (m ≫= k).
Proof.
  intros Hm Hk w w' b. unfold mbind, ST_bind. destruct (m w) as [w1 a] eqn:E.
  apply Hm in E as [Hd Ht]. intros [-> ->]%Hk. done.
Qed.

Lemma inert_emit e : inert (emit e).
Proof. by intros w w' a [= <- <-]. Qed.

Lemma inert_time_Now : inert time_Now.
Proof. by intros w w' a [= <- <-]. Qed.

Lemma inert_Publish c p : inert (Publish c p).
Proof.
  intros w w' a. unfold Publish. destruct (w_redis w) as [|[] fs]; intros; simplify_eq; done.
Qed.

Lemma inert_http_Do m u b : inert (http_Do m u b).
Proof.
  intros w w' a. unfold http_Do. simpl. destruct (w_http w); intros; simplify_eq; done.
Qed.

Create HintDb respects discriminated.
#[export] Hint Resolve inert_emit inert_time_Now inert_Publish inert_http_Do inert_ret
  inert_bind : respects.

(** ** One statement at a time *)

Section steps.
Context `{Postgres}.

Definition context_of (w : world) : sql_context :=
  {| cx_uuid := gen_random_uuid (w_gen w); cx_now := w_pgnow w; cx_locked := w_locked w |}.

(** A statement of the open transaction, whatever the environment does. *)
Lemma tx_sql_inv {A} (st : sql A) w w' r d :
  w_tx w = Some d → tx_sql st w = (w', r) →
  w_db w' = w_db w ∧ w_pgnow w' = w_pgnow w ∧
  match r with
  | Ok a => ∃ d', st (context_of w) d = Ok (a, d') ∧ w_tx w' = Some d'
  | Err ErrNoRows => st (context_of w) d = Err ErrNoRows ∧ w_tx w' = Some d
  | Err (DbError _) => True
  end.
Proof.
  intros Hw. unfold tx_sql, run_sql. fold (context_of w).
  destruct (next_fault _) as [w1 f] eqn:Ef. apply next_fault_state in Ef as (Hd & Ht & Hn).
  simpl in Hd, Ht, Hn. rewrite Hw in Ht.
  destruct f; simpl; intros; repeat case_match; simplify_eq; eauto 10.
Qed.

(** Without failures, a statement is its SQL. *)
Lemma tx_sql_fine {A} (st : sql A) w d :
  w_tx w = Some d → w_faults w = [] →
  tx_sql st w =
    let w1 := with_gen (S (w_gen w)) w in
    match st (context_of w) d with
    | Ok (a, d') => (with_tx (Some d') w1, Ok a)
    | Err e => (w1, Err e)
    end.
Proof.
  intros Hw Hf. unfold tx_sql, run_sql, next_fault. simpl. rewrite Hf. simpl. by rewrite Hw.
Qed.

Lemma pool_sql_fine {A} (st : sql A) w :
  w_faults w = [] →
  pool_sql st w =
    let w1 := with_gen (S (w_gen w)) w in
    match st (context_of w) (w_db w) with
    | Ok (a, d') => (with_db d' w1, Ok a)
    | Err e => (w1, Err e)
    end.
Proof. intros Hf. unfold pool_sql, run_sql, next_fault. simpl. by rewrite Hf. Qed.

(** A statement on the pool: nothing, or its SQL, happened. *)
Lemma pool_sql_inv {A} (st : sql A) w w' r :
  pool_sql st w = (w', r) →
  w_tx w' = w_tx w ∧ w_pgnow w' = w_pgnow w ∧
  match r with
  | Ok a => st (context_of w) (w_db w) = Ok (a, w_db w')
  | Err ErrNoRows => st (context_of w) (w_db w) = Err ErrNoRows ∧ w_db w' = w_db w
  | Err (DbError _) =>
      w_db w' = w_db w ∨ ∃ a, st (context_of w) (w_db w) = Ok (a, w_db w')
  end.
Proof.
  unfold pool_sql, run_sql. fold (context_of w).
  destruct (next_fault _) as [w1 f] eqn:Ef. apply next_fault_state in Ef as (Hd & Ht & Hn).
  simpl in Hd, Ht, Hn.
  destruct f; simpl; intros; repeat case_match; simplify_eq; simpl; rewrite ?Hd in *; eauto 10.
Qed.
End steps.

Lemma Begin_inv w w' r :
  Begin w = (w', r) →
  w_db w' = w_db w ∧ w_pgnow w' = w_pgnow w
  ∧ w_tx w' = match r with Ok _ => Some (w_db w) | Err _ => w_tx w end.
Proof.
  unfold Begin. destruct (next_fault w) as [w1 f] eqn:Ef.
  apply next_fault_state in Ef as (Hd & Ht & Hn).
  destruct f; intros; simplify_eq; simpl; rewrite ?Hd; done.
Qed.

Lemma Commit_inv w w' r d :
  w_tx w = Some d → Commit w = (w', r) →
  w_tx w' = None ∧ w_pgnow w' = w_pgnow w
  ∧ match r with Ok _ => w_db w' = d | Err _ => w_db w' = w_db w ∨ w_db w' = d end.
Proof.
  intros Hw. unfold Commit. rewrite Hw. destruct (next_fault w) as [w1 f] eqn:Ef.
  apply next_fault_state in Ef as (Hd & Ht & Hn).
  destruct f; intros; simplify_eq; simpl; rewrite ?Hd; auto.
Qed.

(** Opening one monadic step. *)
Lemma bind_inv {A B} (m : ST A) (k : A → ST B) w w' b :
  (m ≫= k) w = (w', b) → ∃ w1 a, m w = (w1, a) ∧ k a w1 = (w', b).
Proof. unfold mbind, ST_bind. destruct (m w) as [w1 a]. eauto. Qed.

Lemma ebind_inv {E A B} (m : ST (result E A)) (k : A → ST (result E B)) w w' r :
  ebind m k w = (w', r) →
  ∃ w1 r1, m w = (w1, r1)
           ∧ match r1 with Ok a => k a w1 = (w', r) | Err e => w' = w1 ∧ r = Err e end.
Proof.
  unfold ebind. destruct (m w) as [w1 r1]. intros Hr. exists w1, r1. split; [done|].
  destruct r1; simplify_eq; done.
Qed.

Lemma Begin_fine w : w_faults w = [] → Begin w = (with_tx (Some (w_db w)) w, Ok tt).
Proof. intros Hf. unfold Begin, next_fault. by rewrite Hf. Qed.

Lemma Commit_fine w d :
  w_faults w = [] → w_tx w = Some d → Commit w = (with_tx None (with_db d w), Ok tt).
Proof. intros Hf Hd. unfold Commit, next_fault. by rewrite Hd, Hf. Qed.

(** ** Keys and fingerprints persist *)

Lemma has_key_evolves k d d' :
  evolves d d' → has_key k (notifications d) = true → has_key k (notifications d') = true.
Proof.
  intros He (i & n & Hi & Hk)%has_key_true. apply has_key_true.
  apply (ev_notifications _ _ He) in Hi as (n' & Hi' & Hle). exists i, n'. split; [done|].
  destruct Hle as [->|[_ [t ->]]]; done.
Qed.

Lemma has_fingerprint_evolves fp d d' :
  evolves d d' → has_fingerprint fp (citizens d) = true → has_fingerprint fp (citizens d') = true.
Proof.
  intros He (i & c & Hi & Hk)%has_fingerprint_true. apply has_fingerprint_true.
  apply (ev_citizens _ _ He) in Hi as (c' & Hi' & Hf & _). exists i, c'. split; congruence.
Qed.

Section fine.
Context `{PostgresOk}.

Lemma select_citizen_fine fp cx d :
  has_fingerprint fp (citizens d) = true →
  ∃ cid c, select_citizen fp cx d = Ok (cid, d)
           ∧ citizens d !! cid = Some c ∧ ct_fingerprint c = fp.
Proof.
  intros (i & c & Hi & Hf)%has_fingerprint_true. unfold select_citizen.
  destruct (select _ _) as [|[j c'] l] eqn:Es.
  - rewrite select_nil in Es. specialize (Es i c Hi). simpl in Es.
    by rewrite Hf, String.eqb_refl in Es.
  - assert ((j, c') ∈ select (λ _ c, String.eqb (ct_fingerprint c) fp) (citizens d)) as Hin
      by (rewrite Es; left).
    apply elem_of_select in Hin as [Hj Hc%String.eqb_eq]. simpl. eauto.
Qed.

(** The citizen of a fingerprint, without failures: found, or created under
    the next UUID. *)
Lemma EnsureCitizenID_fine fp w d :
  w_tx w = Some d → w_faults w = [] →
  (has_fingerprint fp (citizens d) = false → citizens d !! gen_random_uuid (w_gen w) = None) →
  ∃ d1 cid c,
    EnsureCitizenID fp w = (with_tx (Some d1) (with_gen (S (S (w_gen w))) w), Ok cid)
    ∧ (if has_fingerprint fp (citizens d) then d1 = d
       else d1 = set_citizens (<[gen_random_uuid (w_gen w) := Citizen fp (w_pgnow w) "{}" None]>
                                 (citizens d)) d)
    ∧ citizens d1 !! cid = Some c ∧ ct_fingerprint c = fp.
Proof.
  intros Hw Hf Hfresh. unfold EnsureCitizenID, ebind.
  rewrite (tx_sql_fine _ _ _ Hw Hf). cbv zeta. unfold insert_citizen at 1.
  destruct (has_fingerprint fp (citizens d)) eqn:E.
  - rewrite (tx_sql_fine _ _ d) by done.
    destruct (select_citizen_fine fp (context_of (with_tx (Some d) (with_gen (S (w_gen w)) w))) d E)
      as (cid & c & -> & ? & ?). cbv zeta. eauto 10.
  - simpl. rewrite (Hfresh eq_refl).
    set (d1 := set_citizens _ d). rewrite (tx_sql_fine _ _ d1) by done.
    destruct (select_citizen_fine fp (context_of (with_tx (Some d1) (with_gen (S (w_gen w)) w))) d1)
      as (cid & c & -> & ? & ?).
    { apply has_fingerprint_true. exists (gen_random_uuid (w_gen w)). eexists.
      split; [apply lookup_insert_eq|done]. }
    cbv zeta. eauto 10.
Qed.
End fine.
