(* ===== verification/RepoSound.v ===== *)
(** * Every repository operation is sound

    Each SQL statement of [Repo] keeps the tables well formed and only lets
    rows evolve; the operations follow by the composition rules of
    [RepoFacts]. *)

From S2P Require Import Prelude GoTime Uuid World Repo RepoFacts.

(** A statement that leaves the tables alone. *)
Lemma read_respects {A} (R : database → database → Prop) `{!PreOrder R} (st : sql A) :
  (∀ cx d a d', st cx d = Ok (a, d') → d' = d) → sql_respects R st.
Proof. intros Hst cx d a d' ->%Hst. reflexivity. Qed.

Ltac solve_read :=
  apply read_respects; [apply _|]; intros ? ? ? ?; repeat case_match; intros; by simplify_eq.

Section sound.
Context `{PostgresOk}.

(** ** Replacing one table *)

Lemma wf_set_citizens m d :
  wf d → grows citizen_le (citizens d) m →
  (∀ i j c c', m !! i = Some c → m !! j = Some c' →
     ct_fingerprint c = ct_fingerprint c' → i = j) →
  wf (set_citizens m d).
Proof.
  intros [] Hg Hf. split; simpl; eauto using grows_dom.
Qed.

Lemma sound_set_citizens m d :
  grows citizen_le (citizens d) m →
  (wf d → ∀ i j c c', m !! i = Some c → m !! j = Some c' →
     ct_fingerprint c = ct_fingerprint c' → i = j) →
  sound d (set_citizens m d).
Proof.
  intros Hg Hf Hd. split; [apply wf_set_citizens; [done..|by apply Hf]|by split].
Qed.

Lemma sound_set_notifications m d :
  grows notification_le (notifications d) m →
  (wf d → (∀ i j n n' k, m !! i = Some n → m !! j = Some n' →
             nt_idempotency_key n = Some k → nt_idempotency_key n' = Some k → i = j)
          ∧ (∀ i n, m !! i = Some n → is_Some (citizens d !! nt_citizen_id n))) →
  sound d (set_notifications m d).
Proof.
  intros Hg Hm Hd. destruct (Hm Hd) as [Hk Ho]. split; [|by split].
  destruct Hd. split; simpl; eauto using grows_dom.
Qed.

Lemma sound_set_outbox m d :
  grows outbox_progress (event_outbox d) m →
  (wf d → ∀ i o, m !! i = Some o → is_Some (citizens d !! ob_citizen_id o)
                                   ∧ is_Some (notifications d !! ob_notification_id o)) →
  sound d (set_outbox m d).
Proof.
  intros Hg Hm Hd. specialize (Hm Hd). split; [|by split].
  destruct Hd. split; simpl; eauto; intros i o Hi; by apply (Hm i o Hi).
Qed.

Lemma sound_set_dlq m d : grows eq (webhook_dlq d) m → sound d (set_dlq m d).
Proof. intros Hg Hd. split; [|by split]. by destruct Hd. Qed.

Lemma sound_set_devices m d :
  (wf d → (∀ i v, m !! i = Some v → is_Some (citizens d !! dv_citizen_id v))
          ∧ (∀ i j v v', m !! i = Some v → m !! j = Some v' →
               dv_citizen_id v = dv_citizen_id v' → dv_token v = dv_token v' → i = j)) →
  sound d (set_devices m d).
Proof.
  intros Hm Hd. destruct (Hm Hd). split; [|by split]. by destruct Hd; split.
Qed.

(** ** Statements *)

Lemma insert_citizen_sound fp : sql_respects sound (insert_citizen fp).
Proof.
  intros cx d a d'. unfold insert_citizen, unique_violation.
  destruct (has_fingerprint fp _) eqn:Ef; [intros; simplify_eq; reflexivity|].
  destruct (citizens d !! _) eqn:Eu; [done|]. intros [= <- <-].
  apply sound_set_citizens; [apply grows_insert_new; [apply _|done]|].
  intros Hd i j c c'. rewrite !lookup_insert_Some.
  pose proof (has_fingerprint_false fp (citizens d)) as Hno.
  intros [[<- <-]|[? Hi]] [[<- <-]|[? Hj]] Hf; simpl in *; [done| | |].
  - symmetry in Hf. by apply Hno in Hj.
  - by apply Hno in Hi.
  - by eapply wf_fingerprint.
Qed.

Lemma select_citizen_sound fp : sql_respects sound (select_citizen fp).
Proof. unfold select_citizen. solve_read. Qed.

Lemma insert_notification_sound cid p : sql_respects sound (insert_notification cid p).
Proof.
  intros cx d a d'. unfold insert_notification, bad_text, unique_violation, foreign_key_violation.
  destruct (negb _); [done|]. destruct (has_key _ _) eqn:Ek; [done|].
  destruct (notifications d !! _) eqn:En; [done|].
  destruct (citizens d !! cid) eqn:Ec; [|done]. intros [= <- <-].
  apply sound_set_notifications; [apply grows_insert_new; [apply _|done]|].
  intros Hd. pose proof (has_key_false (wp_IdempotencyKey p) (notifications d)) as Hno. split.
  - intros i j n n' k. rewrite !lookup_insert_Some.
    intros [[<- <-]|[? Hi]] [[<- <-]|[? Hj]] Hk Hk'; simpl in *; simplify_eq; [done| | |].
    + by apply Hno in Hj.
    + by apply Hno in Hi.
    + by eapply wf_key.
  - intros i n. rewrite lookup_insert_Some. intros [[<- <-]|[? Hi]]; simpl; [by eauto|].
    by eapply wf_owner.
Qed.

Lemma mark_read_sound cid nid : sql_respects sound (mark_read cid nid).
Proof.
  intros cx d a d'. unfold mark_read.
  destruct (notifications d !! nid) as [n|] eqn:En; [|done].
  destruct (_ && _) eqn:Eb; [|done]. intros [= <- <-].
  apply andb_prop in Eb as [_ Hu]. apply sound_set_notifications.
  - apply (grows_insert_old _ _ _ n); [done|]. right. split; [|by eexists].
    unfold unread in Hu. by destruct (nt_read_at n).
  - intros Hd. split.
    + intros i j m m' k. rewrite !lookup_insert_Some.
      intros [[<- <-]|[? Hi]] [[<- <-]|[? Hj]] Hk Hk'; simpl in *; simplify_eq; [done| | |];
        by eapply wf_key.
    + intros i m. rewrite lookup_insert_Some. intros [[<- <-]|[? Hi]]; simpl;
        by eapply wf_owner.
Qed.

Lemma mark_all_read_sound cid : sql_respects sound (mark_all_read cid).
Proof.
  intros cx d a d' [= <- <-].
  set (f := λ n, if to_mark cid n then set_read (cx_now cx) n else n).
  assert (∀ n, nt_citizen_id (f n) = nt_citizen_id n
               ∧ nt_idempotency_key (f n) = nt_idempotency_key n) as Hf.
  { intros n. unfold f. by destruct (to_mark cid n). }
  apply sound_set_notifications.
  - intros i n Hi. exists (f n). split; [by rewrite lookup_fmap, Hi|].
    unfold f, to_mark, unread. destruct (owned_by cid n); simpl; [|by left].
    destruct (nt_read_at n) eqn:Er; [by left|]. right. split; [done|by eexists].
  - intros Hd. split.
    + intros i j m m' k. rewrite !lookup_fmap, !fmap_Some.
      intros (n & Hi & ->) (n' & Hj & ->).
      rewrite (proj2 (Hf n)), (proj2 (Hf n')). by eapply wf_key.
    + intros i m. rewrite lookup_fmap, fmap_Some. intros (n & Hi & ->).
      rewrite (proj1 (Hf n)). by eapply wf_owner.
Qed.

Lemma upsert_device_sound cid platform token :
  sql_respects sound (upsert_device cid platform token).
Proof.
  intros cx d a d'. unfold upsert_device, bad_text, unique_violation, foreign_key_violation.
  destruct (negb _); [done|].
  destruct (select _ (push_devices d)) as [|[i v] l] eqn:Es.
  - destruct (push_devices d !! _) eqn:Ed; [done|].
    destruct (citizens d !! cid) eqn:Ec; [|done]. intros [= <- <-].
    apply sound_set_devices. intros Hd. split.
    + intros i v. rewrite lookup_insert_Some. intros [[<- <-]|[? Hi]]; simpl; [by eauto|].
      by eapply wf_device_citizen.
    + assert (∀ i v, push_devices d !! i = Some v →
                dv_citizen_id v = cid → dv_token v = token → False) as Hno.
      { intros i v Hi Hc Ht. rewrite select_nil in Es. specialize (Es i v Hi).
        unfold has_token in Es. rewrite bool_decide_eq_true_2 in Es by done.
        by rewrite Ht, String.eqb_refl in Es. }
      intros i j v v'. rewrite !lookup_insert_Some.
      intros [[<- <-]|[? Hi]] [[<- <-]|[? Hj]] Hc Ht; simpl in *; [done| | |].
      * exfalso. by eapply Hno.
      * exfalso. by eapply Hno.
      * by eapply wf_device_token.
  - intros [= <- <-].
    assert ((i, v) ∈ select (λ _ v, has_token cid token v) (push_devices d)) as Hin
      by (rewrite Es; left).
    apply elem_of_select in Hin as [Hi Ht]. unfold has_token in Ht.
    apply andb_prop in Ht as [Hc%bool_decide_eq_true Ht%String.eqb_eq].
    apply sound_set_devices. intros Hd. split.
    + intros j v'. rewrite lookup_insert_Some. intros [[<- <-]|[? Hj]]; simpl;
        [rewrite <-Hc|]; by eapply wf_device_citizen.
    + intros j k v1 v2. rewrite !lookup_insert_Some.
      intros [[<- <-]|[? Hj]] [[<- <-]|[? Hk]] Hc' Ht'; simpl in *; [done| | |];
        eapply wf_device_token; eauto; congruence.
Qed.
Lemma touch_last_seen_sound cid : sql_respects sound (touch_last_seen cid).
Proof.
  intros cx d a d' [= <- <-].
  apply sound_set_citizens; [apply grows_alter; [apply _|done]|].
  intros Hd i j c c'. rewrite !lookup_alter_Some.
  intros [(<-&x&?&->)|[? ?]] [(<-&y&?&->)|[? ?]]; simpl; intros; try done; by eapply wf_fingerprint.
Qed.

Lemma insert_dead_letter_sound body sig code msg :
  sql_respects sound (insert_dead_letter body sig code msg).
Proof.
  intros cx d a d'. unfold insert_dead_letter, bad_text, unique_violation.
  destruct (negb _); [done|]. destruct (webhook_dlq d !! _) eqn:E; [done|]. intros [= <- <-].
  apply sound_set_dlq, grows_insert_new; [apply _|done].
Qed.

Lemma delete_device_sound cid token : sql_respects sound (delete_device cid token).
Proof.
  intros cx d a d'. unfold delete_device, bad_text.
  destruct (negb _); [done|]. intros [= <- <-]. apply sound_set_devices. intros Hd. split.
  - intros i v [Hi _]%map_lookup_filter_Some. by eapply wf_device_citizen.
  - intros i j v v' [Hi _]%map_lookup_filter_Some [Hj _]%map_lookup_filter_Some.
    by eapply wf_device_token.
Qed.

(** ** Operations *)

Abbreviation pool := (pool_op sound).
Abbreviation kept := (keeps sound).

Lemma catch_pool {A B} (m : ST (result db_error A)) (k : result db_error A → ST B) :
  pool m → (∀ r, inert (k r)) → pool (m ≫= k).
Proof. intros Hm Hk. apply pool_op_bind; [apply _|done|]. intros r. by apply inert_pool_op; [apply _|]. Qed.

Lemma LookupCitizenID_sound fp : pool (LookupCitizenID fp).
Proof.
  apply catch_pool; [apply pool_op_sql; [apply _|]; solve_read|].
  intros [|[]]; apply inert_ret.
Qed.

Lemma TouchCitizenLastSeen_sound cid : pool (TouchCitizenLastSeen cid).
Proof. apply pool_op_sql; [apply _|apply touch_last_seen_sound]. Qed.

Lemma GetCitizenByID_sound cid : pool (GetCitizenByID cid).
Proof.
  apply catch_pool; [apply pool_op_sql; [apply _|]; solve_read|].
  intros [|[]]; apply inert_ret.
Qed.

Lemma InsertNotificationIdempotent_sound p : kept (InsertNotificationIdempotent p).
Proof.
  apply keeps_ebind; [apply _| |intros cid].
  - apply keeps_ebind; [apply _|apply keeps_tx_sql; [apply _|apply insert_citizen_sound]|intros _].
    apply keeps_tx_sql; [apply _|apply select_citizen_sound].
  - apply keeps_bind; [apply _|apply keeps_tx_sql; [apply _|apply insert_notification_sound]|].
    intros [|[]]; apply inert_keeps, inert_ret; apply _.
Qed.

Lemma insert_outbox_sound cid nid payload : sql_respects sound (insert_outbox cid nid payload).
Proof.
  intros cx d a d'. unfold insert_outbox, bad_json, unique_violation,
    foreign_key_violation. destruct (pg_jsonb payload) as [text|]; [|done].
  destruct (event_outbox d !! _) eqn:Eo; [done|].
  destruct (citizens d !! cid) eqn:Ec; [|done].
  destruct (notifications d !! nid) eqn:En; [|done]. intros [= <- <-].
  apply sound_set_outbox; [apply grows_insert_new; [apply _|done]|].
  intros Hd i o. rewrite lookup_insert_Some. intros [[<- <-]|[? Hi]]; simpl; [by eauto|].
  split; [by eapply wf_outbox_citizen|by eapply wf_outbox_notification].
Qed.

Lemma InsertOutbox_sound cid nid payload : kept (InsertOutbox cid nid payload).
Proof. apply keeps_tx_sql; [apply _|apply insert_outbox_sound]. Qed.

Lemma InsertWebhookDLQ_sound body sig code msg : pool (InsertWebhookDLQ body sig code msg).
Proof. apply pool_op_sql; [apply _|apply insert_dead_letter_sound]. Qed.

Lemma ListNotificationsByCitizen_sound cid l o : pool (ListNotificationsByCitizen cid l o).
Proof.
  apply pool_op_ebind; [apply _|apply pool_op_sql; [apply _|]; solve_read|intros total].
  apply pool_op_ebind; [apply _|apply pool_op_sql; [apply _|]; solve_read|intros rows].
  apply inert_pool_op, inert_ret. apply _.
Qed.

Lemma MarkNotificationRead_sound cid nid : pool (MarkNotificationRead cid nid).
Proof.
  apply catch_pool; [apply pool_op_sql; [apply _|apply mark_read_sound]|].
  intros [|[]]; apply inert_ret.
Qed.

Lemma GetNotificationByCitizen_sound cid nid : pool (GetNotificationByCitizen cid nid).
Proof.
  apply catch_pool; [apply pool_op_sql; [apply _|]; solve_read|].
  intros [|[]]; apply inert_ret.
Qed.

Lemma CitizenHasNotificationForChamado_sound cid ch :
  pool (CitizenHasNotificationForChamado cid ch).
Proof.
  apply pool_op_ebind; [apply _|apply pool_op_sql; [apply _|]|intros n].
  - unfold bad_text. solve_read.
  - apply inert_pool_op, inert_ret. apply _.
Qed.

Lemma MarkAllNotificationsRead_sound cid : pool (MarkAllNotificationsRead cid).
Proof.
  apply pool_op_ebind; [apply _|apply pool_op_sql; [apply _|apply mark_all_read_sound]|intros l].
  apply inert_pool_op, inert_ret. apply _.
Qed.

Lemma CountUnreadNotifications_sound cid : pool (CountUnreadNotifications cid).
Proof. apply pool_op_sql; [apply _|]. solve_read. Qed.

Lemma UpsertPushDevice_sound cid platform token : pool (UpsertPushDevice cid platform token).
Proof. apply pool_op_sql; [apply _|apply upsert_device_sound]. Qed.

Lemma DeletePushDevice_sound cid token : pool (DeletePushDevice cid token).
Proof. apply pool_op_sql; [apply _|apply delete_device_sound]. Qed.

Lemma ListPushTokensByCitizen_read cid w w' r :
  ListPushTokensByCitizen cid w = (w', r) → w_db w' = w_db w ∧ w_tx w' = w_tx w.
Proof.
  unfold ListPushTokensByCitizen, pool_sql, run_sql.
  destruct (next_fault _) as [w1 f] eqn:Ef. apply next_fault_state in Ef as (Hd & Ht & _).
  destruct f; intros; simplify_eq; done.
Qed.
End sound.

#[export] Hint Resolve LookupCitizenID_sound TouchCitizenLastSeen_sound GetCitizenByID_sound
  InsertNotificationIdempotent_sound InsertOutbox_sound InsertWebhookDLQ_sound
  ListNotificationsByCitizen_sound MarkNotificationRead_sound GetNotificationByCitizen_sound
  CitizenHasNotificationForChamado_sound MarkAllNotificationsRead_sound
  CountUnreadNotifications_sound UpsertPushDevice_sound DeletePushDevice_sound : respects.
