(* ===== verification/CitizenFacts.v ===== *)
(** * A citizen's own rows

    [own] and [own_devices] are the rows of one citizen.  Two worlds [agree]
    for a citizen when they differ at most in other citizens' rows; an
    operation is [private] when it cannot tell such worlds apart.  The
    relational rules compose like the code does. *)

From S2P Require Import Prelude GoTime Uuid World Repo RepoFacts.

Definition own (cid : uuid) (d : database) : gmap uuid notification :=
  filter (λ p, nt_citizen_id p.2 = cid) (notifications d).

Definition own_devices (cid : uuid) (d : database) : gmap uuid device :=
  filter (λ p, dv_citizen_id p.2 = cid) (push_devices d).

Record same_for (cid : uuid) (d1 d2 : database) : Prop := {
  same_own : own cid d1 = own cid d2;
  same_devices : own_devices cid d1 = own_devices cid d2;
  same_citizen : citizens d1 !! cid = citizens d2 !! cid
}.

#[export] Instance same_for_equiv cid : Equivalence (same_for cid).
Proof.
  split.
  - intros d. by split.
  - intros d1 d2 []. by split.
  - intros d1 d2 d3 [] []. split; congruence.
Qed.

Lemma own_lookup cid d i n :
  own cid d !! i = Some n ↔ notifications d !! i = Some n ∧ nt_citizen_id n = cid.
Proof. unfold own. by rewrite map_lookup_filter_Some. Qed.

Lemma own_devices_lookup cid d i v :
  own_devices cid d !! i = Some v ↔ push_devices d !! i = Some v ∧ dv_citizen_id v = cid.
Proof. unfold own_devices. by rewrite map_lookup_filter_Some. Qed.

Lemma owned_by_true cid n : owned_by cid n = true ↔ nt_citizen_id n = cid.
Proof. unfold owned_by. apply bool_decide_eq_true. Qed.

Lemma same_own_lookup cid d1 d2 i n :
  same_for cid d1 d2 → nt_citizen_id n = cid →
  notifications d1 !! i = Some n → notifications d2 !! i = Some n.
Proof.
  intros Hs Hc Hi. assert (own cid d1 !! i = Some n) as Ho by (by apply own_lookup).
  rewrite (same_own _ _ _ Hs) in Ho. by apply own_lookup in Ho as [? _].
Qed.

(** ** Selections of one's own rows *)

Section select.
Context `{PostgresOk}.

(** A selection that looks at one's own rows only returns the same rows. *)
Lemma select_own cid (P : uuid → notification → bool) d1 d2 :
  (∀ i n, P i n = true → nt_citizen_id n = cid) → same_for cid d1 d2 →
  select P (notifications d1) ≡ₚ select P (notifications d2).
Proof.
  intros HP Hs. apply NoDup_Permutation.
  - eapply NoDup_fmap_1, select_NoDup.
  - eapply NoDup_fmap_1, select_NoDup.
  - intros [i n]. rewrite !elem_of_select. split; intros [Hi Ht]; (split; [|done]).
    + eapply same_own_lookup; eauto.
    + symmetry in Hs. eapply same_own_lookup; eauto.
Qed.

Lemma select_own_devices cid (P : uuid → device → bool) d1 d2 :
  (∀ i v, P i v = true → dv_citizen_id v = cid) → same_for cid d1 d2 →
  select P (push_devices d1) ≡ₚ select P (push_devices d2).
Proof.
  intros HP Hs. apply NoDup_Permutation.
  - eapply NoDup_fmap_1, select_NoDup.
  - eapply NoDup_fmap_1, select_NoDup.
  - intros [i v]. rewrite !elem_of_select.
    assert (P i v = true → (push_devices d1 !! i = Some v ↔ push_devices d2 !! i = Some v)).
    { intros Ht%HP. pose proof (own_devices_lookup cid d1 i v) as H1.
      pose proof (own_devices_lookup cid d2 i v) as H2.
      rewrite (same_devices _ _ _ Hs) in H1. tauto. }
    tauto.
Qed.

Lemma citizen_rows_own cid d i n :
  (i, n) ∈ citizen_rows cid d ↔ own cid d !! i = Some n.
Proof. unfold citizen_rows. by rewrite elem_of_select, own_lookup, owned_by_true. Qed.

Lemma citizen_rows_same cid d1 d2 :
  same_for cid d1 d2 → citizen_rows cid d1 ≡ₚ citizen_rows cid d2.
Proof. apply select_own. intros i n. apply owned_by_true. Qed.

Lemma unread_rows_same cid d1 d2 :
  same_for cid d1 d2 → unread_rows cid d1 ≡ₚ unread_rows cid d2.
Proof.
  apply select_own. intros i n [Ho _]%andb_prop. by apply owned_by_true.
Qed.

(** ** The order of a listing *)

#[export] Instance newest_first_trans : Transitive newest_first.
Proof. intros x y z. unfold newest_first. lia. Qed.

#[export] Instance newest_first_total : Total newest_first.
Proof. intros x y. unfold newest_first. lia. Qed.

Definition sorted_rows (cid : uuid) (d : database) : list (uuid * notification) :=
  merge_sort newest_first (citizen_rows cid d).

Lemma sorted_rows_perm cid d : sorted_rows cid d ≡ₚ citizen_rows cid d.
Proof. apply merge_sort_Permutation. Qed.

Lemma sorted_rows_sorted cid d : StronglySorted newest_first (sorted_rows cid d).
Proof. apply StronglySorted_merge_sort; apply _. Qed.

(** The order leaves no freedom: ids are distinct. *)
Lemma sorted_rows_same cid d1 d2 :
  same_for cid d1 d2 → sorted_rows cid d1 = sorted_rows cid d2.
Proof.
  intros Hs. eapply (StronglySorted_unique_strong newest_first);
    [|apply sorted_rows_sorted..|].
  - intros [[i] n] [[j] m]. rewrite !sorted_rows_perm, (citizen_rows_same _ _ _ Hs),
      !citizen_rows_own. intros Hi Hj. unfold newest_first. simpl. intros Hle Hge.
    assert (i = j) as -> by lia. by simplify_eq.
  - rewrite !sorted_rows_perm. by apply citizen_rows_same.
Qed.
End select.

(** ** Indistinguishable worlds *)

Record agree (cid : uuid) (w1 w2 : world) : Prop := {
  agree_db : same_for cid (w_db w1) (w_db w2);
  agree_rest : w2 = with_db (w_db w2) w1
}.

Definition private (cid : uuid) {A} (m : ST A) : Prop :=
  ∀ w1 w2, agree cid w1 w2 → (m w1).2 = (m w2).2 ∧ agree cid (m w1).1 (m w2).1.

(** An operation that does not look at the tables. *)
Definition db_free {A} (m : ST A) : Prop :=
  ∀ d w, m (with_db d w) = (with_db d (m w).1, (m w).2) ∧ w_db (m w).1 = w_db w.

Section private.
Variable cid : uuid.

Lemma db_free_private {A} (m : ST A) : db_free m → private cid m.
Proof.
  intros Hm w1 w2 [Hs Hw]. rewrite Hw. destruct (Hm (w_db w2) w1) as [-> Hd]. simpl.
  split; [done|]. split; simpl; [by rewrite Hd|done].
Qed.

Lemma private_ret {A} (a : A) : private cid (mret a).
Proof. by apply db_free_private. Qed.

Lemma private_bind {A B} (m : ST A) (k : A → ST B) :
  private cid m → (∀ a, private cid (k a)) → private cid (m ≫= k).
Proof.
  intros Hm Hk w1 w2 Ha. unfold mbind, ST_bind. destruct (Hm _ _ Ha) as [He Ha'].
  destruct (m w1) as [w1' a], (m w2) as [w2' b]. simpl in *. subst b. by apply Hk.
Qed.

Lemma private_ebind {E A B} (m : ST (result E A)) (k : A → ST (result E B)) :
  private cid m → (∀ a, private cid (k a)) → private cid (ebind m k).
Proof.
  intros Hm Hk w1 w2 Ha. unfold ebind. destruct (Hm _ _ Ha) as [He Ha'].
  destruct (m w1) as [w1' [a|e]], (m w2) as [w2' b]; simpl in *; subst b; [by apply Hk|done].
Qed.

(** Two results of a statement, and what it left, alike up to [R]. *)
Definition results_alike {A B} (R : A → B → Prop) (r1 : result db_error A) (r2 : result db_error B)
  : Prop :=
  match r1, r2 with
  | Ok a1, Ok a2 => R a1 a2
  | Err e1, Err e2 => e1 = e2
  | _, _ => False
  end.

Definition sql_alike {A} (R : A → A → Prop) (st : sql A) cx d1 d2 : Prop :=
  results_alike (λ x y, R x.1 y.1 ∧ same_for cid x.2 y.2) (st cx d1) (st cx d2).

(** A statement run in two worlds that agree, where it ends alike. *)
Lemma pool_sql_alike `{Postgres} {A} (R : A → A → Prop) (st : sql A) w1 w2 :
  agree cid w1 w2 → sql_alike R st (context_of w1) (w_db w1) (w_db w2) →
  results_alike R (pool_sql st w1).2 (pool_sql st w2).2
  ∧ agree cid (pool_sql st w1).1 (pool_sql st w2).1.
Proof.
  intros [Hs Hw] Hd. rewrite Hw. clear Hw. unfold sql_alike in Hd.
  unfold pool_sql, run_sql, next_fault. simpl. fold (context_of w1).
  destruct (w_faults w1) as [|[|m|m] fs]; simpl;
    destruct (st _ (w_db w1)) as [[a1 d1]|e1], (st _ (w_db w2)) as [[a2 d2]|e2]; simpl in *;
    try done; destruct Hd as [? ?]; done.
Qed.

(** Both runs of a statement end alike. *)
Definition sql_private {A} (st : sql A) : Prop :=
  ∀ cx d1 d2, same_for cid d1 d2 →
    match st cx d1, st cx d2 with
    | Ok (a1, d1'), Ok (a2, d2') => a1 = a2 ∧ same_for cid d1' d2'
    | Err e1, Err e2 => e1 = e2
    | _, _ => False
    end.

Lemma private_sql `{Postgres} {A} (st : sql A) : sql_private st → private cid (pool_sql st).
Proof.
  intros Hst w1 w2 Ha. pose proof (Hst (context_of w1) _ _ (agree_db _ _ _ Ha)) as Hd.
  assert (sql_alike eq st (context_of w1) (w_db w1) (w_db w2)) as Hal.
  { unfold sql_alike, results_alike. by repeat case_match; simplify_eq. }
  destruct (pool_sql_alike _ _ _ _ Ha Hal) as [Hr Ha']. split; [|done].
  unfold results_alike in Hr. by repeat case_match; simplify_eq.
Qed.

(** A statement that reads something the two tables agree on. *)
Lemma sql_private_read {A} (f : sql_context → database → A) :
  (∀ cx d1 d2, same_for cid d1 d2 → f cx d1 = f cx d2) → sql_private (λ cx d, Ok (f cx d, d)).
Proof. intros Hf cx d1 d2 Hs. split; [by apply Hf|done]. Qed.
End private.

Lemma db_free_bind {A B} (m : ST A) (k : A → ST B) :
  db_free m → (∀ a, db_free (k a)) → db_free (m ≫= k).
Proof.
  intros Hm Hk d w. unfold mbind, ST_bind. destruct (Hm d w) as [-> Hd].
  destruct (m w) as [w1 a]. simpl in *. destruct (Hk a d w1) as [-> Hd'].
  destruct (k a w1). simpl in *. split; congruence.
Qed.

Lemma db_free_ret {A} (a : A) : db_free (mret a).
Proof. done. Qed.
Lemma db_free_emit e : db_free (emit e).
Proof. done. Qed.
Lemma db_free_time_Now : db_free time_Now.
Proof. done. Qed.
Lemma db_free_http_Do m u b : db_free (http_Do m u b).
Proof. intros d w. unfold http_Do. simpl. by destruct (w_http w). Qed.

Create HintDb private discriminated.
#[export] Hint Resolve db_free_bind db_free_ret db_free_emit db_free_time_Now db_free_http_Do
  : private.
