(* ===== verification/Http.v ===== *)
(** * HTTP requests and responses, as the handlers see them

    Gin's accessors ([GetHeader], [Query], [Param], the body) are the fields
    of a request; what a handler writes ([c.JSON], [c.Data], [c.Status]) is a
    response.  A missing header, query or path parameter reads as the empty
    string.  A [gin.H] is a map: the members of its object are listed as the
    code writes them. *)

From S2P Require Import Prelude Json Payload.

Record request := Request {
  rq_header : string → string;
  rq_query : string → string;
  rq_param : string → string;
  rq_body : body_stream
}.

Inductive content :=
| NoBody
| JsonBody (v : json)
| RawBody (content_type body : string).

Record response := Response { rs_status : Z; rs_content : content }.

(** [c.JSON(status, gin.H{...})] *)
Definition c_JSON (status : Z) (members : list (string * json)) : response :=
  Response status (JsonBody (JObj members)).

(** [gin.H{"error": code}] *)
Definition c_error (status : Z) (code : string) : response :=
  c_JSON status [("error", JStr code)].

Definition StatusOK : Z := 200.
Definition StatusNoContent : Z := 204.
Definition StatusBadRequest : Z := 400.
Definition StatusUnauthorized : Z := 401.
Definition StatusNotFound : Z := 404.
Definition StatusRequestEntityTooLarge : Z := 413.
Definition StatusInternalServerError : Z := 500.
Definition StatusNotImplemented : Z := 501.
Definition StatusBadGateway : Z := 502.
Definition StatusServiceUnavailable : Z := 503.

Definition not_found : response := c_error StatusNotFound "not_found".
Definition unauthorized : response := c_error StatusUnauthorized "unauthorized".
Definition internal_error : response := c_error StatusInternalServerError "internal_error".
Definition invalid_request : response := c_error StatusBadRequest "invalid_request".
Definition invalid_id : response := c_error StatusBadRequest "invalid_id".
