(* ===== verification/Integrations.v ===== *)
(** * internal/integrations: the HTTP peers behind circuit breakers

    The chamados, mapas and push clients.  [gobreaker] is an interface: a
    breaker decides from its settings, everything it has seen so far, and the
    time. *)

From S2P Require Import Prelude GoStrings GoTime Json Url World.

(** ** github.com/sony/gobreaker *)

(** Counts are reduced to the one the program's [ReadyToTrip] reads. *)
Record Settings := NewSettings {
  st_Name : string;
  st_Timeout : duration;
  st_Interval : duration;
  st_ReadyToTrip : Z → bool
}.

Inductive breaker_error := ErrOpenState | ErrTooManyRequests.
Inductive breaker_state := StateClosed | StateHalfOpen | StateOpen.

Definition state_String (s : breaker_state) : string :=
  match s with
  | StateClosed => "closed" | StateHalfOpen => "half-open" | StateOpen => "open"
  end.

Class Gobreaker := {
  (** may a call start now? *)
  breaker_refuses : Settings → list breaker_event → time → option breaker_error;
  breaker_State : Settings → list breaker_event → time → breaker_state
}.

(** Where a client's breaker keeps its history. *)
Record breaker := Breaker {
  br_settings : Settings;
  br_history : world → list breaker_event;
  br_update : list breaker_event → world → world
}.

Inductive call_error :=
| BreakerError (e : breaker_error)
| CallError (msg : string).

Definition breaker_error_text (e : breaker_error) : string :=
  match e with
  | ErrOpenState => "circuit breaker is open"
  | ErrTooManyRequests => "too many requests"
  end.

(** [err.Error()] *)
Definition call_error_text (e : call_error) : string :=
  match e with BreakerError b => breaker_error_text b | CallError m => m end.

(** [errors.Is(err, gobreaker.ErrOpenState)] *)
Definition is_open_state (e : call_error) : bool :=
  match e with BreakerError ErrOpenState => true | _ => false end.

Definition br_record (b : breaker) (e : breaker_event) : ST unit :=
  λ w, (br_update b (br_history b w ++ [e]) w, tt).

Section breaker.
Context `{Gobreaker}.

(** [cb.Execute(f)]: what [f] assigned ([a0] when it did not run) and the
    error.  A call counts as a failure when [f] returns an error. *)
Definition Execute {A} (b : breaker) (a0 : A) (f : ST (A * option string))
  : ST (A * option call_error) :=
  now ← time_Now;
  h ← (λ w, (w, br_history b w) : world * list breaker_event);
  match breaker_refuses (br_settings b) h now with
  | Some e =>
      br_record b (Refused now) ≫= λ _,
      mret (a0, Some (BreakerError e))
  | None =>
      br_record b (LetThrough now) ≫= λ _,
      r ← f;
      t ← time_Now;
      br_record b (Finished t (match r.2 with None => true | Some _ => false end)) ≫= λ _,
      mret (r.1, CallError <$> r.2)
  end.
End breaker.

(** ** [http.NewRequest] and [http.Client.Do] *)

Definition removeEmptyPort (host : bytes) : bytes :=
  match cut_last ":" host with Some (h, []) => h | _ => host end.

(** [stripPassword]: the first occurrence of the credentials is masked. *)
Definition stripPassword (u : URL) : bytes :=
  match u_User u with
  | Some ui =>
      if ui_passwordSet ui then
        let secret := Userinfo_String ui ++ ["@"%char] in
        match split_at secret (print_url u) with
        | Some (x, y) => x ++ ui_username ui ++ chars ":***@" ++ drop (length secret) y
        | None => print_url u
        end
      else print_url u
  | None => print_url u
  end.

(** [urlErrorOp] *)
Definition urlErrorOp (method : string) : string :=
  match chars method with
  | a :: r => unchars (a :: map ascii_lower r)
  | [] => "Get"
  end.

Section request.
Context `{Unicode}.

(** What the transport refuses to send. *)
Definition unsendable (u : URL) : option string :=
  if negb (bytes_eqb (u_Scheme u) (chars "http") || bytes_eqb (u_Scheme u) (chars "https"))
  then Some ("unsupported protocol scheme " +:+ Quote (u_Scheme u))
  else if negb (nonempty (u_Host u)) then Some "http: no Host in request URL"
  else None.

(** The error of building or sending a request before anything leaves. *)
Definition request_error (method url : string) : option string :=
  match url_Parse url with
  | Err e => Some e
  | Ok u0 =>
      let u := with_Host (removeEmptyPort (u_Host u0)) u0 in
      match unsendable u with
      | Some e => Some (url_Error (urlErrorOp method) (stripPassword u) e)
      | None => None
      end
  end.

Definition send_request (method url body : string) : ST http_outcome :=
  match request_error method url with
  | Some e => mret (HttpError e)
  | None => http_Do method url body
  end.
End request.

(** [fmt.Errorf("<prefix> http %d", status)] *)
Definition http_status_error (prefix : string) (status : Z) : string :=
  prefix +:+ " http " +:+ pretty.pretty status.

(** ** chamados.go *)

Record ChamadosClient := { cc_base : string; cc_timeout : duration }.

Definition trim_base (baseURL : string) : string := TrimRightSlash (TrimSpace baseURL).

(** [None] is the nil client. *)
Definition NewChamadosClient (baseURL : string) (httpTimeout : duration) : option ChamadosClient :=
  let base := trim_base baseURL in
  if String.eqb base "" then None else Some {| cc_base := base; cc_timeout := httpTimeout |}.

Definition chamados_breaker : breaker :=
  Breaker (NewSettings "chamados" (45 * Second) (60 * Second) (λ consecutive, 3 <=? consecutive))
    w_chamados with_chamados.

Definition summary_url (c : ChamadosClient) (chamadoID : string) : string :=
  cc_base c +:+ "/v1/chamados/" +:+ PathEscape chamadoID +:+ "/summary".

Section chamados.
Context `{Gobreaker} `{Unicode}.

Definition no_summary : string * Z := ("", 0).

(** The call inside the breaker: body and status are assigned as soon as the
    response is read, whatever the error. *)
Definition summary_call (u : string) : ST ((string * Z) * option string) :=
  o ← send_request "GET" u "";
  mret match o with
       | HttpError e => (no_summary, Some e)
       | HttpResponse status body rerr =>
           ((body, status),
            if 500 <=? status then Some (http_status_error "chamados" status) else rerr)
       end.

Definition GetSummary (c : option ChamadosClient) (chamadoID : string)
  : ST ((string * Z) * option call_error) :=
  match c with
  | None => mret (no_summary, Some (CallError "chamados client not configured"))
  | Some c =>
      if String.eqb (cc_base c) ""
      then mret (no_summary, Some (CallError "chamados client not configured"))
      else
        r ← Execute chamados_breaker no_summary (summary_call (summary_url c chamadoID));
        mret match r.2 with
             | Some e => if is_open_state e then (("", 503), Some (BreakerError ErrOpenState))
                         else (r.1, Some e)
             | None => (r.1, None)
             end
  end.

Definition callback_url (c : ChamadosClient) : string := cc_base c +:+ "/callbacks/citizen-read".

(** [json.Marshal] writes a map's keys in order. *)
Definition callback_body (chamadoID citizenRef : string) : string :=
  Marshal (JObj [("chamado_id", JStr chamadoID); ("citizen_ref", JStr citizenRef);
                 ("event", JStr "notification_read")]).

(** A call whose response body is discarded. *)
Definition discard_call (prefix method u body : string) : ST (unit * option string) :=
  o ← send_request method u body;
  mret match o with
       | HttpError e => (tt, Some e)
       | HttpResponse status _ _ =>
           (tt, if 500 <=? status then Some (http_status_error prefix status) else None)
       end.

Definition NotifyRead (c : option ChamadosClient) (chamadoID citizenRef : string)
  : ST (option call_error) :=
  match c with
  | None => mret None
  | Some c =>
      if String.eqb (cc_base c) "" then mret None
      else
        r ← Execute chamados_breaker tt
              (discard_call "chamados callback" "POST" (callback_url c)
                 (callback_body chamadoID citizenRef));
        mret match r.2 with
             | Some e => if is_open_state e then Some (BreakerError ErrOpenState) else Some e
             | None => None
             end
  end.
End chamados.

(** ** mapas.go *)

Record MapasClient := NewMapas {
  mp_base : string;
  mp_timeout : duration;
  mp_lastPingErr : string;
  mp_lastPingAt : option time;   (** [None]: the zero time *)
  mp_cancel : bool               (** is a cancel function installed? *)
}.

Definition NewMapasClient (baseURL : string) (httpTimeout : duration) : option MapasClient :=
  let base := trim_base baseURL in
  if String.eqb base "" then None else Some (NewMapas base httpTimeout "" None false).

Definition mapas_breaker : breaker :=
  Breaker (NewSettings "mapas" (30 * Second) (60 * Second) (λ consecutive, 2 <=? consecutive))
    w_mapas with_mapas.

Definition health_url (m : MapasClient) : string := mp_base m +:+ "/health".

Section mapas.
Context `{Gobreaker} `{Unicode}.

Definition pingOnce (m : option MapasClient) : ST (option MapasClient) :=
  match m with
  | None => mret None
  | Some m =>
      if String.eqb (mp_base m) "" then mret (Some m)
      else
        r ← Execute mapas_breaker tt (discard_call "mapas health" "GET" (health_url m) "");
        at_ ← time_Now;
        mret (Some (NewMapas (mp_base m) (mp_timeout m)
                      (match r.2 with Some e => call_error_text e | None => "" end)
                      (Some at_) (mp_cancel m)))
  end.

Fixpoint pings (n : nat) (m : option MapasClient) : ST (option MapasClient) :=
  match n with
  | O => mret m
  | S n' => m' ← pingOnce m; pings n' m'
  end.

(** The background loop up to its [ticks]-th tick: one ping at the start, one
    per tick. *)
Definition StartBackgroundPing (ticks : nat) (m : option MapasClient) : ST (option MapasClient) :=
  match m with
  | None => mret None
  | Some m =>
      if String.eqb (mp_base m) "" then mret (Some m)
      else pings (S ticks)
             (Some (NewMapas (mp_base m) (mp_timeout m) (mp_lastPingErr m) (mp_lastPingAt m) true))
  end.

Definition Stop (m : option MapasClient) : option MapasClient :=
  match m with
  | None => None
  | Some m => Some (NewMapas (mp_base m) (mp_timeout m) (mp_lastPingErr m) (mp_lastPingAt m) false)
  end.

Definition disabled (reason : string) : list (string * json) :=
  [("circuit", JStr "disabled"); ("reason", JStr reason)].

Definition StatusJSON (m : option MapasClient) : ST (list (string * json)) :=
  match m with
  | None => mret (disabled "nil_client")
  | Some m =>
      if String.eqb (mp_base m) "" then mret (disabled "no_base_url")
      else
        now ← time_Now;
        s ← (λ w, (w, breaker_State (br_settings mapas_breaker) (w_mapas w) now)
             : world * breaker_state);
        br_record mapas_breaker (Observed now) ≫= λ _,
        mret [("circuit", JStr (state_String s));
              ("last_ping_at", match mp_lastPingAt m with
                               | Some t => JStr (Format t) | None => JNull end);
              ("last_ping_err", if String.eqb (mp_lastPingErr m) "" then JNull
                                else JStr (mp_lastPingErr m))]
  end.
End mapas.

(** ** push.go *)

Record PushHTTPClient := { ph_url : string; ph_timeout : duration }.

Definition NewPushHTTPClient (pushURL : string) (httpTimeout : duration) : option PushHTTPClient :=
  let u := TrimSpace pushURL in
  if String.eqb u "" then None else Some {| ph_url := u; ph_timeout := httpTimeout |}.

Definition push_breaker : breaker :=
  Breaker (NewSettings "push" (20 * Second) (30 * Second) (λ consecutive, 5 <=? consecutive))
    w_push with_push.

Definition push_body (token title body : string) : string :=
  Marshal (JObj [("body", JStr body); ("title", JStr title); ("token", JStr token)]).

Section push.
Context `{Gobreaker} `{Unicode}.

Definition Send (p : option PushHTTPClient) (token title body : string)
  : ST (option call_error) :=
  match p with
  | None => mret None
  | Some p =>
      r ← Execute push_breaker tt
            (discard_call "push" "POST" (ph_url p) (push_body token title body));
      mret match r.2 with
           | Some e => if is_open_state e then None else Some e
           | None => None
           end
  end.
End push.
