(* ===== verification/WebhookService.v ===== *)
(** * internal/webhook/service.go: POST /webhook

    The handler from the raw request to the response, and the transaction that
    records an event: citizen, notification and outbox row together. *)

From S2P Require Import Prelude GoTime Json Uuid Identity Payload World Repo Http.

Record Service := NewService { svc_secret : string; svc_pepper : string }.

(** [body.go] *)
Definition writeWebhookError (e : body_error) : response :=
  match e with
  | errBodyTooLarge => c_error StatusRequestEntityTooLarge "payload_too_large"
  | ReadError _ => invalid_request
  end.

Section service.
Context `{UuidText} `{Postgres}.

(** A repository call inside a function that returns plain errors. *)
Definition db {A} (m : M A) : ST (result string A) :=
  r ← (m : ST (result db_error A));
  mret (match r with Ok a => Ok a | Err e => Err (db_error_text e) end).

Definition insert_params (s : Service) (p : EventPayload) (srcTS : time) : WebhookInsertParams :=
  {| wp_Fingerprint := CitizenFingerprint (svc_pepper s) (CPF p);
     wp_ChamadoID := ChamadoID p; wp_Title := Titulo p; wp_Body := Descricao p;
     wp_IdempotencyKey := IdempotencyKey p; wp_StatusAnterior := StatusAnterior p;
     wp_StatusNovo := StatusNovo p; wp_EventType := Tipo p;
     wp_SourceTimestamp := Some srcTS |}.

(** Between [Begin] and the deferred rollback. *)
Definition persist_tx (s : Service) (p : EventPayload) (srcTS : time) : ST (result string bool) :=
  db Begin ;;?
  r <-? db (InsertNotificationIdempotent (insert_params s p srcTS)) ;;
  let '(inserted, citizenID, nid) := r in
  (if (inserted : bool) then
     now ← time_Now;
     match OutboxPayloadJSON nid p now with
     | Err e => fail e
     | Ok payload => db (InsertOutbox citizenID nid payload)
     end
   else ok tt) ;;?
  db Commit ;;?
  ok inserted.

Definition persist (s : Service) (p : EventPayload) : ST (result string bool) :=
  match ParsedTimestamp p with
  | None => fail "parsing time"
  | Some srcTS => defer_rollback (persist_tx s p srcTS)
  end.

Definition ok_response : response := c_JSON StatusOK [("ok", JBool true)].
Definition duplicate_response : response :=
  c_JSON StatusOK [("ok", JBool true); ("duplicate", JBool true)].

(** From the verified body on. *)
Definition handle_verified (s : Service) (body sigHeader : string) : ST response :=
  match unmarshalStrictJSON body empty_payload with
  | None => mret invalid_request
  | Some p =>
      let '(p, err) := Validate p in
      match err with
      | Some _ => mret invalid_request
      | None =>
          r ← persist s p;
          match r with
          | Err e =>
              _ ← InsertWebhookDLQ body sigHeader "persist_failed" e;
              mret internal_error
          | Ok false => mret duplicate_response
          | Ok true => mret ok_response
          end
      end
  end.

Definition HandlePOST (s : Service) (rq : request) : ST response :=
  match readLimitedBody (rq_body rq) maxWebhookBodyBytes with
  | Err e => mret (writeWebhookError e)
  | Ok body =>
      let sigHeader := rq_header rq "X-Signature-256" in
      match VerifySignature body (svc_secret s) sigHeader with
      | Some ErrMissingSignature | Some ErrInvalidSignature => mret unauthorized
      | Some _ => mret internal_error
      | None => handle_verified s body sigHeader
      end
  end.
End service.
