(* ===== verification/WebhookFacts.v ===== *)
(** * Properties of the webhook

    [recorded] is the abstract specification of an accepted event: either the
    citizen, the notification and the outbox row appear together, or the key
    was known and at most the citizen appears.  [persist] refines it under
    every pattern of database failures. *)

From S2P Require Import Prelude GoStrings GoTime Json Uuid Identity Payload PayloadFacts World Repo.
From S2P Require Import RepoFacts RepoSound Http WebhookService.

Section spec.
Context `{UuidText} `{Postgres}.
Variables (s : Service) (p : EventPayload) (now : time).

Definition fingerprint_of : string := CitizenFingerprint (svc_pepper s) (CPF p).

(** The citizen of the fingerprint exists, created if it was missing. *)
Definition ensured (d d1 : database) (cid : uuid) : Prop :=
  (d1 = d
   ∨ has_fingerprint fingerprint_of (citizens d) = false
     ∧ ∃ u, citizens d !! u = None
            ∧ d1 = set_citizens (<[u := Citizen fingerprint_of now "{}" None]> (citizens d)) d)
  ∧ ∃ c, citizens d1 !! cid = Some c ∧ ct_fingerprint c = fingerprint_of.

Definition event_row (cid : uuid) (srcTS : time) : notification :=
  {| nt_citizen_id := cid; nt_chamado_id := ChamadoID p; nt_title := Titulo p;
     nt_body := Descricao p; nt_read_at := None; nt_idempotency_key := Some (IdempotencyKey p);
     nt_created_at := now; nt_status_anterior := nullIfEmpty (StatusAnterior p);
     nt_status_novo := nullIfEmpty (StatusNovo p); nt_event_type := nullIfEmpty (Tipo p);
     nt_source_timestamp := Some (pg_timestamptz srcTS) |}.

Definition pending_row (cid nid : uuid) (text : string) : outbox :=
  Outbox cid nid text pending 0 now None now None.

(** The text columns of the event's row. *)
Definition event_texts : list string :=
  [ChamadoID p; Titulo p; Descricao p; IdempotencyKey p]
  ++ opt_list (nullIfEmpty (StatusAnterior p)) ++ opt_list (nullIfEmpty (StatusNovo p))
  ++ opt_list (nullIfEmpty (Tipo p)).

Inductive recorded (d : database) : database → bool → Prop :=
| recorded_new srcTS d1 cid nid oid created payload text :
    ParsedTimestamp p = Some srcTS →
    text_ok event_texts = true →
    ensured d d1 cid →
    has_key (IdempotencyKey p) (notifications d) = false →
    notifications d !! nid = None → event_outbox d !! oid = None →
    OutboxPayloadJSON nid p created = Ok payload → pg_jsonb payload = Some text →
    recorded d
      (set_outbox (<[oid := pending_row cid nid text]> (event_outbox d))
         (set_notifications (<[nid := event_row cid srcTS]> (notifications d)) d1))
      true
| recorded_dup d1 cid :
    ensured d d1 cid →
    has_key (IdempotencyKey p) (notifications d) = true →
    recorded d d1 false.

Lemma ensured_tables d d1 cid :
  ensured d d1 cid →
  notifications d1 = notifications d ∧ event_outbox d1 = event_outbox d
  ∧ webhook_dlq d1 = webhook_dlq d ∧ push_devices d1 = push_devices d.
Proof. by intros [[->|(_ & u & _ & ->)] _]. Qed.
End spec.

Section refine.
Context `{UuidText} `{PostgresOk}.

Lemma db_inv {A} (m : M A) w w' r :
  db m w = (w', r) →
  ∃ r0, m w = (w', r0)
        ∧ r = match r0 with Ok a => Ok a | Err e => Err (db_error_text e) end.
Proof.
  unfold db. intros (w1 & r0 & Hm & Hr)%bind_inv. injection Hr as <- <-. eauto.
Qed.

Lemma EnsureCitizenID_inv s p w w' r d :
  w_tx w = Some d → EnsureCitizenID (fingerprint_of s p) w = (w', r) →
  w_db w' = w_db w ∧ w_pgnow w' = w_pgnow w
  ∧ match r with
    | Ok cid => ∃ d1, ensured s p (w_pgnow w) d d1 cid ∧ w_tx w' = Some d1
    | Err _ => True
    end.
Proof.
  intros Hw (w1 & r1 & E1 & Hr)%ebind_inv.
  apply (tx_sql_inv _ _ _ _ _ Hw) in E1 as (Hd1 & Hn1 & HE1).
  destruct r1 as [[]|e]; [|destruct Hr as [-> ->]; done].
  destruct HE1 as (d1 & Hins & Ht1).
  apply (tx_sql_inv _ _ _ _ _ Ht1) in Hr as (Hd2 & Hn2 & HE2).
  split; [congruence|]. split; [congruence|]. destruct r as [cid|e]; [|done].
  destruct HE2 as (d2 & Hsel & Ht2). unfold select_citizen in Hsel.
  destruct (query_row _ _) as [cid'|] eqn:Eq; [|done]. simplify_eq.
  apply query_row_fst in Eq as (c & Hc & Hfp%String.eqb_eq).
  exists d2. split; [|done]. split; [|eauto].
  unfold insert_citizen, unique_violation in Hins.
  destruct (has_fingerprint _ _) eqn:Ef; [simplify_eq; by left|].
  destruct (citizens d !! _) eqn:Eu; [done|]. simplify_eq. right. eauto.
Qed.

Lemma InsertNotificationIdempotent_inv s p srcTS w w' r d :
  w_tx w = Some d → InsertNotificationIdempotent (insert_params s p srcTS) w = (w', r) →
  w_db w' = w_db w ∧ w_pgnow w' = w_pgnow w
  ∧ match r with
    | Ok (inserted, cid, nid) =>
        ∃ d1, ensured s p (w_pgnow w) d d1 cid ∧
        if (inserted : bool) then
          text_ok (event_texts p) = true
          ∧ has_key (IdempotencyKey p) (notifications d) = false
          ∧ notifications d !! nid = None
          ∧ w_tx w' = Some (set_notifications
               (<[nid := event_row p (w_pgnow w) cid srcTS]> (notifications d)) d1)
        else has_key (IdempotencyKey p) (notifications d) = true ∧ w_tx w' = Some d1
    | Err _ => True
    end.
Proof.
  intros Hw (w1 & r1 & E1 & Hr)%ebind_inv.
  apply (EnsureCitizenID_inv s p _ _ _ _ Hw) in E1 as (Hd1 & Hn1 & HE1).
  destruct r1 as [cid|e]; [|destruct Hr as [-> ->]; done].
  destruct HE1 as (d1 & Hens & Ht1). pose proof (ensured_tables _ _ _ _ _ _ Hens) as (Hnt & _).
  apply bind_inv in Hr as (w2 & r2 & E2 & Hr).
  apply (tx_sql_inv _ _ _ _ _ Ht1) in E2 as (Hd2 & Hn2 & HE2).
  unfold insert_notification, bad_text, unique_violation, foreign_key_violation in HE2.
  rewrite Hnt in HE2. simpl in HE2.
  destruct r2 as [nid|[|m]]; injection Hr as <- <-; (split; [congruence|]);
    (split; [congruence|]); [| |done]; exists d1; (split; [done|]).
  - destruct HE2 as (d2 & HE2 & Ht2).
    destruct (negb _) eqn:Etx; [done|]. destruct (has_key _ _) eqn:Ek; [done|].
    destruct (notifications d !! _) eqn:En; [done|].
    destruct (citizens d1 !! cid) eqn:Ec; [|done]. simplify_eq.
    split; [by apply negb_false_iff in Etx|].
    split; [done|]. split; [done|]. rewrite Ht2. unfold event_row. simpl. by rewrite Hn1.
  - destruct HE2 as [HE2 Ht2]. split; [|done].
    destruct (negb _); [done|]. destruct (has_key _ _) eqn:Ek; [done|].
    destruct (notifications d !! _) eqn:En; [done|].
    by destruct (citizens d1 !! cid) eqn:Ec.
Qed.

(** What the transaction leaves behind: the specification's result on a
    commit, and either nothing or the specification's result on an error. *)
Lemma persist_refines s p w w' r :
  w_tx w = None → persist s p w = (w', r) →
  w_tx w' = None
  ∧ match r with
    | Ok b => recorded s p (w_pgnow w) (w_db w) (w_db w') b
    | Err _ => w_db w' = w_db w ∨ ∃ b, recorded s p (w_pgnow w) (w_db w) (w_db w') b
    end.
Proof.
  intros Hw. unfold persist. destruct (ParsedTimestamp p) as [ts|] eqn:Ets;
    [|intros [= <- <-]; auto].
  unfold defer_rollback. destruct (persist_tx s p ts w) as [w1 r1] eqn:E. intros [= <- <-].
  simpl. split; [done|].
  apply ebind_inv in E as (wb & rb & Hb & E). apply db_inv in Hb as (r0 & Hb & ->).
  apply Begin_inv in Hb as (Hdb & Hnb & Htb). destruct r0 as [[]|e];
    [|destruct E as [-> ->]; auto].
  apply ebind_inv in E as (wi & ri & Hi & E). apply db_inv in Hi as (r0 & Hi & ->).
  apply (InsertNotificationIdempotent_inv _ _ _ _ _ _ _ Htb) in Hi as (Hdi & Hni & Hi).
  rewrite Hnb in Hi.
  destruct r0 as [[[b cid] nid]|e]; [|destruct E as [-> ->]; left; congruence].
  destruct Hi as (d1 & Hens & Hi).
  apply ebind_inv in E as (wo & ro & Ho & E).
  assert (∀ wo d2, w_tx wo = Some d2 → w_db wo = w_db w → w_pgnow wo = w_pgnow w →
    recorded s p (w_pgnow w) (w_db w) d2 b → (db Commit ;;? ok b) wo = (w1, r1) →
    match r1 with
    | Ok b => recorded s p (w_pgnow w) (w_db w) (w_db w1) b
    | Err _ => w_db w1 = w_db w ∨ ∃ b, recorded s p (w_pgnow w) (w_db w) (w_db w1) b
    end) as Hcommit.
  { clear -Hw. intros wo d2 Ht Hd Hn Hrec (wc & rc & Hc & E)%ebind_inv.
    apply db_inv in Hc as (r0 & Hc & ->). apply (Commit_inv _ _ _ _ Ht) in Hc as (_ & _ & Hc).
    destruct r0 as [[]|e].
    - injection E as <- <-. by rewrite Hc.
    - destruct E as [-> ->]. destruct Hc as [Hc|Hc]; rewrite Hc; [left; congruence|eauto]. }
  destruct b.
  - destruct Hi as (Htx & Hk & Hnid & Hti).
    apply bind_inv in Ho as (wt & created & Htime & Ho). injection Htime as <- <-.
    destruct (OutboxPayloadJSON nid p _) as [payload|e] eqn:Ep;
      [|injection Ho as <- <-; destruct E as [-> ->]; left; simpl; congruence].
    apply db_inv in Ho as (r0 & Ho & ->).
    assert (∀ x, w_tx wi = Some x → w_tx (with_reads (S (w_reads wi)) wi) = Some x) as Hx by done.
    apply (tx_sql_inv _ _ _ _ _ (Hx _ Hti)) in Ho as (Hdo & Hno & Ho). simpl in Hdo, Hno.
    destruct r0 as [[]|e]; [|destruct E as [-> ->]; left; congruence].
    destruct Ho as (d3 & Ho & Hto). eapply Hcommit; [exact Hto|congruence|congruence| |exact E].
    unfold insert_outbox in Ho.
    destruct (pg_jsonb payload) as [text|] eqn:Ej; [|done]. unfold unique_violation,
      foreign_key_violation in Ho. simpl in Ho.
    destruct (ensured_tables _ _ _ _ _ _ Hens) as (_ & Hout & _). rewrite Hout in Ho.
    clear Hcommit E. repeat case_match; simplify_eq. rewrite Hni, Hnb.
    by eapply recorded_new.
  - destruct Hi as (Hk & Hti). injection Ho as <- <-.
    eapply Hcommit; [exact Hti|congruence|congruence| |exact E]. by eapply recorded_dup.
Qed.
End refine.

(** ** The handler *)

(** A request whose body arrives, is signed, decodes and validates to [p]. *)
Record accepted (s : Service) (rq : request) (body : string) (p : EventPayload) : Prop := {
  acc_body : readLimitedBody (rq_body rq) maxWebhookBodyBytes = Ok body;
  acc_signature : VerifySignature body (svc_secret s) (rq_header rq "X-Signature-256") = None;
  acc_payload : ∃ p0, unmarshalStrictJSON body empty_payload = Some p0 ∧ Validate p0 = (p, None)
}.

Section handler.
Context `{UuidText} `{PostgresOk}.
Variables (s : Service) (rq : request).

Definition answer (body : string) (r : result string bool) : ST response :=
  match r with
  | Err e =>
      _ ← InsertWebhookDLQ body (rq_header rq "X-Signature-256") "persist_failed" e;
      mret internal_error
  | Ok false => mret duplicate_response
  | Ok true => mret ok_response
  end.

Lemma HandlePOST_accepted body p w :
  accepted s rq body p → HandlePOST s rq w = (persist s p ≫= answer body) w.
Proof.
  intros [Hb Hs (p0 & Hp & Hv)]. unfold HandlePOST. rewrite Hb. cbv zeta. rewrite Hs.
  unfold handle_verified. by rewrite Hp, Hv.
Qed.

Lemma not_accepted_inert w w' rsp :
  HandlePOST s rq w = (w', rsp) → (∀ body p, ¬ accepted s rq body p) → w' = w.
Proof.
  intros HP Hno. unfold HandlePOST in HP.
  destruct (readLimitedBody _ _) as [body|e] eqn:Hb; [|by injection HP].
  cbv zeta in HP. destruct (VerifySignature _ _ _) as [[]|] eqn:Hs; try by injection HP.
  unfold handle_verified in HP.
  destruct (unmarshalStrictJSON _ _) as [p0|] eqn:Hp; [|by injection HP].
  destruct (Validate p0) as [p [e|]] eqn:Hv; [by injection HP|].
  exfalso. eapply (Hno body p). split; eauto.
Qed.

(** What a request must be, told without the handler: its size, how its
    body arrived, its signature, and the event it carries. *)
Definition fits : Prop := Z.of_nat (String.length (delivered (rq_body rq))) ≤ 524288.
Definition arrived : Prop := read_error (rq_body rq) = None.
Definition authentic : Prop :=
  signed (svc_secret s) (delivered (rq_body rq)) (rq_header rq "X-Signature-256").
Definition carries (p0 : EventPayload) : Prop :=
  unmarshalStrictJSON (delivered (rq_body rq)) empty_payload = Some p0 ∧ valid_event p0.

Lemma readLimitedBody_cases :
  (¬ fits ∧ readLimitedBody (rq_body rq) maxWebhookBodyBytes = Err errBodyTooLarge)
  ∨ (fits ∧ ∃ e, read_error (rq_body rq) = Some e
             ∧ readLimitedBody (rq_body rq) maxWebhookBodyBytes = Err (ReadError e))
  ∨ (fits ∧ arrived
     ∧ readLimitedBody (rq_body rq) maxWebhookBodyBytes = Ok (delivered (rq_body rq))).
Proof.
  unfold fits, arrived, readLimitedBody. change maxWebhookBodyBytes with 524288.
  destruct (Z.ltb_spec 524288 (Z.of_nat (String.length (delivered (rq_body rq))))).
  - left. split; [lia|done].
  - right. destruct (read_error _); [left|right]; split; eauto.
Qed.

(** The handler meets each of the five kinds of request its own way. *)
Lemma HandlePOST_gate w :
  (¬ fits ∧ HandlePOST s rq w = (w, c_error 413 "payload_too_large"))
  ∨ (fits ∧ ¬ arrived ∧ HandlePOST s rq w = (w, invalid_request))
  ∨ (fits ∧ arrived ∧ ¬ authentic ∧ HandlePOST s rq w = (w, unauthorized))
  ∨ (fits ∧ arrived ∧ authentic ∧ (∀ p0, ¬ carries p0)
     ∧ HandlePOST s rq w = (w, invalid_request))
  ∨ (fits ∧ arrived ∧ authentic ∧ ∃ p0, carries p0
     ∧ accepted s rq (delivered (rq_body rq)) (set_CPF (TrimSpace (CPF p0)) p0)).
Proof.
  destruct readLimitedBody_cases as [[Hf Hb]|[(Hf & e & He & Hb)|(Hf & Ha & Hb)]].
  { left. split; [done|]. unfold HandlePOST. by rewrite Hb. }
  { right; left. split; [done|]. unfold arrived. split; [congruence|].
    unfold HandlePOST. by rewrite Hb. }
  right; right.
  destruct (VerifySignature (delivered (rq_body rq)) (svc_secret s)
              (rq_header rq "X-Signature-256")) as [e|] eqn:Hs.
  { left. split; [done|]. split; [done|]. split.
    - intros Hsig%VerifySignature_None. congruence.
    - pose proof (VerifySignature_only_signature_errors (delivered (rq_body rq)) (svc_secret s)
        (rq_header rq "X-Signature-256")) as Ho. rewrite Hs in Ho.
      unfold HandlePOST. rewrite Hb. cbv zeta. rewrite Hs. destruct e; naive_solver. }
  pose proof Hs as Hsig. apply VerifySignature_None in Hsig. right.
  unfold carries. destruct (unmarshalStrictJSON _ _) as [p0|] eqn:Hp.
  - destruct (Validate_cases p0) as [[Hv HV]|[Hv (q & msg & HV)]]; [right|left];
      (split; [done|]); (split; [done|]); (split; [done|]).
    + exists p0. split; [done|]. split; eauto.
    + split; [naive_solver|]. unfold HandlePOST. rewrite Hb. cbv zeta. rewrite Hs.
      unfold handle_verified. by rewrite Hp, HV.
  - left. split_and!; [done|done|done|naive_solver|]. unfold HandlePOST. rewrite Hb. cbv zeta.
    rewrite Hs. unfold handle_verified. by rewrite Hp.
Qed.

Lemma answer_persisted body r w :
  (answer body r w).2 ∈ [ok_response; duplicate_response; internal_error].
Proof.
  destruct r as [[]|e]; [set_solver..|].
  unfold answer, mbind, ST_bind. destruct (InsertWebhookDLQ _ _ _ _ _). set_solver.
Qed.

(** A dead-letter row, when its insertion took effect. *)
Definition dead_lettered (now : time) (body : string) (d d' : database) : Prop :=
  d' = d ∨ ∃ u msg, webhook_dlq d !! u = None
    ∧ d' = set_dlq (<[u := Dlq now body (nullString (rq_header rq "X-Signature-256"))
                             "persist_failed" msg]> (webhook_dlq d)) d.

Lemma InsertWebhookDLQ_inv body msg w w' r :
  InsertWebhookDLQ body (rq_header rq "X-Signature-256") "persist_failed" msg w = (w', r) →
  w_tx w' = w_tx w ∧ dead_lettered (w_pgnow w) body (w_db w) (w_db w').
Proof.
  intros (Ht & _ & Hr)%pool_sql_inv. split; [done|]. unfold dead_lettered.
  assert (∀ d', insert_dead_letter body (rq_header rq "X-Signature-256") "persist_failed" msg
                  (context_of w) (w_db w) = Ok (tt, d') →
    ∃ u msg', webhook_dlq (w_db w) !! u = None
      ∧ d' = set_dlq (<[u := Dlq (w_pgnow w) body
               (nullString (rq_header rq "X-Signature-256")) "persist_failed" msg']>
               (webhook_dlq (w_db w))) (w_db w)) as Hins.
  { intros d'. unfold insert_dead_letter, bad_text, unique_violation. destruct (negb _); [done|].
    destruct (webhook_dlq (w_db w) !! _) eqn:E; [done|]. intros [= <-]. eauto. }
  destruct r as [[]|[|m]]; [right; by apply Hins|left; tauto|].
  destruct Hr as [Hr|[[] Hr]]; [by left|right; by apply Hins].
Qed.
End handler.

(** ** Runs without failures *)

Section fine_runs.
Context `{UuidText} `{PostgresOk}.

Lemma InsertNotificationIdempotent_fine s p srcTS w d :
  w_tx w = Some d → w_faults w = [] →
  (has_fingerprint (fingerprint_of s p) (citizens d) = false →
     citizens d !! gen_random_uuid (w_gen w) = None) →
  text_ok (event_texts p) = true →
  (has_key (IdempotencyKey p) (notifications d) = false →
     notifications d !! gen_random_uuid (S (S (w_gen w))) = None) →
  ∃ d1 cid, ensured s p (w_pgnow w) d d1 cid
    ∧ (has_fingerprint (fingerprint_of s p) (citizens d) = true → d1 = d)
    ∧ InsertNotificationIdempotent (insert_params s p srcTS) w =
        let w3 := with_gen (S (S (S (w_gen w)))) w in
        if has_key (IdempotencyKey p) (notifications d)
        then (with_tx (Some d1) w3, Ok (false, cid, uuid_Nil))
        else let nid := gen_random_uuid (S (S (w_gen w))) in
             (with_tx (Some (set_notifications
                (<[nid := event_row p (w_pgnow w) cid srcTS]> (notifications d)) d1)) w3,
              Ok (true, cid, nid)).
Proof.
  intros Hw Hf Hfp Htx Hk.
  destruct (EnsureCitizenID_fine (fingerprint_of s p) w d Hw Hf Hfp)
    as (d1 & cid & c & He & Hd1 & Hc & Hcf).
  assert (ensured s p (w_pgnow w) d d1 cid) as Hens.
  { split; [|eauto]. destruct (has_fingerprint _ _) eqn:E; [by left|right]. eauto. }
  pose proof (ensured_tables _ _ _ _ _ _ Hens) as (Hnt & _).
  exists d1, cid. split; [done|]. split; [intros Hx; by rewrite Hx in Hd1|].
  unfold InsertNotificationIdempotent, ebind. simpl wp_Fingerprint.
  fold (fingerprint_of s p). rewrite He. unfold mbind, ST_bind.
  rewrite (tx_sql_fine _ _ d1) by done. cbv zeta. unfold insert_notification. simpl.
  change (text_ok _) with (text_ok (event_texts p)). rewrite Htx. simpl. rewrite Hnt, Hc.
  destruct (has_key _ _) eqn:Ek; simpl; [done|].
  by rewrite (Hk eq_refl).
Qed.

Lemma persist_duplicate s p w :
  w_faults w = [] → is_Some (ParsedTimestamp p) →
  has_fingerprint (fingerprint_of s p) (citizens (w_db w)) = true →
  has_key (IdempotencyKey p) (notifications (w_db w)) = true →
  text_ok (event_texts p) = true →
  ∃ w', persist s p w = (w', Ok false) ∧ w_db w' = w_db w ∧ w_tx w' = None.
Proof.
  intros Hf [ts Hts] Hfp Hk Htx. unfold persist. rewrite Hts.
  unfold defer_rollback, persist_tx, ebind, db, mbind, ST_bind. rewrite (Begin_fine _ Hf).
  destruct (InsertNotificationIdempotent_fine s p ts (with_tx (Some (w_db w)) w) (w_db w))
    as (d1 & cid & _ & Hd1 & Hi); try done; try congruence.
  simpl. rewrite Hi, (Hd1 Hfp). simpl. rewrite Hk. simpl.
  rewrite (Commit_fine _ (w_db w)) by done. simpl. eauto.
Qed.

Lemma persist_fresh s p w ts payload text :
  w_faults w = [] → ParsedTimestamp p = Some ts →
  has_key (IdempotencyKey p) (notifications (w_db w)) = false →
  text_ok (event_texts p) = true →
  (has_fingerprint (fingerprint_of s p) (citizens (w_db w)) = false →
     citizens (w_db w) !! gen_random_uuid (w_gen w) = None) →
  notifications (w_db w) !! gen_random_uuid (S (S (w_gen w))) = None →
  event_outbox (w_db w) !! gen_random_uuid (S (S (S (w_gen w)))) = None →
  OutboxPayloadJSON (gen_random_uuid (S (S (w_gen w)))) p (w_clock w (w_reads w)) = Ok payload →
  pg_jsonb payload = Some text →
  ∃ w', persist s p w = (w', Ok true).
Proof.
  intros Hf Hts Hk Htx Hfc Hfn Hfo Hp Hj. unfold persist. rewrite Hts.
  unfold defer_rollback, persist_tx, ebind, db, mbind, ST_bind. rewrite (Begin_fine _ Hf).
  destruct (InsertNotificationIdempotent_fine s p ts (with_tx (Some (w_db w)) w) (w_db w))
    as (d1 & cid & Hens & _ & Hi); try done.
  pose proof (ensured_tables _ _ _ _ _ _ Hens) as (_ & Hout & _).
  destruct Hens as [_ (c & Hc & _)].
  simpl. rewrite Hi. simpl. rewrite Hk. simpl. rewrite Hp. unfold InsertOutbox, insert_outbox.
  erewrite (tx_sql_fine _ _); [|done|done]. cbv zeta. simpl. rewrite Hj, Hout, Hfo, Hc. simpl.
  rewrite lookup_insert_eq. simpl. erewrite Commit_fine; [|done|done]. simpl. eauto.
Qed.
End fine_runs.

(** ** Consequences of the specification *)

Section consequences.
Context `{UuidText} `{PostgresOk}.

Lemma accepted_timestamp s rq body p : accepted s rq body p → is_Some (ParsedTimestamp p).
Proof.
  intros [_ _ (p0 & _ & Hv)]. unfold Validate in Hv. unfold ParsedTimestamp.
  repeat case_match; simplify_eq; eauto.
Qed.

Lemma recorded_true_facts s p now d d' :
  recorded s p now d d' true →
  has_key (IdempotencyKey p) (notifications d') = true
  ∧ has_fingerprint (fingerprint_of s p) (citizens d') = true
  ∧ text_ok (event_texts p) = true ∧ is_Some (ParsedTimestamp p).
Proof.
  inversion 1 as [srcTS d1 cid nid oid created payload text Hts Htx Hens|]; subst.
  split_and!; [| |done|eauto].
  - apply has_key_true. simpl. exists nid. eexists. split; [apply lookup_insert_eq|done].
  - destruct Hens as [_ (c & Hc & Hf)]. apply has_fingerprint_true. simpl. eauto.
Qed.

(** An event whose key is known adds nothing. *)
Lemma recorded_known s p now d d' b :
  has_key (IdempotencyKey p) (notifications d) = true → recorded s p now d d' b →
  notifications d' = notifications d ∧ event_outbox d' = event_outbox d.
Proof.
  intros Hk. inversion 1 as [|d1 cid Hens _]; subst; [congruence|].
  apply ensured_tables in Hens. naive_solver.
Qed.

Lemma answer_tables rq body r w w' rsp :
  answer rq body r w = (w', rsp) →
  notifications (w_db w') = notifications (w_db w) ∧ event_outbox (w_db w') = event_outbox (w_db w).
Proof.
  destruct r as [[]|e]; [by intros [= <- _]..|].
  intros (w1 & r1 & Hd & Hk)%bind_inv. injection Hk as <- _.
  apply InsertWebhookDLQ_inv in Hd as [_ [->|(u & msg & _ & ->)]]; done.
Qed.
End consequences.
