(* ===== verification/Examples.v ===== *)
(** * A concrete environment

    Instances of the interfaces and a signed request, on which the theorems
    with hypotheses are exercised by evaluation. *)

From S2P Require Import Prelude GoStrings Sha256 GoTime Json Identity Uuid Payload World.
From S2P Require Import Repo RepoFacts Http WebhookService WebhookFacts.

#[export] Instance example_uuid_text : UuidText := decimal_uuid_text.
#[export] Instance example_uuid_text_ok : UuidTextOk example_uuid_text := decimal_uuid_text_ok.

(** UUIDs are counted from 1; columns store what they are given. *)
#[export] Instance example_pg : Postgres := {|
  gen_random_uuid n := Uuid (N.of_nat (S n));
  pg_timestamptz t := t;
  pg_text _ := true;
  pg_jsonb s := Some s;
  pg_scan A m := map_to_list m
|}.

#[export] Instance example_pg_ok : PostgresOk example_pg.
Proof. by constructor. Qed.

Definition example_service : Service := NewService "webhook-secret" "cpf-pepper".

Definition event_json (ch st ts : string) : json :=
  JObj [("chamado_id", JStr ch); ("tipo", JStr "status_change"); ("cpf", JStr "12345678901");
        ("status_anterior", JStr "em_analise"); ("status_novo", JStr st);
        ("titulo", JStr "Buraco"); ("descricao", JStr "Equipe a caminho");
        ("timestamp", JStr ts)].

Definition event_payload (ch st ts : string) : EventPayload :=
  {| ChamadoID := ch; Tipo := "status_change"; CPF := "12345678901";
     StatusAnterior := "em_analise"; StatusNovo := st; Titulo := "Buraco";
     Descricao := "Equipe a caminho"; Timestamp := ts |}.

(** The request an emitter holding the secret sends. *)
Definition signed_request (s : Service) (body : string) : request :=
  {| rq_header h := if String.eqb h "X-Signature-256"
                    then "sha256=" +:+ hex_EncodeToString (hmac_sha256 (svc_secret s) body) else "";
     rq_query _ := ""; rq_param _ := "";
     rq_body := {| delivered := body; read_error := None |} |}.

Definition example_body : string :=
  Marshal (event_json "CH-1" "em_execucao" "2024-11-15T14:30:00Z").
Definition example_rq : request := signed_request example_service example_body.
Definition example_event : EventPayload :=
  event_payload "CH-1" "em_execucao" "2024-11-15T14:30:00Z".

Lemma example_accepted : accepted example_service example_rq example_body example_event.
Proof.
  split; [vm_compute; reflexivity|vm_compute; reflexivity|].
  exists example_event. split; vm_compute; reflexivity.
Qed.

(** The same event with a timestamp whose UTC year is -1. *)
Definition ancient_body : string :=
  Marshal (event_json "CH-1" "em_execucao" "0000-01-01T00:00:00+01:00").
Definition ancient_rq : request := signed_request example_service ancient_body.
Definition ancient_event : EventPayload :=
  event_payload "CH-1" "em_execucao" "0000-01-01T00:00:00+01:00".

Lemma ancient_accepted : accepted example_service ancient_rq ancient_body ancient_event.
Proof.
  split; [vm_compute; reflexivity|vm_compute; reflexivity|].
  exists ancient_event. split; vm_compute; reflexivity.
Qed.
