(* ===== verification/WebhookProps.v ===== *)
(** * What POST /webhook guarantees

    The theorems of the webhook component: rejection before any effect,
    atomic recording, duplicate detection, acceptance of a fresh event, and
    independence from the raw CPF. *)

From S2P Require Import Prelude GoStrings Sha256 GoTime Json Uuid Identity Payload.
From S2P Require Import PayloadFacts World Repo RepoFacts RepoSound Http WebhookService.
From S2P Require Import WebhookFacts Examples.

Section props.
Context `{UuidText} `{PostgresOk}.


(** C4: an accepted event is recorded atomically, whatever fails.  The
    answer [ok] means citizen, notification and outbox row were committed
    together; [duplicate] means the key was known and no notification or
    outbox row was added; on [internal_error] the tables are as before, or
    as one of these two outcomes when only the commit's reply was lost, plus
    at most one dead-letter row holding the raw body and signature. *)
Theorem HandlePOST_atomic s rq body p w w' rsp
  (Hacc : accepted s rq body p) (Htx : w_tx w = None)
  (Hrun : HandlePOST s rq w = (w', rsp)) :
  w_tx w' = None ∧
  (rsp = ok_response ∧ recorded s p (w_pgnow w) (w_db w) (w_db w') true
   ∨ rsp = duplicate_response ∧ recorded s p (w_pgnow w) (w_db w) (w_db w') false
   ∨ rsp = internal_error ∧ ∃ d1 now',
       (d1 = w_db w ∨ ∃ b, recorded s p (w_pgnow w) (w_db w) d1 b)
       ∧ dead_lettered rq now' body d1 (w_db w')).
Proof.
  rewrite (HandlePOST_accepted _ _ _ _ _ Hacc) in Hrun.
  apply bind_inv in Hrun as (w1 & r & Hp & Hk).
  apply persist_refines in Hp as [Ht1 Hp]; [|done].
  destruct r as [[]|e]; [injection Hk as <- <-; auto..|].
  apply bind_inv in Hk as (w2 & r2 & Hd & Hk). injection Hk as <- <-.
  apply InsertWebhookDLQ_inv in Hd as [Ht2 Hd].
  split; [congruence|]. right; right. split; [done|]. exists (w_db w1), (w_pgnow w1). done.
Qed.

(** C14: a redelivered event is never recorded twice.  After a first delivery
    answered [ok], let the tables evolve in any way the program allows; the
    same request then adds no notification and no outbox row whatever fails,
    and without failures it is answered [duplicate] with the tables
    untouched. *)
Theorem redelivery_is_duplicate s rq body p w w1 w2
  (Hacc : accepted s rq body p) (Htx : w_tx w = None)
  (Hfirst : HandlePOST s rq w = (w1, ok_response))
  (Hlater : evolves (w_db w1) (w_db w2)) (Htx2 : w_tx w2 = None) :
  (∀ w3 rsp, HandlePOST s rq w2 = (w3, rsp) →
     notifications (w_db w3) = notifications (w_db w2)
     ∧ event_outbox (w_db w3) = event_outbox (w_db w2))
  ∧ (w_faults w2 = [] →
     ∃ w3, HandlePOST s rq w2 = (w3, duplicate_response) ∧ w_db w3 = w_db w2).
Proof.
  assert (recorded s p (w_pgnow w) (w_db w) (w_db w1) true) as Hrec.
  { rewrite (HandlePOST_accepted _ _ _ _ _ Hacc) in Hfirst.
    apply bind_inv in Hfirst as (wp & [[]|e] & Hp & Hk); [| |];
      [injection Hk as <-; by apply persist_refines in Hp as [_ Hp]|discriminate Hk|].
    by apply bind_inv in Hk as (? & ? & _ & Hk). }
  apply recorded_true_facts in Hrec as (Hk & Hf & Htext & Hts).
  apply (has_key_evolves _ _ _ Hlater) in Hk.
  apply (has_fingerprint_evolves _ _ _ Hlater) in Hf. split.
  - intros w3 rsp Hrun. rewrite (HandlePOST_accepted _ _ _ _ _ Hacc) in Hrun.
    apply bind_inv in Hrun as (w4 & r & Hp & Hans).
    apply persist_refines in Hp as [Ht4 Hp]; [|done].
    assert (notifications (w_db w4) = notifications (w_db w2)
            ∧ event_outbox (w_db w4) = event_outbox (w_db w2)) as [Hn Ho].
    { destruct r as [b|e]; [by eapply recorded_known|].
      destruct Hp as [->|[b Hp]]; [done|by eapply recorded_known]. }
    apply answer_tables in Hans as [-> ->]. done.
  - intros Hfaults. rewrite (HandlePOST_accepted _ _ _ _ _ Hacc).
    destruct (persist_duplicate s p w2 Hfaults Hts Hf Hk Htext) as (w3 & Hp & Hd & _).
    exists w3. unfold mbind, ST_bind. by rewrite Hp.
Qed.

(** C26: a fresh, well-formed event is accepted.  With no failure, an unknown
    key, texts and payload the database takes, and UUIDs not in use, the
    answer is [ok] and citizen, notification and pending outbox row are
    committed as specified. *)
Theorem fresh_event_is_recorded s rq body p w payload text
  (Hacc : accepted s rq body p) (Htx : w_tx w = None) (Hfaults : w_faults w = [])
  (Hkey : has_key (IdempotencyKey p) (notifications (w_db w)) = false)
  (Htext : text_ok (event_texts p) = true)
  (Hcitizen : has_fingerprint (fingerprint_of s p) (citizens (w_db w)) = false →
              citizens (w_db w) !! gen_random_uuid (w_gen w) = None)
  (Hnotification : notifications (w_db w) !! gen_random_uuid (S (S (w_gen w))) = None)
  (Houtbox : event_outbox (w_db w) !! gen_random_uuid (S (S (S (w_gen w)))) = None)
  (Hpayload : OutboxPayloadJSON (gen_random_uuid (S (S (w_gen w)))) p (w_clock w (w_reads w))
              = Ok payload)
  (Hjson : pg_jsonb payload = Some text) :
  ∃ w', HandlePOST s rq w = (w', ok_response)
        ∧ recorded s p (w_pgnow w) (w_db w) (w_db w') true.
Proof.
  rewrite (HandlePOST_accepted _ _ _ _ _ Hacc).
  destruct (accepted_timestamp _ _ _ _ Hacc) as [ts Hts].
  destruct (persist_fresh s p w ts payload text) as [w' Hp]; try done.
  exists w'. unfold mbind, ST_bind. rewrite Hp. split; [done|].
  by apply persist_refines in Hp as [_ Hp].
Qed.

(** C40: a timestamp can be valid for the gate and unstorable: when its UTC
    year does not have four digits, the event passes signature and
    validation yet is never answered [ok], whatever the database does. *)
Theorem unrepresentable_timestamp_fails s rq body p w w' rsp t
  (Hacc : accepted s rq body p) (Htx : w_tx w = None)
  (Ht : ParsedTimestamp p = Some t)
  (Hyear : in_range 0 (cv_year (civil_of_days (t / Second / 86400))) 9999 = false)
  (Hrun : HandlePOST s rq w = (w', rsp)) :
  rsp ≠ ok_response.
Proof.
  rewrite (HandlePOST_accepted _ _ _ _ _ Hacc) in Hrun.
  apply bind_inv in Hrun as (w1 & [[]|e] & Hp & Hk).
  - apply persist_refines in Hp as [_ Hp]; [|done]. inversion Hp as
      [srcTS d1 cid nid oid created payload text Hts _ _ _ _ _ Hpay _|]; subst.
    rewrite Ht in Hts. simplify_eq. exfalso. revert Hpay.
    unfold OutboxPayloadJSON, notificationOutbox_json. simpl. rewrite Ht.
    destruct (time_json created); [|done]. unfold time_json.
    unfold in_range in Hyear. by rewrite Hyear.
  - injection Hk as <- <-. done.
  - apply bind_inv in Hk as (w2 & r2 & _ & Hk). by injection Hk as <- <-.
Qed.

(** Nothing stored on the accepted path depends on the CPF beyond its
    fingerprint: persisting factors through a function that is given the
    fingerprint and the payload with its CPF erased. *)
Lemma persist_forgets_cpf s :
  ∃ f : string → EventPayload → ST (result string bool),
    ∀ p w, persist s p w = f (CitizenFingerprint (svc_pepper s) (CPF p)) (set_CPF "" p) w.
Proof.
  set (params := λ fp p ts,
    {| wp_Fingerprint := fp; wp_ChamadoID := ChamadoID p; wp_Title := Titulo p;
       wp_Body := Descricao p; wp_IdempotencyKey := IdempotencyKey p;
       wp_StatusAnterior := StatusAnterior p; wp_StatusNovo := StatusNovo p;
       wp_EventType := Tipo p; wp_SourceTimestamp := Some ts |}).
  exists (λ fp p,
    match ParsedTimestamp p with
    | None => fail "parsing time"
    | Some ts =>
        defer_rollback (
          db Begin ;;?
          r <-? db (InsertNotificationIdempotent (params fp p ts)) ;;
          let '(inserted, cid, nid) := r in
          (if (inserted : bool) then
             now ← time_Now;
             match OutboxPayloadJSON nid p now with
             | Err e => fail e
             | Ok payload => db (InsertOutbox cid nid payload)
             end
           else ok tt) ;;?
          db Commit ;;? ok inserted)
    end).
  reflexivity.
Qed.
End props.

(** ** The hypotheses can be met *)

Definition first_delivery : world * response :=
  HandlePOST example_service example_rq (init_world empty_database).

Lemma first_delivery_ok : first_delivery.2 = ok_response.
Proof. vm_compute. reflexivity. Qed.

Lemma first_delivery_run :
  HandlePOST example_service example_rq (init_world empty_database) = (first_delivery.1, ok_response).
Proof. rewrite <-first_delivery_ok. unfold first_delivery. apply surjective_pairing. Qed.

Lemma first_delivery_settled : w_tx first_delivery.1 = None ∧ w_faults first_delivery.1 = [].
Proof. split; vm_compute; reflexivity. Qed.




Lemma HandlePOST_atomic_witness :
  w_tx first_delivery.1 = None
  ∧ recorded example_service example_event 0 empty_database (w_db first_delivery.1) true.
Proof.
  destruct (HandlePOST_atomic example_service example_rq example_body example_event
              (init_world empty_database) first_delivery.1 ok_response
              example_accepted eq_refl first_delivery_run)
    as [Ht [[_ Hr]|[[Hno _]|[Hno _]]]].
  - exact (conj Ht Hr).
  - discriminate Hno.
  - discriminate Hno.
Defined.

Lemma redelivery_is_duplicate_witness :
  ∃ w3, HandlePOST example_service example_rq first_delivery.1 = (w3, duplicate_response)
        ∧ w_db w3 = w_db first_delivery.1.
Proof.
  exact (proj2 (redelivery_is_duplicate example_service example_rq example_body example_event
                  (init_world empty_database) first_delivery.1 first_delivery.1
                  example_accepted eq_refl first_delivery_run (reflexivity _)
                  (proj1 first_delivery_settled)) (proj2 first_delivery_settled)).
Defined.

Lemma fresh_event_is_recorded_witness :
  ∃ w', HandlePOST example_service example_rq (init_world empty_database) = (w', ok_response)
        ∧ recorded example_service example_event 0 empty_database (w_db w') true.
Proof.
  eapply (fresh_event_is_recorded example_service example_rq example_body example_event
            (init_world empty_database)).
  - exact example_accepted.
  - reflexivity.
  - reflexivity.
  - reflexivity.
  - reflexivity.
  - intros _. reflexivity.
  - reflexivity.
  - reflexivity.
  - vm_compute. reflexivity.
  - reflexivity.
Defined.

Definition ancient_delivery : world * response :=
  HandlePOST example_service ancient_rq (init_world empty_database).

Lemma ancient_delivery_run :
  HandlePOST example_service ancient_rq (init_world empty_database)
  = (ancient_delivery.1, ancient_delivery.2).
Proof. unfold ancient_delivery. apply surjective_pairing. Qed.

Lemma ancient_timestamp :
  ParsedTimestamp ancient_event = Some (-62167222800 * Second)
  ∧ in_range 0 (cv_year (civil_of_days (-62167222800 * Second / Second / 86400))) 9999 = false.
Proof. split; vm_compute; reflexivity. Qed.

Lemma unrepresentable_timestamp_fails_witness : ancient_delivery.2 ≠ ok_response.
Proof.
  exact (unrepresentable_timestamp_fails example_service ancient_rq ancient_body ancient_event
           (init_world empty_database) ancient_delivery.1 ancient_delivery.2 _
           ancient_accepted eq_refl (proj1 ancient_timestamp) (proj2 ancient_timestamp)
           ancient_delivery_run).
Defined.
