(* ===== verification/Auth.v ===== *)
(** * internal/authjwt: who is calling

    The bearer token of a request, its resolution to a citizen, and the two
    middlewares in front of the citizen routes.  The JWT library is an
    interface: parsing asks the program for the key of the token's signing
    method. *)

From S2P Require Import Prelude GoStrings GoTime Identity Uuid World Repo Http Payload WebhookService.

(** ** github.com/golang-jwt/jwt *)

Record accessClaims := {
  cl_ExpiresAt : option time;
  cl_Issuer : string;
  cl_Audience : list string;
  cl_PreferredUsername : string
}.

Inductive signing_method := SigningMethodHMAC | OtherMethod.

Class Jwt := {
  (** claims of a token that parses under the key function at an instant *)
  ParseWithClaims : string → (signing_method → option string) → time → option accessClaims;
  (** the token carries these claims and verifies under the method and key *)
  jwt_verifies : signing_method → string → string → accessClaims → Prop
}.

(** A token only parses when it verifies under a key the caller hands out. *)
Class JwtOk `(Jwt) := {
  jwt_parse_verifies raw kf t claims :
    ParseWithClaims raw kf t = Some claims →
    ∃ m key, kf m = Some key ∧ jwt_verifies m key raw claims
}.

(** ** The bearer token *)

Definition bearer_prefix : string := "Bearer ".

(** [None]: no usable token. *)
Definition bearerToken (h : string) : option string :=
  if String.eqb h "" then None
  else if (String.length h <? String.length bearer_prefix)%nat
          || negb (EqualFold (String.substring 0 (String.length bearer_prefix) h) bearer_prefix)
  then None
  else
    let t := TrimSpace (String.substring (String.length bearer_prefix)
                          (String.length h - String.length bearer_prefix) h) in
    if String.eqb t "" then None else Some t.

Definition BearerFromRequest (rq : request) : option string :=
  bearerToken (rq_header rq "Authorization").

(** ** The citizen behind a token *)

Record AuthConfig := {
  au_jwtSecret : string;
  au_cpfPepper : string;
  au_wantIssuer : string;
  au_wantAudience : string
}.

Inductive auth_error :=
| ErrUnauthorized
| AuthDbError (e : db_error).

Section auth.
Context `{Postgres} `{Jwt}.
Variable cfg : AuthConfig.

Definition keyfunc (m : signing_method) : option string :=
  match m with SigningMethodHMAC => Some (au_jwtSecret cfg) | OtherMethod => None end.

(** The checks on a parsed token, and the CPF it names. *)
Definition claims_cpf (claims : accessClaims) (now : time) : option string :=
  match cl_ExpiresAt claims with
  | None => None
  | Some exp =>
      if negb (now <? exp) then None
      else if negb (String.eqb (au_wantIssuer cfg) "")
              && negb (String.eqb (cl_Issuer claims) (au_wantIssuer cfg)) then None
      else if negb (String.eqb (au_wantAudience cfg) "")
              && negb (existsb (String.eqb (au_wantAudience cfg)) (cl_Audience claims)) then None
      else match NormalizeCPF11 (cl_PreferredUsername claims) with
           | Ok cpf => Some cpf
           | Err _ => None
           end
  end.

(** [Ok None]: a valid token of someone without a row. *)
Definition ResolveCitizenFromToken (raw : string) : ST (result auth_error (option uuid)) :=
  parsed_at ← time_Now;
  match ParseWithClaims raw keyfunc parsed_at with
  | None => fail ErrUnauthorized
  | Some claims =>
      now ← time_Now;
      match claims_cpf claims now with
      | None => fail ErrUnauthorized
      | Some cpf =>
          r ← LookupCitizenID (CitizenFingerprint (au_cpfPepper cfg) cpf);
          mret match r with Ok id => Ok id | Err e => Err (AuthDbError e) end
      end
  end.

(** ** Middlewares *)

(** What [c.Get(ctxCitizenID)] finds: nothing, or the pointer that was set. *)
Definition CitizenID (ctx : option (option uuid)) : option uuid :=
  match ctx with
  | None => None
  | Some p => p
  end.

Definition handler : Type := option (option uuid) → request → ST response.

(** [Middleware(...)] in front of [next]. *)
Definition Middleware (next : handler) : request → ST response :=
  λ rq,
    match BearerFromRequest rq with
    | None => mret unauthorized
    | Some raw =>
        r ← ResolveCitizenFromToken raw;
        match r with
        | Err ErrUnauthorized => mret unauthorized
        | Err (AuthDbError _) => mret internal_error
        | Ok id => next (Some id) rq
        end
    end.

(** Best effort: an error is logged and the request goes on. *)
Definition TouchLastSeenMiddleware (next : handler) : handler :=
  λ ctx rq,
    match CitizenID ctx with
    | Some id => TouchCitizenLastSeen id ≫= λ _, next ctx rq
    | None => next ctx rq
    end.

(** [grp.Use(auth, touch)] *)
Definition authenticated (next : handler) : request → ST response :=
  Middleware (TouchLastSeenMiddleware next).
End auth.
