(* ===== verification/HttpApi.v ===== *)
(** * internal/httpapi: the citizen's REST API

    Each handler as a function of the authenticated citizen and the request,
    its guards in the code's order; the authenticated routes; readiness; the
    stubs.  A goroutine started by a handler is an effect of the world. *)

From S2P Require Import Prelude GoStrings GoTime Json Uuid Payload World Repo Http Integrations Auth.

(** ** Responses that can fail to encode *)

(** [c.JSON] writes the status and then nothing when [MarshalJSON] fails. *)
Definition c_JSON_or_empty (status : Z) (v : option json) : response :=
  match v with
  | Some v => Response status (JsonBody v)
  | None => Response status NoBody
  end.

Definition c_Status (status : Z) : response := Response status NoBody.

(** [timeJSON.MarshalJSON] *)
Definition timeJSON (t : time) : option json := ok_option (time_json t).

(** An optional member: absent, or present when its value encodes. *)
Definition optional {A} (k : string) (f : A → option json) (v : option A)
  : option (list (string * json)) :=
  match v with
  | None => Some []
  | Some a => j ← f a; Some [(k, j)]
  end.

(** ** Pagination *)

Definition defaultNotifLimit : Z := 20.
Definition maxNotifLimit : Z := 100.

Definition parse_limit (ls : string) : option Z :=
  if String.eqb ls "" then Some defaultNotifLimit
  else match Atoi ls with
       | Some v => if v <? 1 then None else Some (if maxNotifLimit <? v then maxNotifLimit else v)
       | None => None
       end.

Definition parse_offset (os : string) : option Z :=
  if String.eqb os "" then Some 0
  else match Atoi os with
       | Some v => if v <? 0 then None else Some v
       | None => None
       end.

(** [Err] is the response already written. *)
Definition parsePagination (rq : request) : result response (Z * Z) :=
  match parse_limit (rq_query rq "limit") with
  | None => Err (c_error StatusBadRequest "invalid_limit")
  | Some limit =>
      match parse_offset (rq_query rq "offset") with
      | None => Err (c_error StatusBadRequest "invalid_offset")
      | Some offset => Ok (limit, offset)
      end
  end.

Section handlers.
Context `{UuidText} `{Postgres} `{Gobreaker} `{Unicode}.

(** ** Notifications *)

Record notificationJSON := {
  nj_ID : string;
  nj_ChamadoID : string;
  nj_Title : string;
  nj_Body : string;
  nj_ReadAt : option time;
  nj_CreatedAt : time;
  nj_StatusAnterior : option string;
  nj_StatusNovo : option string;
  nj_EventType : option string;
  nj_SourceTimestamp : option time
}.

Definition rowToJSON (r : NotificationRow) : notificationJSON :=
  {| nj_ID := uuid_String (nr_ID r); nj_ChamadoID := nr_ChamadoID r; nj_Title := nr_Title r;
     nj_Body := nr_Body r; nj_ReadAt := nr_ReadAt r; nj_CreatedAt := nr_CreatedAt r;
     nj_StatusAnterior := nr_StatusAnterior r; nj_StatusNovo := nr_StatusNovo r;
     nj_EventType := nr_EventType r; nj_SourceTimestamp := nr_SourceTimestamp r |}.

(** The struct's JSON tags; an optional string is a pointer. *)
Definition notificationJSON_value (n : notificationJSON) : option json :=
  read_at ← optional "read_at" timeJSON (nj_ReadAt n);
  created_at ← timeJSON (nj_CreatedAt n);
  source ← optional "source_timestamp" timeJSON (nj_SourceTimestamp n);
  Some (JObj ([("id", JStr (nj_ID n)); ("chamado_id", JStr (nj_ChamadoID n));
               ("title", JStr (nj_Title n)); ("body", JStr (nj_Body n))]
              ++ read_at ++ [("created_at", created_at)]
              ++ omitempty "status_anterior" (nj_StatusAnterior n)
              ++ omitempty "status_novo" (nj_StatusNovo n)
              ++ omitempty "event_type" (nj_EventType n) ++ source)).

Definition list_json (items : list json) (limit offset total : Z) : json :=
  JObj [("items", JArr items); ("limit", JInt limit); ("offset", JInt offset);
        ("total", JInt total)].

Definition row_json (r : NotificationRow) : option json := notificationJSON_value (rowToJSON r).

Definition handleListNotifications : handler :=
  λ ctx rq,
    match parsePagination rq with
    | Err rsp => mret rsp
    | Ok (limit, offset) =>
        match CitizenID ctx with
        | None => mret (Response StatusOK (JsonBody (list_json [] limit offset 0)))
        | Some cid =>
            r ← ListNotificationsByCitizen cid limit offset;
            mret match r with
                 | Err _ => internal_error
                 | Ok (rows, total) =>
                     c_JSON_or_empty StatusOK
                       (items ← mapM row_json rows;
                        Some (list_json items limit offset total))
                 end
        end
    end.

Definition handleUnreadCount : handler :=
  λ ctx rq,
    match CitizenID ctx with
    | None => mret (c_JSON StatusOK [("count", JInt 0)])
    | Some cid =>
        r ← CountUnreadNotifications cid;
        mret match r with
             | Err _ => internal_error
             | Ok n => c_JSON StatusOK [("count", JInt n)]
             end
    end.

(** The goroutine calls [readNotify]. *)
Definition scheduleChamadosReadNotify (ch : option ChamadosClient) (chamadoID citizenRef : string)
  : ST unit :=
  match ch with
  | None => mret tt
  | Some _ => if String.eqb chamadoID "" then mret tt
              else emit (SpawnNotifyRead chamadoID citizenRef)
  end.

(** Its body: the outcome is only logged. *)
Definition readNotify (ch : option ChamadosClient) (chamadoID citizenRef : string) : ST unit :=
  NotifyRead ch chamadoID citizenRef ≫= λ _, mret tt.

Definition handleMarkRead (ch : option ChamadosClient) : handler :=
  λ ctx rq,
    match CitizenID ctx with
    | None => mret not_found
    | Some cid =>
        match uuid_Parse (rq_param rq "id") with
        | None => mret invalid_id
        | Some nid =>
            r ← MarkNotificationRead cid nid;
            match r with
            | Err _ => mret internal_error
            | Ok None => mret not_found
            | Ok (Some chamadoID) =>
                scheduleChamadosReadNotify ch chamadoID (uuid_String cid) ≫= λ _,
                mret (c_Status StatusNoContent)
            end
        end
    end.

Definition handleGetNotification : handler :=
  λ ctx rq,
    match CitizenID ctx with
    | None => mret not_found
    | Some cid =>
        match uuid_Parse (rq_param rq "id") with
        | None => mret invalid_id
        | Some nid =>
            r ← GetNotificationByCitizen cid nid;
            mret match r with
                 | Err _ => internal_error
                 | Ok None => not_found
                 | Ok (Some row) => c_JSON_or_empty StatusOK (row_json row)
                 end
        end
    end.

(** The loop over the marked rows' chamados, [seen] so far. *)
Fixpoint notify_unseen (ch : option ChamadosClient) (citizenRef : string)
    (seen : gset string) (l : list string) : ST unit :=
  match l with
  | [] => mret tt
  | c :: l' =>
      if String.eqb c "" then notify_unseen ch citizenRef seen l'
      else if bool_decide (c ∈ seen) then notify_unseen ch citizenRef seen l'
      else scheduleChamadosReadNotify ch c citizenRef ≫= λ _,
           notify_unseen ch citizenRef ({[c]} ∪ seen) l'
  end.

Definition handleMarkAllRead (ch : option ChamadosClient) : handler :=
  λ ctx rq,
    match CitizenID ctx with
    | None => mret not_found
    | Some cid =>
        r ← MarkAllNotificationsRead cid;
        match r with
        | Err _ => mret internal_error
        | Ok (chamados, n) =>
            notify_unseen ch (uuid_String cid) ∅ chamados ≫= λ _,
            mret (c_JSON StatusOK [("updated", JInt n)])
        end
    end.

(** ** Devices *)

Record registerDeviceBody := { rd_Token : string; rd_Platform : string }.

Definition set_device_field (f v : string) (b : registerDeviceBody) : registerDeviceBody :=
  if String.eqb f "token" then {| rd_Token := v; rd_Platform := rd_Platform b |}
  else {| rd_Token := rd_Token b; rd_Platform := v |}.

(** [c.ShouldBindJSON]: the first JSON value of the body, unknown members
    ignored. *)
Definition ShouldBindJSON (b : body_stream) : option registerDeviceBody :=
  match decode_first (delivered b) with
  | None => None
  | Some (v, _) =>
      decode_struct ["token"; "platform"] set_device_field false v
        {| rd_Token := ""; rd_Platform := "" |}
  end.


Definition handleRegisterDevice : handler :=
  λ ctx rq,
    match CitizenID ctx with
    | None => mret not_found
    | Some cid =>
        match ShouldBindJSON (rq_body rq) with
        | None => mret invalid_request
        | Some body =>
            let token := TrimSpace (rd_Token body) in
            let platform := TrimSpace (ToLower (rd_Platform body)) in
            if String.eqb token "" || String.eqb platform "" then mret invalid_request
            else
              r ← UpsertPushDevice cid platform token;
              mret match r with
                   | Err _ => internal_error
                   | Ok _ => c_JSON StatusOK [("ok", JBool true)]
                   end
        end
    end.

Definition handleDeleteDevice : handler :=
  λ ctx rq,
    match CitizenID ctx with
    | None => mret not_found
    | Some cid =>
        let token := TrimSpace (rq_query rq "token") in
        if String.eqb token "" then mret (c_error StatusBadRequest "missing_token")
        else
          r ← DeletePushDevice cid token;
          mret match r with
               | Err _ => internal_error
               | Ok n => if n =? 0 then not_found else c_Status StatusNoContent
               end
    end.

(** ** Citizen *)

(** [json.Unmarshal] of the stored preferences, or an empty object. *)
Definition preferences_json (text : string) : json :=
  if (0 <? String.length text)%nat then
    match Unmarshal text with Some v => v | None => JObj [] end
  else JObj [].

Definition citizen_json (row : CitizenMeRow) (unread : Z) : option json :=
  created ← timeJSON (me_CreatedAt row);
  seen ← optional "last_seen_at" timeJSON (me_LastSeenAt row);
  Some (JObj ([("citizen_id", JStr (uuid_String (me_ID row))); ("created_at", created);
               ("preferences", preferences_json (me_Preferences row));
               ("unread_count", JInt unread)] ++ seen)).

Definition handleCitizenMe : handler :=
  λ ctx rq,
    match CitizenID ctx with
    | None => mret not_found
    | Some cid =>
        r ← GetCitizenByID cid;
        match r with
        | Err _ => mret internal_error
        | Ok None => mret not_found
        | Ok (Some row) =>
            n ← CountUnreadNotifications cid;
            mret match n with
                 | Err _ => internal_error
                 | Ok unread => c_JSON_or_empty StatusOK (citizen_json row unread)
                 end
        end
    end.

(** ** Chamados and mapas *)

Definition unavailable (reason : string) : response :=
  c_JSON StatusServiceUnavailable [("reason", JStr reason)].

Definition c_Data (status : Z) (body : string) : response :=
  Response status (RawBody "application/json" body).

Definition handleChamadosSummary (ch : option ChamadosClient) : handler :=
  λ ctx rq,
    match ch with
    | None => mret (unavailable "chamados_api_unconfigured")
    | Some _ =>
        match CitizenID ctx with
        | None => mret not_found
        | Some cid =>
            let chamadoID := rq_param rq "chamado_id" in
            if String.eqb chamadoID "" then mret invalid_id
            else
              r ← CitizenHasNotificationForChamado cid chamadoID;
              match r with
              | Err _ => mret internal_error
              | Ok false => mret not_found
              | Ok true =>
                  s ← GetSummary ch chamadoID;
                  mret (let '((body, status), err) := s in
                        match err with
                        | Some e =>
                            if is_open_state e then unavailable "chamados_api_unavailable"
                            else c_JSON StatusBadGateway
                                   [("error", JStr "chamados_upstream");
                                    ("detail", JStr (call_error_text e))]
                        | None => if negb (status =? StatusOK) then c_Data status body
                                  else c_Data StatusOK body
                        end)
              end
        end
    end.

Definition handleMapasStatus (m : option MapasClient) : handler :=
  λ ctx rq,
    match m with
    | None => mret (c_JSON StatusOK [("circuit", JStr "disabled"); ("reason", JStr "nil_client")])
    | Some _ => st ← StatusJSON m; mret (c_JSON StatusOK st)
    end.
End handlers.
