(* ===== verification/WsBus.v ===== *)
(** * internal/wsbus: the hub of WebSocket connections

    The hub and its clients in a store of their own: [byCitizen] maps a
    citizen to the set of client pointers, a client has its buffered channel
    and its [sync.Once].  First the operations as functions, run one at a
    time; then the step relation of the goroutines that run them, where the
    points at which the code holds no lock are steps of their own. *)

From S2P Require Import Prelude Uuid GoTime.

(** ** State *)

Definition defaultSendBuffer : nat := 16.

(** Progress of [closeOnce.Do]: its body unregisters the client, closes the
    channel, then the connection. *)
Inductive once_state := Fresh | Entered | Unregistered | ChanClosed | Done.

#[export] Instance once_state_eq_dec : EqDecision once_state.
Proof. solve_decision. Defined.

Record Client := mkClient {
  c_citizenID : uuid;
  c_send : list string;        (** buffered payloads, oldest first *)
  c_once : once_state;
  c_written : list string      (** written to the connection, oldest first *)
}.

Record Hub := mkHub {
  byCitizen : gmap uuid (gset positive);
  closed : bool;
  clients : gmap positive Client   (** every client allocated so far *)
}.

Definition NewHub : Hub := mkHub ∅ false ∅.

Definition set_byCitizen m h := mkHub m (closed h) (clients h).
Definition set_clients m h := mkHub (byCitizen h) (closed h) m.

Definition with_once o c := mkClient (c_citizenID c) (c_send c) o (c_written c).
Definition with_send q c := mkClient (c_citizenID c) q (c_once c) (c_written c).
Definition with_written q ws c := mkClient (c_citizenID c) q (c_once c) ws.

(** Is [close(c.send)] behind us? *)
Definition chan_closed (c : Client) : bool :=
  match c_once c with ChanClosed | Done => true | _ => false end.

Definition clients_of (h : Hub) (cid : uuid) : gset positive := default ∅ (byCitizen h !! cid).

(** ** client.go: parameters *)

Record client_params := {
  cp_writeTimeout : duration;
  cp_pingInterval : duration;
  cp_pongWait : duration;
  cp_readLimit : Z
}.

Definition NewClient_params (writeTimeout pingInterval pongWait readLimit : Z) : client_params :=
  {| cp_writeTimeout := if writeTimeout <=? 0 then 10 * Second else writeTimeout;
     cp_pingInterval := if pingInterval <=? 0 then 30 * Second else pingInterval;
     cp_pongWait := if pongWait <=? 0 then 60 * Second else pongWait;
     cp_readLimit := if readLimit <=? 0 then Z.shiftl 1 20 else readLimit |}.

Definition NewClient (citizenID : uuid) : Client := mkClient citizenID [] Fresh [].

(** ** hub.go, one operation at a time *)

Definition Register (p : positive) (h : Hub) : Hub :=
  if closed h then h
  else match clients h !! p with
       | None => h
       | Some c =>
           set_byCitizen
             (<[c_citizenID c := {[p]} ∪ clients_of h (c_citizenID c)]> (byCitizen h)) h
       end.

Definition Unregister (p : positive) (h : Hub) : Hub :=
  match clients h !! p with
  | None => h
  | Some c =>
      match byCitizen h !! c_citizenID c with
      | None => h
      | Some m =>
          let m' := m ∖ {[p]} in
          set_byCitizen
            (if bool_decide (m' = ∅) then delete (c_citizenID c) (byCitizen h)
             else <[c_citizenID c := m']> (byCitizen h)) h
      end
  end.

Definition update_client (f : Client → Client) (p : positive) (h : Hub) : Hub :=
  set_clients (alter f p (clients h)) h.

(** [c.shutdown()]: the once body, then nothing. *)
Definition shutdown (p : positive) (h : Hub) : Hub :=
  match c_once <$> clients h !! p with
  | Some Fresh => update_client (with_once Done) p (Unregister p h)
  | _ => h
  end.

(** One turn of the loop of [Dispatch]; [None]: send on a closed channel. *)
Definition send_one (payload : string) (p : positive) (h : Hub) : option Hub :=
  match clients h !! p with
  | None => None
  | Some c =>
      if chan_closed c then None
      else if (length (c_send c) <? defaultSendBuffer)%nat
      then Some (update_client (with_send (c_send c ++ [payload])) p h)
      else Some (shutdown p h)
  end.

Fixpoint send_all (payload : string) (ps : list positive) (h : Hub) : option Hub :=
  match ps with
  | [] => Some h
  | p :: ps' => match send_one payload p h with
                | Some h' => send_all payload ps' h' | None => None end
  end.

Definition Dispatch (citizenID : uuid) (payload : string) (h : Hub) : option Hub :=
  if closed h then Some h
  else send_all payload (elements (clients_of h citizenID)) h.

(** The clients of all citizens. *)
Definition all_clients (h : Hub) : list positive :=
  map_to_list (byCitizen h) ≫= λ e, elements e.2.

Fixpoint shutdown_all (ps : list positive) (h : Hub) : Hub :=
  match ps with
  | [] => h
  | p :: ps' => shutdown_all ps' (shutdown p h)
  end.

Definition Close (h : Hub) : Hub :=
  if closed h then h
  else shutdown_all (all_clients h) (mkHub ∅ true (clients h)).

(** [NewClient] and the [Register] that [Run] starts with. *)
Definition Connect (p : positive) (citizenID : uuid) (h : Hub) : Hub :=
  Register p (set_clients (<[p := NewClient citizenID]> (clients h)) h).

(** ** The goroutines *)

(** What a goroutine has left to do, next action first. *)
Inductive action :=
| AReadLoop (p : positive)                     (** [readPump] *)
| AWriteLoop (p : positive)                    (** [writePump] *)
| ADispatch (citizenID : uuid) (payload : string)
| ASend (p : positive) (payload : string)      (** one turn of the loop *)
| AShutdown (p : positive)                     (** [c.shutdown()] *)
| AOnceBody (p : positive)                     (** inside [closeOnce.Do] *)
| AClose.                                      (** [h.Close()] *)

Abbreviation thread := (list action).

(** [dispatched] records, for the theorems, every payload given to [Dispatch]
    and its citizen. *)
Record state := State {
  hub : Hub;
  threads : list thread;
  dispatched : list (uuid * string);
  panicked : bool
}.

Definition init_state : state := State NewHub [] [] false.

(** One action: the hub afterwards and the actions that replace it. *)
Inductive act : Hub → action → Hub → thread → Prop :=
| act_read_more p h : act h (AReadLoop p) h [AReadLoop p]
| act_read_end p h : act h (AReadLoop p) h [AShutdown p]
| act_write p h c m q :
    clients h !! p = Some c → c_send c = m :: q →
    act h (AWriteLoop p) (update_client (with_written q (c_written c ++ [m])) p h) [AWriteLoop p]
| act_write_error p h c m q :
    clients h !! p = Some c → c_send c = m :: q →
    act h (AWriteLoop p) (update_client (with_send q) p h) [AShutdown p]
| act_write_closed p h c :
    clients h !! p = Some c → c_send c = [] → chan_closed c = true →
    act h (AWriteLoop p) h [AShutdown p]
| act_ping p h : act h (AWriteLoop p) h [AWriteLoop p]
| act_ping_error p h : act h (AWriteLoop p) h [AShutdown p]
| act_dispatch_closed cid payload h :
    closed h = true → act h (ADispatch cid payload) h []
| act_dispatch cid payload h ps :
    closed h = false → ps ≡ₚ elements (clients_of h cid) →
    act h (ADispatch cid payload) h ((λ p, ASend p payload) <$> ps)
| act_send p payload h c :
    clients h !! p = Some c → chan_closed c = false →
    (length (c_send c) < defaultSendBuffer)%nat →
    act h (ASend p payload) (update_client (with_send (c_send c ++ [payload])) p h) []
| act_send_full p payload h c :
    clients h !! p = Some c → chan_closed c = false →
    (defaultSendBuffer ≤ length (c_send c))%nat →
    act h (ASend p payload) h [AShutdown p]
| act_shutdown_first p h c :
    clients h !! p = Some c → c_once c = Fresh →
    act h (AShutdown p) (update_client (with_once Entered) p h) [AOnceBody p]
| act_shutdown_again p h c :
    clients h !! p = Some c → c_once c = Done → act h (AShutdown p) h []
| act_unregister p h c :
    clients h !! p = Some c → c_once c = Entered →
    act h (AOnceBody p) (update_client (with_once Unregistered) p (Unregister p h)) [AOnceBody p]
| act_close_chan p h c :
    clients h !! p = Some c → c_once c = Unregistered →
    act h (AOnceBody p) (update_client (with_once ChanClosed) p h) [AOnceBody p]
| act_close_conn p h c :
    clients h !! p = Some c → c_once c = ChanClosed →
    act h (AOnceBody p) (update_client (with_once Done) p h) []
| act_close_again h : closed h = true → act h AClose h []
| act_close h ps :
    closed h = false → ps ≡ₚ all_clients h →
    act h AClose (mkHub ∅ true (clients h)) (AShutdown <$> ps).

(** A step of the process: a goroutine's next action, a send on a closed
    channel (the process is gone), or a new goroutine. *)
Inductive step : state → state → Prop :=
| step_act h h' l1 l2 a t new log :
    act h a h' new →
    step (State h (l1 ++ (a :: t) :: l2) log false) (State h' (l1 ++ (new ++ t) :: l2) log false)
| step_panic h l1 l2 p payload t c log :
    clients h !! p = Some c → chan_closed c = true →
    step (State h (l1 ++ (ASend p payload :: t) :: l2) log false)
         (State h (l1 ++ (ASend p payload :: t) :: l2) log true)
| step_connect h ts p cid log :
    clients h !! p = None →
    step (State h ts log false)
         (State (Connect p cid h) ([AReadLoop p] :: [AWriteLoop p] :: ts) log false)
| step_dispatch h ts cid payload log :
    step (State h ts log false)
         (State h ([ADispatch cid payload] :: ts) ((cid, payload) :: log) false)
| step_close h ts log : step (State h ts log false) (State h ([AClose] :: ts) log false).

Definition reachable : state → Prop := rtc step init_state.
