(* ===== verification/Notify.v ===== *)
(** * internal/notify: from the outbox to Redis, push and the hub

    The worker's batch as one transaction around the publishes, the pushes
    after its commit, its backoff; the subscriber's dispatch loop and its
    reconnection backoff. *)

From S2P Require Import Prelude GoStrings GoTime Json Uuid World Repo Integrations WsBus.
From S2P Require Import Payload Http WebhookService.

(** ** channel.go *)

Definition citizenChannelPrefix : string := "notif:citizen:".

Section notify.
Context `{UuidText} `{Postgres} `{Gobreaker} `{Unicode}.

Definition CitizenChannel (citizenID : uuid) : string :=
  citizenChannelPrefix +:+ uuid_String citizenID.

Definition ParseCitizenChannel (channel : string) : option uuid :=
  if negb (HasPrefix channel citizenChannelPrefix) then None
  else uuid_Parse (TrimPrefix channel citizenChannelPrefix).

(** ** worker.go *)

Record Worker := NewWorker {
  wk_Push : option PushHTTPClient;
  wk_BatchSize : Z;
  wk_PollInterval : duration;
  wk_MaxAttempts : Z;
  wk_BackoffBase : duration
}.

(** The defaults [Run] fills in before its loop. *)
Definition Run_defaults (w : Worker) : Worker :=
  NewWorker (wk_Push w)
    (if wk_BatchSize w <? 1 then 1 else wk_BatchSize w)
    (if wk_PollInterval w <=? 0 then 500 * Millisecond else wk_PollInterval w)
    (if wk_MaxAttempts w <? 1 then 5 else wk_MaxAttempts w)
    (if wk_BackoffBase w <=? 0 then 200 * Millisecond else wk_BackoffBase w).

(** [uint(1) << uint(shift)]: a negative shift count is a huge one. *)
Definition shl_one (shift : Z) : Z := if (0 <=? shift) && (shift <? 64) then 2 ^ shift else 0.

Definition nextBackoff (w : Worker) (newAttempts : Z) : duration :=
  let shift := if 10 <? newAttempts then 10 else newAttempts in
  wrap64 (wk_BackoffBase w * shl_one shift).

Record pushJob := { pj_citizen : uuid; pj_raw : string }.

(** One turn of the batch loop: the push to send after the commit. *)
Definition process_row (w : Worker) (row : OutboxRow) : ST (result string (option pushJob)) :=
  pubErr ← Publish (CitizenChannel (or_CitizenID row)) (or_Payload row);
  match pubErr with
  | None =>
      db (MarkOutboxSent (or_ID row)) ;;?
      ok (Some {| pj_citizen := or_CitizenID row; pj_raw := or_Payload row |})
  | Some msg =>
      let newAttempts := or_Attempts row + 1 in
      let dead_ := wk_MaxAttempts w <=? newAttempts in
      now ← time_Now;
      let next := if dead_ then or_NextAttemptAt row else now + nextBackoff w newAttempts in
      db (MarkOutboxPublishFailed (or_ID row) msg next dead_) ;;?
      ok None
  end.

Fixpoint process_rows (w : Worker) (rows : list OutboxRow) : ST (result string (list pushJob)) :=
  match rows with
  | [] => ok []
  | row :: rows' =>
      job <-? process_row w row ;;
      jobs <-? process_rows w rows' ;;
      ok (match job with Some j => j :: jobs | None => jobs end)
  end.

Record wsPayload := { pl_Title : string; pl_Body : string }.

Definition set_wsPayload (f v : string) (p : wsPayload) : wsPayload :=
  if String.eqb f "title" then {| pl_Title := v; pl_Body := pl_Body p |}
  else {| pl_Title := pl_Title p; pl_Body := v |}.

Definition decode_wsPayload (raw : string) : option wsPayload :=
  match Unmarshal raw with
  | None => None
  | Some v => decode_struct ["title"; "body"] set_wsPayload false v
                {| pl_Title := ""; pl_Body := "" |}
  end.

Fixpoint send_to_tokens (p : PushHTTPClient) (pl : wsPayload) (tokens : list string) : ST unit :=
  match tokens with
  | [] => mret tt
  | t :: ts => Send (Some p) t (pl_Title pl) (pl_Body pl) ≫= λ _, send_to_tokens p pl ts
  end.

Definition sendPushNotifications (w : Worker) (citizenID : uuid) (raw : string) : ST unit :=
  match wk_Push w with
  | None => mret tt
  | Some push =>
      match decode_wsPayload raw with
      | None => mret tt
      | Some pl =>
          tokens ← ListPushTokensByCitizen citizenID;
          match tokens with
          | Err _ => mret tt
          | Ok ts => send_to_tokens push pl ts
          end
      end
  end.

Fixpoint send_jobs (w : Worker) (jobs : list pushJob) : ST unit :=
  match jobs with
  | [] => mret tt
  | j :: js => sendPushNotifications w (pj_citizen j) (pj_raw j) ≫= λ _, send_jobs w js
  end.

(** Between [Begin] and [Commit]: the pushes the commit releases. *)
Definition batch_tx (w : Worker) : ST (result string (list pushJob)) :=
  db Begin ;;?
  rows <-? db (SelectPendingOutboxForUpdate (wk_BatchSize w)) ;;
  jobs <-? process_rows w rows ;;
  db Commit ;;?
  ok jobs.

Definition processBatch (w : Worker) : ST (result string unit) :=
  defer_rollback
    (jobs <-? batch_tx w ;;
     r ← send_jobs w jobs;
     ok r).

(** The first [ticks] ticks of [Run]; a batch's error is logged. *)
Fixpoint run_ticks (w : Worker) (ticks : nat) : ST unit :=
  match ticks with
  | O => mret tt
  | S n => processBatch w ≫= λ _, run_ticks w n
  end.

Definition Run (w : Worker) (ticks : nat) : ST unit := run_ticks (Run_defaults w) ticks.

(** ** subscriber.go *)

(** What the subscription's channel yields; [None] is a nil message. *)
Inductive sub_event :=
| CtxDone
| ChannelClosed
| Received (msg : option (string * string)).

(** The message's dispatch, when it has one. *)
Definition dispatch_of (msg : option (string * string)) : option (uuid * string) :=
  match msg with
  | None => None
  | Some (channel, payload) =>
      if String.eqb channel "" || EqualFold channel "subscribe" then None
      else match ParseCitizenChannel channel with
           | None => None
           | Some cid => Some (cid, payload)
           end
  end.

(** How [runOnce] ends, with the hub: on cancellation, when the channel is
    closed, by a panic of [Dispatch], or not yet. *)
Inductive run_outcome := Cancelled | ClosedChannel | Panicked | Waiting.

#[export] Instance run_outcome_eq_dec : EqDecision run_outcome.
Proof. solve_decision. Defined.

Fixpoint runOnce (events : list sub_event) (h : Hub) : Hub * run_outcome :=
  match events with
  | [] => (h, Waiting)
  | CtxDone :: _ => (h, Cancelled)
  | ChannelClosed :: _ => (h, ClosedChannel)
  | Received msg :: rest =>
      match dispatch_of msg with
      | None => runOnce rest h
      | Some (cid, payload) =>
          match Dispatch cid payload h with
          | Some h' => runOnce rest h'
          | None => (h, Panicked)
          end
      end
  end.

(** Does [runOnce] return an error?  Only [ctx.Err()] is one. *)
Definition runOnce_failed (o : run_outcome) : bool :=
  match o with Cancelled => true | _ => false end.

Definition sub_initial_backoff : duration := 200 * Millisecond.

(** The backoff after the sleep that follows a failed turn. *)
Definition next_sub_backoff (backoff : duration) : duration :=
  if backoff <? 30 * Second then wrap64 (backoff * 2) else backoff.

(** One turn of [Run]'s loop: is the context cancelled before it, what the
    subscription yields, is the context cancelled when [runOnce] is back (it
    is when [CtxDone] was seen), does the cancellation cut the sleep short. *)
Record sub_turn := {
  tn_before : bool;
  tn_events : list sub_event;
  tn_after : bool;
  tn_in_sleep : bool
}.

Inductive sub_state := SubRunning | SubReturned | SubPanicked.

(** [Subscriber.Run] over the turns so far: the hub, the delays slept. *)
Fixpoint sub_Run (backoff : duration) (turns : list sub_turn) (h : Hub)
  : Hub * list duration * sub_state :=
  match turns with
  | [] => (h, [], SubRunning)
  | t :: ts =>
      if tn_before t then (h, [], SubReturned)
      else
        let '(h, o) := runOnce (tn_events t) h in
        match o with
        | Waiting => (h, [], SubRunning)
        | Panicked => (h, [], SubPanicked)
        | Cancelled | ClosedChannel =>
            if tn_after t || bool_decide (o = Cancelled) then (h, [], SubReturned)
            else if runOnce_failed o then
              if tn_in_sleep t then (h, [backoff], SubReturned)
              else let '(h, ds, st) := sub_Run (next_sub_backoff backoff) ts h in
                   (h, backoff :: ds, st)
            else sub_Run sub_initial_backoff ts h
        end
  end.
End notify.
