(* ===== verification/Upstream.v ===== *)
(** * internal/upstream: stub peers for local development *)

From S2P Require Import Prelude Json Payload Http.

Definition failQuery (rq : request) : bool := String.eqb (rq_query rq "fail") "1".

Definition failSimulate (rq : request) : bool :=
  failQuery rq || String.eqb (rq_header rq "X-Simulate-Fail") "1".

(** [fixtures/mapas_health.json], embedded in the binary. *)
Definition mapasHealthBody : string :=
  "{" +:+ q "ok" +:+ ":true," +:+ q "service" +:+ ":" +:+ q "mapas-stub" +:+ "}
".

Definition upstream_handleChamadosSummary (rq : request) : response :=
  if failQuery rq then c_error StatusInternalServerError "simulated_upstream_failure"
  else c_JSON StatusOK
         [("chamado_id", JStr (rq_param rq "chamado_id"));
          ("origem", JStr "internal/upstream");
          ("resumo", JStr "resumo stub servido pelo processo local")].

Definition upstream_handleCitizenRead (rq : request) : response :=
  if failSimulate rq then c_error StatusInternalServerError "simulated_callback_failure"
  else c_JSON StatusOK [("ok", JBool true)].

Definition upstream_handleMapasHealth (rq : request) : response :=
  if failQuery rq then c_error StatusServiceUnavailable "simulated_mapas_down"
  else Response StatusOK (RawBody "application/json" mapasHealthBody).

(** Distinct keys of the decoded object; anything else leaves the map nil. *)
Definition received_fields (body : string) : Z :=
  match decode_first body with
  | Some (JObj ms, _) => Z.of_nat (length (remove_dups ms.*1))
  | _ => 0
  end.

Definition upstream_handlePushDispatch (contentLength : Z) (rq : request) : response :=
  if failSimulate rq then c_error StatusBadGateway "simulated_push_failure"
  else c_JSON StatusOK
         [("ok", JBool true);
          ("received_fields",
           JInt (if 0 <? contentLength then received_fields (delivered (rq_body rq)) else 0))].

(** Method, pattern and handler of each mounted route. *)
Definition upstream_Register (enabled : bool) (contentLength : Z)
  : list (string * string * (request → response)) :=
  if negb enabled then []
  else
    [("GET", "/_upstream" +:+ "/v1/chamados/:chamado_id/summary", upstream_handleChamadosSummary);
     ("POST", "/_upstream" +:+ "/callbacks/citizen-read", upstream_handleCitizenRead);
     ("GET", "/_upstream" +:+ "/mapas" +:+ "/health", upstream_handleMapasHealth);
     ("POST", "/_upstream" +:+ "/v1/push/dispatch", upstream_handlePushDispatch contentLength)].
