(* ===== verification/Migrate.v ===== *)
(** * internal/migrate and cmd/migrate: schema migrations

    The URL rewriting, the three operations and the command line around
    golang-migrate, which is an interface: opening a migrator for a URL and
    running it, on a database that it may change. *)

From S2P Require Import Prelude GoStrings Json Url.

(** ** github.com/golang-migrate/migrate *)

Inductive migrate_error :=
| ErrNoChange
| ErrNilVersion
| MigrateError (msg : string).

Class Migrator := {
  migrator : Type;
  (** the database: its schema, and the version the tool keeps in it *)
  store : Type;
  (** [NewWithSourceInstance] on the embedded files *)
  migrate_New : string → store → result string migrator;
  migrate_Up : migrator → store → store * option migrate_error;
  migrate_Steps : migrator → Z → store → store * option migrate_error;
  migrate_Version : migrator → store → result migrate_error (Z * bool)
}.

Section migrate.
Context `{Unicode} `{Migrator}.

(** ** internal/migrate/migrate.go *)

Definition toPgx5URL (dsn : string) : result string string :=
  match url_Parse dsn with
  | Err e => Err ("parse database url: " +:+ e)
  | Ok u =>
      let scheme := unchars (u_Scheme u) in
      if String.eqb scheme "postgres" || String.eqb scheme "postgresql"
      then Ok (url_String (with_Scheme (chars "pgx5") u))
      else if String.eqb scheme "pgx5" then Ok (url_String u)
      else Err ("unsupported database url scheme " +:+ Quote (u_Scheme u)
                +:+ " (use postgres:// or pgx5://)")
  end.

(** [fs]: opening the embedded files, whose error is wrapped. *)
Definition newMigrate (fs : option string) (databaseURL : string) (st : store)
  : result string migrator :=
  match toPgx5URL databaseURL with
  | Err e => Err e
  | Ok dbURL =>
      match fs with
      | Some e => Err ("iofs: " +:+ e)
      | None => migrate_New dbURL st
      end
  end.

(** [ErrNoChange] is success. *)
Definition settle (e : option migrate_error) : option migrate_error :=
  match e with Some ErrNoChange => None | _ => e end.

Definition Up (fs : option string) (databaseURL : string) (st : store)
  : store * option migrate_error :=
  match newMigrate fs databaseURL st with
  | Err e => (st, Some (MigrateError e))
  | Ok m => let '(st', e) := migrate_Up m st in (st', settle e)
  end.

Definition Down (fs : option string) (databaseURL : string) (steps : Z) (st : store)
  : store * option migrate_error :=
  if steps <? 1 then (st, Some (MigrateError "steps must be >= 1"))
  else match newMigrate fs databaseURL st with
       | Err e => (st, Some (MigrateError e))
       | Ok m => let '(st', e) := migrate_Steps m (- steps) st in (st', settle e)
       end.

Definition Version (fs : option string) (databaseURL : string) (st : store)
  : result migrate_error (Z * bool) :=
  match newMigrate fs databaseURL st with
  | Err e => Err (MigrateError e)
  | Ok m => migrate_Version m st
  end.

(** ** cmd/migrate/main.go *)

Record migrate_flags := {
  fl_database : string;
  fl_up : bool;
  fl_down : Z;
  fl_version : bool
}.

(** How the command ends: a fatal message, silence, or a printed version. *)
Inductive command_result :=
| Fatal (stage : string)
| Silent
| PrintedVersion (version : Z) (dirty : bool).

(** [configURL]: [config.Load().DatabaseURL]. *)
Definition migrate_main (fs : option string) (configURL : string) (f : migrate_flags) (st : store)
  : store * command_result :=
  let url := if String.eqb (fl_database f) "" then configURL else fl_database f in
  if String.eqb url "" then (st, Fatal "database")
  else if fl_version f then
    (st, match Version fs url st with
         | Err ErrNilVersion => PrintedVersion 0 false
         | Err _ => Fatal "version"
         | Ok (v, dirty) => PrintedVersion v dirty
         end)
  else if fl_up f then
    let '(st', e) := Up fs url st in
    (st', match e with Some _ => Fatal "up" | None => Silent end)
  else if 0 <? fl_down f then
    let '(st', e) := Down fs url (fl_down f) st in
    (st', match e with Some _ => Fatal "down" | None => Silent end)
  else (st, Fatal "usage").
End migrate.
