(* ===== verification/Server.v ===== *)
(** * The server: routing, readiness, WebSocket handshake, start and stop

    [internal/httpapi/router.go] and [ws.go], [internal/telemetry],
    [internal/db], [internal/rdb] and [cmd/server/main.go]. *)

From S2P Require Import Prelude GoStrings GoTime Json Uuid World Repo Http Integrations.
From S2P Require Import WebhookService Auth HttpApi WsBus Notify Config Upstream Migrate.

(** What a route does with a request: answer it, or hand the connection over
    to a WebSocket client. *)
Inductive reply :=
| Reply (r : response)
| Upgrade (citizenID : uuid) (params : client_params).

Definition endpoint : Type := request → ST reply.

Definition answers (f : request → ST response) : endpoint :=
  λ rq, r ← f rq; mret (Reply r).

Definition answer_pure (f : request → response) : endpoint := λ rq, mret (Reply (f rq)).

(** [github.com/gin-gonic/gin]: where a router with these routes mounted takes
    a request: to one of them, with the values of its parameters, to the path
    with or without a trailing slash, or nowhere. *)
Inductive routing :=
| Routed (i : nat) (params : string → string)
| Redirected (r : response)
| Unrouted.

Class Gin := { gin_route : list (string * string) → string → string → routing }.

Definition with_params (params : string → string) (rq : request) : request :=
  Request (rq_header rq) (rq_query rq) params (rq_body rq).

(** ** Health checks of the pool and of Redis *)

Definition ping_outcome (f : fault) : option string :=
  match f with Fine => None | Failed m | Lost m => Some m end.

Definition pool_Ping : ST (option string) := λ w, let '(w', f) := next_fault w in (w', ping_outcome f).

Definition redis_Ping : ST (option string) :=
  λ w, match w_redis w with
       | [] => (w, None)
       | f :: fs => (with_redis fs w, ping_outcome f)
       end.

(** ** router.go *)

Record Deps := {
  dp_Pool : bool;                       (** is the pool set? *)
  dp_Redis : bool;
  dp_Webhook : option Service;
  dp_AuthJWT : option AuthConfig;       (** the middleware's parameters *)
  dp_Hub : bool;
  dp_JWTSecret : string;
  dp_CPFPepper : string;
  dp_JWTIssuer : string;
  dp_JWTAudience : string;
  dp_WSWriteTimeout : duration;
  dp_WSPingInterval : duration;
  dp_WSPongWait : duration;
  dp_WSReadLimit : Z;
  dp_Chamados : option ChamadosClient;
  dp_Mapas : option MapasClient
}.

Section server.
Context `{UuidText} `{Postgres} `{Jwt} `{Gobreaker} `{Unicode}.

Definition stub501 : request → response :=
  λ _, c_JSON StatusNotImplemented
         [("message", JStr "not implemented"); ("status", JStr "phase_1_stub")].

Definition not_ready (k v : string) : response :=
  c_JSON StatusServiceUnavailable [("status", JStr "unavailable"); (k, JStr v)].

Definition readyHandler (deps : option Deps) : request → ST response :=
  λ _,
    match deps with
    | None => mret (not_ready "reason" "missing dependencies")
    | Some d =>
        if negb (dp_Pool d) || negb (dp_Redis d)
        then mret (not_ready "reason" "missing dependencies")
        else
          e ← pool_Ping;
          match e with
          | Some m => mret (not_ready "db" m)
          | None =>
              e ← redis_Ping;
              match e with
              | Some m => mret (not_ready "redis" m)
              | None => mret (c_JSON StatusOK [("status", JStr "ready")])
              end
          end
    end.

(** ** ws.go *)

Definition ws_auth (d : Deps) : AuthConfig :=
  {| au_jwtSecret := dp_JWTSecret d; au_cpfPepper := dp_CPFPepper d;
     au_wantIssuer := dp_JWTIssuer d; au_wantAudience := dp_JWTAudience d |}.

Definition ws_ready (d : Deps) : bool :=
  dp_Pool d && dp_Hub d && negb (String.eqb (dp_JWTSecret d) "")
  && negb (String.eqb (dp_CPFPepper d) "").

(** Up to the upgrade; a failed upgrade is answered by the library. *)
Definition handleWS (deps : option Deps) : endpoint :=
  λ rq,
    match deps with
    | None => mret (Reply (c_error StatusServiceUnavailable "unavailable"))
    | Some d =>
        if negb (ws_ready d) then mret (Reply (c_error StatusServiceUnavailable "unavailable"))
        else
          match BearerFromRequest rq with
          | None => mret (Reply unauthorized)
          | Some raw =>
              r ← ResolveCitizenFromToken (ws_auth d) raw;
              match r with
              | Err ErrUnauthorized => mret (Reply unauthorized)
              | Err (AuthDbError _) => mret (Reply internal_error)
              | Ok None => mret (Reply unauthorized)
              | Ok (Some id) =>
                  mret (Upgrade id (NewClient_params (dp_WSWriteTimeout d) (dp_WSPingInterval d)
                                      (dp_WSPongWait d) (dp_WSReadLimit d)))
              end
          end
    end.

(** ** Routes *)

Abbreviation route := (string * string * endpoint)%type.

(** The routes behind [grp.Use(auth, touch)]. *)
Definition citizen_routes (d : Deps) (auth : AuthConfig) : list route :=
  let guarded (h : handler) : endpoint := answers (authenticated auth h) in
  [("GET", "/notifications/unread-count", guarded handleUnreadCount);
   ("PATCH", "/notifications/read-all", guarded (handleMarkAllRead (dp_Chamados d)));
   ("GET", "/notifications/:id", guarded handleGetNotification);
   ("GET", "/notifications", guarded handleListNotifications);
   ("PATCH", "/notifications/:id/read", guarded (handleMarkRead (dp_Chamados d)));
   ("GET", "/citizens/me", guarded handleCitizenMe);
   ("POST", "/devices", guarded (handleRegisterDevice));
   ("DELETE", "/devices", guarded handleDeleteDevice);
   ("GET", "/chamados/:chamado_id/summary", guarded (handleChamadosSummary (dp_Chamados d)));
   ("GET", "/mapas/status", guarded (handleMapasStatus (dp_Mapas d)))].

Definition stub_routes : list route :=
  [("GET", "/notifications", answer_pure stub501);
   ("PATCH", "/notifications/:id/read", answer_pure stub501);
   ("GET", "/notifications/unread-count", answer_pure stub501);
   ("PATCH", "/notifications/read-all", answer_pure stub501);
   ("GET", "/notifications/:id", answer_pure stub501);
   ("GET", "/citizens/me", answer_pure stub501);
   ("POST", "/devices", answer_pure stub501);
   ("DELETE", "/devices", answer_pure stub501);
   ("GET", "/chamados/:chamado_id/summary", answer_pure stub501);
   ("GET", "/mapas/status", answer_pure stub501)].

Definition webhook_endpoint (deps : option Deps) : endpoint :=
  match deps with
  | Some d => match dp_Webhook d with
              | Some s => answers (HandlePOST s)
              | None => answer_pure stub501
              end
  | None => answer_pure stub501
  end.

Definition api_routes (deps : option Deps) : list route :=
  match deps with
  | Some d =>
      match dp_Pool d, dp_AuthJWT d with
      | true, Some auth => citizen_routes d auth
      | _, _ => stub_routes
      end
  | None => stub_routes
  end.

Definition httpapi_Register (deps : option Deps) : list route :=
  [("GET", "/health", answer_pure (λ _, c_JSON StatusOK [("status", JStr "ok")]));
   ("GET", "/ready", answers (readyHandler deps));
   ("POST", "/webhook", webhook_endpoint deps)]
  ++ api_routes deps
  ++ [("GET", "/ws", handleWS deps)].

(** Everything [main] mounts on its router: the local stubs, when enabled,
    then the API. *)
Definition server_routes (stubs : bool) (contentLength : Z) (deps : Deps) : list route :=
  ((λ r, (r.1.1, r.1.2, answer_pure r.2)) <$> upstream_Register stubs contentLength)
  ++ httpapi_Register (Some deps).

(** [router.NoRoute] *)
Definition no_route : endpoint := answer_pure (λ _, c_error StatusNotFound "not_found").

Definition router_serve `{Gin} (routes : list route) (method path : string) : endpoint :=
  match gin_route routes.*1 method path with
  | Routed i params =>
      match routes !! i with
      | Some r => λ rq, r.2 (with_params params rq)
      | None => no_route
      end
  | Redirected r => answer_pure (λ _, r)
  | Unrouted => no_route
  end.

Definition server_serve `{Gin} (stubs : bool) (contentLength : Z) (deps : Deps)
    (method path : string) : endpoint :=
  router_serve (server_routes stubs contentLength deps) method path.
End server.

(** ** internal/telemetry *)

Definition default_service_name : string := "desafio-backend".

Inductive propagator := TraceContext | Baggage.

(** The tracer provider and the propagators that were made the process's. *)
Record tracing := { tr_service : string; tr_propagators : list propagator }.

(** [None]: the defaults, which do nothing, stay. *)
Definition telemetry_Init (serviceName tracesExporter : string) (res_err exp_err : option string)
  : result string (option tracing) :=
  if EqualFold (TrimSpace tracesExporter) "none" then Ok None
  else
    let serviceName := if String.eqb serviceName "" then default_service_name else serviceName in
    match res_err, exp_err with
    | Some e, _ | None, Some e => Err e
    | None, None => Ok (Some {| tr_service := serviceName; tr_propagators := [TraceContext; Baggage] |})
    end.

(** ** internal/db and internal/rdb *)

Record pool_config := { pc_url : string; pc_MaxConns : Z; pc_ConnectTimeout : duration }.

(** Parsing, opening and the first ping, each with its error if any. *)
Definition db_Connect (parse_err new_err ping_err : option string) (databaseURL : string)
  : result string pool_config :=
  match parse_err, new_err, ping_err with
  | Some e, _, _ => Err ("parse database url: " +:+ e)
  | None, Some e, _ | None, None, Some e => Err e
  | None, None, None =>
      Ok {| pc_url := databaseURL; pc_MaxConns := 8; pc_ConnectTimeout := 5 * Second |}
  end.

Definition rdb_Connect (ping_err : option string) (addr : string) : result string string :=
  match ping_err with
  | Some e => Err ("redis ping: " +:+ e)
  | None => Ok addr
  end.

(** ** cmd/server/main.go *)

(** What the outside answers during start-up, in order. *)
Record startup_env := {
  en_resource : option string;   (** telemetry resource *)
  en_exporter : option string;
  en_iofs : option string;       (** opening the embedded migrations *)
  en_db_parse : option string;
  en_db_new : option string;
  en_db_ping : option string;
  en_redis_ping : option string
}.

Record app := {
  ap_worker : Worker;
  ap_deps : Deps;
  ap_stubs : bool;
  ap_pool : pool_config;
  ap_redis : string;
  ap_telemetry : option tracing
}.

Definition main_mapas (cfg : Config) : option MapasClient :=
  if String.eqb (TrimSpace (MapasAPIBaseURL cfg)) "" then None
  else NewMapasClient (MapasAPIBaseURL cfg) (HTTPClientTimeout cfg).

Definition main_worker (cfg : Config) : Worker :=
  {| wk_Push := NewPushHTTPClient (PushWebhookURL cfg) (HTTPClientTimeout cfg);
     wk_BatchSize := OutboxBatchSize cfg; wk_PollInterval := OutboxPollInterval cfg;
     wk_MaxAttempts := OutboxMaxAttempts cfg; wk_BackoffBase := OutboxBackoffBase cfg |}.

Definition main_deps (cfg : Config) : Deps :=
  {| dp_Pool := true; dp_Redis := true;
     dp_Webhook := Some (NewService (WebhookSecret cfg) (CPFPepper cfg));
     dp_AuthJWT := Some {| au_jwtSecret := JWTSecret cfg; au_cpfPepper := CPFPepper cfg;
                           au_wantIssuer := JWTIssuer cfg; au_wantAudience := JWTAudience cfg |};
     dp_Hub := true; dp_JWTSecret := JWTSecret cfg; dp_CPFPepper := CPFPepper cfg;
     dp_JWTIssuer := JWTIssuer cfg; dp_JWTAudience := JWTAudience cfg;
     dp_WSWriteTimeout := WSWriteTimeout cfg; dp_WSPingInterval := WSPingInterval cfg;
     dp_WSPongWait := WSPongWait cfg; dp_WSReadLimit := WSReadLimit cfg;
     dp_Chamados := NewChamadosClient (ChamadosAPIBaseURL cfg) (HTTPClientTimeout cfg);
     dp_Mapas := main_mapas cfg |}.

Section main.
Context `{Unicode} `{Migrator}.

Definition migrate_error_text (e : migrate_error) : string :=
  match e with
  | ErrNoChange => "no change"
  | ErrNilVersion => "no migration"
  | MigrateError m => m
  end.

(** [Err] is [log.Fatal]'s message; the database has been migrated or not. *)
Definition main (cfg : Config) (env : startup_env) (st : store) : store * result string app :=
  if String.eqb (WebhookSecret cfg) "" || String.eqb (CPFPepper cfg) ""
  then (st, Err "WEBHOOK_SECRET and CPF_PEPPER must be set (see .env.example)")
  else if String.eqb (JWTSecret cfg) ""
  then (st, Err "JWT_SECRET must be set (see .env.example)")
  else
    match telemetry_Init (OTELServiceName cfg) (OTELTracesExporter cfg)
            (en_resource env) (en_exporter env) with
    | Err e => (st, Err ("telemetry: " +:+ e))
    | Ok tele =>
        let '(st, up) := Up (en_iofs env) (DatabaseURL cfg) st in
        (st,
         match up with
         | Some e => Err ("migrations: " +:+ migrate_error_text e)
         | None =>
             match db_Connect (en_db_parse env) (en_db_new env) (en_db_ping env)
                     (DatabaseURL cfg) with
             | Err e => Err ("database: " +:+ e)
             | Ok pool =>
                 match rdb_Connect (en_redis_ping env) (RedisAddr cfg) with
                 | Err e => Err ("redis: " +:+ e)
                 | Ok redis =>
                     Ok {| ap_worker := main_worker cfg; ap_deps := main_deps cfg;
                           ap_stubs := InternalUpstreamStubs cfg; ap_pool := pool;
                           ap_redis := redis; ap_telemetry := tele |}
                 end
             end
         end)
    end.
End main.

(** ** waitShutdown *)

Inductive shutdown_step := CancelRoot | CloseHub | ServerShutdown (timeout : duration).

Definition waitShutdown (has_cancel has_hub : bool) : list shutdown_step :=
  (if has_cancel then [CancelRoot] else []) ++ (if has_hub then [CloseHub] else [])
  ++ [ServerShutdown (10 * Second)].
