(* ===== verification/IntegrationsProps.v ===== *)
(** * What the HTTP clients guarantee

    A breaker that refuses lets no request out; failures of the peer are counted and passed
    on as the code documents. *)

From S2P Require Import Prelude GoStrings GoTime Json Url World RepoFacts Integrations.

(** ** The breaker *)

Section execute.
Context `{Gobreaker}.

(** A lens on the world: storing a history keeps everything else. *)
Record lawful (b : breaker) : Prop := {
  br_get_set h w : br_history b (br_update b h w) = h;
  br_get_reads n w : br_history b (with_reads n w) = br_history b w;
  br_reads h w : w_reads (br_update b h w) = w_reads w;
  br_clock h w : w_clock (br_update b h w) = w_clock w;
  br_effects h w : w_effects (br_update b h w) = w_effects w;
  br_db h w : w_db (br_update b h w) = w_db w;
  br_tx h w : w_tx (br_update b h w) = w_tx w;
  br_http h w : w_http (br_update b h w) = w_http w
}.

Lemma chamados_lawful : lawful chamados_breaker.
Proof. by split. Qed.
Lemma mapas_lawful : lawful mapas_breaker.
Proof. by split. Qed.
Lemma push_lawful : lawful push_breaker.
Proof. by split. Qed.

Definition reading (w : world) : time := w_clock w (w_reads w).

(** Does the breaker refuse a call started now? *)
Definition refusal (b : breaker) (w : world) : option breaker_error :=
  breaker_refuses (br_settings b) (br_history b w) (reading w).

(** Nothing but a clock reading and the breaker's history changed. *)
Definition only_recorded (b : breaker) (w w' : world) (events : list breaker_event) : Prop :=
  w_effects w' = w_effects w ∧ w_http w' = w_http w ∧ w_db w' = w_db w ∧ w_tx w' = w_tx w
  ∧ br_history b w' = br_history b w ++ events.

Lemma Execute_refused {A} b (a0 : A) f w e :
  lawful b → refusal b w = Some e →
  ∃ w', Execute b a0 f w = (w', (a0, Some (BreakerError e)))
        ∧ only_recorded b w w' [Refused (reading w)].
Proof.
  intros Hb He. unfold Execute, time_Now, br_record, mbind, ST_bind, mret, ST_ret.
  rewrite (br_get_reads _ Hb). unfold refusal, reading in He. rewrite He.
  eexists. split; [reflexivity|]. unfold only_recorded.
  by rewrite (br_effects _ Hb), (br_http _ Hb), (br_db _ Hb), (br_tx _ Hb), (br_get_set _ Hb),
    (br_get_reads _ Hb).
Qed.

(** An admitted call runs once, between its two records. *)
Lemma Execute_admitted {A} b (a0 : A) f w :
  lawful b → refusal b w = None →
  ∃ w1, only_recorded b w w1 [LetThrough (reading w)]
    ∧ ∀ w2 r, f w1 = (w2, r) →
        ∃ w', Execute b a0 f w = (w', (r.1, CallError <$> r.2))
          ∧ only_recorded b w2 w'
              [Finished (reading w2) (match r.2 with None => true | Some _ => false end)].
Proof.
  intros Hb He. unfold Execute, time_Now, br_record, mbind, ST_bind, mret, ST_ret.
  rewrite (br_get_reads _ Hb). unfold refusal, reading in *. rewrite He.
  exists (br_update b (br_history b w ++ [LetThrough (w_clock w (w_reads w))])
            (with_reads (S (w_reads w)) w)). split.
  - unfold only_recorded.
    by rewrite (br_effects _ Hb), (br_http _ Hb), (br_db _ Hb), (br_tx _ Hb), (br_get_set _ Hb).
  - intros w2 r Hf. rewrite (br_get_reads _ Hb), Hf. eexists. split; [reflexivity|].
    unfold only_recorded.
    by rewrite (br_effects _ Hb), (br_http _ Hb), (br_db _ Hb), (br_tx _ Hb), (br_get_set _ Hb),
      !(br_get_reads _ Hb).
Qed.
End execute.

(** ** Requests *)

Section peers.
Context `{Gobreaker} `{Unicode}.

(** What the peer answers to the next request. *)
Definition peer_outcome (w : world) (method u : string) : http_outcome :=
  match request_error method u with
  | Some e => HttpError e
  | None => default (HttpError "connection refused") (head (w_http w))
  end.

(** The request that leaves, if it can be built and sent. *)
Definition sent_request (method u body : string) : list effect :=
  match request_error method u with Some _ => [] | None => [HttpRequest method u body] end.

Lemma send_request_spec m u body w :
  ∃ w', send_request m u body w = (w', peer_outcome w m u)
    ∧ w_effects w' = w_effects w ++ sent_request m u body
    ∧ w_db w' = w_db w ∧ w_tx w' = w_tx w ∧ w_clock w' = w_clock w ∧ w_reads w' = w_reads w
    ∧ w_chamados w' = w_chamados w ∧ w_mapas w' = w_mapas w ∧ w_push w' = w_push w.
Proof.
  unfold send_request, peer_outcome, sent_request, mret, ST_ret.
  destruct (request_error m u) as [e|].
  - exists w. rewrite app_nil_r. done.
  - unfold http_Do. simpl. destruct (w_http w) as [|o os]; eauto 10.
Qed.

Lemma inert_send_request m u body : inert (send_request m u body).
Proof.
  intros w w' o Hs. destruct (send_request_spec m u body w) as (w1 & E & _ & Hd & Ht & _).
  rewrite E in Hs. by injection Hs as <- <-.
Qed.

Lemma inert_Execute {A} b (a0 : A) f : lawful b → inert f → inert (Execute b a0 f).
Proof.
  intros Hb Hf w w' r. destruct (refusal b w) as [e|] eqn:He.
  - destruct (Execute_refused b a0 f w e Hb He) as (w1 & -> & _ & _ & Hd & Ht & _).
    by intros [= <- _].
  - destruct (Execute_admitted b a0 f w Hb He) as (w1 & (_ & _ & Hd & Ht & _) & Hk).
    destruct (f w1) as [w2 r2] eqn:E. pose proof (Hf _ _ _ E) as [Hd2 Ht2].
    destruct (Hk _ _ eq_refl) as (w3 & -> & _ & _ & Hd3 & Ht3 & _). intros [= <- _].
    split; congruence.
Qed.

(** The outcome of a peer's answer: what the caller gets, and whether the
    breaker counts a success. *)
Definition summary_result (o : http_outcome) : (string * Z) * option call_error * bool :=
  match o with
  | HttpError m => (("", 0), Some (CallError m), false)
  | HttpResponse status body rerr =>
      if 500 <=? status
      then ((body, status), Some (CallError (http_status_error "chamados" status)), false)
      else ((body, status), CallError <$> rerr,
            match rerr with None => true | Some _ => false end)
  end.

(** Asking for a summary goes through the breaker.  Refused: no request
    leaves, and the answer is 503 with [ErrOpenState] (or the half-open
    error, status 0).  Let through: exactly one GET of the summary URL leaves;
    a transport error, a status of 500 or more, or an unreadable body is an
    error and counted as a failure; any other answer is passed through and
    counted as a success. *)
Lemma GetSummary_spec c id w w' body status err
  (Hbase : cc_base c ≠ "")
  (Hrun : GetSummary (Some c) id w = (w', ((body, status), err))) :
  match refusal chamados_breaker w with
  | Some e =>
      only_recorded chamados_breaker w w' [Refused (reading w)]
      ∧ body = "" ∧ err = Some (BreakerError e)
      ∧ status = match e with ErrOpenState => 503 | ErrTooManyRequests => 0 end
  | None =>
      let u := summary_url c id in
      ∃ finished,
        w_effects w' = w_effects w ++ sent_request "GET" u ""
        ∧ w_db w' = w_db w
        ∧ ((body, status), err) = (summary_result (peer_outcome w "GET" u)).1
        ∧ w_chamados w' = w_chamados w
             ++ [LetThrough (reading w); Finished finished (summary_result (peer_outcome w "GET" u)).2]
  end.
Proof.
  unfold GetSummary in Hrun. destruct (String.eqb_spec (cc_base c) "") as [?|_]; [done|].
  apply bind_inv in Hrun as (w3 & r & Hx & Hr).
  destruct (refusal chamados_breaker w) as [e|] eqn:He.
  - destruct (Execute_refused chamados_breaker no_summary
      (summary_call (summary_url c id)) w e chamados_lawful He) as (w1 & Hx' & Hrec).
    rewrite Hx in Hx'. injection Hx' as <- ->. by destruct e; injection Hr as <- <- <- <-.
  - destruct (Execute_admitted chamados_breaker no_summary
      (summary_call (summary_url c id)) w chamados_lawful He)
      as (w1 & (Heff & Hhttp & Hdb & _ & Hhist) & Hk).
    destruct (send_request_spec "GET" (summary_url c id) "" w1)
      as (w2 & Hs & Heff2 & Hdb2 & _ & _ & _ & Hch & _).
    assert (peer_outcome w1 "GET" (summary_url c id) = peer_outcome w "GET" (summary_url c id)) as Hpo.
    { unfold peer_outcome. by rewrite Hhttp. }
    rewrite Hpo in Hs. edestruct Hk as (w4 & Hx' & Heff4 & _ & Hdb4 & _ & Hhist4).
    { unfold summary_call, mbind, ST_bind. rewrite Hs. reflexivity. }
    rewrite Hx in Hx'. injection Hx' as <- ->. simpl in Hhist, Hhist4.
    exists (reading w2). unfold summary_result.
    destruct (peer_outcome w _ _) as [m|st b rerr]; simpl in *.
    + injection Hr as <- <- <- <-. rewrite Heff4, Heff2, Heff, Hdb4, Hdb2, Hdb.
      rewrite Hhist4, Hch, Hhist, <-app_assoc. done.
    + destruct (500 <=? st); [|destruct rerr]; simpl in *; injection Hr as <- <- <- <-;
      rewrite Heff4, Heff2, Heff, Hdb4, Hdb2, Hdb, Hhist4, Hch, Hhist, <-app_assoc; done.
Qed.
End peers.
