(* ===== verification/HttpFacts.v ===== *)
(** * Lemmas about the REST handlers

    Privacy and effect of each repository call a handler makes, and the runs
    of the handlers without failures. *)

From S2P Require Import Prelude GoStrings GoTime Json Uuid World Repo RepoFacts RepoSound CitizenFacts.
From S2P Require Import Payload Http Integrations IntegrationsProps Auth HttpApi.

(** ** Private operations *)

Section private.
Context `{PostgresOk}.
Variable cid : uuid.

(** [QueryRow] whose [ErrNoRows] is a result. *)
Lemma private_catch {A B} (m : ST (result db_error A)) (k : result db_error A → ST B) :
  private cid m → (∀ r, db_free (k r)) → private cid (m ≫= k).
Proof. intros Hm Hk. apply private_bind; [done|]. intros r. by apply db_free_private. Qed.

Lemma list_page_same l o d1 d2 :
  same_for cid d1 d2 → list_page cid l o d1 = list_page cid l o d2.
Proof.
  intros Hs. unfold list_page. fold (sorted_rows cid d1) (sorted_rows cid d2).
  by rewrite (sorted_rows_same _ _ _ Hs).
Qed.

Lemma ListNotificationsByCitizen_private l o : private cid (ListNotificationsByCitizen cid l o).
Proof.
  apply private_ebind; [apply private_sql, sql_private_read|intros total].
  - intros _ d1 d2 Hs. unfold count_rows. by rewrite (citizen_rows_same _ _ _ Hs).
  - apply private_ebind; [apply private_sql, sql_private_read|intros rows].
    + intros _ d1 d2 Hs. by apply list_page_same.
    + apply private_ret.
Qed.

Lemma CountUnreadNotifications_private : private cid (CountUnreadNotifications cid).
Proof.
  apply private_sql, sql_private_read. intros _ d1 d2 Hs. unfold count_rows.
  by rewrite (unread_rows_same _ _ _ Hs).
Qed.

(** Whether a row is there and one's own. *)
Lemma own_row_same d1 d2 nid :
  same_for cid d1 d2 →
  (∃ n, notifications d1 !! nid = Some n ∧ notifications d2 !! nid = Some n
        ∧ owned_by cid n = true)
  ∨ ((∀ n, notifications d1 !! nid = Some n → owned_by cid n = false)
     ∧ (∀ n, notifications d2 !! nid = Some n → owned_by cid n = false)).
Proof.
  intros Hs. assert (same_for cid d2 d1) as Hs' by done.
  destruct (own cid d1 !! nid) as [n|] eqn:E.
  - left. exists n. pose proof E as E2. rewrite (same_own _ _ _ Hs) in E2.
    apply own_lookup in E as [? ?], E2 as [? _]. by rewrite owned_by_true.
  - right. pose proof E as E2. rewrite (same_own _ _ _ Hs) in E2.
    split; intros n Hi; apply not_true_is_false; rewrite owned_by_true; intros Hc.
    + assert (own cid d1 !! nid = Some n) by (by apply own_lookup). congruence.
    + assert (own cid d2 !! nid = Some n) by (by apply own_lookup). congruence.
Qed.

Lemma GetNotificationByCitizen_private nid : private cid (GetNotificationByCitizen cid nid).
Proof.
  apply private_catch; [apply private_sql|intros [|[]]; apply db_free_ret].
  intros _ d1 d2 Hs. destruct (own_row_same d1 d2 nid Hs) as [(n & -> & -> & ->)|[H1 H2]]; [done|].
  destruct (notifications d1 !! nid) as [n1|]; [rewrite (H1 _ eq_refl)|];
    (destruct (notifications d2 !! nid) as [n2|]; [rewrite (H2 _ eq_refl)|]); done.
Qed.

Lemma same_for_insert d1 d2 nid n :
  same_for cid d1 d2 →
  same_for cid (set_notifications (<[nid := n]> (notifications d1)) d1)
    (set_notifications (<[nid := n]> (notifications d2)) d2).
Proof.
  intros Hs. split; [|apply (same_devices _ _ _ Hs)|apply (same_citizen _ _ _ Hs)].
  pose proof (same_own _ _ _ Hs) as Ho. unfold own in *. simpl.
  apply map_eq. intros i. destruct (decide (i = nid)) as [->|Hne].
  - destruct (decide (nt_citizen_id n = cid)) as [Hc|Hc].
    + rewrite !map_filter_insert_True by done. by rewrite !lookup_insert_eq.
    + rewrite !map_filter_insert_False by done.
      by rewrite !map_filter_delete, !lookup_delete_eq.
  - apply (f_equal (λ m, m !! i)) in Ho.
    rewrite !map_lookup_filter in *. by rewrite !lookup_insert_ne.
Qed.

Lemma MarkNotificationRead_private nid : private cid (MarkNotificationRead cid nid).
Proof.
  apply private_catch; [apply private_sql|intros [|[]]; apply db_free_ret].
  intros cx d1 d2 Hs. unfold mark_read.
  destruct (own_row_same d1 d2 nid Hs) as [(n & -> & -> & ->)|[H1 H2]].
  - destruct (unread n); [|done]. simpl. split; [done|]. by apply same_for_insert.
  - destruct (notifications d1 !! nid) as [n1|]; [rewrite (H1 _ eq_refl)|];
      (destruct (notifications d2 !! nid) as [n2|]; [rewrite (H2 _ eq_refl)|]); done.
Qed.

Lemma GetCitizenByID_private : private cid (GetCitizenByID cid).
Proof.
  apply private_catch; [apply private_sql|intros [|[]]; apply db_free_ret].
  intros _ d1 d2 Hs. rewrite (same_citizen _ _ _ Hs). by destruct (citizens d2 !! cid).
Qed.

Lemma CitizenHasNotificationForChamado_private ch :
  private cid (CitizenHasNotificationForChamado cid ch).
Proof.
  apply private_ebind; [apply private_sql|intros n; apply private_ret].
  intros _ d1 d2 Hs. unfold bad_text. destruct (negb _); [done|]. split; [|done].
  unfold count_rows. erewrite select_own; [done| |exact Hs].
  intros i n [Ho _]%andb_prop. by apply owned_by_true.
Qed.

Lemma DeletePushDevice_private token : private cid (DeletePushDevice cid token).
Proof.
  apply private_sql. intros cx d1 d2 Hs. unfold delete_device, bad_text. destruct (negb _); [done|]. split.
  - unfold count_rows. erewrite select_own_devices; [done| |exact Hs].
    intros i v Hv%has_token_true. tauto.
  - split; [apply (same_own _ _ _ Hs)| |apply (same_citizen _ _ _ Hs)].
    pose proof (same_devices _ _ _ Hs) as Hd. unfold own_devices in *. simpl.
    rewrite !(map_filter_comm _ (λ p, has_token cid token p.2 = false)). by rewrite Hd.
Qed.
End private.

(** ** Calls that do not look at the tables *)

Section db_free.
Context `{Gobreaker} `{Unicode}.

Definition lawful_db (b : breaker) : Prop :=
  (∀ d w, br_history b (with_db d w) = br_history b w)
  ∧ ∀ d h w, br_update b h (with_db d w) = with_db d (br_update b h w)
             ∧ w_db (br_update b h w) = w_db w.

Lemma db_free_record b e : lawful_db b → db_free (br_record b e).
Proof.
  intros [Hh Hu] d w. unfold br_record. simpl. rewrite Hh. destruct (Hu d (br_history b w ++ [e]) w)
    as [-> ?]. done.
Qed.

Lemma db_free_Execute {A} b (a0 : A) f : lawful_db b → db_free f → db_free (Execute b a0 f).
Proof.
  intros Hb Hf. unfold Execute. apply db_free_bind; [apply db_free_time_Now|intros now].
  apply db_free_bind; [intros d w; simpl; by rewrite (proj1 Hb)|intros h].
  destruct (breaker_refuses _ _ _); eauto using db_free_record with private.
  apply db_free_bind; [by apply db_free_record|intros _].
  apply db_free_bind; [done|intros r]. apply db_free_bind; [apply db_free_time_Now|intros t].
  apply db_free_bind; [by apply db_free_record|]. intros _. apply db_free_ret.
Qed.

Lemma db_free_send_request m u b : db_free (send_request m u b).
Proof. unfold send_request. destruct (request_error m u); eauto with private. Qed.

Lemma db_free_GetSummary c id : db_free (GetSummary c id).
Proof.
  unfold GetSummary. destruct c as [c|]; [|apply db_free_ret].
  destruct (String.eqb _ _); [apply db_free_ret|].
  apply db_free_bind; [|intros r; apply db_free_ret].
  apply db_free_Execute; [done|]. apply db_free_bind; [apply db_free_send_request|].
  intros o. apply db_free_ret.
Qed.

Lemma db_free_StatusJSON m : db_free (StatusJSON m).
Proof.
  unfold StatusJSON. destruct m as [m|]; [|apply db_free_ret].
  destruct (String.eqb _ _); [apply db_free_ret|done].
Qed.

Lemma db_free_schedule ch c r : db_free (scheduleChamadosReadNotify ch c r).
Proof.
  unfold scheduleChamadosReadNotify. destruct ch; [|apply db_free_ret].
  destruct (String.eqb _ _); eauto with private.
Qed.
End db_free.

(** ** Calls that leave the tables alone *)

Section inert.
Context `{PostgresOk} `{Gobreaker} `{Unicode}.

Lemma inert_pool_sql {A} (st : sql A) :
  (∀ cx d a d', st cx d = Ok (a, d') → d' = d) → inert (pool_sql st).
Proof.
  intros Hst w w' r (Ht & _ & Hr)%pool_sql_inv. split; [|done].
  destruct r as [a|[|m]]; [by apply Hst in Hr|tauto|].
  destruct Hr as [?|[a Hr]]; [done|by apply Hst in Hr].
Qed.

Lemma inert_ebind {E A B} (m : ST (result E A)) (k : A → ST (result E B)) :
  inert m → (∀ a, inert (k a)) → inert (ebind m k).
Proof.
  intros Hm Hk w w' b. unfold ebind. destruct (m w) as [w1 [a|e]] eqn:E1;
    apply Hm in E1 as [Hd Ht]; [intros [-> ->]%Hk; done|intros [= <- _]; done].
Qed.

Lemma ListNotificationsByCitizen_inert cid l o : inert (ListNotificationsByCitizen cid l o).
Proof.
  apply inert_ebind; [apply inert_pool_sql; by intros ???? [= _ <-]|intros total].
  apply inert_ebind; [apply inert_pool_sql; by intros ???? [= _ <-]|intros rows]. apply inert_ret.
Qed.

Lemma CountUnreadNotifications_inert cid : inert (CountUnreadNotifications cid).
Proof. apply inert_pool_sql. by intros ???? [= _ <-]. Qed.

Lemma GetNotificationByCitizen_inert cid nid : inert (GetNotificationByCitizen cid nid).
Proof.
  apply inert_bind; [|intros [|[]]; apply inert_ret]. apply inert_pool_sql.
  intros cx d a d'. repeat case_match; intros; by simplify_eq.
Qed.

Lemma GetCitizenByID_inert cid : inert (GetCitizenByID cid).
Proof.
  apply inert_bind; [|intros [|[]]; apply inert_ret]. apply inert_pool_sql.
  intros cx d a d'. repeat case_match; intros; by simplify_eq.
Qed.

Lemma CitizenHasNotificationForChamado_inert cid ch :
  inert (CitizenHasNotificationForChamado cid ch).
Proof.
  apply inert_ebind; [|intros n; apply inert_ret]. apply inert_pool_sql. unfold bad_text.
  intros cx d a d'. repeat case_match; intros; by simplify_eq.
Qed.

Lemma LookupCitizenID_inert fp : inert (LookupCitizenID fp).
Proof.
  apply inert_bind; [|intros [|[]]; apply inert_ret]. apply inert_pool_sql.
  intros cx d a d'. repeat case_match; intros; by simplify_eq.
Qed.

Lemma inert_discard_call p m u b : inert (discard_call p m u b).
Proof.
  apply inert_bind; [apply inert_send_request|]. intros o. apply inert_ret.
Qed.

Lemma GetSummary_inert c id : inert (GetSummary c id).
Proof.
  unfold GetSummary. destruct c as [c|]; [|apply inert_ret].
  destruct (String.eqb _ _); [apply inert_ret|].
  apply inert_bind; [|intros r; apply inert_ret]. apply inert_Execute; [apply chamados_lawful|].
  apply inert_bind; [apply inert_send_request|]. intros o. apply inert_ret.
Qed.

Lemma NotifyRead_inert c id r : inert (NotifyRead c id r).
Proof.
  unfold NotifyRead. destruct c as [c|]; [|apply inert_ret].
  destruct (String.eqb _ _); [apply inert_ret|].
  apply inert_bind; [|intros x; apply inert_ret].
  apply inert_Execute; [apply chamados_lawful|apply inert_discard_call].
Qed.

Lemma Send_inert p t ti b : inert (Send p t ti b).
Proof.
  unfold Send. destruct p as [c|]; [|apply inert_ret].
  apply inert_bind; [|intros x; apply inert_ret].
  apply inert_Execute; [apply push_lawful|apply inert_discard_call].
Qed.

Lemma inert_schedule ch c r : inert (scheduleChamadosReadNotify ch c r).
Proof.
  unfold scheduleChamadosReadNotify. destruct ch; [|apply inert_ret].
  destruct (String.eqb _ _); [apply inert_ret|apply inert_emit].
Qed.

Lemma inert_notify_unseen ch r l seen : inert (notify_unseen ch r seen l).
Proof.
  revert seen. induction l as [|c l IH]; intros seen; simpl; [apply inert_ret|].
  destruct (String.eqb _ _); [apply IH|]. destruct (bool_decide _); [apply IH|].
  apply inert_bind; [apply inert_schedule|]. intros _. apply IH.
Qed.

Lemma StatusJSON_inert m : inert (StatusJSON m).
Proof.
  unfold StatusJSON. destruct m as [m|]; [|apply inert_ret].
  destruct (String.eqb _ _); [apply inert_ret|]. by intros w w' a [= <- _].
Qed.
End inert.

#[export] Hint Resolve ListNotificationsByCitizen_inert CountUnreadNotifications_inert
  GetNotificationByCitizen_inert GetCitizenByID_inert CitizenHasNotificationForChamado_inert
  LookupCitizenID_inert GetSummary_inert NotifyRead_inert Send_inert inert_schedule
  inert_notify_unseen StatusJSON_inert : respects.

(** ** Handlers respect what their statements respect *)

Section handlers.
Context `{UuidText} `{PostgresOk} `{Gobreaker} `{Unicode}.
Variable R : database → database → Prop.
Context `{!PreOrder R}.

(** A handler is one call followed by steps that leave the tables alone. *)
Lemma pool_op_then {A B} (m : ST A) (k : A → ST B) :
  pool_op R m → (∀ a, inert (k a)) → pool_op R (m ≫= k).
Proof.
  intros Hm Hk. apply pool_op_bind; [apply _|done|]. intros a. by apply inert_pool_op.
Qed.

Lemma handleMarkRead_respects ch cid rq :
  (∀ nid, pool_op R (MarkNotificationRead cid nid)) →
  pool_op R (handleMarkRead ch (Some (Some cid)) rq).
Proof.
  intros Hm. unfold handleMarkRead. simpl.
  destruct (uuid_Parse _); [|by apply inert_pool_op, inert_ret]. apply pool_op_then; [done|].
  intros [[c|]|e]; eauto with respects.
Qed.

Lemma handleMarkAllRead_respects ch cid rq :
  pool_op R (MarkAllNotificationsRead cid) →
  pool_op R (handleMarkAllRead ch (Some (Some cid)) rq).
Proof.
  intros Hm. unfold handleMarkAllRead. simpl. apply pool_op_then; [done|].
  intros [[c n]|e]; eauto with respects.
Qed.

Lemma handleRegisterDevice_respects cid rq :
  (∀ platform token, pool_op R (UpsertPushDevice cid platform token)) →
  pool_op R (handleRegisterDevice (Some (Some cid)) rq).
Proof.
  intros Hm. unfold handleRegisterDevice. simpl.
  destruct (ShouldBindJSON _) as [b|]; [|by apply inert_pool_op, inert_ret].
  destruct (_ || _); [by apply inert_pool_op, inert_ret|].
  apply pool_op_then; [done|]. intros r. apply inert_ret.
Qed.

Lemma handleDeleteDevice_respects cid rq :
  (∀ token, pool_op R (DeletePushDevice cid token)) →
  pool_op R (handleDeleteDevice (Some (Some cid)) rq).
Proof.
  intros Hm. unfold handleDeleteDevice. simpl.
  destruct (String.eqb _ _); [by apply inert_pool_op, inert_ret|].
  apply pool_op_then; [done|]. intros r. apply inert_ret.
Qed.

Definition read_handlers (ch : option ChamadosClient) (mp : option MapasClient) : list handler :=
  [handleListNotifications; handleUnreadCount; handleGetNotification; handleCitizenMe;
   handleChamadosSummary ch; handleMapasStatus mp].

Lemma read_handlers_inert ch mp h ctx rq : h ∈ read_handlers ch mp → inert (h ctx rq).
Proof.
  unfold read_handlers. rewrite !elem_of_cons, elem_of_nil.
  intros [->|[->|[->|[->|[->|[->|[]]]]]]].
  - unfold handleListNotifications. destruct (parsePagination rq) as [[l o]|]; [|apply inert_ret].
    destruct (CitizenID ctx); eauto with respects.
  - unfold handleUnreadCount. destruct (CitizenID ctx); eauto with respects.
  - unfold handleGetNotification. destruct (CitizenID ctx); [|apply inert_ret].
    destruct (uuid_Parse _); eauto with respects.
  - unfold handleCitizenMe. destruct (CitizenID ctx); [|apply inert_ret].
    apply inert_bind; [apply GetCitizenByID_inert|]. intros [[row|]|e]; eauto with respects.
  - unfold handleChamadosSummary. destruct ch; [|apply inert_ret].
    destruct (CitizenID ctx); [|apply inert_ret].
    destruct (String.eqb _ _); [apply inert_ret|].
    apply inert_bind; [apply CitizenHasNotificationForChamado_inert|].
    intros [[]|e]; eauto with respects.
  - unfold handleMapasStatus. destruct mp; eauto with respects.
Qed.
End handlers.

(** ** Counting and slicing *)

Lemma takeZ_take {A} n (l : list A) : takeZ n l = take (Z.to_nat n) l.
Proof.
  revert n. induction l as [|a l IH]; intros n; simpl; [by rewrite take_nil|].
  destruct (Z.leb_spec n 0).
  - by rewrite Z2Nat.nonpos by lia.
  - rewrite IH. replace (Z.to_nat n) with (S (Z.to_nat (n - 1))) by lia. done.
Qed.

Lemma dropZ_drop {A} n (l : list A) : dropZ n l = drop (Z.to_nat n) l.
Proof.
  revert n. induction l as [|a l IH]; intros n; simpl; [by rewrite drop_nil|].
  destruct (Z.leb_spec n 0).
  - by rewrite Z2Nat.nonpos by lia.
  - rewrite IH. replace (Z.to_nat n) with (S (Z.to_nat (n - 1))) by lia. done.
Qed.

Section counting.
Context `{PostgresOk}.

Lemma list_page_slice cid l o d :
  list_page cid l o d
  = notification_row <$> take (Z.to_nat l) (drop (Z.to_nat o) (sorted_rows cid d)).
Proof. unfold list_page. by rewrite takeZ_take, dropZ_drop. Qed.

Lemma citizen_rows_own_list cid d : citizen_rows cid d ≡ₚ map_to_list (own cid d).
Proof.
  apply NoDup_Permutation.
  - eapply NoDup_fmap_1, select_NoDup.
  - apply NoDup_map_to_list.
  - intros [i n]. by rewrite citizen_rows_own, elem_of_map_to_list.
Qed.

Lemma select_size {A} (P : uuid → A → bool) m :
  length (select P m) = size (filter (λ p, P p.1 p.2 = true) m).
Proof.
  rewrite <-length_map_to_list. apply Permutation_length, NoDup_Permutation.
  - eapply NoDup_fmap_1, select_NoDup.
  - apply NoDup_map_to_list.
  - intros [i a]. by rewrite elem_of_select, elem_of_map_to_list, map_lookup_filter_Some.
Qed.

(** Taking one row out of a selection. *)
Lemma select_length_drop {A} (P : uuid → A → bool) m i a b :
  m !! i = Some a → P i a = true → P i b = false →
  length (select P m) = S (length (select P (<[i := b]> m))).
Proof.
  intros Hi Ha Hb. rewrite !select_size.
  rewrite map_filter_insert_False by (simpl; congruence). rewrite map_filter_delete.
  rewrite map_size_delete_Some; [|exists a; by apply map_lookup_filter_Some].
  assert (size (filter (λ p, P p.1 p.2 = true) m) ≠ 0%nat); [|lia].
  apply map_size_ne_0_lookup. exists i. exists a. by apply map_lookup_filter_Some.
Qed.

Lemma unread_rows_after_all cid cx d :
  unread_rows cid (set_notifications
    ((λ n, if to_mark cid n then set_read (cx_now cx) n else n) <$> notifications d) d) = [].
Proof.
  unfold unread_rows. apply select_nil. simpl. intros i n. rewrite lookup_fmap, fmap_Some.
  intros (m & _ & ->). destruct (to_mark cid m) eqn:E; [|done]. unfold to_mark. simpl.
  by rewrite andb_false_r.
Qed.
End counting.

(** ** The chamados a bulk mark acknowledges *)

(** First occurrences of the non-empty ids not in [seen]. *)
Fixpoint unseen (seen : gset string) (l : list string) : list string :=
  match l with
  | [] => []
  | c :: l' =>
      if String.eqb c "" then unseen seen l'
      else if bool_decide (c ∈ seen) then unseen seen l'
      else c :: unseen ({[c]} ∪ seen) l'
  end.

Lemma elem_of_unseen seen l c : c ∈ unseen seen l ↔ c ∈ l ∧ c ≠ "" ∧ c ∉ seen.
Proof.
  revert seen. induction l as [|x l IH]; intros seen; simpl; [set_solver|].
  destruct (String.eqb_spec x "") as [->|Hx]; [rewrite IH; set_solver|].
  case_bool_decide as Hs; [rewrite IH; set_solver|].
  rewrite elem_of_cons, IH, elem_of_cons. destruct (decide (c = x)); set_solver.
Qed.

Lemma unseen_NoDup seen l : NoDup (unseen seen l).
Proof.
  revert seen. induction l as [|x l IH]; intros seen; simpl; [constructor|].
  destruct (String.eqb _ _); [done|]. case_bool_decide; [done|].
  constructor; [rewrite elem_of_unseen; set_solver|done].
Qed.

Lemma notify_unseen_configured c ref seen l w :
  notify_unseen (Some c) ref seen l w
  = (with_effects (w_effects w ++ ((λ ch, SpawnNotifyRead ch ref) <$> unseen seen l)) w, tt).
Proof.
  revert seen w. induction l as [|x l IH]; intros seen w; simpl.
  - rewrite app_nil_r. by destruct w.
  - destruct (String.eqb x "") eqn:Hx; [apply IH|]. destruct (bool_decide _); [apply IH|].
    unfold mbind, ST_bind, emit. rewrite IH. simpl.
    by rewrite <-app_assoc.
Qed.

Lemma notify_unseen_nil ref seen l w : notify_unseen None ref seen l w = (w, tt).
Proof.
  revert seen. induction l as [|x l IH]; intros seen; simpl; [done|].
  destruct (String.eqb _ _); [done|]. destruct (bool_decide _); [done|].
  unfold mbind, ST_bind. simpl. apply IH.
Qed.

Lemma unseen_perm seen l1 l2 : l1 ≡ₚ l2 → unseen seen l1 ≡ₚ unseen seen l2.
Proof.
  intros Hl. apply NoDup_Permutation; [apply unseen_NoDup..|].
  intros c. by rewrite !elem_of_unseen, Hl.
Qed.

(** ** Database calls are silent *)

(** Neither effects nor peers nor clocks are involved. *)
Definition silent {A} (m : ST A) : Prop :=
  ∀ w w' a, m w = (w', a) →
    w_effects w' = w_effects w ∧ w_http w' = w_http w ∧ w_chamados w' = w_chamados w
    ∧ w_clock w' = w_clock w ∧ w_reads w' = w_reads w.

Section silent.
Context `{Postgres}.

Lemma silent_next_fault : silent next_fault.
Proof. intros w w' f. unfold next_fault. destruct (w_faults w); intros; by simplify_eq. Qed.

Lemma silent_run_sql {A} b (st : sql A) : silent (run_sql b st).
Proof.
  intros w w' r. unfold run_sql. destruct (next_fault _) as [w1 f] eqn:Ef.
  apply silent_next_fault in Ef. simpl in Ef. destruct b, f; intros;
    repeat case_match; simplify_eq; exact Ef.
Qed.

Lemma silent_ret {A} (a : A) : silent (mret a).
Proof. by intros w w' x [= <- _]. Qed.

Lemma silent_bind {A B} (m : ST A) (k : A → ST B) :
  silent m → (∀ a, silent (k a)) → silent (m ≫= k).
Proof.
  intros Hm Hk w w' b (w1 & a & E & Hr)%bind_inv. apply Hm in E as (?&?&?&?&?).
  apply Hk in Hr as (?&?&?&?&?). split_and!; congruence.
Qed.

Lemma silent_ebind {E A B} (m : ST (result E A)) (k : A → ST (result E B)) :
  silent m → (∀ a, silent (k a)) → silent (ebind m k).
Proof.
  intros Hm Hk w w' b (w1 & [a|e] & E1 & Hr)%ebind_inv; apply Hm in E1 as (?&?&?&?&?).
  - apply Hk in Hr as (?&?&?&?&?). split_and!; congruence.
  - destruct Hr as [-> ->]. done.
Qed.

Lemma silent_CitizenHasNotificationForChamado cid ch :
  silent (CitizenHasNotificationForChamado cid ch).
Proof.
  apply silent_ebind; [apply silent_run_sql|]. intros n. apply silent_ret.
Qed.
End silent.

Section has_notification.
Context `{PostgresOk}.

(** A positive answer means a row of the citizen about the chamado. *)
Lemma CitizenHasNotificationForChamado_true cid chamadoID w w' :
  CitizenHasNotificationForChamado cid chamadoID w = (w', Ok true) →
  ∃ i n, own cid (w_db w) !! i = Some n ∧ nt_chamado_id n = chamadoID.
Proof.
  intros (w1 & [n|e] & (_ & _ & E)%pool_sql_inv & Hr)%ebind_inv; [|by destruct Hr].
  unfold ok, mret, ST_ret in Hr. injection Hr as _ Hn%Z.ltb_lt.
  destruct (negb _); [done|]. injection E as E _. subst n.
  destruct (select _ _) as [|[i m] l] eqn:Es; [done|].
  assert ((i, m) ∈ select (λ _ n, owned_by cid n && String.eqb (nt_chamado_id n) chamadoID)
            (notifications (w_db w))) as Hin by (rewrite Es; left).
  apply elem_of_select in Hin as [Hi [Ho%owned_by_true Hc%String.eqb_eq]%andb_prop].
  exists i, m. split; [by apply own_lookup|done].
Qed.
End has_notification.

(** ** Writes that agree worlds answer alike *)

Section alike.
Context `{UuidText} `{PostgresOk} `{Gobreaker} `{Unicode}.
Variable cid : uuid.

(** Two worlds that agree but for the order of the effects since [pre]. *)
Definition agree_unordered (pre : list effect) (w1 w2 : world) : Prop :=
  ∃ l1 l2, w_effects w1 = pre ++ l1 ∧ l1 ≡ₚ l2 ∧ agree cid (with_effects (pre ++ l2) w1) w2.

Lemma own_mark_all cx d d' l :
  mark_all_read cid cx d = Ok (l, d') →
  own cid d' = (λ n, if unread n then set_read (cx_now cx) n else n) <$> own cid d
  ∧ own_devices cid d' = own_devices cid d ∧ citizens d' = citizens d.
Proof.
  intros [= _ <-]. split; [|done]. apply map_eq. intros i. unfold own. simpl.
  rewrite lookup_fmap, !map_lookup_filter, lookup_fmap.
  destruct (notifications d !! i) as [n|]; [|done]. simpl. unfold to_mark.
  destruct (decide (nt_citizen_id n = cid)) as [Hc|Hc].
  - rewrite (proj2 (owned_by_true cid n) Hc). simpl.
    destruct (unread n) eqn:Hu; rewrite !option_guard_True by done; simpl; by rewrite Hu.
  - destruct (owned_by cid n) eqn:Ho; [by apply owned_by_true in Ho|]. simpl.
    by rewrite !option_guard_False.
Qed.

(** [RETURNING] gives the citizen's rows in an order that may depend on the
    whole table. *)
Lemma mark_all_read_alike cx d1 d2 :
  same_for cid d1 d2 → sql_alike cid Permutation (mark_all_read cid) cx d1 d2.
Proof.
  intros Hs. pose proof (own_mark_all cx d1 _ _ eq_refl) as (Ho1 & Hd1 & Hc1).
  pose proof (own_mark_all cx d2 _ _ eq_refl) as (Ho2 & Hd2 & Hc2).
  split; simpl.
  - apply fmap_Permutation. exact (unread_rows_same _ _ _ Hs).
  - split; [rewrite Ho1, Ho2|rewrite Hd1, Hd2|]; [by rewrite (same_own _ _ _ Hs)| |];
      [apply (same_devices _ _ _ Hs)|apply (same_citizen _ _ _ Hs)].
Qed.

Lemma handleMarkAllRead_alike ch rq w1 w2 :
  agree cid w1 w2 →
  (handleMarkAllRead ch (Some (Some cid)) rq w1).2
  = (handleMarkAllRead ch (Some (Some cid)) rq w2).2
  ∧ agree_unordered (w_effects w1) (handleMarkAllRead ch (Some (Some cid)) rq w1).1
      (handleMarkAllRead ch (Some (Some cid)) rq w2).1.
Proof.
  intros Ha. destruct (pool_sql_alike cid _ _ _ _ Ha
    (mark_all_read_alike (context_of w1) _ _ (agree_db _ _ _ Ha))) as [Hr Ha'].
  unfold handleMarkAllRead. cbn [CitizenID].
  unfold MarkAllNotificationsRead, ebind, mbind, ST_bind.
  destruct (pool_sql (mark_all_read cid) w1) as [v1 r1] eqn:E1.
  destruct (pool_sql (mark_all_read cid) w2) as [v2 r2] eqn:E2.
  apply silent_run_sql in E1 as [He1 _]. apply silent_run_sql in E2 as [He2 _].
  assert (w_effects w2 = w_effects w1) as He by (by rewrite (agree_rest _ _ _ Ha)).
  destruct r1 as [l1|e1], r2 as [l2|e2]; simpl in Hr, Ha'; try done; simpl.
  2:{ split; [done|]. exists [], []. rewrite app_nil_r. split_and!; [done|done|].
      rewrite <-He1. by destruct v1. }
  unfold count_rows. rewrite (Permutation_length Hr). destruct ch as [c|].
  - rewrite !notify_unseen_configured. simpl. split; [done|]. do 2 eexists.
    rewrite He1. split; [reflexivity|]. split; [by apply fmap_Permutation, unseen_perm|].
    destruct Ha' as [Hs Hw]. split; simpl; [done|]. rewrite He2, He, Hw at 1. done.
  - rewrite !notify_unseen_nil. simpl. split; [done|]. exists [], []. rewrite app_nil_r.
    split_and!; [done|done|]. rewrite <-He1. by destruct v1.
Qed.

(** [UNIQUE (citizen_id, token)] *)
Definition tokens_unique (d : database) : Prop :=
  ∀ i j v v', push_devices d !! i = Some v → push_devices d !! j = Some v' →
    dv_citizen_id v = dv_citizen_id v' → dv_token v = dv_token v' → i = j.

(** The rows of one's token, when tokens are unique. *)
Lemma own_token_row d1 d2 token :
  tokens_unique d2 → same_for cid d1 d2 →
  match select (λ _ v, has_token cid token v) (push_devices d1),
        select (λ _ v, has_token cid token v) (push_devices d2) with
  | [], [] => True
  | r1 :: _, r2 :: _ => r1 = r2 ∧ dv_citizen_id r1.2 = cid
  | _, _ => False
  end.
Proof.
  intros Hwf Hs. assert (∀ (i : uuid) v, has_token cid token v = true → dv_citizen_id v = cid) as HP
    by (intros i v Hv%has_token_true; tauto).
  pose proof (select_own_devices cid (λ _ v, has_token cid token v) _ _ HP Hs) as Hp.
  destruct (select _ (push_devices d1)) as [|[i v] l] eqn:E1.
  { by apply Permutation_nil_l in Hp as <-. }
  destruct (select _ (push_devices d2)) as [|[j v'] l'] eqn:E2.
  { by apply Permutation_nil_r in Hp. }
  assert ((i, v) ∈ (j, v') :: l') as Hi by (rewrite <-Hp; left).
  assert ((j, v') ∈ (j, v') :: l') as Hj by left.
  rewrite <-E2 in Hi, Hj. apply elem_of_select in Hi as [Hi Hti], Hj as [Hj Htj].
  apply has_token_true in Hti as [Hc Ht], Htj as [Hc' Ht'].
  assert (i = j) as -> by (eapply Hwf; eauto; congruence).
  split; [congruence|done].
Qed.

Lemma same_for_put_device d1 d2 i v :
  same_for cid d1 d2 → dv_citizen_id v = cid →
  same_for cid (set_devices (<[i := v]> (push_devices d1)) d1)
    (set_devices (<[i := v]> (push_devices d2)) d2).
Proof.
  intros Hs Hv. split; [apply (same_own _ _ _ Hs)| |apply (same_citizen _ _ _ Hs)].
  pose proof (same_devices _ _ _ Hs) as Hd. unfold own_devices in *. simpl.
  rewrite !map_filter_insert_True by done. by rewrite Hd.
Qed.

Lemma upsert_device_alike platform token cx d1 d2 :
  tokens_unique d2 → push_devices d1 !! cx_uuid cx = None → push_devices d2 !! cx_uuid cx = None →
  same_for cid d1 d2 → sql_alike cid eq (upsert_device cid platform token) cx d1 d2.
Proof.
  intros Hwf Hf1 Hf2 Hs. unfold sql_alike, upsert_device, bad_text, unique_violation,
    foreign_key_violation. destruct (negb _); [done|].
  pose proof (own_token_row d1 d2 token Hwf Hs) as Hrow.
  destruct (select _ (push_devices d1)) as [|[i v] l], (select _ (push_devices d2)) as [|[j v'] l'];
    try done.
  - rewrite Hf1, Hf2, (same_citizen _ _ _ Hs). destruct (citizens d2 !! cid); [|done].
    split; [done|]. by apply same_for_put_device.
  - destruct Hrow as [[= <- <-] _]. split; [done|]. by apply same_for_put_device.
Qed.

(** Tokens are unique, and the database's next UUID names no device. *)
Definition registrable (w : world) : Prop :=
  tokens_unique (w_db w) ∧ push_devices (w_db w) !! gen_random_uuid (w_gen w) = None.

Lemma handleRegisterDevice_alike rq w1 w2 :
  agree cid w1 w2 → registrable w1 → registrable w2 →
  (handleRegisterDevice (Some (Some cid)) rq w1).2
  = (handleRegisterDevice (Some (Some cid)) rq w2).2
  ∧ agree cid (handleRegisterDevice (Some (Some cid)) rq w1).1
      (handleRegisterDevice (Some (Some cid)) rq w2).1.
Proof.
  intros Ha [_ Hf1] [Hwf Hf2]. unfold handleRegisterDevice. cbn [CitizenID].
  destruct (ShouldBindJSON _) as [body|]; [|done]. cbv zeta. destruct (_ || _); [done|].
  unfold UpsertPushDevice, mbind, ST_bind.
  set (st := upsert_device _ _ _).
  assert (sql_alike cid eq st (context_of w1) (w_db w1) (w_db w2)) as Hal.
  { apply upsert_device_alike; [done|done| |apply (agree_db _ _ _ Ha)].
    rewrite (agree_rest _ _ _ Ha) in Hf2. exact Hf2. }
  destruct (pool_sql_alike cid eq st w1 w2 Ha Hal) as [Hr Ha'].
  destruct (pool_sql st w1) as [v1 [a1|e1]], (pool_sql st w2) as [v2 [a2|e2]]; simpl in *; done.
Qed.
End alike.
