(* ===== verification/HttpProps.v ===== *)
(** * What the citizen's API guarantees *)

From S2P Require Import Prelude GoStrings GoTime Json Uuid World Repo RepoFacts RepoSound.
From S2P Require Import CitizenFacts Payload Http Integrations IntegrationsProps Auth HttpApi HttpFacts.

#[local] Arguments GetSummary : simpl never.

Section isolation.
Context `{UuidText} `{PostgresOk} `{Gobreaker} `{Unicode}.

(** The handlers that read, and those that write single rows of their own. *)
Definition private_handlers (ch : option ChamadosClient) (mp : option MapasClient)
  : list handler :=
  [handleListNotifications; handleUnreadCount; handleGetNotification; handleMarkRead ch;
   handleCitizenMe; handleDeleteDevice; handleChamadosSummary ch; handleMapasStatus mp].

(** Every handler behind the authentication. *)
Definition citizen_handlers (ch : option ChamadosClient) (mp : option MapasClient)
  : list handler :=
  private_handlers ch mp ++ [handleMarkAllRead ch; handleRegisterDevice].

Lemma private_handlers_private ch mp h cid rq :
  h ∈ private_handlers ch mp → private cid (h (Some (Some cid)) rq).
Proof.
  unfold private_handlers. rewrite !elem_of_cons, elem_of_nil.
  intros [->|[->|[->|[->|[->|[->|[->|[->|[]]]]]]]]].
  - unfold handleListNotifications. destruct (parsePagination rq) as [[l o]|]; [|apply private_ret].
    apply private_catch; [apply ListNotificationsByCitizen_private|]. intros r. apply db_free_ret.
  - apply private_catch; [apply CountUnreadNotifications_private|]. intros r. apply db_free_ret.
  - unfold handleGetNotification. simpl. destruct (uuid_Parse _); [|apply private_ret].
    apply private_catch; [apply GetNotificationByCitizen_private|]. intros r. apply db_free_ret.
  - unfold handleMarkRead. simpl. destruct (uuid_Parse _); [|apply private_ret].
    apply private_catch; [apply MarkNotificationRead_private|].
    intros [[c|]|e]; eauto using db_free_schedule with private.
  - unfold handleCitizenMe. simpl. apply private_bind; [apply GetCitizenByID_private|].
    intros [[row|]|e]; try apply private_ret.
    apply private_catch; [apply CountUnreadNotifications_private|]. intros r. apply db_free_ret.
  - unfold handleDeleteDevice. simpl. destruct (String.eqb _ _); [apply private_ret|].
    apply private_catch; [apply DeletePushDevice_private|]. intros r. apply db_free_ret.
  - unfold handleChamadosSummary. destruct ch as [c|]; [|apply private_ret]. simpl.
    destruct (String.eqb _ _); [apply private_ret|].
    apply private_catch; [apply CitizenHasNotificationForChamado_private|].
    intros [[]|e]; eauto with private.
    apply db_free_bind; [apply db_free_GetSummary|intros [[]]; apply db_free_ret].
  - unfold handleMapasStatus. apply db_free_private. destruct mp; [|apply db_free_ret].
    apply db_free_bind; [apply db_free_StatusJSON|]. intros st. apply db_free_ret.
Qed.

(** C10: a citizen learns nothing about other citizens.  Take two worlds that
    differ at most in other citizens' rows, under the same failures.  Every
    handler answers alike in both and leaves worlds that again differ at most
    there, so someone else's notification cannot be told from a missing one.
    Two handlers need a word: the acknowledgements [read-all] sends may come
    in another order, since the rows an UPDATE returns come in no order; and
    registering a device assumes the table's unique key holds and the UUID
    the database draws is new in both worlds, for a collision with another
    citizen's row would be answered 500. *)
Theorem answers_depend_on_own_rows ch mp cid rq w1 w2 (Hagree : agree cid w1 w2) :
  let answer h w := (h (Some (Some cid)) rq w).2 in
  let next h w := (h (Some (Some cid)) rq w).1 in
  (∀ h, h ∈ private_handlers ch mp →
     answer h w1 = answer h w2 ∧ agree cid (next h w1) (next h w2))
  ∧ (answer (handleMarkAllRead ch) w1 = answer (handleMarkAllRead ch) w2
     ∧ agree_unordered cid (w_effects w1) (next (handleMarkAllRead ch) w1)
         (next (handleMarkAllRead ch) w2))
  ∧ (registrable w1 → registrable w2 →
     answer handleRegisterDevice w1 = answer handleRegisterDevice w2
     ∧ agree cid (next handleRegisterDevice w1) (next handleRegisterDevice w2)).
Proof.
  cbv zeta. split; [|split].
  - intros h Hh. by apply (private_handlers_private ch mp h cid rq Hh).
  - by apply handleMarkAllRead_alike.
  - by apply handleRegisterDevice_alike.
Qed.

(** Another citizen's rows, before and after. *)
Definition spares (other : uuid) (d d' : database) : Prop :=
  own other d' = own other d ∧ own_devices other d' = own_devices other d.

#[local] Instance spares_pre other : PreOrder (spares other).
Proof.
  split; [done|]. intros d1 d2 d3 [] []. split; congruence.
Qed.

Lemma mark_read_spares other cid nid : other ≠ cid → sql_respects (spares other) (mark_read cid nid).
Proof.
  intros Hne cx d a d'. unfold mark_read.
  destruct (notifications d !! nid) as [n|] eqn:En; [|done].
  destruct (owned_by cid n) eqn:Eo; simpl; [|done]. destruct (unread n); [|done].
  intros [= <- <-]. split; [|done]. apply owned_by_true in Eo. unfold own. simpl.
  rewrite map_filter_insert_False by (simpl; congruence).
  rewrite map_filter_delete, delete_id; [done|]. apply map_lookup_filter_None. right.
  simpl. intros m Hm. rewrite En in Hm. simplify_eq. congruence.
Qed.

Lemma mark_all_read_spares other cid : other ≠ cid → sql_respects (spares other) (mark_all_read cid).
Proof.
  intros Hne cx d a d' [= <- <-]. split; [|done]. unfold own. simpl. apply map_eq. intros i.
  rewrite !map_lookup_filter, lookup_fmap.
  destruct (notifications d !! i) as [n|]; [|done]. simpl. unfold to_mark, owned_by.
  destruct (decide (nt_citizen_id n = cid)) as [Hc|Hc].
  - rewrite bool_decide_eq_true_2 by done. simpl. destruct (unread n); [|done]. simpl.
    by destruct (decide (nt_citizen_id n = other)); [congruence|rewrite !option_guard_False].
  - by rewrite bool_decide_eq_false_2.
Qed.

Lemma devices_spares other m d :
  (∀ i, filter (λ p, dv_citizen_id p.2 = other) m !! i
        = filter (λ p, dv_citizen_id p.2 = other) (push_devices d) !! i) →
  spares other d (set_devices m d).
Proof. intros Hm. split; [done|]. unfold own_devices. simpl. by apply map_eq. Qed.

Lemma upsert_device_spares other cid platform token :
  other ≠ cid → sql_respects (spares other) (upsert_device cid platform token).
Proof.
  intros Hne cx d a d'. unfold upsert_device, bad_text, unique_violation, foreign_key_violation.
  destruct (negb _); [done|]. destruct (select _ (push_devices d)) as [|[i v] l] eqn:Es.
  - destruct (push_devices d !! _) eqn:Ed; [done|]. destruct (citizens d !! cid); [|done].
    intros [= <- <-]. apply devices_spares. intros i.
    rewrite map_filter_insert_False by (simpl; congruence).
    rewrite map_filter_delete, delete_id; [done|]. apply map_lookup_filter_None. by left.
  - intros [= <- <-]. apply devices_spares. intros j.
    assert ((i, v) ∈ select (λ _ v, has_token cid token v) (push_devices d)) as Hin
      by (rewrite Es; left).
    apply elem_of_select in Hin as [Hi [Hc _]%has_token_true].
    rewrite map_filter_insert_False by (simpl; congruence).
    rewrite map_filter_delete, delete_id; [done|]. apply map_lookup_filter_None. right.
    simpl. intros u Hu. rewrite Hi in Hu. simplify_eq. congruence.
Qed.

Lemma delete_device_spares other cid token :
  other ≠ cid → pool_op (spares other) (DeletePushDevice cid token).
Proof.
  intros Hne. apply pool_op_sql; [apply _|]. intros cx d a d'. unfold delete_device, bad_text.
  destruct (negb _); [done|]. intros [= <- <-]. apply devices_spares. intros i.
  rewrite !map_lookup_filter. destruct (push_devices d !! i) as [v|]; [|done]. simpl.
  destruct (decide (dv_citizen_id v = other)) as [Ho|Ho].
  - rewrite (option_guard_True (has_token cid token v = false)); [done|].
    apply not_true_is_false. rewrite has_token_true. intros [? _]. congruence.
  - destruct (guard (has_token cid token v = false)); simpl; by rewrite !option_guard_False.
Qed.

(** C18: a citizen changes nobody else's rows.  Whatever fails, each handler
    run for one citizen leaves another citizen's notifications and devices
    as they were, and no transaction open. *)
Theorem others_are_untouched ch mp h cid other rq w w' rsp
  (Hh : h ∈ citizen_handlers ch mp) (Hother : other ≠ cid) (Htx : w_tx w = None)
  (Hrun : h (Some (Some cid)) rq w = (w', rsp)) :
  w_tx w' = None ∧ own other (w_db w') = own other (w_db w)
  ∧ own_devices other (w_db w') = own_devices other (w_db w).
Proof.
  cut (pool_op (spares other) (h (Some (Some cid)) rq)); [intros Hp; by eapply Hp|].
  clear Hrun. unfold citizen_handlers, private_handlers in Hh. simpl in Hh.
  assert (h ∈ read_handlers ch mp ∨ h = handleMarkRead ch ∨ h = handleDeleteDevice
          ∨ h = handleMarkAllRead ch ∨ h = handleRegisterDevice) as Hcases.
  { revert Hh. unfold read_handlers. rewrite !elem_of_cons, elem_of_nil. tauto. }
  destruct Hcases as [Hr|[->|[->|[->| ->]]]].
  - apply inert_pool_op; [apply _|]. by eapply read_handlers_inert.
  - apply handleMarkRead_respects; [apply _|]. intros nid. apply pool_op_then; [apply _| |].
    + apply pool_op_sql; [apply _|by apply mark_read_spares].
    + intros [|[]]; apply inert_ret.
  - apply handleDeleteDevice_respects; [apply _|]. intros token. by apply delete_device_spares.
  - apply handleMarkAllRead_respects; [apply _|]. apply pool_op_ebind; [apply _| |].
    + apply pool_op_sql; [apply _|by apply mark_all_read_spares].
    + intros l. apply inert_pool_op, inert_ret. apply _.
  - apply handleRegisterDevice_respects; [apply _|]. intros platform token.
    apply pool_op_sql; [apply _|by apply upsert_device_spares].
Qed.
End isolation.

(** ** Listing *)

Section listing.
Context `{UuidText} `{PostgresOk}.

(** Pagination.  [limit] defaults to 20 and is capped at 100, [offset]
    defaults to 0; a value that is no 64-bit integer, a limit below 1 or a
    negative offset is refused.  So an accepted page has
    [1 <= limit <= 100] and [0 <= offset]. *)
Lemma parsePagination_spec rq :
  let ls := rq_query rq "limit" in
  let os := rq_query rq "offset" in
  match parsePagination rq with
  | Ok (limit, offset) =>
      1 ≤ limit ≤ 100 ∧ 0 ≤ offset ∧ in_int64 offset = true
      ∧ (ls = "" ∧ limit = 20 ∨ ∃ v, Atoi ls = Some v ∧ limit = Z.min v 100)
      ∧ (os = "" ∧ offset = 0 ∨ Atoi os = Some offset)
  | Err rsp =>
      rsp = c_error StatusBadRequest "invalid_limit"
        ∧ ls ≠ "" ∧ (∀ v, Atoi ls = Some v → v < 1)
      ∨ rsp = c_error StatusBadRequest "invalid_offset"
        ∧ os ≠ "" ∧ (∀ v, Atoi os = Some v → v < 0)
  end.
Proof.
  cbv zeta. unfold parsePagination, parse_limit, parse_offset, maxNotifLimit, defaultNotifLimit.
  pose proof (Atoi_range (rq_query rq "offset")) as Hr.
  destruct (String.eqb_spec (rq_query rq "limit") ""), (String.eqb_spec (rq_query rq "offset") "");
    destruct (Atoi (rq_query rq "limit")) as [l|], (Atoi (rq_query rq "offset")) as [o|];
    repeat (match goal with |- context [if ?a <? ?b then _ else _] =>
              destruct (Z.ltb_spec a b) end);
    first [left; split; [done|]; split; [done|]; intros; simplify_eq; lia
          |right; split; [done|]; split; [done|]; intros; simplify_eq; lia
          |split; [lia|]; split; [lia|]; split; [first [done|by apply Hr]|];
           split; [first [by left|right; eexists; split; [done|lia]]|first [by left|by right]]].
Qed.

(** C29: a listing is the requested slice of the citizen's own notifications,
    newest first (ties by id), with their total number. *)
Theorem list_is_sorted_slice cid rq w limit offset
  (Hpage : parsePagination rq = Ok (limit, offset)) (Hfaults : w_faults w = []) :
  let rows := sorted_rows cid (w_db w) in
  (handleListNotifications (Some (Some cid)) rq w).2
  = c_JSON_or_empty StatusOK
      (items ← mapM row_json
                 (notification_row <$> take (Z.to_nat limit) (drop (Z.to_nat offset) rows));
       Some (list_json items limit offset (Z.of_nat (length rows))))
  ∧ StronglySorted newest_first rows
  ∧ rows ≡ₚ map_to_list (own cid (w_db w)).
Proof.
  cbv zeta. split; [|split; [apply sorted_rows_sorted|
    by rewrite sorted_rows_perm, citizen_rows_own_list]].
  unfold handleListNotifications. rewrite Hpage. cbv beta iota.
  change (CitizenID (Some (Some cid))) with (Some cid). cbv iota.
  unfold ListNotificationsByCitizen, ebind, mbind, ST_bind.
  rewrite pool_sql_fine by done. cbv beta iota zeta. rewrite pool_sql_fine by done. simpl.
  rewrite list_page_slice. unfold count_rows.
  by rewrite (Permutation_length (sorted_rows_perm cid (w_db w))).
Qed.

(** Pages tile the listing: consecutive pages of any size, put one after
    another, are the citizen's notifications newest first, each once; enough
    pages give all of them. *)
Lemma pages_tile cid d size n (Hsize : 1 ≤ size) :
  concat ((λ i, list_page cid size (size * Z.of_nat i) d) <$> seq 0 n)
  = notification_row <$> take (Z.to_nat size * n) (sorted_rows cid d)
  ∧ (Z.of_nat (length (citizen_rows cid d)) ≤ size * Z.of_nat n →
     concat ((λ i, list_page cid size (size * Z.of_nat i) d) <$> seq 0 n)
     = notification_row <$> sorted_rows cid d).
Proof.
  assert (concat ((λ i, list_page cid size (size * Z.of_nat i) d) <$> seq 0 n)
          = notification_row <$> take (Z.to_nat size * n) (sorted_rows cid d)) as Htile.
  { induction n as [|n IH].
    - by rewrite Nat.mul_0_r.
    - rewrite seq_S, fmap_app, concat_app, IH. simpl. rewrite app_nil_r.
      rewrite list_page_slice, <-fmap_app. f_equal.
      replace (Z.to_nat (size * Z.of_nat n)) with (Z.to_nat size * n)%nat by lia.
      rewrite Nat.mul_succ_r, take_take_drop. done. }
  split; [done|]. intros Hall. rewrite Htile, take_ge; [done|].
  rewrite (Permutation_length (sorted_rows_perm cid d)). lia.
Qed.
End listing.

(** ** Read marks *)

Section marks.
Context `{UuidText} `{PostgresOk}.

Definition acknowledgement (ch : option ChamadosClient) (chamadoID : string) (cid : uuid)
  : list effect :=
  match ch with
  | Some _ => if String.eqb chamadoID "" then [] else [SpawnNotifyRead chamadoID (uuid_String cid)]
  | None => []
  end.

Lemma handleMarkRead_fine ch cid rq nid w :
  w_faults w = [] → uuid_Parse (rq_param rq "id") = Some nid →
  ∃ w', w_faults w' = [] ∧
    match notifications (w_db w) !! nid with
    | Some n =>
        if to_mark cid n then
          handleMarkRead ch (Some (Some cid)) rq w = (w', c_Status StatusNoContent)
          ∧ w_db w' = set_notifications (<[nid := set_read (w_pgnow w) n]> (notifications (w_db w)))
                        (w_db w)
          ∧ w_effects w' = w_effects w ++ acknowledgement ch (nt_chamado_id n) cid
        else handleMarkRead ch (Some (Some cid)) rq w = (w', not_found)
             ∧ w_db w' = w_db w ∧ w_effects w' = w_effects w
    | None => handleMarkRead ch (Some (Some cid)) rq w = (w', not_found)
              ∧ w_db w' = w_db w ∧ w_effects w' = w_effects w
    end.
Proof.
  intros Hf Hid. unfold handleMarkRead. cbn [CitizenID]. rewrite Hid.
  unfold MarkNotificationRead, mbind, ST_bind. rewrite pool_sql_fine by done. cbv beta iota zeta.
  unfold mark_read at 1 2 3. fold (to_mark cid). destruct (notifications (w_db w) !! nid) as [n|] eqn:E.
  - fold (to_mark cid n). destruct (to_mark cid n) eqn:Em.
    + cbn -[scheduleChamadosReadNotify]. unfold scheduleChamadosReadNotify, acknowledgement.
      destruct ch as [c|]; [destruct (String.eqb _ _)|];
        (eexists; split; [|split; [reflexivity|]]); simpl; rewrite ?app_nil_r; done.
    + eexists. split; [|split; [reflexivity|]]; done.
  - eexists. split; [|split; [reflexivity|]]; done.
Qed.

(** C23: marking one notification as read.  Without failures it answers 204
    exactly when the notification exists, is the citizen's own and unread;
    then only its read mark changes, the unread count drops by one, and one
    acknowledgement leaves for its chamado.  Otherwise it answers 404 and
    changes nothing; so the second attempt is always answered 404. *)
Theorem mark_read_once ch cid rq nid w w' rsp
  (Hfaults : w_faults w = []) (Hid : uuid_Parse (rq_param rq "id") = Some nid)
  (Hrun : handleMarkRead ch (Some (Some cid)) rq w = (w', rsp)) :
  (match own cid (w_db w) !! nid with
   | Some n =>
       if unread n then
         rsp = c_Status StatusNoContent
         ∧ w_db w' = set_notifications (<[nid := set_read (w_pgnow w) n]> (notifications (w_db w)))
                       (w_db w)
         ∧ length (unread_rows cid (w_db w)) = S (length (unread_rows cid (w_db w')))
         ∧ w_effects w' = w_effects w ++ acknowledgement ch (nt_chamado_id n) cid
       else rsp = not_found ∧ w_db w' = w_db w ∧ w_effects w' = w_effects w
   | None => rsp = not_found ∧ w_db w' = w_db w ∧ w_effects w' = w_effects w
   end)
  ∧ ∃ w'', handleMarkRead ch (Some (Some cid)) rq w' = (w'', not_found) ∧ w_db w'' = w_db w'.
Proof.
  destruct (handleMarkRead_fine ch cid rq nid w Hfaults Hid) as (w1 & Hf1 & Hfst).
  assert (w1 = w') as ->.
  { destruct (notifications _ !! _) as [n|]; [destruct (to_mark cid n)|];
      destruct Hfst as [Hfst _]; rewrite Hfst in Hrun; by injection Hrun. }
  assert ((∀ n, notifications (w_db w') !! nid = Some n → to_mark cid n = false) →
    ∃ w'', handleMarkRead ch (Some (Some cid)) rq w' = (w'', not_found) ∧ w_db w'' = w_db w') as Hagain.
  { intros Hno. destruct (handleMarkRead_fine ch cid rq nid w' Hf1 Hid) as (w2 & _ & Hsnd).
    exists w2. destruct (notifications (w_db w') !! nid) as [n|]; [|tauto].
    rewrite (Hno n eq_refl) in Hsnd. tauto. }
  unfold own. rewrite map_lookup_filter.
  destruct (notifications (w_db w) !! nid) as [n|] eqn:En; simpl.
  - destruct (to_mark cid n) eqn:Em; destruct Hfst as (Hr & Hdb & He); rewrite Hr in Hrun;
      injection Hrun as <-.
    + pose proof Em as [Ho%owned_by_true Hu]%andb_prop.
      rewrite option_guard_True by done. simpl. rewrite Hu. split.
      * split; [done|]. split; [done|]. split; [|done]. rewrite Hdb. unfold unread_rows. simpl.
        eapply select_length_drop; [done|done|]. unfold to_mark. simpl. by rewrite andb_false_r.
      * apply Hagain. rewrite Hdb. simpl. rewrite lookup_insert_eq. intros m [= <-].
        unfold to_mark. simpl. by rewrite andb_false_r.
    + split; [|apply Hagain; rewrite Hdb; intros m Hm; congruence].
      destruct (decide (nt_citizen_id n = cid)) as [Hc|Hc].
      * rewrite option_guard_True by done. simpl. unfold to_mark in Em.
        rewrite (proj2 (owned_by_true cid n) Hc) in Em. simpl in Em. by rewrite Em.
      * by rewrite option_guard_False.
  - destruct Hfst as (Hr & Hdb & He). rewrite Hr in Hrun. injection Hrun as <-.
    split; [done|]. apply Hagain. rewrite Hdb. intros m Hm. congruence.
Qed.

Lemma handleMarkAllRead_fine ch cid rq w :
  w_faults w = [] →
  let l := (λ p, nt_chamado_id p.2) <$> unread_rows cid (w_db w) in
  ∃ w', handleMarkAllRead ch (Some (Some cid)) rq w
        = (w', c_JSON StatusOK [("updated", JInt (Z.of_nat (length (unread_rows cid (w_db w)))))])
    ∧ w_faults w' = []
    ∧ w_db w' = set_notifications
         ((λ n, if to_mark cid n then set_read (w_pgnow w) n else n) <$> notifications (w_db w))
         (w_db w)
    ∧ w_effects w' = w_effects w
         ++ match ch with
            | Some _ => (λ c, SpawnNotifyRead c (uuid_String cid)) <$> unseen ∅ l
            | None => []
            end.
Proof.
  intros Hf l. unfold handleMarkAllRead. cbn [CitizenID].
  unfold MarkAllNotificationsRead, ebind, mbind, ST_bind. rewrite pool_sql_fine by done.
  cbv beta iota zeta. unfold mark_all_read. fold (unread_rows cid (w_db w)). fold l.
  cbn -[notify_unseen]. replace (count_rows l) with (Z.of_nat (length (unread_rows cid (w_db w))))
    by (unfold count_rows, l; by rewrite length_fmap).
  destruct ch as [c|].
  - rewrite notify_unseen_configured. eexists. split; [reflexivity|]. done.
  - rewrite notify_unseen_nil. eexists. split; [reflexivity|]. simpl. by rewrite app_nil_r.
Qed.

(** C30: marking everything as read.  Without failures the answer counts
    exactly the rows that were unread, none is left, and (with chamados
    configured) one acknowledgement leaves for each distinct non-empty
    chamado among them; doing it again updates nothing and sends nothing. *)
Theorem mark_all_read_settles ch cid rq w w' rsp
  (Hfaults : w_faults w = [])
  (Hrun : handleMarkAllRead ch (Some (Some cid)) rq w = (w', rsp)) :
  rsp = c_JSON StatusOK [("updated", JInt (Z.of_nat (length (unread_rows cid (w_db w)))))]
  ∧ unread_rows cid (w_db w') = []
  ∧ (∃ ids, w_effects w' = w_effects w ++ ((λ c, SpawnNotifyRead c (uuid_String cid)) <$> ids)
      ∧ NoDup ids
      ∧ ∀ c, c ∈ ids ↔ is_Some ch ∧ c ≠ ""
                      ∧ ∃ i n, notifications (w_db w) !! i = Some n ∧ to_mark cid n = true
                               ∧ nt_chamado_id n = c)
  ∧ ∃ w'', handleMarkAllRead ch (Some (Some cid)) rq w' = (w'', c_JSON StatusOK [("updated", JInt 0)])
           ∧ w_effects w'' = w_effects w' ∧ unread_rows cid (w_db w'') = [].
Proof.
  destruct (handleMarkAllRead_fine ch cid rq w Hfaults) as (w1 & Hr & Hf1 & Hdb & He).
  rewrite Hr in Hrun. injection Hrun as -> <-.
  assert (∀ wx, unread_rows cid (set_notifications
     ((λ n, if to_mark cid n then set_read (w_pgnow wx) n else n) <$> notifications (w_db wx))
     (w_db wx)) = []) as Hnone by (intros wx; apply (unread_rows_after_all cid (context_of wx))).
  assert (unread_rows cid (w_db w') = []) as Hempty by (rewrite Hdb; apply Hnone).
  split; [done|]. split; [done|]. split.
  - set (l := (λ p, nt_chamado_id p.2) <$> unread_rows cid (w_db w)) in *.
    exists (match ch with Some _ => unseen ∅ l | None => [] end).
    split; [by destruct ch|]. split; [destruct ch; [apply unseen_NoDup|constructor]|].
    intros c. assert (c ∈ l ↔ ∃ i n, notifications (w_db w) !! i = Some n ∧ to_mark cid n = true
                                     ∧ nt_chamado_id n = c) as Hl.
    { unfold l. rewrite list_elem_of_fmap. split.
      - intros ([i n] & -> & [Hi Hm]%elem_of_select). eauto.
      - intros (i & n & Hi & Hm & <-). exists (i, n). split; [done|]. by apply elem_of_select. }
    destruct ch as [cl|].
    + rewrite elem_of_unseen, Hl. split; [intros (?&?&_); split; [by eexists|done]|].
      intros (_ & ? & ?). split_and!; [done|done|set_solver].
    + rewrite elem_of_nil. split; [done|]. by intros [[? ?] _].
  - destruct (handleMarkAllRead_fine ch cid rq w' Hf1) as (w2 & Hr2 & _ & Hdb2 & He2).
    exists w2. rewrite Hempty in Hr2, He2. split; [done|]. split.
    + rewrite He2. simpl. destruct ch; by rewrite app_nil_r.
    + rewrite Hdb2. apply Hnone.
Qed.
End marks.

(** ** The chamados proxy *)

Section summary.
Context `{UuidText} `{PostgresOk} `{Gobreaker} `{Unicode}.

(** The answer for each outcome of [GetSummary]. *)
Definition summary_response (body : string) (status : Z) (err : option call_error) : response :=
  match err with
  | None => c_Data status body
  | Some e =>
      if is_open_state e then unavailable "chamados_api_unavailable"
      else c_JSON StatusBadGateway
             [("error", JStr "chamados_upstream"); ("detail", JStr (call_error_text e))]
  end.

(** C31: the chamados API is asked only on behalf of a citizen who has a
    notification about that very chamado, and at most once; otherwise no
    request leaves, its breaker is not touched, and the answer is 400, 404
    or 500.  When it is asked, its outcome decides the answer: 503 on an open
    circuit, 502 on an error, and the peer's status and body otherwise. *)
Theorem summary_is_authorised c cid rq w w' rsp
  (Hrun : handleChamadosSummary (Some c) (Some (Some cid)) rq w = (w', rsp)) :
  let id := rq_param rq "chamado_id" in
  (w_effects w' = w_effects w ∧ w_chamados w' = w_chamados w
   ∧ (rsp = invalid_id ∧ id = "" ∨ rsp = internal_error ∨ rsp = not_found))
  ∨ (id ≠ "" ∧ (∃ i n, own cid (w_db w) !! i = Some n ∧ nt_chamado_id n = id)
     ∧ ∃ w1 body status err,
         GetSummary (Some c) id w1 = (w', ((body, status), err))
         ∧ rsp = summary_response body status err
         ∧ w_effects w1 = w_effects w ∧ w_chamados w1 = w_chamados w ∧ w_db w1 = w_db w).
Proof.
  cbv zeta. unfold handleChamadosSummary in Hrun. cbn [CitizenID] in Hrun.
  destruct (String.eqb_spec (rq_param rq "chamado_id") "") as [Hid|Hid].
  { injection Hrun as <- <-. left. auto. }
  apply bind_inv in Hrun as (w1 & r & Hq & Hrun).
  pose proof (silent_CitizenHasNotificationForChamado _ _ _ _ _ Hq) as (He & _ & Hch & _).
  pose proof (CitizenHasNotificationForChamado_inert _ _ _ _ _ Hq) as [Hd _].
  destruct r as [[]|e]; [|injection Hrun as <- <-; left; auto..].
  apply CitizenHasNotificationForChamado_true in Hq. right. split; [done|]. split; [done|].
  apply bind_inv in Hrun as (w2 & [[body status] err] & Hs & Hr). injection Hr as <- <-.
  exists w1, body, status, err. split; [done|]. split; [|done]. unfold summary_response.
  destruct err; [done|]. destruct (Z.eqb_spec status StatusOK) as [->|]; done.
Qed.
End summary.
