(* ===== verification/AuthProps.v ===== *)
(** * Who gets in

    Soundness of the resolution of a token, the shape of an accepted bearer
    header, and the gate in front of every citizen route. *)

From S2P Require Import Prelude GoStrings GoTime Identity Uuid World Repo RepoFacts RepoSound.
From S2P Require Import Payload Http WebhookService Auth Integrations HttpApi IntegrationsProps HttpFacts Server.

(** ** The header *)

Lemma chars_substring n m s : chars (String.substring n m s) = take m (drop n (chars s)).
Proof.
  revert n m. induction s as [|a s IH]; intros [|n] [|m]; simpl; rewrite ?IH; done.
Qed.

(** A token is read from exactly the headers that start with "Bearer "
    in any letter case and go on with something other than white space; the
    token is that rest, trimmed.  Whoever writes "Bearer t" is read as t. *)
Lemma bearerToken_spec :
  (∀ h t, bearerToken h = Some t ↔
     t ≠ "" ∧ ∃ scheme rest, h = scheme +:+ rest ∧ String.length scheme = 7%nat
       ∧ EqualFold scheme "Bearer " = true ∧ t = TrimSpace rest)
  ∧ ∀ t, t ≠ "" → TrimSpace t = t → bearerToken ("Bearer " +:+ t) = Some t.
Proof.
  assert (∀ h t, bearerToken h = Some t ↔
     t ≠ "" ∧ ∃ scheme rest, h = scheme +:+ rest ∧ String.length scheme = 7%nat
       ∧ EqualFold scheme "Bearer " = true ∧ t = TrimSpace rest) as Hspec.
  { intros h t. unfold bearerToken. change (String.length bearer_prefix) with 7%nat.
    set (scheme := String.substring 0 7 h).
    set (rest := String.substring 7 (String.length h - 7) h).
    destruct (String.eqb_spec h "") as [->|Hh].
    { split; [done|]. intros (_ & [|] & rest' & Hs & Hl & _); done. }
    destruct (Nat.ltb_spec (String.length h) 7) as [Hlt|Hge]; simpl.
    { split; [done|]. intros (_ & sc & r & -> & Hl & _). exfalso.
      rewrite <-length_chars, chars_app, length_app, !length_chars in Hlt. lia. }
    assert (∀ sc r, h = sc +:+ r → String.length sc = 7%nat → sc = scheme ∧ r = rest) as Hcut.
    { intros sc r -> Hl. unfold scheme, rest. split; apply chars_inj;
        rewrite chars_substring, chars_app.
      - rewrite drop_0. by rewrite take_app_length' by (by rewrite length_chars).
      - rewrite drop_app_length' by (by rewrite length_chars).
        rewrite take_ge; [done|]. rewrite <-(length_chars (sc +:+ r)), chars_app, length_app,
          !length_chars. lia. }
    assert (h = scheme +:+ rest ∧ String.length scheme = 7%nat) as [Hsr Hlen].
    { unfold scheme, rest. split.
      - apply chars_inj. rewrite chars_app, !chars_substring. simpl.
        rewrite (take_ge (drop 7 _)) by (rewrite length_drop, length_chars; lia).
        by rewrite take_drop.
      - rewrite <-length_chars, chars_substring, length_take, length_drop, length_chars. lia. }
    change bearer_prefix with "Bearer ". destruct (EqualFold scheme "Bearer ") eqn:Ef; simpl.
    - destruct (String.eqb_spec (TrimSpace rest) "") as [He|He].
      + split; [done|]. intros (Ht & sc & r & Hh' & Hl & _ & ->).
        by destruct (Hcut _ _ Hh' Hl) as [_ ->].
      + split; [intros [= <-]; split; [done|]; by exists scheme, rest|].
        intros (_ & sc & r & Hh' & Hl & _ & ->). by destruct (Hcut _ _ Hh' Hl) as [_ ->].
    - split; [done|]. intros (_ & sc & r & Hh' & Hl & Hf & _).
      destruct (Hcut _ _ Hh' Hl) as [-> _]. congruence. }
  split; [exact Hspec|]. intros t Ht Htrim. apply Hspec. split; [done|].
  by exists "Bearer ", t.
Qed.

(** ** The token *)

Section resolve.
Context `{PostgresOk} `{JwtOk}.
Variable cfg : AuthConfig.

Lemma LookupCitizenID_inv fp w w' r :
  LookupCitizenID fp w = (w', Ok r) →
  w_db w' = w_db w ∧
  match r with
  | Some id => ∃ c, citizens (w_db w) !! id = Some c ∧ ct_fingerprint c = fp
  | None => has_fingerprint fp (citizens (w_db w)) = false
  end.
Proof.
  intros Hr. pose proof (LookupCitizenID_inert fp _ _ _ Hr) as [Hd _]. split; [done|].
  apply bind_inv in Hr as (w1 & r1 & (_ & _ & Hq)%pool_sql_inv & Hr).
  destruct r1 as [id|[|m]]; unfold ok, fail, mret, ST_ret in Hr; simplify_eq.
  - destruct (query_row _ _) as [id'|] eqn:E; [|done]. injection Hq as <- _.
    apply query_row_fst in E as (c & Hc & Hf%String.eqb_eq). eauto.
  - destruct Hq as [Hq _]. destruct (query_row _ _) as [id'|] eqn:E; [done|]. clear Hq.
    apply not_true_is_false. intros (i & c & Hi & Hf)%has_fingerprint_true.
    destruct (select _ _) as [|x l] eqn:Es; [|done]. rewrite select_nil in Es.
    specialize (Es i c Hi). simpl in Es. by rewrite Hf, String.eqb_refl in Es.
Qed.

(** Claims that grant access at an instant, to the holder of a CPF. *)
Record grants (claims : accessClaims) (now : time) (cpf : string) : Prop := {
  gr_expiry : ∃ exp, cl_ExpiresAt claims = Some exp ∧ now < exp;
  gr_issuer : au_wantIssuer cfg = "" ∨ cl_Issuer claims = au_wantIssuer cfg;
  gr_audience : au_wantAudience cfg = "" ∨ au_wantAudience cfg ∈ cl_Audience claims;
  gr_cpf : NormalizeCPF11 (cl_PreferredUsername claims) = Ok cpf
}.

Lemma claims_cpf_Some claims now cpf : claims_cpf cfg claims now = Some cpf ↔ grants claims now cpf.
Proof.
  unfold claims_cpf. split.
  - destruct (cl_ExpiresAt claims) as [e|] eqn:Ee; [|done].
    destruct (Z.ltb_spec now e); simpl; [|done].
    destruct (String.eqb_spec (au_wantIssuer cfg) "") as [Hi|Hi]; simpl;
      (destruct (String.eqb_spec (cl_Issuer claims) (au_wantIssuer cfg)) as [Hi'|Hi']; simpl; [|try done]);
      (destruct (String.eqb_spec (au_wantAudience cfg) "") as [Ha|Ha]; simpl;
       [|destruct (existsb _ _) eqn:Eb; simpl; [|done]]);
      destruct (NormalizeCPF11 _) eqn:En; try done; intros [= <-];
      (split; [by exists e|auto|try auto|done]);
      right; apply existsb_exists in Eb as (x & Hx & ->%String.eqb_eq); by apply list_elem_of_In.
  - intros [(e & He & Hlt) Hi Ha Hc]. rewrite He, Hc. rewrite (proj2 (Z.ltb_lt _ _) Hlt). simpl.
    assert (negb (String.eqb (au_wantIssuer cfg) "")
            && negb (String.eqb (cl_Issuer claims) (au_wantIssuer cfg)) = false) as ->.
    { destruct Hi as [->| ->]; [done|]. by rewrite String.eqb_refl, andb_false_r. }
    assert (negb (String.eqb (au_wantAudience cfg) "")
            && negb (existsb (String.eqb (au_wantAudience cfg)) (cl_Audience claims)) = false) as ->;
      [|done].
    destruct Ha as [->|Ha]; [done|]. rewrite (proj2 (existsb_exists _ _)); [by rewrite andb_false_r|].
    exists (au_wantAudience cfg). split; [by apply list_elem_of_In|apply String.eqb_refl].
Qed.

(** C17: a token opens the door only if it verifies under HMAC with the
    configured secret, has an expiry in the future, the wanted issuer and
    audience (when configured), and names a well-formed CPF; the citizen it
    opens for is the one whose stored fingerprint is that CPF's, and [None]
    only when there is no such citizen.  The tables are not changed. *)
Theorem ResolveCitizenFromToken_sound raw w w' r
  (Hrun : ResolveCitizenFromToken cfg raw w = (w', Ok r)) :
  ∃ claims cpf,
    jwt_verifies SigningMethodHMAC (au_jwtSecret cfg) raw claims
    ∧ grants claims (w_clock w (S (w_reads w))) cpf
    ∧ w_db w' = w_db w
    ∧ match r with
      | Some id => ∃ c, citizens (w_db w) !! id = Some c
                        ∧ ct_fingerprint c = CitizenFingerprint (au_cpfPepper cfg) cpf
      | None => has_fingerprint (CitizenFingerprint (au_cpfPepper cfg) cpf) (citizens (w_db w)) = false
      end.
Proof.
  apply bind_inv in Hrun as (w1 & t & Ht & Hrun). injection Ht as <- <-.
  destruct (ParseWithClaims raw _ _) as [claims|] eqn:Ep; [|done].
  apply jwt_parse_verifies in Ep as (m & key & Hk & Hv).
  apply bind_inv in Hrun as (w2 & t2 & Ht2 & Hrun). injection Ht2 as <- <-.
  destruct (claims_cpf cfg claims _) as [cpf|] eqn:Ec; [|done].
  apply claims_cpf_Some in Ec. simpl in Ec.
  apply bind_inv in Hrun as (w3 & r3 & Hl & Hr). injection Hr as <- Hr.
  destruct r3 as [id|e]; [|done]. injection Hr as <-.
  apply LookupCitizenID_inv in Hl as [Hd Hl]. simpl in Hd, Hl.
  exists claims, cpf. destruct m; [|done]. injection Hk as <-. done.
Qed.

Lemma ResolveCitizenFromToken_inert raw : inert (ResolveCitizenFromToken cfg raw).
Proof.
  apply inert_bind; [apply inert_time_Now|]. intros t.
  destruct (ParseWithClaims _ _ _) as [claims|]; [|apply inert_ret].
  apply inert_bind; [apply inert_time_Now|]. intros t2.
  destruct (claims_cpf _ _ _); [|apply inert_ret].
  apply inert_bind; [apply LookupCitizenID_inert|]. intros r. apply inert_ret.
Qed.
End resolve.

(** ** Every route *)

Section gate.
Context `{UuidText} `{PostgresOk} `{JwtOk} `{Gobreaker} `{Unicode}.

Definition open_patterns : list string := ["/health"; "/ready"; "/webhook"; "/ws"].

(** A route that answers 401 to a request without a bearer token, and runs
    nothing. *)
Definition guarded_route (e : endpoint) : Prop :=
  ∀ rq w, BearerFromRequest rq = None → e rq w = (w, Reply unauthorized).

Lemma authenticated_guarded auth h : guarded_route (answers (authenticated auth h)).
Proof.
  intros rq w Hb. unfold answers, authenticated, Middleware. by rewrite Hb.
Qed.

(** C20: nobody reaches citizens' data anonymously.  With the pool and the
    middleware in place, every route but health, readiness, the webhook and
    the WebSocket handshake answers 401 without a bearer token and does
    nothing else, and so does the handshake when it is configured; without
    them every such route is the 501 stub. *)
Theorem routes_are_guarded deps method pattern e
  (Hin : (method, pattern, e) ∈ httpapi_Register deps)
  (Hpattern : pattern ∉ ["/health"; "/ready"; "/webhook"]) :
  match deps with
  | Some d =>
      if String.eqb pattern "/ws" then ws_ready d = true → guarded_route e
      else match dp_Pool d, dp_AuthJWT d with
           | true, Some _ => guarded_route e
           | _, _ => e = answer_pure stub501
           end
  | None => pattern = "/ws" ∨ e = answer_pure stub501
  end.
Proof.
  unfold httpapi_Register in Hin. rewrite !elem_of_app in Hin.
  assert (∀ l : list (string * string * endpoint), (method, pattern, e) ∈ l →
    Forall (λ r, ∃ h auth, r.2 = answers (authenticated auth h)) l → guarded_route e) as Hguard.
  { intros l Hl Hall. rewrite Forall_forall in Hall. destruct (Hall _ Hl) as (h & auth & Hr).
    simpl in Hr. subst e. apply authenticated_guarded. }
  assert (∀ l : list (string * string * endpoint), (method, pattern, e) ∈ l →
    Forall (λ r, r.2 = answer_pure stub501) l → e = answer_pure stub501) as Hstub.
  { intros l Hl Hall. rewrite Forall_forall in Hall. by apply Hall in Hl. }
  assert (∀ l : list (string * string * endpoint), (method, pattern, e) ∈ l →
    Forall (λ r, r.1.2 ≠ "/ws") l → pattern ≠ "/ws") as Hnws.
  { intros l Hl Hall. rewrite Forall_forall in Hall. by apply Hall in Hl. }
  assert (Forall (λ r, r.2 = answer_pure stub501) stub_routes ∧ Forall (λ r, r.1.2 ≠ "/ws") stub_routes)
    as [Hs1 Hs2] by (split; repeat constructor; done).
  destruct Hin as [Hin|[Hin|Hin]].
  - exfalso. apply Hpattern. rewrite !elem_of_cons, elem_of_nil in Hin. rewrite !elem_of_cons.
    destruct Hin as [Hin|[Hin|[Hin|[]]]]; injection Hin; intros; subst; auto.
  - unfold api_routes in Hin. destruct deps as [d|]; [|right; by eapply Hstub].
    destruct (dp_Pool d), (dp_AuthJWT d) as [auth|];
      (destruct (String.eqb_spec pattern "/ws") as [->|_]; [exfalso|]);
      try (by eapply Hstub); try (by eapply Hnws).
    + eapply Hnws; [exact Hin| |done]. repeat constructor; done.
    + eapply Hguard; [exact Hin|]. repeat constructor; do 2 eexists; reflexivity.
  - apply list_elem_of_singleton in Hin. injection Hin as -> -> ->.
    destruct deps as [d|]; [|by left]. simpl. intros Hr rq w Hb. unfold handleWS. rewrite Hr. simpl.
    by rewrite Hb.
Qed.
End gate.
