(* ===== verification/NotifyFacts.v ===== *)
(** * The worker's batch against its specification

    [batch_run] is what a batch may do: each claimed row in turn is either
    published and marked sent, or marked failed; a publish whose reply was
    lost has left all the same.  [processBatch] refines it under every
    pattern of database, Redis and HTTP failures. *)

From S2P Require Import Prelude GoStrings GoTime Json Uuid Identity World Repo RepoFacts RepoSound.
From S2P Require Import CitizenFacts Payload Http WebhookService WebhookFacts Integrations.
From S2P Require Import IntegrationsProps Auth HttpApi HttpFacts WsBus Notify.

Section spec.
Context `{UuidText} `{Postgres}.
Variables (wk : Worker) (pgnow : time).

Definition publication (o : outbox) : effect := Published (CitizenChannel (ob_citizen_id o)) (ob_payload o).

(** The row after a failed publish, the worker's clock reading [t]. *)
Definition failed_row (msg : string) (t : time) (o : outbox) : outbox :=
  let dead_ := wk_MaxAttempts wk <=? ob_attempts o + 1 in
  mark_failed msg (if dead_ then ob_next_attempt_at o else t + nextBackoff wk (ob_attempts o + 1))
    dead_ o.

Definition replace_row (id : uuid) (o : outbox) (d : database) : database :=
  set_outbox (<[id := o]> (event_outbox d)) d.

Inductive batch_run : list OutboxRow → list effect → database → database → list pushJob → Prop :=
| batch_done d : batch_run [] [] d d []
| batch_sent id o rows effs d d' jobs :
    event_outbox d !! id = Some o → ob_status o = pending →
    batch_run rows effs (replace_row id (mark_sent pgnow o) d) d' jobs →
    batch_run (outbox_row (id, o) :: rows) (publication o :: effs) d d'
      ({| pj_citizen := ob_citizen_id o; pj_raw := ob_payload o |} :: jobs)
| batch_failed id o msg t (delivered : bool) rows effs d d' jobs :
    event_outbox d !! id = Some o → ob_status o = pending → ob_attempts o < 2 ^ 31 - 1 →
    batch_run rows effs (replace_row id (failed_row msg t o) d) d' jobs →
    batch_run (outbox_row (id, o) :: rows)
      ((if delivered then [publication o] else []) ++ effs) d d' jobs.

(** The rows still to do are in the table as they were read. *)
Definition as_read (rows : list OutboxRow) (d : database) : Prop :=
  NoDup (or_ID <$> rows)
  ∧ ∀ row, row ∈ rows → ∃ o, event_outbox d !! or_ID row = Some o ∧ ob_status o = pending
                             ∧ row = outbox_row (or_ID row, o).

Lemma as_read_tail row rows o' d :
  as_read (row :: rows) d → as_read rows (replace_row (or_ID row) o' d).
Proof.
  intros [Hnd Hin]. apply NoDup_cons in Hnd as [Hni Hnd]. split; [done|].
  intros r Hr. destruct (Hin r) as (o & Ho & Hp & He); [by right|].
  exists o. split; [|done]. simpl. rewrite lookup_insert_ne; [done|].
  intros Heq. apply Hni. rewrite Heq. apply list_elem_of_fmap. by exists r.
Qed.
End spec.

(** ** Publishing *)

Lemma Publish_inv c p w w' r :
  Publish c p w = (w', r) →
  w_db w' = w_db w ∧ w_tx w' = w_tx w ∧ w_pgnow w' = w_pgnow w
  ∧ ∃ delivered : bool, w_effects w' = w_effects w ++ (if delivered then [Published c p] else [])
    ∧ (r = None → delivered = true).
Proof.
  unfold Publish. destruct (w_redis w) as [|[|m|m] fs]; intros [= <- <-]; simpl;
    (split; [done|]); (split; [done|]); (split; [done|]);
    first [by exists true|exists false; simpl; by rewrite app_nil_r].
Qed.

Lemma db_effects {A} (m : M A) w w' r :
  silent m → db m w = (w', r) → w_effects w' = w_effects w.
Proof.
  intros Hm (w1 & r1 & E & Hr)%bind_inv. injection Hr as <- _. apply Hm in E. tauto.
Qed.

Section refine.
Context `{UuidText} `{PostgresOk} `{Gobreaker} `{Unicode}.
Variable wk : Worker.

Lemma process_row_refines row rows w w' r d :
  w_tx w = Some d → as_read (row :: rows) d → process_row wk row w = (w', r) →
  w_db w' = w_db w ∧ w_pgnow w' = w_pgnow w
  ∧ ∃ effs, w_effects w' = w_effects w ++ effs
    ∧ (∀ e, e ∈ effs → ∃ c p, e = Published c p)
    ∧ match r with
      | Err _ => True
      | Ok job =>
          ∃ d1, w_tx w' = Some d1 ∧ as_read rows d1
            ∧ ∀ effs' d' jobs, batch_run wk (w_pgnow w) rows effs' d1 d' jobs →
                batch_run wk (w_pgnow w) (row :: rows) (effs ++ effs') d d'
                  (match job with Some j => j :: jobs | None => jobs end)
      end.
Proof.
  intros Hw Hrows Hrun. pose proof Hrows as [_ Hin].
  destruct (Hin row) as (o & Ho & Hpend & Hrow); [by left|]. clear Hin.
  apply bind_inv in Hrun as (w1 & e & Hpub & Hrun).
  apply Publish_inv in Hpub as (Hd1 & Ht1 & Hn1 & delivered & He1 & Hdel).
  rewrite Hw in Ht1.
  assert (∀ x, x ∈ (if delivered
            then [Published (CitizenChannel (or_CitizenID row)) (or_Payload row)] else []) →
          ∃ c p, x = Published c p) as Honly.
  { intros x. destruct delivered; [|by intros ?%elem_of_nil].
    intros ->%list_elem_of_singleton. eauto. }
  destruct e as [msg|].
  - apply bind_inv in Hrun as (w2 & t & Htime & Hrun). injection Htime as <- <-.
    apply ebind_inv in Hrun as (w3 & r3 & Hdb & Hrun).
    assert (w_effects w3 = w_effects w1) as He3 by (by eapply db_effects in Hdb; [|apply silent_run_sql]).
    apply db_inv in Hdb as (r0 & Hdb & ->).
    apply (tx_sql_inv _ _ _ _ d) in Hdb as (Hd3 & Hn3 & Hr3); [|exact Ht1].
    simpl in Hd3, Hn3.
    destruct r0 as [[]|err]; [|destruct Hrun as [-> ->]; split; [congruence|];
      split; [congruence|]; eexists; rewrite He3; split; [exact He1|]; done].
    unfold ok, mret, ST_ret in Hrun. injection Hrun as <- <-.
    destruct Hr3 as (d3 & Hst & Ht3). split; [congruence|]. split; [congruence|].
    exists (if delivered then [Published (CitizenChannel (or_CitizenID row)) (or_Payload row)] else []).
    rewrite He3. split; [done|]. split; [done|].
    unfold bad_text, out_of_range in Hst. destruct (negb _); [done|].
    rewrite Ho in Hst. destruct (Z.leb_spec (2 ^ 31 - 1) (ob_attempts o)) as [?|Hatt]; [done|].
    injection Hst as <-. eexists. split; [exact Ht3|].
    rewrite Hrow in *. simpl in *. split; [exact (as_read_tail _ _ _ _ Hrows)|].
    intros effs' d' jobs Hb. eapply (batch_failed wk (w_pgnow w) _ o msg _ delivered); done.
  - specialize (Hdel eq_refl). subst delivered.
    apply ebind_inv in Hrun as (w3 & r3 & Hdb & Hrun).
    assert (w_effects w3 = w_effects w1) as He3 by (by eapply db_effects in Hdb; [|apply silent_run_sql]).
    apply db_inv in Hdb as (r0 & Hdb & ->).
    apply (tx_sql_inv _ _ _ _ d) in Hdb as (Hd3 & Hn3 & Hr3); [|exact Ht1].
    destruct r0 as [[]|err]; [|destruct Hrun as [-> ->]; split; [congruence|];
      split; [congruence|]; eexists; rewrite He3; split; [exact He1|]; done].
    unfold ok, mret, ST_ret in Hrun. injection Hrun as <- <-.
    destruct Hr3 as (d3 & Hst & Ht3). split; [congruence|]. split; [congruence|].
    eexists. rewrite He3. split; [exact He1|]. split; [done|].
    injection Hst as <-. eexists. split; [exact Ht3|].
    assert (alter (mark_sent (w_pgnow w1)) (or_ID row) (event_outbox d)
            = <[or_ID row := mark_sent (w_pgnow w) o]> (event_outbox d)) as ->.
    { apply map_eq. intros i. rewrite Hn1. destruct (decide (i = or_ID row)) as [->|Hne].
      - by rewrite lookup_alter_eq, Ho, lookup_insert_eq.
      - by rewrite lookup_alter_ne, lookup_insert_ne. }
    split; [exact (as_read_tail _ _ _ _ Hrows)|].
    rewrite Hrow in *. simpl in *. intros effs' d' jobs Hb. by eapply batch_sent.
Qed.

Lemma process_rows_refines rows w w' r d :
  w_tx w = Some d → as_read rows d → process_rows wk rows w = (w', r) →
  w_db w' = w_db w ∧ w_pgnow w' = w_pgnow w
  ∧ ∃ effs, w_effects w' = w_effects w ++ effs
    ∧ (∀ e, e ∈ effs → ∃ c p, e = Published c p)
    ∧ match r with
      | Err _ => True
      | Ok jobs => ∃ d', w_tx w' = Some d' ∧ batch_run wk (w_pgnow w) rows effs d d' jobs
      end.
Proof.
  revert w w' d r. induction rows as [|row rows IH]; intros w w' d r Hw Hrows Hrun.
  - unfold ok, mret, ST_ret in Hrun. injection Hrun as <- <-. split; [done|]. split; [done|].
    exists []. rewrite app_nil_r. split; [done|]. split; [by intros e ?%elem_of_nil|].
    exists d. split; [done|constructor].
  - apply ebind_inv in Hrun as (w1 & r1 & Hrow & Hrun).
    apply (process_row_refines row rows _ _ _ d Hw Hrows) in Hrow
      as (Hd1 & Hn1 & effs1 & He1 & Ho1 & Hr1).
    destruct r1 as [job|e]; [|destruct Hrun as [-> ->]; eauto 10].
    destruct Hr1 as (d1 & Ht1 & Hread & Hcons).
    apply ebind_inv in Hrun as (w2 & r2 & Hrec & Hrun).
    apply (IH _ _ _ _ Ht1 Hread) in Hrec as (Hd2 & Hn2 & effs2 & He2 & Ho2 & Hr2).
    assert (∀ x, x ∈ effs1 ++ effs2 → ∃ c p, x = Published c p) as Hall by set_solver.
    assert (w_effects w2 = w_effects w ++ effs1 ++ effs2) as He by (by rewrite He2, He1, app_assoc).
    destruct r2 as [jobs|e]; [|destruct Hrun as [-> ->]; split; [congruence|];
      split; [congruence|]; eauto 10].
    unfold ok, mret, ST_ret in Hrun. injection Hrun as <- <-.
    destruct Hr2 as (d' & Ht2 & Hb). split; [congruence|]. split; [congruence|].
    exists (effs1 ++ effs2). split; [done|]. split; [done|]. exists d'. split; [done|].
    apply Hcons. by rewrite <-Hn1.
Qed.

(** The rows a batch claims: due, pending, unlocked, oldest first, at most
    [n]. *)
Definition claimed (cx : sql_context) (n : nat) (d : database) : list (uuid * outbox) :=
  take n (merge_sort outbox_le (select (claimable cx) (event_outbox d))).

Lemma claimed_in cx n d id o :
  (id, o) ∈ claimed cx n d → event_outbox d !! id = Some o ∧ claimable cx id o = true.
Proof.
  intros Hin%(subseteq_take n). by rewrite merge_sort_Permutation, elem_of_select in Hin.
Qed.

Lemma claimed_NoDup cx n d : NoDup (claimed cx n d).*1.
Proof.
  assert (NoDup (merge_sort outbox_le (select (claimable cx) (event_outbox d))).*1) as Hn.
  { rewrite merge_sort_Permutation. apply select_NoDup. }
  unfold claimed. rewrite fmap_take. eapply sublist_NoDup; [done|apply sublist_take].
Qed.

Lemma claimed_as_read cx n d : as_read (outbox_row <$> claimed cx n d) d.
Proof.
  split.
  - rewrite <-list_fmap_compose. apply claimed_NoDup.
  - intros row ([id o] & -> & [Ho Hc]%claimed_in)%list_elem_of_fmap. exists o. simpl.
    split; [done|]. split; [|done]. unfold claimable in Hc.
    apply andb_prop in Hc as [[Hp%bool_decide_eq_true _]%andb_prop _]. done.
Qed.
End refine.

Section batch.
Context `{UuidText} `{PostgresOk} `{Gobreaker} `{Unicode}.
Variable wk : Worker.

Lemma Begin_context w w' r : Begin w = (w', r) → context_of w' = context_of w.
Proof.
  unfold Begin, next_fault. destruct (w_faults w) as [|[] fs]; intros; by simplify_eq.
Qed.

Lemma silent_Begin : silent Begin.
Proof.
  intros w w' r. unfold Begin. destruct (next_fault w) as [w1 f] eqn:Ef.
  apply silent_next_fault in Ef. destruct f; intros; simplify_eq; exact Ef.
Qed.

Lemma silent_Commit : silent Commit.
Proof.
  intros w w' r. unfold Commit. destruct (w_tx w) as [d|]; [|by intros [= <- _]].
  destruct (next_fault w) as [w1 f] eqn:Ef.
  apply silent_next_fault in Ef. destruct f; intros; simplify_eq; exact Ef.
Qed.

Definition batch_limit : nat := Z.to_nat (if wk_BatchSize wk <? 1 then 1 else wk_BatchSize wk).

(** The rows of a batch that starts in this world. *)
Definition batch_rows (w : world) : list OutboxRow :=
  outbox_row <$> claimed (context_of w) batch_limit (w_db w).

Definition only_published (effs : list effect) : Prop := ∀ e, e ∈ effs → ∃ c p, e = Published c p.

Lemma batch_tx_refines w w' r :
  batch_tx wk w = (w', r) →
  ∃ effs, w_effects w' = w_effects w ++ effs ∧ only_published effs
    ∧ match r with
      | Ok jobs => w_tx w' = None
          ∧ batch_run wk (w_pgnow w) (batch_rows w) effs (w_db w) (w_db w') jobs
      | Err _ => w_db w' = w_db w
          ∨ ∃ jobs, batch_run wk (w_pgnow w) (batch_rows w) effs (w_db w) (w_db w') jobs
      end.
Proof.
  intros (w1 & r1 & Hb & Hrun)%ebind_inv.
  pose proof (db_effects _ _ _ _ silent_Begin Hb) as He1.
  apply db_inv in Hb as (r0 & Hb & ->). pose proof (Begin_context _ _ _ Hb) as Hcx.
  apply Begin_inv in Hb as (Hd1 & Hn1 & Ht1).
  destruct r0 as [[]|e]; [|destruct Hrun as [-> ->]; exists []; rewrite app_nil_r;
    split; [done|]; split; [by intros ? ?%elem_of_nil|by left]].
  apply ebind_inv in Hrun as (w2 & r2 & Hs & Hrun).
  pose proof (db_effects _ _ _ _ (silent_run_sql true _) Hs) as He2.
  apply db_inv in Hs as (r0 & Hs & ->).
  apply (tx_sql_inv _ _ _ _ _ Ht1) in Hs as (Hd2 & Hn2 & Hs).
  destruct r0 as [rows|e]; [|destruct Hrun as [-> ->]; exists []; rewrite app_nil_r;
    split; [congruence|]; split; [by intros ? ?%elem_of_nil|left; congruence]].
  destruct Hs as (d2 & Hs & Ht2). rewrite Hcx in Hs. injection Hs as <- <-.
  fold (claimed (context_of w) batch_limit (w_db w)) in Hrun. fold (batch_rows w) in Hrun.
  apply ebind_inv in Hrun as (w3 & r3 & Hp & Hrun).
  apply (process_rows_refines wk _ _ _ _ _ Ht2 (claimed_as_read _ _ _)) in Hp
    as (Hd3 & Hn3 & effs & He3 & Ho & Hr3).
  assert (w_effects w3 = w_effects w ++ effs) as He by congruence.
  exists effs. destruct r3 as [jobs|e]; [|destruct Hrun as [-> ->]; split; [done|];
    split; [done|]; left; congruence].
  destruct Hr3 as (d3 & Ht3 & Hb).
  assert (w_pgnow w2 = w_pgnow w) as Hn by congruence. rewrite Hn in Hb.
  apply ebind_inv in Hrun as (w4 & r4 & Hc & Hrun).
  pose proof (db_effects _ _ _ _ silent_Commit Hc) as He4.
  apply db_inv in Hc as (r0 & Hc & ->).
  apply (Commit_inv _ _ _ _ Ht3) in Hc as (Ht4 & _ & Hc).
  destruct r0 as [[]|e].
  - unfold ok, mret, ST_ret in Hrun. injection Hrun as <- <-.
    split; [congruence|]. split; [done|]. split; [done|]. by rewrite Hc.
  - destruct Hrun as [-> ->]. split; [congruence|]. split; [done|].
    destruct Hc as [Hc|Hc]; [left; congruence|right; exists jobs; by rewrite Hc].
Qed.

(** ** The pushes *)

Definition only_requests (effs : list effect) : Prop :=
  ∀ e, e ∈ effs → ∃ m u b, e = HttpRequest m u b.

(** An operation whose only effects are HTTP requests, and that leaves the
    tables alone. *)
Definition peers_only {A} (m : ST A) : Prop :=
  ∀ w w' a, m w = (w', a) →
    w_db w' = w_db w ∧ w_tx w' = w_tx w
    ∧ ∃ effs, w_effects w' = w_effects w ++ effs ∧ only_requests effs.

Lemma peers_only_silent {A} (m : ST A) : inert m → silent m → peers_only m.
Proof.
  intros Hi Hs w w' a Hm. destruct (Hi _ _ _ Hm). destruct (Hs _ _ _ Hm) as [He _].
  split; [done|]. split; [done|]. exists []. rewrite app_nil_r. split; [done|].
  by intros ? ?%elem_of_nil.
Qed.

Lemma peers_only_bind {A B} (m : ST A) (k : A → ST B) :
  peers_only m → (∀ a, peers_only (k a)) → peers_only (m ≫= k).
Proof.
  intros Hm Hk w w' b (w1 & a & E & Hr)%bind_inv.
  apply Hm in E as (Hd1 & Ht1 & e1 & He1 & Ho1). apply Hk in Hr as (Hd2 & Ht2 & e2 & He2 & Ho2).
  split; [congruence|]. split; [congruence|]. exists (e1 ++ e2).
  rewrite He2, He1, app_assoc. split; [done|]. intros e [?|?]%elem_of_app; auto.
Qed.

Lemma peers_only_ret {A} (a : A) : peers_only (mret a).
Proof. apply peers_only_silent; [apply inert_ret|apply silent_ret]. Qed.

Lemma Send_peers p t ti b : peers_only (Send p t ti b).
Proof.
  intros w w' r Hs. pose proof (Send_inert p t ti b _ _ _ Hs) as [Hd Ht].
  split; [done|]. split; [done|]. unfold Send in Hs. destruct p as [c|].
  2:{ injection Hs as <- _. exists []. rewrite app_nil_r. split; [done|]. by intros ? ?%elem_of_nil. }
  apply bind_inv in Hs as (w1 & x & Hx & Hs). injection Hs as <- _.
  set (f := discard_call "push" "POST" (ph_url c) (push_body t ti b)) in Hx.
  destruct (refusal push_breaker w) as [e|] eqn:He.
  - destruct (Execute_refused push_breaker tt f w e push_lawful He) as (w2 & E & Heff & _).
    rewrite E in Hx. injection Hx as <- _. exists []. rewrite app_nil_r. split; [done|].
    by intros ? ?%elem_of_nil.
  - destruct (Execute_admitted push_breaker tt f w push_lawful He) as (w2 & (Heff & _) & Hk).
    destruct (send_request_spec "POST" (ph_url c) (push_body t ti b) w2) as (w3 & Hq & Heff3 & _).
    edestruct Hk as (w4 & E & Heff4 & _).
    { unfold f, discard_call, mbind, ST_bind. rewrite Hq. reflexivity. }
    rewrite E in Hx. injection Hx as <- _. eexists. rewrite Heff4, Heff3, Heff.
    split; [reflexivity|]. unfold sent_request. intros x0. destruct (request_error _ _);
      [by intros ?%elem_of_nil|intros ->%list_elem_of_singleton; eauto].
Qed.

Lemma send_jobs_peers jobs : peers_only (send_jobs wk jobs).
Proof.
  induction jobs as [|j js IH]; simpl; [apply peers_only_ret|].
  apply peers_only_bind; [|done]. unfold sendPushNotifications.
  destruct (wk_Push wk) as [p|]; [|apply peers_only_ret].
  destruct (decode_wsPayload _) as [pl|]; [|apply peers_only_ret].
  apply peers_only_bind.
  - apply peers_only_silent; [|apply silent_run_sql].
    apply inert_pool_sql. by intros ???? [= _ <-].
  - intros [ts|e]; [|apply peers_only_ret]. clear IH js j. induction ts as [|t ts IH]; simpl;
      [apply peers_only_ret|]. apply peers_only_bind; [apply (Send_peers (Some p))|done].
Qed.

(** [processBatch], all in all. *)
Lemma processBatch_refines w w' r :
  w_tx w = None → processBatch wk w = (w', r) →
  w_tx w' = None ∧
  ∃ effs reqs, w_effects w' = w_effects w ++ effs ++ reqs
    ∧ only_published effs ∧ only_requests reqs
    ∧ match r with
      | Ok _ => ∃ jobs, batch_run wk (w_pgnow w) (batch_rows w) effs (w_db w) (w_db w') jobs
      | Err _ => reqs = [] ∧
          (w_db w' = w_db w
           ∨ ∃ jobs, batch_run wk (w_pgnow w) (batch_rows w) effs (w_db w) (w_db w') jobs)
      end.
Proof.
  intros Hw. unfold processBatch, defer_rollback.
  destruct (ebind _ _ w) as [w1 r1] eqn:E. intros [= <- <-]. simpl. split; [done|].
  apply ebind_inv in E as (w2 & r2 & Hb & E).
  apply batch_tx_refines in Hb as (effs & He & Ho & Hb).
  destruct r2 as [jobs|e].
  - destruct Hb as [_ Hb]. apply bind_inv in E as (w3 & u & Hj & E).
    unfold ok, mret, ST_ret in E. injection E as <- <-.
    apply send_jobs_peers in Hj as (Hd & _ & reqs & Hr & Hreq).
    exists effs, reqs. rewrite Hr, He, app_assoc. split_and!; try done.
    exists jobs. by rewrite Hd.
  - destruct E as [-> ->]. exists effs, []. rewrite app_nil_r. split_and!; try done.
    by intros ? ?%elem_of_nil.
Qed.
End batch.

(** ** What a batch run does to the tables *)

Section consequences.
Context `{UuidText} `{Postgres}.
Variables (wk : Worker) (pgnow : time).

(** A claimed row after its turn. *)
Inductive settled (effs : list effect) (o o' : outbox) : Prop :=
| settled_sent : o' = mark_sent pgnow o → publication o ∈ effs → settled effs o o'
| settled_failed msg t :
    ob_attempts o < 2 ^ 31 - 1 → o' = failed_row wk msg t o → settled effs o o'.

Lemma settled_mono effs effs' o o' :
  (∀ e, e ∈ effs → e ∈ effs') → settled effs o o' → settled effs' o o'.
Proof.
  intros Hsub [Ho Hp|msg t Ha Ho]; [apply settled_sent; auto|by eapply settled_failed].
Qed.

(** Rows of the batch are settled, the others are as before, and no other
    table changes. *)
Lemma batch_run_effect rows effs d d' jobs :
  batch_run wk pgnow rows effs d d' jobs → NoDup (or_ID <$> rows) →
  (∀ id, id ∉ or_ID <$> rows → event_outbox d' !! id = event_outbox d !! id)
  ∧ (∀ id, id ∈ or_ID <$> rows → ∃ o o', event_outbox d !! id = Some o ∧ ob_status o = pending
        ∧ event_outbox d' !! id = Some o' ∧ settled effs o o')
  ∧ d' = set_outbox (event_outbox d') d.
Proof.
  induction 1 as [d|id o rows effs d d' jobs Ho Hp Hb IH
                 |id o msg t dl rows effs d d' jobs Ho Hp Ha Hb IH];
    [intros _; split; [done|]; split; [by intros id ?%elem_of_nil|by destruct d]|..];
    intros [Hni Hnd]%NoDup_cons; destruct (IH Hnd) as (Hother & Hrow & Htab);
    (split; [|split]).
  1, 4: intros i Hi; rewrite fmap_cons, not_elem_of_cons in Hi; destruct Hi as [Hne Hi];
    rewrite Hother by done; simpl in *; by rewrite lookup_insert_ne.
  2, 4: rewrite Htab; simpl; by destruct d.
  all: intros i [->|Hi]%elem_of_cons; simpl in *.
  - exists o, (mark_sent pgnow o). split; [done|]. split; [done|].
    split; [by rewrite Hother, lookup_insert_eq|]. apply settled_sent; [done|by left].
  - destruct (Hrow i Hi) as (o1 & o2 & Hl & Hp1 & Hl2 & Hs).
    rewrite lookup_insert_ne in Hl by congruence. exists o1, o2. split_and!; try done.
    eapply settled_mono; [|exact Hs]. intros e He. by right.
  - exists o, (failed_row wk msg t o). split; [done|]. split; [done|].
    split; [by rewrite Hother, lookup_insert_eq|]. by eapply settled_failed.
  - destruct (Hrow i Hi) as (o1 & o2 & Hl & Hp1 & Hl2 & Hs).
    rewrite lookup_insert_ne in Hl by congruence. exists o1, o2. split_and!; try done.
    eapply settled_mono; [|exact Hs]. intros e He. apply elem_of_app. by right.
Qed.

Lemma settled_progress effs o o' :
  ob_status o = pending → settled effs o o' → outbox_progress o o'.
Proof.
  intros Hp Hs. unfold outbox_progress, outbox_same.
  destruct Hs as [-> _|msg t _ ->]; simpl; split_and!; try done; lia.
Qed.

Lemma batch_run_sound rows effs d d' jobs :
  batch_run wk pgnow rows effs d d' jobs → NoDup (or_ID <$> rows) → sound d d'.
Proof.
  intros Hb Hnd. destruct (batch_run_effect _ _ _ _ _ Hb Hnd) as (Hother & Hrow & ->).
  assert (∀ id o', event_outbox d' !! id = Some o' →
            ∃ o, event_outbox d !! id = Some o ∧ outbox_progress o o') as Hback.
  { intros id o' Hid. destruct (decide (id ∈ or_ID <$> rows)) as [Hin|Hni].
    - destruct (Hrow id Hin) as (o & o2 & Ho & Hp & Ho2 & Hs). exists o.
      split; [done|]. rewrite Hid in Ho2. simplify_eq. by eapply settled_progress.
    - rewrite Hother in Hid by done. exists o'. split; [done|reflexivity]. }
  apply sound_set_outbox.
  - intros id o Hid. destruct (decide (id ∈ or_ID <$> rows)) as [Hin|Hni].
    + destruct (Hrow id Hin) as (o1 & o2 & Ho & Hp & Ho2 & Hs). exists o2. split; [done|].
      rewrite Hid in Ho. simplify_eq. by eapply settled_progress.
    + exists o. rewrite Hother by done. split; [done|reflexivity].
  - intros Hwf id o' (o & Ho & (Hc & Hn & _) & _)%Hback. rewrite Hc, Hn.
    split; [by eapply wf_outbox_citizen|by eapply wf_outbox_notification].
Qed.
End consequences.

Section pool_op.
Context `{UuidText} `{PostgresOk} `{Gobreaker} `{Unicode}.

Lemma batch_rows_NoDup wk w : NoDup (or_ID <$> batch_rows wk w).
Proof. apply claimed_as_read. Qed.

Lemma elem_of_batch_rows wk w id :
  id ∈ or_ID <$> batch_rows wk w ↔
  ∃ o, (id, o) ∈ claimed (context_of w) (batch_limit wk) (w_db w).
Proof.
  unfold batch_rows. rewrite list_elem_of_fmap. split.
  - intros (r & -> & ([i o] & -> & Hin)%list_elem_of_fmap). by exists o.
  - intros [o Hin]. exists (outbox_row (id, o)). split; [done|]. apply list_elem_of_fmap. eauto.
Qed.

Lemma processBatch_sound wk : pool_op sound (processBatch wk).
Proof.
  intros w w' r Hw Hr. apply processBatch_refines in Hr
    as (Ht & effs & reqs & _ & _ & _ & Hr); [|done]. split; [done|].
  assert (∀ jobs, batch_run wk (w_pgnow w) (batch_rows wk w) effs (w_db w) (w_db w') jobs →
            sound (w_db w) (w_db w')) as Hs.
  { intros jobs Hb. eapply batch_run_sound; [exact Hb|apply batch_rows_NoDup]. }
  destruct r as [[]|e]; [destruct Hr as [jobs Hb]; by eapply Hs|].
  destruct Hr as [_ [->|[jobs Hb]]]; [reflexivity|by eapply Hs].
Qed.
End pool_op.

#[export] Hint Resolve processBatch_sound : respects.
