(* ===== verification/NotifyProps.v ===== *)
(** * What the worker and the subscriber guarantee *)

From S2P Require Import Prelude GoStrings GoTime Json Uuid World Repo RepoFacts RepoSound.
From S2P Require Import Payload Http Integrations WsBus Notify NotifyFacts.

Section worker.
Context `{UuidText} `{PostgresOk} `{Gobreaker} `{Unicode}.

(** C6: at-least-once delivery.  Whatever fails, a row that a batch leaves
    [sent] was [sent] before, or its payload was published on its citizen's
    channel during this very batch. *)
Theorem sent_rows_were_published wk w w' r id o
  (Htx : w_tx w = None) (Hrun : processBatch wk w = (w', r))
  (Hrow : event_outbox (w_db w') !! id = Some o) (Hsent : ob_status o = sent) :
  event_outbox (w_db w) !! id = Some o
  ∨ ∃ effs, w_effects w' = w_effects w ++ effs
      ∧ Published (CitizenChannel (ob_citizen_id o)) (ob_payload o) ∈ effs.
Proof.
  apply processBatch_refines in Hrun as (_ & effs & reqs & He & _ & _ & Hr); [|done].
  assert (∀ jobs, batch_run wk (w_pgnow w) (batch_rows wk w) effs (w_db w) (w_db w') jobs →
    event_outbox (w_db w) !! id = Some o ∨ publication o ∈ effs) as Hcases.
  { intros jobs Hb. apply batch_run_effect in Hb as (Hother & Hrows & _);
      [|apply batch_rows_NoDup].
    destruct (decide (id ∈ or_ID <$> batch_rows wk w)) as [Hin|Hni];
      [|left; by rewrite <-Hother].
    right. destruct (Hrows id Hin) as (o0 & o1 & _ & _ & Ho1 & Hs).
    rewrite Hrow in Ho1. simplify_eq. destruct Hs as [-> Hp|msg t _ ->]; [exact Hp|].
    simpl in Hsent. by destruct (_ <=? _). }
  assert (event_outbox (w_db w) !! id = Some o ∨ publication o ∈ effs) as [?|Hp];
    [|by left|right; exists (effs ++ reqs); split; [done|]; apply elem_of_app; by left].
  destruct r as [[]|e]; [destruct Hr as [jobs Hb]; by eapply Hcases|].
  destruct Hr as [_ [Hd|[jobs Hb]]]; [left; by rewrite <-Hd|by eapply Hcases].
Qed.

(** C19: a successful batch settles what it claims and nothing else.  It
    claims at most [BatchSize] rows, all pending, due and not locked by
    another worker.  Each one ends [sent] with its payload published, or with
    one more attempt: [dead] exactly when the attempts reach [MaxAttempts],
    else pending with the backoff of that attempt.  Every other row, and
    every other table, is as before. *)
Theorem batch_settles_its_rows wk w w'
  (Htx : w_tx w = None) (Hrun : processBatch wk w = (w', Ok tt)) :
  ∃ effs reqs, w_effects w' = w_effects w ++ effs ++ reqs ∧ only_requests reqs
  ∧ (length (batch_rows wk w) ≤ batch_limit wk)%nat
  ∧ w_db w' = set_outbox (event_outbox (w_db w')) (w_db w)
  ∧ ∀ id o, event_outbox (w_db w) !! id = Some o →
      if decide (id ∈ or_ID <$> batch_rows wk w) then
        claimable (context_of w) id o = true
        ∧ ((event_outbox (w_db w') !! id = Some (mark_sent (w_pgnow w) o)
            ∧ Published (CitizenChannel (ob_citizen_id o)) (ob_payload o) ∈ effs)
           ∨ ∃ msg t, event_outbox (w_db w') !! id = Some (
               let attempts := ob_attempts o + 1 in
               if wk_MaxAttempts wk <=? attempts
               then mark_failed msg (ob_next_attempt_at o) true o
               else mark_failed msg (t + nextBackoff wk attempts) false o))
      else event_outbox (w_db w') !! id = Some o.
Proof.
  apply processBatch_refines in Hrun as (_ & effs & reqs & He & _ & Hq & jobs & Hb); [|done].
  exists effs, reqs. apply batch_run_effect in Hb as (Hother & Hrows & Htab);
    [|apply batch_rows_NoDup].
  split; [done|]. split; [done|]. split.
  { unfold batch_rows, claimed. rewrite length_fmap, length_take. lia. }
  split; [done|]. intros id o Ho. destruct (decide _) as [Hin|Hni].
  - pose proof Hin as (o1 & Hcl)%elem_of_batch_rows. apply claimed_in in Hcl as [Ho1 Hcl].
    rewrite Ho in Ho1. simplify_eq. split; [done|].
    destruct (Hrows id Hin) as (o0 & o' & Ho0 & _ & Ho' & Hs). rewrite Ho in Ho0. simplify_eq.
    destruct Hs as [-> Hp|msg t _ ->]; [by left|right]. exists msg, t. rewrite Ho'.
    unfold failed_row. cbv zeta. by destruct (_ <=? _).
  - by rewrite Hother.
Qed.

(** The batch is all or nothing.  When it fails, either no row changed,
    or the commit took effect and only its reply was lost; in both cases no
    push request was sent. *)
Lemma failed_batch_is_atomic wk w w' e
  (Htx : w_tx w = None) (Hrun : processBatch wk w = (w', Err e)) :
  w_tx w' = None
  ∧ ∃ effs, w_effects w' = w_effects w ++ effs ∧ only_published effs
    ∧ (w_db w' = w_db w
       ∨ ∃ jobs, batch_run wk (w_pgnow w) (batch_rows wk w) effs (w_db w) (w_db w') jobs).
Proof.
  apply processBatch_refines in Hrun as (Ht & effs & reqs & He & Ho & _ & -> & Hr); [|done].
  split; [done|]. exists effs. by rewrite app_nil_r in He.
Qed.

(** The oldest come first: a row passed over for lack of room is no older
    than any claimed one. *)
Lemma outbox_le_trans : Transitive outbox_le.
Proof. intros x y z. unfold outbox_le. lia. Qed.
Lemma outbox_le_total : Total outbox_le.
Proof. intros x y. unfold outbox_le. lia. Qed.

(** No starvation within the queue.  A due row that a batch leaves out is
    no older than every row the batch takes, and it is left out only when
    the batch is full. *)
Lemma batch_takes_the_oldest wk w id o
  (Hrow : event_outbox (w_db w) !! id = Some o)
  (Hdue : claimable (context_of w) id o = true)
  (Hout : id ∉ or_ID <$> batch_rows wk w) :
  length (batch_rows wk w) = batch_limit wk
  ∧ ∀ id' o', (id', o') ∈ claimed (context_of w) (batch_limit wk) (w_db w) →
      outbox_le (id', o') (id, o).
Proof.
  unfold batch_rows, claimed in *. rewrite length_fmap.
  set (all := merge_sort outbox_le (select (claimable (context_of w)) (event_outbox (w_db w)))) in *.
  assert ((id, o) ∈ all) as Hall.
  { unfold all. rewrite merge_sort_Permutation. by apply elem_of_select. }
  assert ((id, o) ∈ drop (batch_limit wk) all) as Hdrop.
  { rewrite <-(take_drop (batch_limit wk) all) in Hall.
    apply elem_of_app in Hall as [Hin|Hin]; [|done]. exfalso. apply Hout.
    rewrite <-list_fmap_compose. apply list_elem_of_fmap. by exists (id, o). }
  split.
  - rewrite length_take. assert (length (drop (batch_limit wk) all) ≠ 0%nat).
    { intros Hz%length_zero_iff_nil. rewrite Hz in Hdrop. by apply not_elem_of_nil in Hdrop. }
    rewrite length_drop in *. lia.
  - intros id' o' Hin. assert (StronglySorted outbox_le all) as Hs.
    { apply StronglySorted_merge_sort; [exact outbox_le_trans|exact outbox_le_total]. } rewrite <-(take_drop (batch_limit wk) all) in Hs.
    by eapply StronglySorted_app_1_elem_of.
Qed.
End worker.

(** ** Channels *)

Section channels.
Context `{UuidTextOk}.

Lemma dispatch_of_channel cid payload :
  dispatch_of (Some (CitizenChannel cid, payload)) = Some (cid, payload).
Proof.
  unfold dispatch_of.
  assert (EqualFold (CitizenChannel cid) "subscribe" = false) as -> by reflexivity.
  assert (String.eqb (CitizenChannel cid) "" = false) as -> by reflexivity. simpl orb. cbv iota.
  unfold ParseCitizenChannel, CitizenChannel. rewrite HasPrefix_app, TrimPrefix_app. simpl.
  by rewrite uuid_Parse_String.
Qed.

(** What the worker publishes for a citizen, the subscriber dispatches to
    that citizen, payload unchanged; and it dispatches nothing but messages
    on a citizen's channel, to the citizen the channel names. *)
Lemma published_is_dispatched :
  (∀ cid payload, dispatch_of (Some (CitizenChannel cid, payload)) = Some (cid, payload))
  ∧ ∀ channel payload cid payload',
      dispatch_of (Some (channel, payload)) = Some (cid, payload') →
      payload' = payload ∧ ∃ id, channel = citizenChannelPrefix +:+ id ∧ uuid_Parse id = Some cid.
Proof.
  split.
  - apply dispatch_of_channel.
  - intros channel payload cid payload'. unfold dispatch_of. destruct (_ || _); [done|].
    unfold ParseCitizenChannel. destruct (HasPrefix _ _) eqn:E; [|done]. simpl.
    destruct (uuid_Parse _) as [c|] eqn:Ep; [|done]. intros [= <- <-]. split; [done|].
    apply HasPrefix_true in E. eauto.
Qed.
End channels.

(** ** Backoff *)

(** The backoff of attempt [n] is the base doubled [min n 10] times, as
    long as a thousand and twenty-four bases fit a duration: positive,
    doubling up to the cap, never beyond it. *)
Lemma nextBackoff_doubles wk n
  (Hbase : 0 < wk_BackoffBase wk) (Hfits : wk_BackoffBase wk * 1024 ≤ max_int64) (Hn : 1 ≤ n) :
  nextBackoff wk n = wk_BackoffBase wk * 2 ^ Z.min n 10
  ∧ 0 < nextBackoff wk n ≤ wk_BackoffBase wk * 1024
  ∧ nextBackoff wk (n + 1) = (if n <? 10 then 2 * nextBackoff wk n else nextBackoff wk n).
Proof.
  assert (∀ m, 1 ≤ m → nextBackoff wk m = wk_BackoffBase wk * 2 ^ Z.min m 10
                       ∧ 0 < wk_BackoffBase wk * 2 ^ Z.min m 10 ≤ wk_BackoffBase wk * 1024) as Hm.
  { intros m Hm. set (k := Z.min m 10).
    assert (0 < 2 ^ k) by (apply Z.pow_pos_nonneg; lia).
    assert (2 ^ k ≤ 2 ^ 10) by (apply Z.pow_le_mono_r; lia). change (2 ^ 10) with 1024 in *.
    split; [|nia]. unfold nextBackoff, shl_one.
    replace (if 10 <? m then 10 else m) with k by (destruct (Z.ltb_spec 10 m); lia).
    rewrite (proj2 (Z.leb_le 0 k)), (proj2 (Z.ltb_lt k 64)) by lia. simpl.
    apply wrap64_id. unfold in_int64, min_int64. apply andb_true_iff.
    rewrite !Z.leb_le. split; [|nia]. assert (0 ≤ wk_BackoffBase wk * 2 ^ k) by nia. lia. }
  destruct (Hm n Hn) as [-> ?]. split; [done|]. split; [done|].
  destruct (Hm (n + 1)) as [-> _]; [lia|]. destruct (Z.ltb_spec n 10).
  - rewrite !Z.min_l by lia. rewrite Z.pow_add_r by lia. lia.
  - by rewrite !Z.min_r by lia.
Qed.

(** A base the configuration accepts can overflow the product: the next
    attempt is then scheduled in the past. *)
Lemma nextBackoff_overflows :
  nextBackoff (NewWorker None 1 1 5 (2 ^ 62)) 1 = - 2 ^ 63.
Proof. reflexivity. Qed.

(** ** The subscriber's loop *)

(** A subscription that yields these messages and is then closed. *)
Definition closed_after (msgs : list (option (string * string))) : sub_turn :=
  {| tn_before := false; tn_events := (Received <$> msgs) ++ [ChannelClosed];
     tn_after := false; tn_in_sleep := false |}.

Section subscriber.
Context `{UuidText}.

Lemma runOnce_app msgs rest h :
  runOnce ((Received <$> msgs) ++ rest) h
  = (let '(h', o) := runOnce (Received <$> msgs) h in
     match o with Waiting => runOnce rest h' | _ => (h', o) end).
Proof.
  revert h. induction msgs as [|m msgs IH]; intros h; [done|]. simpl.
  destruct (dispatch_of m) as [[cid payload]|]; [|done]. by destruct (Dispatch cid payload h).
Qed.

Lemma runOnce_received msgs h :
  (runOnce (Received <$> msgs) h).2 = Waiting ∨ (runOnce (Received <$> msgs) h).2 = Panicked.
Proof.
  revert h. induction msgs as [|m msgs IH]; intros h; simpl; [by left|].
  destruct (dispatch_of m) as [[cid payload]|]; [|done]. destruct (Dispatch cid payload h); [done|by right].
Qed.

(** A reconnection loses nothing it was given and never waits.  Whatever
    happens, [Run] does not sleep once: [runOnce] only fails when the context
    is cancelled, and then [Run] returns.  So the messages of one
    subscription after another reach the hub in order, exactly as if they
    had come on a single one. *)
Lemma sub_Run_is_one_stream h :
  (∀ backoff turns, (sub_Run backoff turns h).1.2 = [])
  ∧ ∀ backoff streams,
      sub_Run backoff (closed_after <$> streams) h
      = (let '(h', o) := runOnce (Received <$> concat streams) h in
         (h', [], match o with Panicked => SubPanicked | _ => SubRunning end)).
Proof.
  split.
  - intros backoff turns. revert backoff h. induction turns as [|t ts IH]; intros b h; [done|]. simpl.
    destruct (tn_before t); [done|]. destruct (runOnce _ h) as [h1 []]; simpl; try done.
    + by rewrite orb_true_r.
    + destruct (tn_after t); [done|]. apply IH.
  - intros backoff streams. revert backoff h. induction streams as [|ms streams IH]; intros b h; [done|].
    simpl. rewrite fmap_app, !runOnce_app. pose proof (runOnce_received ms h) as Ho.
    destruct (runOnce (Received <$> ms) h) as [h1 o]. simpl in Ho. destruct Ho as [-> | ->]; [|done].
    simpl. apply IH.
Qed.
End subscriber.
