(* ===== verification/DrainFacts.v ===== *)
(** * The outbox drains: lemmas

    [work] measures what the outbox still owes: the attempts left to its
    pending rows.  [steady] operations leave the environment's outcomes,
    locks and clock as they are.  [sent_all] is what a batch does to the
    tables while Redis is up. *)

From S2P Require Import Prelude GoStrings GoTime Json Uuid World Repo RepoFacts RepoSound.
From S2P Require Import Payload Http WebhookService WebhookFacts Integrations IntegrationsProps Auth HttpApi HttpFacts.
From S2P Require Import WsBus Notify NotifyFacts.

(** ** Sums over a map *)

Definition map_sum {A} (f : A → nat) (m : gmap uuid A) : nat :=
  map_fold (λ _ a n, (f a + n)%nat) 0%nat m.

Lemma map_sum_insert {A} (f : A → nat) m i a :
  m !! i = None → map_sum f (<[i := a]> m) = (f a + map_sum f m)%nat.
Proof. intros Hi. unfold map_sum. rewrite map_fold_insert_L; [done|intros; lia|done]. Qed.

Lemma map_sum_lookup {A} (f : A → nat) m i a :
  m !! i = Some a → map_sum f m = (f a + map_sum f (delete i m))%nat.
Proof.
  intros Hi. rewrite <-(insert_delete_id m i a Hi) at 1.
  apply map_sum_insert, lookup_delete_eq.
Qed.

Lemma map_sum_replace {A} (f : A → nat) m i a b :
  m !! i = Some a → (map_sum f (<[i := b]> m) + f a = map_sum f m + f b)%nat.
Proof.
  intros Hi. rewrite (map_sum_lookup f m i a Hi), <-insert_delete_eq.
  rewrite map_sum_insert by apply lookup_delete_eq. lia.
Qed.

Lemma map_sum_zero {A} (f : A → nat) m :
  map_sum f m = 0%nat ↔ ∀ i a, m !! i = Some a → f a = 0%nat.
Proof.
  split.
  - intros Hz i a Hi. rewrite (map_sum_lookup f m i a Hi) in Hz. lia.
  - induction m as [|i a m Hi IH] using map_ind; [done|]. intros Hall.
    rewrite map_sum_insert by done. rewrite IH.
    + by rewrite (Hall i a (lookup_insert_eq _ _ _)).
    + intros j b Hj. apply (Hall j b). rewrite lookup_insert_ne; [done|]. congruence.
Qed.

Lemma map_sum_le {A} (f g : A → nat) m :
  (∀ i a, m !! i = Some a → (f a ≤ g a)%nat) → (map_sum f m ≤ map_sum g m)%nat.
Proof.
  induction m as [|i a m Hi IH] using map_ind; intros Hall; [done|].
  rewrite !map_sum_insert by done. apply Nat.add_le_mono.
  - apply (Hall i), lookup_insert_eq.
  - apply IH. intros j b Hj. apply (Hall j). rewrite lookup_insert_ne; [done|]. congruence.
Qed.

(** ** What the outbox still owes *)

(** The attempts a row may still take: at least one while it is pending. *)
Definition attempts_left (wk : Worker) (o : outbox) : nat :=
  match ob_status o with
  | pending => Z.to_nat (Z.max 1 (wk_MaxAttempts wk - ob_attempts o))
  | _ => 0
  end.

Definition work (wk : Worker) (d : database) : nat := map_sum (attempts_left wk) (event_outbox d).

Lemma work_zero wk d :
  work wk d = 0%nat ↔ ∀ id o, event_outbox d !! id = Some o → ob_status o ≠ pending.
Proof.
  unfold work. rewrite map_sum_zero. unfold attempts_left.
  split; intros Hall id o Ho; specialize (Hall id o Ho); destruct (ob_status o); try done; lia.
Qed.

Lemma work_replace wk d id o o' :
  event_outbox d !! id = Some o → (attempts_left wk o' < attempts_left wk o)%nat →
  (work wk (replace_row id o' d) < work wk d)%nat.
Proof.
  intros Ho Hlt. pose proof (map_sum_replace (attempts_left wk) _ _ _ o' Ho). unfold work. simpl. lia.
Qed.

Section work.
Context `{UuidText} `{Postgres}.
Variable wk : Worker.

Lemma attempts_left_failed msg t o :
  ob_status o = pending → (attempts_left wk (failed_row wk msg t o) < attempts_left wk o)%nat.
Proof.
  intros Hp. unfold attempts_left, failed_row. rewrite Hp. simpl.
  destruct (Z.leb_spec (wk_MaxAttempts wk) (ob_attempts o + 1)); simpl; lia.
Qed.

(** Every row a batch runs takes an attempt off what is owed. *)
Lemma batch_run_work pgnow rows effs d d' jobs :
  batch_run wk pgnow rows effs d d' jobs → (work wk d' + length rows ≤ work wk d)%nat.
Proof.
  induction 1 as [d|id o rows effs d d' jobs Ho Hp _ IH
                 |id o msg t dl rows effs d d' jobs Ho Hp _ _ IH]; simpl; [lia|..].
  - assert (attempts_left wk (mark_sent pgnow o) < attempts_left wk o)%nat as Hlt.
    { unfold attempts_left. rewrite Hp. simpl. lia. }
    apply (work_replace wk d id o) in Hlt; [lia|done].
  - pose proof (attempts_left_failed msg t o Hp) as Hlt.
    apply (work_replace wk d id o) in Hlt; [lia|done].
Qed.
End work.

(** ** Environments that stay *)

Definition steady {A} (m : ST A) : Prop :=
  ∀ w w' a, m w = (w', a) → w_faults w = [] →
    w_faults w' = [] ∧ w_redis w' = w_redis w ∧ w_locked w' = w_locked w ∧ w_pgnow w' = w_pgnow w.

Lemma steady_ret {A} (a : A) : steady (mret a).
Proof. by intros w w' x [= <- _] Hf. Qed.

Lemma steady_bind {A B} (m : ST A) (k : A → ST B) :
  steady m → (∀ a, steady (k a)) → steady (m ≫= k).
Proof.
  intros Hm Hk w w' b (w1 & a & E & Hr)%bind_inv Hf.
  destruct (Hm _ _ _ E Hf) as (Hf1 & ? & ? & ?).
  destruct (Hk _ _ _ _ Hr Hf1) as (? & ? & ? & ?). split_and!; congruence.
Qed.

Lemma steady_time_Now : steady time_Now.
Proof. by intros w w' x [= <- _] Hf. Qed.

Lemma steady_http_Do m u b : steady (http_Do m u b).
Proof. intros w w' x. unfold http_Do. simpl. by destruct (w_http w); intros [= <- _]. Qed.

Section steady.
Context `{UuidText} `{Postgres} `{Gobreaker} `{Unicode}.

Lemma steady_pool_sql {A} (st : sql A) : steady (pool_sql st).
Proof.
  intros w w' r E Hf. rewrite pool_sql_fine in E by done. revert E. cbv zeta.
  destruct (st _ _) as [[a d]|e]; by intros [= <- _].
Qed.

Lemma steady_Execute {A} (a0 : A) f : steady f → steady (Execute push_breaker a0 f).
Proof.
  intros Hf. apply steady_bind; [apply steady_time_Now|intros now].
  apply steady_bind; [by intros w w' h [= <- _]|intros h].
  assert (∀ e, steady (br_record push_breaker e)) as Hrec by (by intros e w w' u [= <- _]).
  destruct (breaker_refuses _ _ _); (apply steady_bind; [done|intros _]); [apply steady_ret|].
  apply steady_bind; [done|intros r]. apply steady_bind; [apply steady_time_Now|intros t].
  apply steady_bind; [done|intros _]. apply steady_ret.
Qed.

Lemma steady_Send p token title body : steady (Send p token title body).
Proof.
  unfold Send. destruct p as [p|]; [|apply steady_ret].
  apply steady_bind; [|intros r; apply steady_ret]. apply steady_Execute.
  apply steady_bind; [|intros o; apply steady_ret]. unfold send_request.
  destruct (request_error _ _); [apply steady_ret|apply steady_http_Do].
Qed.

Lemma steady_send_jobs wk jobs : steady (send_jobs wk jobs).
Proof.
  induction jobs as [|j js IH]; simpl; [apply steady_ret|]. apply steady_bind; [|done].
  unfold sendPushNotifications. destruct (wk_Push wk) as [p|]; [|apply steady_ret].
  destruct (decode_wsPayload _) as [pl|]; [|apply steady_ret].
  apply steady_bind; [apply steady_pool_sql|intros [ts|e]; [|apply steady_ret]].
  clear IH js j. induction ts as [|t ts IH]; simpl; [apply steady_ret|].
  apply steady_bind; [apply (steady_Send (Some p))|done].
Qed.
End steady.

(** ** A batch that the database does not fail *)

Lemma ebind_ok {E A B} (m : ST (result E A)) (k : A → ST (result E B)) w w1 a :
  m w = (w1, Ok a) → ebind m k w = k a w1.
Proof. unfold ebind. by intros ->. Qed.

Lemma db_ok {A} (m : M A) w w1 a : m w = (w1, Ok a) → db m w = (w1, Ok a).
Proof. unfold db, mbind, ST_bind. by intros ->. Qed.

(** The error texts Redis may return are storable. *)
Definition storable_errors `{Postgres} (fs : list fault) : Prop :=
  Forall (λ f, match f with Fine => True | Failed m | Lost m => pg_text m = true end) fs.

(** An attempt more fits the column. *)
Definition attempts_fit (d : database) : Prop :=
  ∀ id o, event_outbox d !! id = Some o → ob_status o = pending → ob_attempts o < 2 ^ 31 - 1.

Section fine.
Context `{UuidText} `{PostgresOk} `{Gobreaker} `{Unicode}.
Variable wk : Worker.

Lemma Publish_fine c p w :
  storable_errors (w_redis w) →
  ∃ w' r, Publish c p w = (w', r)
    ∧ w_tx w' = w_tx w ∧ w_faults w' = w_faults w ∧ storable_errors (w_redis w')
    ∧ (∀ m, r = Some m → pg_text m = true).
Proof.
  unfold Publish. destruct (w_redis w) as [|[|m|m] fs] eqn:E; intros Hs;
    (do 2 eexists; split; [reflexivity|]); simpl; rewrite ?E;
    (split; [done|]); (split; [done|]); try (apply Forall_cons in Hs as [Hm Hs]);
    (split; [done|]); intros x; try done; by intros [= <-].
Qed.

Lemma process_row_fine row d w :
  w_tx w = Some d → w_faults w = [] → storable_errors (w_redis w) →
  or_Attempts row < 2 ^ 31 - 1 → as_read [row] d →
  ∃ w' job d', process_row wk row w = (w', Ok job)
    ∧ w_tx w' = Some d' ∧ w_faults w' = [] ∧ storable_errors (w_redis w').
Proof.
  intros Hw Hf Hr Hatt [_ Hread]. destruct (Hread row) as (o & Ho & _ & Hrow); [by left|].
  unfold process_row. destruct (Publish_fine (CitizenChannel (or_CitizenID row)) (or_Payload row) w Hr)
    as (w1 & r & E & Ht1 & Hf1 & Hr1 & Hm). rewrite Hw in Ht1. rewrite Hf in Hf1.
  unfold mbind at 1, ST_bind. rewrite E. destruct r as [msg|].
  - unfold time_Now, mbind at 1, ST_bind, ebind, db, mbind, ST_bind.
    unfold MarkOutboxPublishFailed. erewrite tx_sql_fine by (simpl; eassumption). cbv zeta.
    rewrite Ho. rewrite (proj2 (Z.leb_gt _ _)) by (rewrite Hrow in Hatt; exact Hatt).
    assert (text_ok [msg] = true) as -> by (unfold text_ok; simpl; by rewrite (Hm msg eq_refl)).
    do 3 eexists. split; [reflexivity|]. simpl. by rewrite Hf1.
  - unfold ebind, db, mbind, ST_bind, MarkOutboxSent.
    erewrite tx_sql_fine by eassumption. do 3 eexists. split; [reflexivity|]. simpl. by rewrite Hf1.
Qed.

Lemma process_rows_fine rows d w :
  w_tx w = Some d → w_faults w = [] → storable_errors (w_redis w) → as_read rows d →
  Forall (λ row, or_Attempts row < 2 ^ 31 - 1) rows →
  ∃ w' jobs d', process_rows wk rows w = (w', Ok jobs) ∧ w_tx w' = Some d' ∧ w_faults w' = [].
Proof.
  revert d w. induction rows as [|row rows IH]; intros d w Hw Hf Hr Hread Hatt.
  { by exists w, [], d. }
  apply Forall_cons in Hatt as [Ha Hatt].
  destruct (process_row_fine row d w) as (w1 & job & d1 & E & Ht1 & Hf1 & Hr1); try done.
  { split; [apply NoDup_singleton|]. intros r ->%list_elem_of_singleton. apply Hread. by left. }
  pose proof E as (_ & _ & effs & _ & _ & d1' & Ht1' & Hread1 & _)%(process_row_refines wk row rows w w1 _ d Hw Hread).
  rewrite Ht1 in Ht1'. injection Ht1' as <-.
  destruct (IH d1 w1 Ht1 Hf1 Hr1 Hread1 Hatt) as (w2 & jobs & d2 & E2 & Ht2 & Hf2).
  exists w2. do 2 eexists. simpl. unfold ebind. rewrite E, E2. done.
Qed.

(** Whatever Redis and the push gateway do, the batch goes through. *)
Lemma processBatch_fine w :
  w_tx w = None → w_faults w = [] → storable_errors (w_redis w) → attempts_fit (w_db w) →
  ∃ w', processBatch wk w = (w', Ok tt).
Proof.
  intros Hw Hf Hr Hatt. set (w1 := with_gen (S (w_gen w)) (with_tx (Some (w_db w)) w)).
  set (w2 := with_tx (Some (w_db w)) w1).
  assert (as_read (batch_rows wk w) (w_db w)) as Hread by apply claimed_as_read.
  destruct (process_rows_fine (batch_rows wk w) (w_db w) w2) as (w3 & jobs & d3 & E & Ht3 & Hf3);
    try done.
  { apply Forall_forall. intros row Hin. destruct Hread as [_ Hread].
    destruct (Hread row Hin) as (o & Ho & Hp & ->). by eapply Hatt. }
  unfold processBatch, defer_rollback, batch_tx.
  erewrite ebind_ok; [destruct (send_jobs wk jobs (with_tx None (with_db d3 w3))) as [w4 []] eqn:Es|].
  { unfold mbind, ST_bind. rewrite Es. by eexists. }
  rewrite (ebind_ok _ _ _ _ _ (db_ok _ _ _ _ (Begin_fine w Hf))).
  erewrite ebind_ok by (apply db_ok; unfold SelectPendingOutboxForUpdate;
    by rewrite (tx_sql_fine _ _ (w_db w))).
  rewrite (ebind_ok _ _ _ _ _ E).
  by rewrite (ebind_ok _ _ _ _ _ (db_ok _ _ _ _ (Commit_fine w3 d3 Hf3 Ht3))).
Qed.
End fine.
