(* ===== verification/DrainProps.v ===== *)
(** * The outbox drains: theorems

    The worker's retries end, and while Redis is up it publishes the due rows
    in order, once each, [BatchSize] a tick. *)

From S2P Require Import Prelude GoStrings GoTime Json Uuid World Repo RepoFacts RepoSound.
From S2P Require Import Payload Http WebhookService WebhookFacts Integrations HttpFacts WsBus Notify NotifyFacts NotifyProps DrainFacts.

Section termination.
Context `{UuidText} `{PostgresOk} `{Gobreaker} `{Unicode}.
Variable wk : Worker.

(** The rows a batch settles for certain. *)
Definition settled_rows (w : world) (r : result string unit) : nat :=
  match r with Ok _ => length (batch_rows wk w) | Err _ => 0 end.

(** Batches one after another; between them the environment is free (time
    passes, other workers take locks, Redis comes and goes), the tables are
    the worker's. *)
Inductive batches : database → list nat → database → Prop :=
| batches_nil d : batches d [] d
| batches_cons w w' r ns d' :
    w_tx w = None → processBatch wk w = (w', r) → batches (w_db w') ns d' →
    batches (w_db w) (settled_rows w r :: ns) d'.

Lemma processBatch_work w w' r :
  w_tx w = None → processBatch wk w = (w', r) →
  (settled_rows w r + work wk (w_db w') ≤ work wk (w_db w))%nat.
Proof.
  intros Hw (_ & effs & reqs & _ & _ & _ & Hr)%processBatch_refines; [|done].
  destruct r as [[]|e]; simpl.
  - destruct Hr as [jobs Hb]. apply batch_run_work in Hb. lia.
  - destruct Hr as [_ [->|[jobs Hb]]]; [done|]. apply batch_run_work in Hb. lia.
Qed.

(** C13: retries terminate.  The work the outbox owes (for each pending row the
    attempts left up to [MaxAttempts], at least one) bounds the attempts all
    later batches make, whatever fails in between; it is zero exactly when
    no row is pending; and a batch the database does not fail makes progress
    whenever a row is due, whatever Redis and the push gateway do. *)
Theorem retries_terminate :
  (∀ d ns d', batches d ns d' → (sum_list ns + work wk d' ≤ work wk d)%nat)
  ∧ (∀ d, work wk d = 0%nat ↔ ∀ id o, event_outbox d !! id = Some o → ob_status o ≠ pending)
  ∧ (∀ w id o, w_tx w = None → w_faults w = [] → storable_errors (w_redis w) →
       attempts_fit (w_db w) →
       event_outbox (w_db w) !! id = Some o → claimable (context_of w) id o = true →
       ∃ w', processBatch wk w = (w', Ok tt) ∧ (work wk (w_db w') < work wk (w_db w))%nat).
Proof.
  split; [|split; [apply work_zero|]].
  - induction 1 as [d|w w' r ns d' Hw Hb _ IH]; [done|].
    apply processBatch_work in Hb; [|done]. simpl. lia.
  - intros w id o Hw Hf Hr Hatt Ho Hc.
    destruct (processBatch_fine wk w Hw Hf Hr Hatt) as [w' E]. exists w'. split; [done|].
    apply processBatch_work in E; [|done]. simpl in E.
    assert (length (batch_rows wk w) ≠ 0%nat); [|lia]. unfold batch_rows, claimed.
    rewrite length_fmap, length_take, merge_sort_Permutation.
    assert (length (select (claimable (context_of w)) (event_outbox (w_db w))) ≠ 0%nat) as Hne.
    { intros Hz%length_zero_iff_nil. rewrite select_nil in Hz. by rewrite (Hz id o Ho) in Hc. }
    unfold batch_limit. destruct (Z.ltb_spec (wk_BatchSize wk) 1); lia.
Qed.
End termination.

(** ** While Redis is up *)

Definition sent_all (now : time) (ids : list uuid) (d : database) : database :=
  foldl (λ d id, set_outbox (alter (mark_sent now) id (event_outbox d)) d) d ids.

Lemma sent_all_lookup now ids d id :
  event_outbox (sent_all now ids d) !! id
  = if decide (id ∈ ids) then mark_sent now <$> event_outbox d !! id else event_outbox d !! id.
Proof.
  revert d. induction ids as [|i ids IH]; intros d.
  { by rewrite decide_False by apply not_elem_of_nil. }
  change (sent_all now (i :: ids) d)
    with (sent_all now ids (set_outbox (alter (mark_sent now) i (event_outbox d)) d)).
  rewrite IH. cbn [event_outbox set_outbox]. destruct (decide (i = id)) as [->|Hne].
  - rewrite lookup_alter_eq. destruct (decide (id ∈ id :: ids)) as [_|Hn]; [|by destruct Hn; left].
    destruct (decide _); [|done]. by destruct (event_outbox d !! id).
  - rewrite lookup_alter_ne by done.
    destruct (decide (id ∈ ids)), (decide (id ∈ i :: ids)) as [Hi|Hi]; try done.
    + destruct Hi. by right.
    + by apply elem_of_cons in Hi as [->|?].
Qed.

Lemma sent_all_app now l k d : sent_all now (l ++ k) d = sent_all now k (sent_all now l d).
Proof. apply foldl_app. Qed.

Section up.
Context `{UuidText} `{PostgresOk} `{Gobreaker} `{Unicode}.
Variable wk : Worker.

Definition row_publication (row : OutboxRow) : effect :=
  Published (CitizenChannel (or_CitizenID row)) (or_Payload row).

Lemma process_rows_up rows d w :
  w_tx w = Some d → w_faults w = [] → w_redis w = [] →
  ∃ w' jobs, process_rows wk rows w = (w', Ok jobs)
    ∧ w_tx w' = Some (sent_all (w_pgnow w) (or_ID <$> rows) d)
    ∧ w_faults w' = [] ∧ w_redis w' = [] ∧ w_locked w' = w_locked w ∧ w_pgnow w' = w_pgnow w
    ∧ w_effects w' = w_effects w ++ (row_publication <$> rows).
Proof.
  revert d w. induction rows as [|row rows IH]; intros d w Hw Hf Hr.
  { exists w, []. simpl. by rewrite app_nil_r. }
  set (w1 := with_tx (Some (sent_all (w_pgnow w) [or_ID row] d))
    (with_gen (S (w_gen w)) (with_effects (w_effects w ++ [row_publication row]) w))).
  assert (process_row wk row w
    = (w1, Ok (Some {| pj_citizen := or_CitizenID row; pj_raw := or_Payload row |}))) as E.
  { unfold process_row, Publish. unfold mbind at 1, ST_bind. rewrite Hr. cbv beta iota zeta.
    erewrite ebind_ok by (apply db_ok; unfold MarkOutboxSent; by rewrite (tx_sql_fine _ _ d)).
    reflexivity. }
  destruct (IH (sent_all (w_pgnow w) [or_ID row] d) w1)
    as (w2 & jobs & E2 & Ht2 & Hf2 & Hr2 & Hl2 & Hn2 & He2); [done..|].
  exists w2. eexists. simpl. rewrite (ebind_ok _ _ _ _ _ E), (ebind_ok _ _ _ _ _ E2).
  split; [reflexivity|]. rewrite Ht2, He2. simpl. by rewrite <-app_assoc.
Qed.

(** The due rows, in the order the worker takes them. *)
Definition due (w : world) : list (uuid * outbox) :=
  merge_sort outbox_le (select (claimable (context_of w)) (event_outbox (w_db w))).

Lemma due_NoDup w : NoDup (due w).*1.
Proof. unfold due. rewrite merge_sort_Permutation. apply select_NoDup. Qed.

Lemma elem_of_due w id o :
  (id, o) ∈ due w ↔ event_outbox (w_db w) !! id = Some o ∧ claimable (context_of w) id o = true.
Proof. unfold due. by rewrite merge_sort_Permutation, elem_of_select. Qed.

(** Once its first rows are sent, the rest is due. *)
Lemma due_after w w' n :
  w_pgnow w' = w_pgnow w → w_locked w' = w_locked w →
  w_db w' = sent_all (w_pgnow w) (take n (due w)).*1 (w_db w) →
  due w' = drop n (due w).
Proof.
  intros Hn Hl Hd. pose proof (due_NoDup w) as Hnd.
  assert (∀ id o, claimable (context_of w') id o = claimable (context_of w) id o) as Hc.
  { intros id o. unfold claimable, context_of. simpl. by rewrite Hn, Hl. }
  assert (StronglySorted outbox_le (due w)) as Hs by
    (apply StronglySorted_merge_sort; [exact outbox_le_trans|exact outbox_le_total]).
  apply (StronglySorted_unique_strong outbox_le).
  - intros [[i] o] [[j] o'] Hi%elem_of_due Hj Hle Hge.
    assert (i = j) as -> by (unfold outbox_le in *; simpl in *; lia).
    f_equal. assert ((Uuid j, o') ∈ due w) as Hin by (by eapply subseteq_drop).
    destruct Hi as [Ho Hci]. rewrite Hd, sent_all_lookup in Ho. rewrite Hc in Hci.
    apply elem_of_due in Hin as [Ho' _]. rewrite Ho' in Ho.
    destruct (decide _); [|congruence]. injection Ho as <-. by unfold claimable in Hci.
  - apply StronglySorted_merge_sort; [exact outbox_le_trans|exact outbox_le_total].
  - rewrite <-(take_drop n (due w)) in Hs. by eapply StronglySorted_app_1_r.
  - rewrite <-(take_drop n (due w)), fmap_app in Hnd. apply NoDup_app in Hnd as (_ & Hdis & Hnd).
    apply NoDup_Permutation; [by eapply NoDup_fmap_1, due_NoDup|by eapply NoDup_fmap_1|].
    intros [i o]. rewrite elem_of_due, Hc, Hd, sent_all_lookup. split.
    + destruct (decide _) as [Hin|Hni]; intros [Ho Hcl].
      * destruct (event_outbox (w_db w) !! i) as [o0|]; [|done]. injection Ho as <-.
        by unfold claimable in Hcl.
      * assert ((i, o) ∈ due w) as Hdue by (by apply elem_of_due).
        rewrite <-(take_drop n (due w)) in Hdue. apply elem_of_app in Hdue as [Hin|]; [|done].
        destruct Hni. apply list_elem_of_fmap. by exists (i, o).
    + intros Hin. assert ((i, o) ∈ due w) as [Ho Hcl]%elem_of_due by (by eapply subseteq_drop).
      split; [|done]. destruct (decide _) as [Hi|_]; [|done]. exfalso. apply (Hdis i Hi).
      apply list_elem_of_fmap. by exists (i, o).
Qed.

Definition is_published (e : effect) : bool :=
  match e with Published _ _ => true | _ => false end.

Lemma filter_requests effs : only_requests effs → List.filter is_published effs = [].
Proof.
  induction effs as [|e effs IH]; intros Hr; [done|].
  destruct (Hr e) as (m & u & b & ->); [by left|]. apply IH. intros x Hx. apply Hr. by right.
Qed.

Lemma filter_publications (rows : list (uuid * outbox)) :
  List.filter is_published (row_publication <$> (outbox_row <$> rows))
  = (λ p, publication p.2) <$> rows.
Proof. induction rows as [|[i o] rows IH]; [done|]. rewrite !fmap_cons. simpl. by rewrite <-IH. Qed.

Lemma batch_rows_due w : batch_rows wk w = outbox_row <$> take (batch_limit wk) (due w).
Proof. done. Qed.

(** An environment without failures, locks apart. *)
Definition calm_world (w : world) : Prop := w_tx w = None ∧ w_faults w = [] ∧ w_redis w = [].

Lemma processBatch_up w :
  calm_world w →
  ∃ w' effs, processBatch wk w = (w', Ok tt) ∧ calm_world w'
    ∧ w_locked w' = w_locked w ∧ w_pgnow w' = w_pgnow w
    ∧ w_db w' = sent_all (w_pgnow w) (take (batch_limit wk) (due w)).*1 (w_db w)
    ∧ w_effects w' = w_effects w ++ effs
    ∧ List.filter is_published effs = (λ p, publication p.2) <$> take (batch_limit wk) (due w).
Proof.
  intros (Hw & Hf & Hr). set (w1 := with_gen (S (w_gen w)) (with_tx (Some (w_db w)) w)).
  set (w2 := with_tx (Some (w_db w)) w1).
  destruct (process_rows_up (batch_rows wk w) (w_db w) w2)
    as (w3 & jobs & E & Ht3 & Hf3 & Hr3 & Hl3 & Hn3 & He3); [done..|].
  set (d3 := sent_all _ _ _) in Ht3. set (w4 := with_tx None (with_db d3 w3)).
  destruct (send_jobs wk jobs w4) as [w5 []] eqn:Es.
  pose proof (steady_send_jobs wk jobs _ _ _ Es Hf3) as (Hf5 & Hr5 & Hl5 & Hn5).
  pose proof (send_jobs_peers wk jobs _ _ _ Es) as (Hd5 & Ht5 & reqs & He5 & Hreq).
  exists (with_tx None w5), ((row_publication <$> batch_rows wk w) ++ reqs). split.
  { unfold processBatch, defer_rollback, batch_tx.
    erewrite ebind_ok; [unfold mbind, ST_bind; by rewrite Es|].
    rewrite (ebind_ok _ _ _ _ _ (db_ok _ _ _ _ (Begin_fine w Hf))).
    erewrite ebind_ok by (apply db_ok; unfold SelectPendingOutboxForUpdate;
      by rewrite (tx_sql_fine _ _ (w_db w))).
    rewrite (ebind_ok _ _ _ _ _ E).
    by rewrite (ebind_ok _ _ _ _ _ (db_ok _ _ _ _ (Commit_fine w3 d3 Hf3 Ht3))). }
  split; [split_and!; [done|done|simpl; by rewrite Hr5]|]. simpl.
  split; [by rewrite Hl5|]. split; [by rewrite Hn5|]. split.
  { rewrite Hd5. change (w_db w4) with d3. unfold d3.
    by rewrite batch_rows_due, <-list_fmap_compose. }
  split; [by rewrite He5; simpl; rewrite He3, app_assoc|].
  rewrite List.filter_app, (filter_requests reqs) by done.
  by rewrite app_nil_r, batch_rows_due, filter_publications.
Qed.

Lemma run_ticks_up w n :
  calm_world w →
  ∃ w' effs, run_ticks wk n w = (w', tt) ∧ w_effects w' = w_effects w ++ effs
    ∧ List.filter is_published effs = (λ p, publication p.2) <$> take (n * batch_limit wk) (due w)
    ∧ w_db w' = sent_all (w_pgnow w) (take (n * batch_limit wk) (due w)).*1 (w_db w).
Proof.
  revert w. induction n as [|n IH]; intros w Hw.
  { exists w, []. by rewrite app_nil_r. }
  destruct (processBatch_up w Hw) as (w1 & e1 & E & Hw1 & Hl1 & Hn1 & Hd1 & He1 & Hp1).
  pose proof (due_after w w1 _ Hn1 Hl1 Hd1) as Hdue.
  destruct (IH w1 Hw1) as (w2 & e2 & E2 & He2 & Hp2 & Hd2). exists w2, (e1 ++ e2).
  simpl. unfold mbind, ST_bind. rewrite E, E2. split; [done|].
  split; [by rewrite He2, He1, app_assoc|].
  rewrite List.filter_app, Hp1, Hp2, Hd2, Hd1, Hn1, Hdue.
  by rewrite <-fmap_app, <-sent_all_app, <-fmap_app, take_take_drop.
Qed.

(** C11: throughput and order.  While Redis and the database answer, [n] ticks
    publish the first [n * BatchSize] due rows, in the order of their
    creation, once each and nothing else, and leave exactly these rows
    [sent]; whatever the push gateway does.  So enough ticks publish every
    row that is due. *)
Theorem ticks_drain_the_outbox w n
  (Htx : w_tx w = None) (Hfaults : w_faults w = []) (Hredis : w_redis w = []) :
  let k := (n * batch_limit wk)%nat in
  ∃ w' effs, run_ticks wk n w = (w', tt) ∧ w_effects w' = w_effects w ++ effs
    ∧ List.filter is_published effs = (λ p, publication p.2) <$> take k (due w)
    ∧ StronglySorted outbox_le (due w)
    ∧ (∀ id o, event_outbox (w_db w) !! id = Some o →
         event_outbox (w_db w') !! id
         = Some (if decide (id ∈ (take k (due w)).*1) then mark_sent (w_pgnow w) o else o))
    ∧ ((length (due w) ≤ k)%nat →
       ∀ id o, event_outbox (w_db w) !! id = Some o → claimable (context_of w) id o = true →
         event_outbox (w_db w') !! id = Some (mark_sent (w_pgnow w) o)).
Proof.
  cbv zeta. destruct (run_ticks_up w n) as (w' & effs & E & He & Hp & Hd); [done|].
  exists w', effs. split; [done|]. split; [done|]. split; [done|].
  split; [apply StronglySorted_merge_sort; [exact outbox_le_trans|exact outbox_le_total]|].
  assert (∀ id o, event_outbox (w_db w) !! id = Some o →
         event_outbox (w_db w') !! id
         = Some (if decide (id ∈ (take (n * batch_limit wk) (due w)).*1)
                 then mark_sent (w_pgnow w) o else o)) as Hrow.
  { intros id o Ho. rewrite Hd, sent_all_lookup, Ho. by destruct (decide _). }
  split; [done|]. intros Hall id o Ho Hc. rewrite (Hrow id o Ho), decide_True; [done|].
  rewrite take_ge by done. apply list_elem_of_fmap. exists (id, o). by rewrite elem_of_due.
Qed.
End up.
