(* ===== verification/DeliveryProps.v ===== *)
(** * From the event to the device

    The payload that an accepted event leaves in the outbox, read back by the
    worker's push and by WebSocket clients, is the event: its title, text and
    chamado, byte for byte, and no member but the documented ones. *)

From S2P Require Import Prelude GoStrings GoTime TimeFacts Json JsonFacts Uuid Identity Payload World Repo RepoFacts.
From S2P Require Import Http WebhookService WebhookFacts Integrations WsBus Notify.

(** A [jsonb] column keeps an object of strings with distinct keys, the order
    of its members apart. *)
Class PostgresJsonb `(Postgres) := {
  pg_jsonb_strings s t ms :
    pg_jsonb s = Some t → Unmarshal s = Some (JObj (strings ms)) → NoDup ms.*1 →
    ∃ ms', ms' ≡ₚ ms ∧ Unmarshal t = Some (JObj (strings ms'))
}.

(** ** The members of a payload *)

Definition outbox_keys : list string :=
  ["type"; "id"; "chamado_id"; "title"; "body"; "created_at"; "status_anterior"; "status_novo";
   "event_type"; "source_timestamp"].

Definition optional_member (k : string) (v : option string) : list (string * string) :=
  match v with Some s => [(k, s)] | None => [] end.

Definition outbox_members (o : notificationOutbox) : list (string * string) :=
  [("type", no_Type o); ("id", no_ID o); ("chamado_id", no_ChamadoID o); ("title", no_Title o);
   ("body", no_Body o); ("created_at", Format (no_CreatedAt o))]
  ++ optional_member "status_anterior" (no_StatusAnterior o)
  ++ optional_member "status_novo" (no_StatusNovo o)
  ++ optional_member "event_type" (no_EventType o)
  ++ optional_member "source_timestamp" (Format <$> no_SourceTimestamp o).

Lemma outbox_members_json o j :
  notificationOutbox_json o = Ok j → j = JObj (strings (outbox_members o)).
Proof.
  unfold notificationOutbox_json, time_json, outbox_members, omitempty, optional_member.
  destruct (_ && _); [|done].
  destruct (no_SourceTimestamp o) as [t|]; [destruct (_ && _); [|done]|]; intros [= <-];
    destruct (no_StatusAnterior o), (no_StatusNovo o), (no_EventType o); reflexivity.
Qed.

Lemma to_valids_keys ms : (to_valids ms).*1 = to_valid <$> ms.*1.
Proof. unfold to_valids. by rewrite <-!list_fmap_compose. Qed.

(** The keys as they are read back: distinct, and documented. *)
Lemma outbox_members_keys o :
  NoDup (to_valids (outbox_members o)).*1
  ∧ Forall (λ k, k ∈ outbox_keys) (to_valids (outbox_members o)).*1.
Proof.
  rewrite to_valids_keys. unfold outbox_members. rewrite !fmap_app.
  destruct (no_StatusAnterior o), (no_StatusNovo o), (no_EventType o), (no_SourceTimestamp o);
    cbn [optional_member fmap option_fmap option_map list_fmap fst app];
    split; apply (bool_decide_unpack _); by vm_compute.
Qed.

(** ** What the push decodes *)

Lemma push_fields :
  Forall (λ k, match_field ["title"; "body"] k
               = if bool_decide (k ∈ ["title"; "body"]) then Some k else None) outbox_keys.
Proof. apply (bool_decide_unpack _). by vm_compute. Qed.

Definition push_decode (ms : list (string * string)) (p : wsPayload) : option wsPayload :=
  decode_members ["title"; "body"] set_wsPayload false (strings ms) p.

(** A key that occurs once decides its field; an absent one leaves it. *)
Lemma push_decode_fields ms p :
  Forall (λ k, k ∈ outbox_keys) ms.*1 → NoDup ms.*1 →
  ∃ p', push_decode ms p = Some p'
    ∧ (∀ t, ("title", t) ∈ ms → pl_Title p' = t) ∧ ("title" ∉ ms.*1 → pl_Title p' = pl_Title p)
    ∧ (∀ t, ("body", t) ∈ ms → pl_Body p' = t) ∧ ("body" ∉ ms.*1 → pl_Body p' = pl_Body p).
Proof.
  revert p. induction ms as [|[k s] ms IH]; intros p Hk Hnd.
  { exists p. split_and!; try done; by intros t ?%elem_of_nil. }
  apply Forall_cons in Hk as [Hk Hks]. apply NoDup_cons in Hnd as [Hni Hnd]. simpl in Hk, Hni.
  pose proof push_fields as Hf. rewrite Forall_forall in Hf. specialize (Hf k Hk).
  set (p1 := if bool_decide (k ∈ ["title"; "body"]) then set_wsPayload k s p else p).
  destruct (IH p1 Hks Hnd) as (p' & Hp' & Ht1 & Ht0 & Hb1 & Hb0). exists p'. split.
  { unfold push_decode in *. cbn [strings fmap list_fmap decode_members fst snd]. rewrite Hf.
    unfold p1 in Hp'. by destruct (bool_decide _). }
  assert (∀ t (P : string → Prop) k0, ((k0, t) ∈ ms → P t) →
            (k0 ∉ ms.*1 → k = k0 → P s) → (k0, t) ∈ (k, s) :: ms → P t) as Hin.
  { intros t P k0 Hold Hnew [[= -> ->]|Hin]%elem_of_cons; auto. }
  split_and!.
  - intros t. apply (Hin t (λ t, pl_Title p' = t) "title"); [apply Ht1|].
    intros Hno ->. by rewrite (Ht0 Hno).
  - simpl. intros [Hne Hno]%not_elem_of_cons. rewrite (Ht0 Hno). unfold p1, set_wsPayload.
    case_bool_decide; [|done]. by rewrite (proj2 (String.eqb_neq k "title")).
  - intros t. apply (Hin t (λ t, pl_Body p' = t) "body"); [apply Hb1|].
    intros Hno ->. by rewrite (Hb0 Hno).
  - simpl. intros [Hne Hno]%not_elem_of_cons. rewrite (Hb0 Hno). unfold p1, set_wsPayload.
    case_bool_decide as Hin'; [|done]. destruct (String.eqb_spec k "title"); [done|].
    rewrite !elem_of_cons, elem_of_nil in Hin'. naive_solver.
Qed.

(** ** An accepted payload holds valid text *)

Definition utf8_payload (p : EventPayload) : Prop :=
  utf8 (chars (ChamadoID p)) ∧ utf8 (chars (Titulo p)) ∧ utf8 (chars (Descricao p)).

Lemma unmarshalStrictJSON_utf8 body p : unmarshalStrictJSON body empty_payload = Some p → utf8_payload p.
Proof.
  unfold unmarshalStrictJSON. destruct (decode_first body) as [[v rest]|] eqn:E; [|done].
  eapply (decode_first_struct utf8_payload); [|by split_and!; constructor|exact E].
  intros f s p0 Hs (H1 & H2 & H3). unfold utf8_payload, set_payload_field. simpl.
  split_and!; by case_match.
Qed.

Lemma accepted_utf8 s rq body p : accepted s rq body p → utf8_payload p.
Proof.
  intros [_ _ (p0 & Hp0 & Hv)]. apply unmarshalStrictJSON_utf8 in Hp0. revert Hv. unfold Validate.
  destruct (_ || _); [done|]. destruct (NormalizeCPF11 _); [|done].
  repeat case_match; intros; simplify_eq; exact Hp0.
Qed.

(** ** A rendered time is ASCII *)

Definition ascii_bytes (s : list ascii) : Prop := Forall (λ a, byte_val a < 128) s.

Lemma ascii_utf8 s : ascii_bytes s → utf8 s.
Proof.
  induction 1 as [|a s Ha _ IH]; [constructor|]. apply (utf8_rune [a]); [done| |done].
  unfold rune_size. by rewrite (proj2 (Z.ltb_lt _ _) Ha).
Qed.

Lemma pad_digits_ascii w z : ascii_bytes (pad_digits w z).
Proof.
  revert z. induction w as [|w IH]; intros z; [constructor|]. apply Forall_app. split; [apply IH|].
  apply Forall_singleton. pose proof (Z.mod_pos_bound z 10). rewrite byte_val_of; lia.
Qed.

Lemma fraction_digits_ascii ns : ascii_bytes (fraction_digits ns).
Proof.
  unfold fraction_digits. destruct (drop_zeros_spec (rev (pad_digits 9 ns))) as [k Hk].
  pose proof (List.Forall_rev (pad_digits_ascii 9 ns)) as Hp.
  rewrite Hk in Hp. apply Forall_app in Hp as [_ Hp%List.Forall_rev].
  destruct (rev (drop_zeros _)) as [|a ds]; constructor; [done|exact Hp].
Qed.

Lemma Format_utf8 t : utf8 (chars (Format t)).
Proof.
  apply ascii_utf8. unfold Format. destruct (civil_of_days _) as [y m d]. rewrite chars_unchars.
  unfold ascii_bytes. rewrite !Forall_app. split_and!;
    first [apply pad_digits_ascii|apply fraction_digits_ascii|by apply Forall_singleton].
Qed.

(** What encodes can be read back. *)
Lemma time_json_year t j : time_json t = Ok j → four_digit_year t.
Proof.
  unfold time_json, four_digit_year. destruct (_ && _) eqn:E; [|done].
  apply andb_prop in E as [?%Z.leb_le ?%Z.leb_le]. done.
Qed.

Lemma outbox_json_years o j :
  notificationOutbox_json o = Ok j →
  four_digit_year (no_CreatedAt o) ∧ ∀ t, no_SourceTimestamp o = Some t → four_digit_year t.
Proof.
  unfold notificationOutbox_json. destruct (time_json (no_CreatedAt o)) as [c|] eqn:Ec; [|done].
  apply time_json_year in Ec. destruct (no_SourceTimestamp o) as [t|]; [|done].
  destruct (time_json t) as [c'|] eqn:Et; [|done]. apply time_json_year in Et.
  intros _. split; [done|]. by intros t' [= <-].
Qed.

Section delivery.
Context `{UuidText} `{PostgresOk} `{!PostgresJsonb _}.

Lemma stored_payload nid p now payload text :
  utf8_payload p → OutboxPayloadJSON nid p now = Ok payload → pg_jsonb payload = Some text →
  ∃ ms, Unmarshal text = Some (JObj (strings ms))
    ∧ NoDup ms.*1 ∧ Forall (λ k, k ∈ outbox_keys) ms.*1
    ∧ ("chamado_id", ChamadoID p) ∈ ms ∧ ("title", Titulo p) ∈ ms ∧ ("body", Descricao p) ∈ ms
    ∧ (∃ ts, ("created_at", ts) ∈ ms ∧ Parse RFC3339 ts = Some now)
    ∧ ∀ src, ParsedTimestamp p = Some src →
        ∃ ts, ("source_timestamp", ts) ∈ ms ∧ Parse RFC3339 ts = Some src.
Proof.
  intros (Hc & Ht & Hb) Hpay Hjson. unfold OutboxPayloadJSON in Hpay.
  set (o := outbox_of nid p now) in *.
  destruct (notificationOutbox_json o) as [j|] eqn:Ej; [|done]. injection Hpay as <-.
  pose proof (outbox_json_years _ _ Ej) as [Hyear Hsrc].
  apply outbox_members_json in Ej as ->. destruct (outbox_members_keys o) as [Hnd Hks].
  destruct (pg_jsonb_strings _ _ _ Hjson (Unmarshal_Marshal_strings _) Hnd) as (ms & Hperm & Hms).
  pose proof (fmap_Permutation fst _ _ Hperm) as Hkeys.
  exists ms. split; [done|]. split; [by apply (NoDup_Permutation_proper _ _ Hkeys)|].
  split; [revert Hks; apply Forall_Permutation; [done|by symmetry]|].
  assert (∀ k s, to_valid k = k → utf8 (chars s) → (k, s) ∈ outbox_members o →
            (k, s) ∈ ms) as Hin.
  { intros k s Hk Hs Hin. apply (elem_of_Permutation_proper _ _ _ Hperm), list_elem_of_fmap. exists (k, s).
    split; [simpl; by rewrite Hk, to_valid_utf8|done]. }
  split_and!; try (apply Hin; [by vm_compute|done|]; unfold outbox_members; simpl; rewrite !elem_of_cons; by auto 10).
  - exists (Format now). split; [|by apply Parse_Format]. apply Hin; [by vm_compute|apply Format_utf8|].
    unfold outbox_members. simpl. rewrite !elem_of_cons. auto 10.
  - intros src Hp. exists (Format src). split; [|by apply Parse_Format, Hsrc].
    apply Hin; [by vm_compute|apply Format_utf8|]. unfold outbox_members, o, outbox_of. simpl no_SourceTimestamp.
    rewrite Hp, !elem_of_app. do 4 right. by left.
Qed.

(** What whoever decodes the payload finds in it. *)
Definition carries (raw : string) (p : EventPayload) : Prop :=
  decode_wsPayload raw = Some {| pl_Title := Titulo p; pl_Body := Descricao p |}
  ∧ ∃ ms, Unmarshal raw = Some (JObj (strings ms))
      ∧ (∀ k v, (k, v) ∈ ms → k ∈ outbox_keys)
      ∧ ("chamado_id", ChamadoID p) ∈ ms ∧ ("title", Titulo p) ∈ ms ∧ ("body", Descricao p) ∈ ms
      ∧ ∃ ts src, ("source_timestamp", ts) ∈ ms ∧ Parse RFC3339 ts = Some src
                  ∧ ParsedTimestamp p = Some src.

Lemma stored_payload_carries nid p now payload text srcTS :
  utf8_payload p → OutboxPayloadJSON nid p now = Ok payload → pg_jsonb payload = Some text →
  ParsedTimestamp p = Some srcTS → carries text p.
Proof.
  intros Hutf Hpay Hjson Hts.
  destruct (stored_payload _ _ _ _ _ Hutf Hpay Hjson) as (ms & Hms & Hnd & Hks & Hch & Hti & Hbo & _ & Hsrc).
  split.
  - unfold decode_wsPayload. rewrite Hms.
    destruct (push_decode_fields ms {| pl_Title := ""; pl_Body := "" |} Hks Hnd)
      as ([t b] & Hdec & Ht & _ & Hb & _).
    simpl in Ht, Hb. rewrite <-(Ht _ Hti), <-(Hb _ Hbo). exact Hdec.
  - destruct (Hsrc srcTS Hts) as (ts & Hin & Hparse).
    exists ms. split_and!; try done; [|by exists ts, srcTS].
    intros k v Hkv. rewrite Forall_forall in Hks. apply Hks.
    apply list_elem_of_fmap. by exists (k, v).
Qed.

(** The outbox row of an event answered [ok]. *)
Lemma accepted_row s rq body p w w' :
  accepted s rq body p → w_tx w = None → HandlePOST s rq w = (w', ok_response) →
  ∃ oid o c, event_outbox (w_db w) !! oid = None ∧ event_outbox (w_db w') !! oid = Some o
    ∧ citizens (w_db w') !! ob_citizen_id o = Some c
    ∧ ct_fingerprint c = CitizenFingerprint (svc_pepper s) (CPF p)
    ∧ ob_status o = pending ∧ ob_next_attempt_at o = w_pgnow w ∧ carries (ob_payload o) p.
Proof.
  intros Hacc Htx Hrun. pose proof (accepted_utf8 _ _ _ _ Hacc) as Hutf.
  rewrite (HandlePOST_accepted _ _ _ _ _ Hacc) in Hrun.
  apply bind_inv in Hrun as (wp & [[]|e] & Hp & Hk);
    [|discriminate Hk|by apply bind_inv in Hk as (? & ? & _ & Hk)].
  injection Hk as <-. apply persist_refines in Hp as [_ Hp]; [|done].
  inversion Hp as [srcTS d1 cid nid oid created payload text Hts _ [_ Hcit] _ _ Hnew Hpay Hjson Hd|].
  destruct Hcit as (c & Hc & Hfp).
  exists oid, (pending_row (w_pgnow w) cid nid text), c. simpl. split_and!; try done.
  - apply lookup_insert_eq.
  - by eapply stored_payload_carries.
Qed.

(** C16: what is delivered is what was reported.  When an event is answered
    [ok], a new outbox row exists for the citizen with the CPF's
    fingerprint, and whoever decodes its payload (the push worker, a
    WebSocket client) finds an object with no member but the documented ones
    and exactly the event's chamado, title and text, whatever bytes they
    contain, and a source timestamp that parses back to the event's instant
    to the nanosecond; the push's own decoding yields that title and text. *)
Theorem payload_carries_the_event s rq body p w w'
  (Hacc : accepted s rq body p) (Htx : w_tx w = None)
  (Hrun : HandlePOST s rq w = (w', ok_response)) :
  ∃ oid o, event_outbox (w_db w) !! oid = None ∧ event_outbox (w_db w') !! oid = Some o
    ∧ (∃ c, citizens (w_db w') !! ob_citizen_id o = Some c
            ∧ ct_fingerprint c = CitizenFingerprint (svc_pepper s) (CPF p))
    ∧ carries (ob_payload o) p.
Proof.
  destruct (accepted_row _ _ _ _ _ _ Hacc Htx Hrun) as (oid & o & c & Hnew & Ho & Hc & Hfp & _ & _ & Hcar).
  exists oid, o. split; [done|]. split; [done|]. split; [by exists c|done].
Qed.
End delivery.
