(* ===== verification/Replicas.v ===== *)
(** * Several workers on one outbox

    Every replica of the server runs a worker on the same database.  The
    statements of their batches interleave: a batch claims rows with [FOR
    UPDATE SKIP LOCKED], holds their locks, takes its turns in its own
    transaction, and shows its changes at its commit only.  Between any two of
    these steps other workers, webhooks and citizens go on. *)

From S2P Require Import Prelude GoStrings GoTime Json Uuid World Repo RepoFacts RepoSound.
From S2P Require Import Payload Http Integrations WsBus Notify NotifyFacts.

(** ** State *)

(** A turn taken in an open transaction. *)
Record turn := Turn {
  tn_id : uuid;
  tn_old : outbox;
  tn_new : outbox;
  tn_effects : list effect;
  tn_jobs : list pushJob
}.

(** An open batch: its [now()], the turns taken, the rows still to do. *)
Record batch := Batch {
  bt_now : time;
  bt_done : list turn;
  bt_todo : list (uuid * outbox)
}.

Definition turn_row (t : turn) : uuid * outbox := (tn_id t, tn_old t).

(** The rows a batch has locked. *)
Definition bt_rows (b : batch) : list (uuid * outbox) := (turn_row <$> bt_done b) ++ bt_todo b.
Definition bt_locks (b : batch) : gset uuid := list_to_set (bt_rows b).*1.

Record cluster := Cluster {
  cl_db : database;               (** committed *)
  cl_open : gmap nat batch;       (** the open batch of each worker *)
  cl_effects : list effect
}.

Definition locks_of (open : gmap nat batch) : gset uuid :=
  map_fold (λ _ b acc, bt_locks b ∪ acc) ∅ open.

(** What a commit makes visible. *)
Definition apply_turn (d : database) (t : turn) : database := replace_row (tn_id t) (tn_new t) d.
Definition apply_turns (ts : list turn) (d : database) : database := foldl apply_turn d ts.

(** ** Steps *)

Section steps.
Context `{UuidText} `{Postgres}.
Variable wks : nat → Worker.

(** One turn of [processBatch]'s loop, publish and mark. *)
Inductive takes_turn (wk : Worker) (now : time) : turn → Prop :=
| turn_sent id o :
    takes_turn wk now
      (Turn id o (mark_sent now o) [publication o]
         [{| pj_citizen := ob_citizen_id o; pj_raw := ob_payload o |}])
| turn_failed id o msg t (delivered : bool) :
    ob_attempts o < 2 ^ 31 - 1 →
    takes_turn wk now
      (Turn id o (failed_row wk msg t o) (if delivered then [publication o] else []) []).

(** What everybody else may commit meanwhile: outbox rows are added, never
    changed. *)
Definition bystander (d d' : database) : Prop :=
  sound d d' ∧ ∀ id o, event_outbox d !! id = Some o → event_outbox d' !! id = Some o.

Definition claim_context (u : uuid) (now : time) (s : cluster) : sql_context :=
  {| cx_uuid := u; cx_now := now; cx_locked := locks_of (cl_open s) |}.

(** A worker's statement. *)
Inductive worker_step (s : cluster) : cluster → Prop :=
| step_claim i u now :
    cl_open s !! i = None →
    worker_step s
      (Cluster (cl_db s)
         (<[i := Batch now [] (claimed (claim_context u now s) (batch_limit (wks i)) (cl_db s))]>
            (cl_open s))
         (cl_effects s))
| step_turn i b t rest :
    cl_open s !! i = Some b → bt_todo b = turn_row t :: rest → takes_turn (wks i) (bt_now b) t →
    worker_step s
      (Cluster (cl_db s) (<[i := Batch (bt_now b) (bt_done b ++ [t]) rest]> (cl_open s))
         (cl_effects s ++ tn_effects t))
| step_commit i b :
    cl_open s !! i = Some b → bt_todo b = [] →
    worker_step s
      (Cluster (apply_turns (bt_done b) (cl_db s)) (delete i (cl_open s)) (cl_effects s))
| step_rollback i b :
    cl_open s !! i = Some b →
    worker_step s (Cluster (cl_db s) (delete i (cl_open s)) (cl_effects s)).

Inductive cluster_step (s : cluster) : cluster → Prop :=
| step_worker s' : worker_step s s' → cluster_step s s'
| step_bystander d :
    bystander (cl_db s) d →
    cluster_step s (Cluster d (cl_open s) (cl_effects s)).

(** ** The atomic view *)

(** A batch as one step on the committed tables. *)
Definition atomic_batch (published : list effect) (d d' : database) : Prop :=
  ∃ i now rows effs jobs,
    batch_run (wks i) now (outbox_row <$> rows) effs d d' jobs
    ∧ NoDup rows.*1 ∧ ∀ e, e ∈ effs → e ∈ published.

Definition atomic_step (published : list effect) (d d' : database) : Prop :=
  bystander d d' ∨ atomic_batch published d d'.

(** ** Invariant *)

(** An open batch's rows are in the committed tables as it read them. *)
Record batch_ok (s : cluster) (i : nat) (b : batch) : Prop := {
  bo_nodup : NoDup (bt_rows b).*1;
  bo_rows id o : (id, o) ∈ bt_rows b → event_outbox (cl_db s) !! id = Some o ∧ ob_status o = pending;
  bo_turns t : t ∈ bt_done b → takes_turn (wks i) (bt_now b) t;
  bo_effects t e : t ∈ bt_done b → e ∈ tn_effects t → e ∈ cl_effects s
}.

Record cluster_ok (s : cluster) : Prop := {
  co_batch i b : cl_open s !! i = Some b → batch_ok s i b;
  co_disjoint i j b b' : i ≠ j → cl_open s !! i = Some b → cl_open s !! j = Some b' →
    bt_locks b ## bt_locks b'
}.
End steps.

(** ** Lemmas *)

Lemma elem_of_bt_locks b id : id ∈ bt_locks b ↔ ∃ o, (id, o) ∈ bt_rows b.
Proof.
  unfold bt_locks. rewrite elem_of_list_to_set, list_elem_of_fmap. split.
  - intros ([i o] & -> & Hin). by exists o.
  - intros [o Hin]. by exists (id, o).
Qed.

Lemma elem_of_locks_of open id :
  id ∈ locks_of open ↔ ∃ i b, open !! i = Some b ∧ id ∈ bt_locks b.
Proof.
  unfold locks_of. revert id.
  apply (map_fold_weak_ind (λ acc open, ∀ id, id ∈ acc ↔ ∃ i b, open !! i = Some b ∧ id ∈ bt_locks b)).
  - intros id. rewrite elem_of_empty. split; [done|]. by intros (i & b & Hi%lookup_empty_Some & _).
  - intros i b m acc Hi IH id. rewrite elem_of_union, IH. split.
    + intros [Hb|(j & b' & Hj & Hb')]; [exists i, b; by rewrite lookup_insert_eq|].
      exists j, b'. rewrite lookup_insert_ne; [done|congruence].
    + intros (j & b' & [[<- <-]|[Hne Hj]]%lookup_insert_Some & Hb'); [by left|right; eauto].
Qed.

Section facts.
Context `{UuidText} `{PostgresOk}.

Lemma apply_turns_other ts d id :
  id ∉ tn_id <$> ts → event_outbox (apply_turns ts d) !! id = event_outbox d !! id.
Proof.
  revert d. induction ts as [|t ts IH]; intros d; [done|].
  rewrite fmap_cons, not_elem_of_cons. intros [Hne Hni].
  change (apply_turns (t :: ts) d) with (apply_turns ts (apply_turn d t)).
  rewrite IH by done. simpl. by rewrite lookup_insert_ne.
Qed.

(** Turns taken one after another are a batch. *)
Lemma turns_batch_run wk now ts d :
  NoDup (tn_id <$> ts) →
  (∀ t, t ∈ ts → takes_turn wk now t) →
  (∀ t, t ∈ ts → event_outbox d !! tn_id t = Some (tn_old t) ∧ ob_status (tn_old t) = pending) →
  batch_run wk now (outbox_row <$> (turn_row <$> ts)) (concat (tn_effects <$> ts)) d
    (apply_turns ts d) (concat (tn_jobs <$> ts)).
Proof.
  revert d. induction ts as [|t ts IH]; intros d Hnd Htk Hrow; [apply batch_done|].
  apply NoDup_cons in Hnd as [Hni Hnd]. destruct (Hrow t) as [Ho Hp]; [by left|].
  assert (batch_run wk now (outbox_row <$> (turn_row <$> ts)) (concat (tn_effects <$> ts))
            (apply_turn d t) (apply_turns ts (apply_turn d t)) (concat (tn_jobs <$> ts))) as Hrest.
  { apply IH; [done|intros t' Ht'; apply Htk; by right|]. intros t' Ht'. simpl.
    rewrite lookup_insert_ne; [apply Hrow; by right|]. intros Heq. apply Hni. rewrite Heq.
    apply list_elem_of_fmap. by exists t'. }
  destruct (Htk t) as [id o|id o msg t' dl Ha]; [by left|..]; simpl in *.
  - by apply batch_sent.
  - by eapply (batch_failed wk now id o msg t' dl).
Qed.

(** And conversely a batch is its turns. *)
Lemma batch_run_turns wk now rows effs d d' jobs :
  batch_run wk now rows effs d d' jobs → NoDup (or_ID <$> rows) →
  ∃ ts, rows = outbox_row <$> (turn_row <$> ts) ∧ effs = concat (tn_effects <$> ts)
    ∧ d' = apply_turns ts d
    ∧ ∀ t, t ∈ ts → takes_turn wk now t ∧ event_outbox d !! tn_id t = Some (tn_old t).
Proof.
  assert (∀ id o rows d (ts : list turn), rows = outbox_row <$> (turn_row <$> ts) → id ∉ or_ID <$> rows →
    (∀ t, t ∈ ts → takes_turn wk now t
       ∧ event_outbox (replace_row id o d) !! tn_id t = Some (tn_old t)) →
    ∀ t, t ∈ ts → takes_turn wk now t ∧ event_outbox d !! tn_id t = Some (tn_old t)) as Hback.
  { intros id o rows0 d0 ts -> Hni Hts t Ht. destruct (Hts t Ht) as [? Hl]. split; [done|].
    simpl in Hl. rewrite lookup_insert_ne in Hl; [done|]. intros ->. apply Hni.
    rewrite <-!list_fmap_compose. apply list_elem_of_fmap. by exists t. }
  induction 1 as [d|id o rows effs d d' jobs Ho Hp _ IH
                 |id o msg t dl rows effs d d' jobs Ho Hp Ha _ IH].
  - exists []. split_and!; try done. by intros t ?%elem_of_nil.
  - intros [Hni Hnd]%NoDup_cons. destruct (IH Hnd) as (ts & Hrows & -> & -> & Hts).
    exists (Turn id o (mark_sent now o) [publication o]
              [{| pj_citizen := ob_citizen_id o; pj_raw := ob_payload o |}] :: ts).
    split; [by rewrite Hrows|]. split; [done|]. split; [done|].
    intros t [->|Hin]%elem_of_cons; [split; [apply turn_sent|done]|by eapply Hback].
  - intros [Hni Hnd]%NoDup_cons. destruct (IH Hnd) as (ts & Hrows & -> & -> & Hts).
    exists (Turn id o (failed_row wk msg t o) (if dl then [publication o] else []) [] :: ts).
    split; [by rewrite Hrows|]. split; [done|]. split; [done|].
    intros t' [->|Hin]%elem_of_cons; [split; [by apply turn_failed|done]|by eapply Hback].
Qed.
End facts.

(** ** Every reachable cluster is in order *)

Section invariant.
Context `{UuidText} `{PostgresOk}.
Variable wks : nat → Worker.

Lemma batch_ok_frame s s' i b :
  batch_ok wks s i b →
  (∀ id o, (id, o) ∈ bt_rows b → event_outbox (cl_db s) !! id = Some o →
     event_outbox (cl_db s') !! id = Some o) →
  (∀ e, e ∈ cl_effects s → e ∈ cl_effects s') →
  batch_ok wks s' i b.
Proof.
  intros [Hnd Hrows Htk Heff] Hdb He. split; [done| |done|eauto].
  intros id o Hin. destruct (Hrows id o Hin) as [Ho Hp]. split; [by apply Hdb|done].
Qed.

Lemma done_ids_locked b id : id ∈ tn_id <$> bt_done b → id ∈ bt_locks b.
Proof.
  intros (t & -> & Ht)%list_elem_of_fmap. apply elem_of_bt_locks. exists (tn_old t).
  apply elem_of_app. left. apply list_elem_of_fmap. by exists t.
Qed.

Lemma cluster_step_ok s s' : cluster_step wks s s' → cluster_ok wks s → cluster_ok wks s'.
Proof.
  intros Hstep [Hok Hdis].
  destruct Hstep as [? [i u now Hi|i b t rest Hi Htodo Htk|i b Hi Htodo|i b Hi]|d [_ Hd]].
  - set (rows := claimed _ _ _). set (b := Batch now [] rows).
    assert (∀ id o, (id, o) ∈ rows → event_outbox (cl_db s) !! id = Some o ∧ ob_status o = pending
              ∧ id ∉ locks_of (cl_open s)) as Hrows.
    { intros id o [Ho Hc]%claimed_in. split; [done|]. unfold claimable in Hc.
      apply andb_prop in Hc as [[Hp%bool_decide_eq_true _]%andb_prop Hl%negb_true_iff].
      split; [done|]. by apply bool_decide_eq_false in Hl. }
    assert (∀ j bj, cl_open s !! j = Some bj → bt_locks b ## bt_locks bj) as Hfresh.
    { intros j bj Hj id [o Hin]%elem_of_bt_locks Hl. apply Hrows in Hin as (_ & _ & Hno).
      apply Hno, elem_of_locks_of. eauto. }
    split; simpl.
    + intros j bj [[<- <-]|[Hne Hj]]%lookup_insert_Some.
      * split; [apply claimed_NoDup| |by intros t ?%elem_of_nil|by intros t e ?%elem_of_nil].
        intros id o Hin. apply Hrows in Hin. tauto.
      * by eapply (batch_ok_frame s); [apply Hok| |].
    + intros j k bj bk Hjk [[<- <-]|[Hne Hj]]%lookup_insert_Some
        [[<- <-]|[Hne' Hk]]%lookup_insert_Some; [done|by eapply Hfresh|symmetry; by eapply Hfresh|].
      by apply (Hdis j k).
  - pose proof (Hok i b Hi) as Hb. set (b' := Batch _ _ rest).
    assert (bt_rows b' = bt_rows b) as Hrows.
    { unfold bt_rows. simpl. rewrite fmap_app, Htodo, <-app_assoc. done. }
    assert (bt_locks b' = bt_locks b) as Hlocks by (unfold bt_locks; by rewrite Hrows).
    split; simpl.
    + intros j bj [[<- <-]|[Hne Hj]]%lookup_insert_Some.
      * destruct Hb as [Hnd Hr Ht He]. split; simpl; rewrite ?Hrows; [done|done| |].
        -- intros t' [Hin| ->%list_elem_of_singleton]%elem_of_app; [by apply Ht|done].
        -- intros t' e [Hin| ->%list_elem_of_singleton]%elem_of_app He'; apply elem_of_app;
             [left; by eapply He|by right].
      * eapply (batch_ok_frame s); [by apply Hok|done|]. intros e He. apply elem_of_app. by left.
    + intros j k bj bk Hjk [[<- <-]|[Hne Hj]]%lookup_insert_Some
        [[<- <-]|[Hne' Hk]]%lookup_insert_Some; [done|rewrite Hlocks; by apply (Hdis i k)
        |rewrite Hlocks; by apply (Hdis j i)|by apply (Hdis j k)].
  - split; simpl.
    + intros j bj [Hne Hj]%lookup_delete_Some. eapply (batch_ok_frame s); [by apply Hok| |done].
      intros id o Hin Ho. simpl. rewrite apply_turns_other; [done|]. intros Hdone%done_ids_locked.
      apply (Hdis i j b bj Hne Hi Hj id Hdone). apply elem_of_bt_locks. eauto.
    + intros j k bj bk Hjk [_ Hj]%lookup_delete_Some [_ Hk]%lookup_delete_Some. by apply (Hdis j k).
  - split; simpl.
    + intros j bj [_ Hj]%lookup_delete_Some. by eapply (batch_ok_frame s); [apply Hok| |].
    + intros j k bj bk Hjk [_ Hj]%lookup_delete_Some [_ Hk]%lookup_delete_Some. by apply (Hdis j k).
  - split; simpl; [|done]. intros j bj Hj. eapply (batch_ok_frame s); [by apply Hok| |done].
    intros id o _. apply Hd.
Qed.

(** A worker's step changes the committed tables as an atomic batch does, or
    not. *)
Lemma worker_step_atomic s s' :
  worker_step wks s s' → cluster_ok wks s →
  cl_db s' = cl_db s ∨ atomic_batch wks (cl_effects s') (cl_db s) (cl_db s').
Proof.
  intros Hstep [Hok _].
  destruct Hstep as [i u now Hi|i b t rest Hi Htodo Htk|i b Hi Htodo|i b Hi]; simpl; try by left.
  right. destruct (Hok i b Hi) as [Hnd Hr Ht He].
  assert (bt_rows b = turn_row <$> bt_done b) as Hrows by (unfold bt_rows; by rewrite Htodo, app_nil_r).
  rewrite Hrows in *. exists i, (bt_now b), (turn_row <$> bt_done b).
  do 2 eexists. split; [apply turns_batch_run|split; [done|]].
  - by rewrite <-list_fmap_compose in Hnd.
  - done.
  - intros t Hin. apply Hr, list_elem_of_fmap. by exists t.
  - intros e Hin. apply list_elem_of_In, in_concat in Hin as (l & Hl & Hin).
    apply list_elem_of_In, list_elem_of_fmap in Hl as (t & -> & Htin).
    eapply He; [exact Htin|by apply list_elem_of_In].
Qed.

Lemma cluster_step_atomic s s' :
  cluster_step wks s s' → cluster_ok wks s →
  cl_db s' = cl_db s ∨ atomic_step wks (cl_effects s') (cl_db s) (cl_db s').
Proof.
  intros [t Ht|d Hd] Hok; [|right; by left].
  destruct (worker_step_atomic s t Ht Hok) as [->|Hb]; [by left|right; by right].
Qed.

Lemma cluster_step_effects s s' e :
  cluster_step wks s s' → e ∈ cl_effects s → e ∈ cl_effects s'.
Proof. intros [? []|] He; simpl; try done. apply elem_of_app. by left. Qed.

Lemma atomic_step_mono effs effs' d d' :
  (∀ e, e ∈ effs → e ∈ effs') → atomic_step wks effs d d' → atomic_step wks effs' d d'.
Proof.
  intros Hsub [Hd|(i & now & rows & effs0 & jobs & Hb & Hnd & He)]; [by left|right].
  exists i, now, rows, effs0, jobs. split_and!; [done|done|auto].
Qed.
End invariant.

(** ** Theorems *)

Section theorems.
Context `{UuidText} `{PostgresOk} `{Gobreaker} `{Unicode}.
Variable wks : nat → Worker.

(** The turns of one worker, uninterrupted. *)
Lemma turns_steps i now d open effs ts done_ :
  (∀ t, t ∈ ts → takes_turn (wks i) now t) →
  rtc (worker_step wks)
    (Cluster d (<[i := Batch now done_ (turn_row <$> ts)]> open) effs)
    (Cluster d (<[i := Batch now (done_ ++ ts) []]> open) (effs ++ concat (tn_effects <$> ts))).
Proof.
  revert done_ effs. induction ts as [|t ts IH]; intros done_ effs Htk.
  { simpl. rewrite !app_nil_r. apply rtc_refl. }
  eapply rtc_l.
  - eapply step_turn; [apply lookup_insert_eq|reflexivity|apply Htk; by left].
  - simpl. rewrite insert_insert_eq, app_assoc.
    replace (done_ ++ t :: ts) with ((done_ ++ [t]) ++ ts) by (by rewrite <-app_assoc).
    apply IH. intros t' Ht'. apply Htk. by right.
Qed.

Lemma outbox_row_inj (rows rows' : list (uuid * outbox)) d :
  (∀ id o, (id, o) ∈ rows → event_outbox d !! id = Some o) →
  (∀ id o, (id, o) ∈ rows' → event_outbox d !! id = Some o) →
  outbox_row <$> rows = outbox_row <$> rows' → rows = rows'.
Proof.
  revert rows'. induction rows as [|[i o] rows IH]; intros [|[j o'] rows'] Hl Hr Heq; try done.
  injection Heq as Hid _ _ _ _ Heq. subst j. f_equal.
  - f_equal. assert (Some o = Some o') as [= ->]; [|done].
    rewrite <-(Hl i o), <-(Hr i o'); [done|by left|by left].
  - apply IH; [intros id x Hx; apply Hl; by right|intros id x Hx; apply Hr; by right|done].
Qed.

(** A successful [processBatch], its statements one after the other. *)
Lemma processBatch_steps i w w' :
  w_tx w = None → w_locked w = ∅ → processBatch (wks i) w = (w', Ok tt) →
  ∃ effs reqs, w_effects w' = w_effects w ++ effs ++ reqs ∧ only_requests reqs
    ∧ rtc (worker_step wks) (Cluster (w_db w) ∅ (w_effects w))
        (Cluster (w_db w') ∅ (w_effects w ++ effs)).
Proof.
  intros Hw Hl (_ & effs & reqs & He & _ & Hreq & jobs & Hb)%processBatch_refines; [|done].
  exists effs, reqs. split; [done|]. split; [done|].
  destruct (batch_run_turns _ _ _ _ _ _ _ Hb (batch_rows_NoDup _ _))
    as (ts & Hrows & -> & Hd & Hts).
  set (s0 := Cluster (w_db w) ∅ (w_effects w)).
  set (u := gen_random_uuid (w_gen w)).
  assert (claim_context u (w_pgnow w) s0 = context_of w) as Hcx.
  { unfold claim_context, context_of. by rewrite Hl. }
  assert (claimed (claim_context u (w_pgnow w) s0) (batch_limit (wks i)) (w_db w)
          = turn_row <$> ts) as Hcl.
  { rewrite Hcx. apply (outbox_row_inj _ _ (w_db w)); [|intros id o|done].
    - intros id o Hin. by apply claimed_in in Hin as [? _].
    - intros (t & [= -> ->] & Ht)%list_elem_of_fmap. by apply Hts. }
  eapply rtc_l; [apply (step_claim wks s0 i u (w_pgnow w)), lookup_empty|].
  simpl. rewrite Hcl. etrans.
  + apply (turns_steps i (w_pgnow w) (w_db w) ∅ (w_effects w) ts []). intros t Ht. by apply Hts.
  + apply rtc_once. rewrite Hd. set (b := Batch (w_pgnow w) ts []).
    pose proof (step_commit wks (Cluster (w_db w) (<[i := b]> ∅)
      (w_effects w ++ concat (tn_effects <$> ts))) i b (lookup_insert_eq _ _ _) eq_refl) as Hc.
    simpl in Hc. by rewrite delete_insert_id in Hc.
Qed.

(** Batches of concurrent workers act as if they were atomic.  From a state
    with no open batch, however the claims, turns, commits and rollbacks of
    any number of workers interleave with each other and with everything
    else: no two open batches hold the same row; the committed tables go
    through the states that atomic batches, each at its commit, and the
    others' changes lead through; and all that a committed batch marked
    [sent] was published.  What [processBatch] does when it succeeds is one
    of these runs. *)
Lemma concurrent_batches_are_atomic :
  (∀ d effs s, rtc (cluster_step wks) (Cluster d ∅ effs) s →
     rtc (atomic_step wks (cl_effects s)) d (cl_db s)
     ∧ ∀ i j b b', i ≠ j → cl_open s !! i = Some b → cl_open s !! j = Some b' →
         bt_locks b ## bt_locks b')
  ∧ (∀ i w w', w_tx w = None → w_locked w = ∅ → processBatch (wks i) w = (w', Ok tt) →
     ∃ effs reqs, w_effects w' = w_effects w ++ effs ++ reqs ∧ only_requests reqs
       ∧ rtc (cluster_step wks) (Cluster (w_db w) ∅ (w_effects w))
           (Cluster (w_db w') ∅ (w_effects w ++ effs))).
Proof.
  split.
  - intros d effs s Hrun.
    assert (cluster_ok wks (Cluster d ∅ effs)) as Hok.
    { split; simpl; [intros i b|intros i j b b' _]; by rewrite lookup_empty. }
    assert (cluster_ok wks s ∧ rtc (atomic_step wks (cl_effects s)) d (cl_db s)) as [[_ Hdis] Hat]; [|done].
    revert s Hrun. apply rtc_ind_r; [done|]. intros s1 s2 _ Hstep [Hok1 Hat].
    split; [by eapply cluster_step_ok|].
    assert (rtc (atomic_step wks (cl_effects s2)) d (cl_db s1)) as Hat'.
    { eapply rtc_congruence with (f := id); [|exact Hat]. intros x y. apply atomic_step_mono.
      intros e. by eapply cluster_step_effects. }
    destruct (cluster_step_atomic wks s1 s2 Hstep Hok1) as [->|Hs]; [done|].
    by eapply rtc_r.
  - intros i w w' Hw Hl (effs & reqs & He & Hreq & Hrun)%processBatch_steps; [|done|done].
    exists effs, reqs. split; [done|]. split; [done|].
    eapply rtc_subrel; [apply step_worker|exact Hrun].
Qed.
End theorems.
