(* ===== verification/Deliveries.v ===== *)
(** * Several deliveries at once

    Gin serves every request on its own goroutine, so the transactions of
    concurrent deliveries interleave statement by statement.  A transaction
    sees the committed tables and its own rows; an [INSERT] whose unique value
    is held by another open transaction waits for that one to end.  A
    commit makes a transaction's rows visible; a rollback drops them. *)

From S2P Require Import Prelude GoStrings GoTime Json Uuid Identity Payload World Repo RepoFacts RepoSound.
From S2P Require Import Http WebhookService WebhookFacts.

(** ** State *)

(** The rows a transaction has inserted so far. *)
Record changes := Changes {
  ch_citizen : option (uuid * citizen);
  ch_notification : option (uuid * notification);
  ch_outbox : option (uuid * outbox)
}.

Definition no_changes : changes := Changes None None None.

Definition insert_opt {A} (o : option (uuid * A)) (m : gmap uuid A) : gmap uuid A :=
  match o with Some (i, a) => <[i := a]> m | None => m end.

(** What the transaction sees, and what its commit leaves. *)
Definition overlay (d : database) (ch : changes) : database :=
  Database (insert_opt (ch_citizen ch) (citizens d))
    (insert_opt (ch_notification ch) (notifications d))
    (insert_opt (ch_outbox ch) (event_outbox d)) (webhook_dlq d) (push_devices d).

(** Where [persist_tx] stands: before the citizen's [INSERT], before its
    [SELECT], before the notification, before the outbox row, before the
    commit. *)
Inductive phase :=
| AtCitizen
| AtSelect
| AtNotification (cid : uuid)
| AtOutbox (cid nid : uuid)
| AtCommit (inserted : bool).

Record delivery := Delivery {
  dl_event : EventPayload;
  dl_now : time;              (** the transaction's [now()] *)
  dl_own : changes;
  dl_phase : phase
}.

(** The unique values of a row. *)
Inductive unique_value :=
| UniqueFingerprint (fp : string)
| UniqueKey (key : string)
| CitizenId (u : uuid)
| NotificationId (u : uuid)
| OutboxId (u : uuid).

Definition holds (ch : changes) (v : unique_value) : Prop :=
  match v with
  | UniqueFingerprint fp => ∃ u c, ch_citizen ch = Some (u, c) ∧ ct_fingerprint c = fp
  | UniqueKey key => ∃ u n, ch_notification ch = Some (u, n) ∧ nt_idempotency_key n = Some key
  | CitizenId u => ∃ c, ch_citizen ch = Some (u, c)
  | NotificationId u => ∃ n, ch_notification ch = Some (u, n)
  | OutboxId u => ∃ o, ch_outbox ch = Some (u, o)
  end.

(** The value is in no committed row. *)
Definition absent (d : database) (v : unique_value) : Prop :=
  match v with
  | UniqueFingerprint fp => has_fingerprint fp (citizens d) = false
  | UniqueKey key => has_key key (notifications d) = false
  | CitizenId u => citizens d !! u = None
  | NotificationId u => notifications d !! u = None
  | OutboxId u => event_outbox d !! u = None
  end.

Record intake := Intake {
  in_db : database;                    (** committed *)
  in_open : gmap nat delivery;
  in_answers : list (string * bool)    (** key of each committed delivery, was it inserted? *)
}.

(** No other open transaction holds the value. *)
Definition free (s : intake) (i : nat) (v : unique_value) : Prop :=
  ∀ j b, j ≠ i → in_open s !! j = Some b → ¬ holds (dl_own b) v.

(** ** Steps *)

Section steps.
Context `{UuidText} `{Postgres}.
Variable svc : Service.

Abbreviation fp_of p := (fingerprint_of svc p).

Definition new_citizen (p : EventPayload) (now : time) : citizen :=
  Citizen (fp_of p) now "{}" None.

(** What other operations commit meanwhile: they change rows, but insert none
    in the three tables of a delivery. *)
Definition no_insert (d d' : database) : Prop :=
  sound d d' ∧ dom (citizens d') = dom (citizens d)
  ∧ dom (notifications d') = dom (notifications d) ∧ dom (event_outbox d') = dom (event_outbox d).

Definition advance (s : intake) (i : nat) (b : delivery) : intake :=
  Intake (in_db s) (<[i := b]> (in_open s)) (in_answers s).

(** A statement of a delivery. *)
Inductive delivery_step (s : intake) : intake → Prop :=
| in_begin i p now :
    in_open s !! i = None →
    delivery_step s (advance s i (Delivery p now no_changes AtCitizen))
(** [INSERT INTO citizens ... ON CONFLICT DO NOTHING] *)
| in_citizen_known i p now :
    in_open s !! i = Some (Delivery p now no_changes AtCitizen) →
    has_fingerprint (fp_of p) (citizens (in_db s)) = true →
    delivery_step s (advance s i (Delivery p now no_changes AtSelect))
| in_citizen_new i p now u :
    in_open s !! i = Some (Delivery p now no_changes AtCitizen) →
    absent (in_db s) (UniqueFingerprint (fp_of p)) → free s i (UniqueFingerprint (fp_of p)) →
    absent (in_db s) (CitizenId u) → free s i (CitizenId u) →
    delivery_step s
      (advance s i (Delivery p now (Changes (Some (u, new_citizen p now)) None None) AtSelect))
(** [SELECT id FROM citizens WHERE fingerprint] *)
| in_select i p now own cid c :
    in_open s !! i = Some (Delivery p now own AtSelect) →
    citizens (overlay (in_db s) own) !! cid = Some c → ct_fingerprint c = fp_of p →
    delivery_step s (advance s i (Delivery p now own (AtNotification cid)))
(** [INSERT INTO notifications ... ON CONFLICT DO NOTHING RETURNING id] *)
| in_notification_known i p now own cid :
    in_open s !! i = Some (Delivery p now own (AtNotification cid)) →
    has_key (IdempotencyKey p) (notifications (in_db s)) = true →
    delivery_step s (advance s i (Delivery p now own (AtCommit false)))
| in_notification_new i p now ct cid nid srcTS :
    in_open s !! i = Some (Delivery p now (Changes ct None None) (AtNotification cid)) →
    ParsedTimestamp p = Some srcTS → text_ok (event_texts p) = true →
    absent (in_db s) (UniqueKey (IdempotencyKey p)) → free s i (UniqueKey (IdempotencyKey p)) →
    absent (in_db s) (NotificationId nid) → free s i (NotificationId nid) →
    delivery_step s
      (advance s i (Delivery p now
         (Changes ct (Some (nid, event_row p now cid srcTS)) None) (AtOutbox cid nid)))
(** [INSERT INTO event_outbox] *)
| in_outbox i p now ct nt cid nid oid created payload text :
    in_open s !! i = Some (Delivery p now (Changes ct nt None) (AtOutbox cid nid)) →
    OutboxPayloadJSON nid p created = Ok payload → pg_jsonb payload = Some text →
    absent (in_db s) (OutboxId oid) → free s i (OutboxId oid) →
    delivery_step s
      (advance s i (Delivery p now
         (Changes ct nt (Some (oid, pending_row now cid nid text))) (AtCommit true)))
| in_commit i p now own inserted :
    in_open s !! i = Some (Delivery p now own (AtCommit inserted)) →
    delivery_step s
      (Intake (overlay (in_db s) own) (delete i (in_open s))
         (in_answers s ++ [(IdempotencyKey p, inserted)]))
| in_rollback i b :
    in_open s !! i = Some b →
    delivery_step s (Intake (in_db s) (delete i (in_open s)) (in_answers s)).

Inductive intake_step (s : intake) : intake → Prop :=
| in_delivery s' : delivery_step s s' → intake_step s s'
| in_bystander d :
    no_insert (in_db s) d → intake_step s (Intake d (in_open s) (in_answers s)).

(** ** How far an open transaction is *)

Definition citizen_written (p : EventPayload) (now : time) (d : database)
    (ct : option (uuid * citizen)) : Prop :=
  match ct with
  | None => has_fingerprint (fp_of p) (citizens d) = true
  | Some (u, c) => c = new_citizen p now ∧ absent d (UniqueFingerprint (fp_of p))
                   ∧ absent d (CitizenId u)
  end.

Definition citizen_found (p : EventPayload) (d : database) (ct : option (uuid * citizen))
    (cid : uuid) : Prop :=
  ∃ c, insert_opt ct (citizens d) !! cid = Some c ∧ ct_fingerprint c = fp_of p.

Record notification_written (p : EventPayload) (d : database) (nid : uuid) (srcTS : time) : Prop := {
  nw_timestamp : ParsedTimestamp p = Some srcTS;
  nw_text : text_ok (event_texts p) = true;
  nw_key : absent d (UniqueKey (IdempotencyKey p));
  nw_id : absent d (NotificationId nid)
}.

Inductive progress (d : database) : delivery → Prop :=
| pg_start p now : progress d (Delivery p now no_changes AtCitizen)
| pg_citizen p now ct :
    citizen_written p now d ct → progress d (Delivery p now (Changes ct None None) AtSelect)
| pg_selected p now ct cid :
    citizen_written p now d ct → citizen_found p d ct cid →
    progress d (Delivery p now (Changes ct None None) (AtNotification cid))
| pg_known p now ct cid :
    citizen_written p now d ct → citizen_found p d ct cid →
    has_key (IdempotencyKey p) (notifications d) = true →
    progress d (Delivery p now (Changes ct None None) (AtCommit false))
| pg_notified p now ct cid nid srcTS :
    citizen_written p now d ct → citizen_found p d ct cid → notification_written p d nid srcTS →
    progress d (Delivery p now (Changes ct (Some (nid, event_row p now cid srcTS)) None)
                  (AtOutbox cid nid))
| pg_done p now ct cid nid srcTS oid created payload text :
    citizen_written p now d ct → citizen_found p d ct cid → notification_written p d nid srcTS →
    absent d (OutboxId oid) →
    OutboxPayloadJSON nid p created = Ok payload → pg_jsonb payload = Some text →
    progress d (Delivery p now (Changes ct (Some (nid, event_row p now cid srcTS))
                                  (Some (oid, pending_row now cid nid text))) (AtCommit true)).

(** The committed tables moved on without touching what the transaction
    relies on. *)
Record undisturbed (ch : changes) (d d' : database) : Prop := {
  un_absent v : holds ch v → absent d v → absent d' v;
  un_citizens : grows citizen_le (citizens d) (citizens d');
  un_key k : has_key k (notifications d) = true → has_key k (notifications d') = true
}.
End steps.

(** ** Stability *)

Section stability.
Context `{UuidText} `{Postgres}.
Variable svc : Service.

Lemma has_fingerprint_grows fp m m' :
  grows citizen_le m m' → has_fingerprint fp m = true → has_fingerprint fp m' = true.
Proof.
  intros Hg (i & c & Hi & Hf)%has_fingerprint_true. apply has_fingerprint_true.
  apply Hg in Hi as (c' & Hi' & Hc & _). exists i, c'. split; [done|congruence].
Qed.

Lemma citizen_written_undisturbed p now ct nt ot d d' :
  undisturbed (Changes ct nt ot) d d' → citizen_written svc p now d ct → citizen_written svc p now d' ct.
Proof.
  intros [Hab Hg _]. destruct ct as [[u c]|]; simpl.
  - intros (-> & Hf & Hu). split; [done|]. split.
    + apply (Hab (UniqueFingerprint _)); [|done]. by do 2 eexists.
    + apply (Hab (CitizenId u)); [|done]. by eexists.
  - by apply has_fingerprint_grows.
Qed.

Lemma citizen_found_undisturbed p ct nt ot d d' cid :
  undisturbed (Changes ct nt ot) d d' → citizen_found svc p d ct cid → citizen_found svc p d' ct cid.
Proof.
  intros [_ Hg _] (c & Hc & Hf). unfold citizen_found. destruct ct as [[u c0]|]; simpl in *.
  - apply lookup_insert_Some in Hc as [[-> ->]|[Hne Hc]].
    + exists c. by rewrite lookup_insert_eq.
    + apply Hg in Hc as (c' & Hc' & Hfp & _). exists c'. rewrite lookup_insert_ne by done.
      split; [done|congruence].
  - apply Hg in Hc as (c' & Hc' & Hfp & _). exists c'. split; [done|congruence].
Qed.

Lemma notification_written_undisturbed p now ct ot d d' cid nid srcTS :
  undisturbed (Changes ct (Some (nid, event_row p now cid srcTS)) ot) d d' →
  notification_written p d nid srcTS → notification_written p d' nid srcTS.
Proof.
  intros [Hab _ _] [Ht Htx Hk Hid]. split; [done|done| |].
  - apply Hab; [|done]. by do 2 eexists.
  - apply Hab; [|done]. by eexists.
Qed.

Lemma progress_undisturbed d d' b :
  undisturbed (dl_own b) d d' → progress svc d b → progress svc d' b.
Proof.
  intros Hu Hp. destruct Hp; simpl in Hu.
  - apply pg_start.
  - eapply pg_citizen, citizen_written_undisturbed; eauto.
  - eapply pg_selected; [eapply citizen_written_undisturbed|eapply citizen_found_undisturbed]; eauto.
  - eapply pg_known; [eapply citizen_written_undisturbed|eapply citizen_found_undisturbed|
      eapply un_key]; eauto.
  - eapply pg_notified; [eapply citizen_written_undisturbed|eapply citizen_found_undisturbed|
      eapply notification_written_undisturbed]; eauto.
  - eapply pg_done; [eapply citizen_written_undisturbed|eapply citizen_found_undisturbed|
      eapply notification_written_undisturbed| | |]; eauto.
    eapply (un_absent _ _ _ Hu); [|done]. by eexists.
Qed.
End stability.

(** ** What disturbs nobody *)

Section undisturbed.
Context `{UuidText} `{PostgresOk}.
Variable svc : Service.

Lemma insert_opt_lookup_None {A} (o : option (uuid * A)) (m : gmap uuid A) u :
  m !! u = None → (∀ a, o ≠ Some (u, a)) → insert_opt o m !! u = None.
Proof.
  destruct o as [[i a]|]; [|done]. intros Hm Hne. simpl. apply lookup_insert_None.
  split; [done|]. intros ->. by eapply Hne.
Qed.

Lemma overlay_absent d ch v : absent d v → ¬ holds ch v → absent (overlay d ch) v.
Proof.
  destruct ch as [ct nt ot]. destruct v as [fp|k|u|u|u]; simpl; intros Ha Hh.
  - apply not_true_is_false. intros (i & c & Hi & Hf)%has_fingerprint_true.
    pose proof (has_fingerprint_false fp _ i c Ha) as Hno. destruct ct as [[u c0]|]; simpl in *.
    + apply lookup_insert_Some in Hi as [[-> ->]|[_ Hi]]; [|by apply Hno].
      apply Hh. by exists i, c.
    + by apply Hno.
  - apply not_true_is_false. intros (i & n & Hi & Hk)%has_key_true.
    pose proof (has_key_false k _ i n Ha) as Hno. destruct nt as [[u n0]|]; simpl in *.
    + apply lookup_insert_Some in Hi as [[-> ->]|[_ Hi]]; [|by apply Hno].
      apply Hh. by exists i, n.
    + by apply Hno.
  - apply insert_opt_lookup_None; [done|]. intros c ->. apply Hh. by eexists.
  - apply insert_opt_lookup_None; [done|]. intros c ->. apply Hh. by eexists.
  - apply insert_opt_lookup_None; [done|]. intros c ->. apply Hh. by eexists.
Qed.

(** Another transaction's commit. *)
Lemma undisturbed_commit ch ch' d :
  (∀ v, holds ch v → ¬ holds ch' v) →
  (∀ u c, ch_citizen ch' = Some (u, c) → citizens d !! u = None) →
  (∀ u n, ch_notification ch' = Some (u, n) → notifications d !! u = None) →
  undisturbed ch d (overlay d ch').
Proof.
  intros Hdis Hc Hn. split.
  - intros v Hv Ha. by apply overlay_absent, Hdis.
  - simpl. destruct (ch_citizen ch') as [[u c]|]; simpl; [|reflexivity].
    apply grows_insert_new; [apply _|]. by eapply Hc.
  - intros k (i & n & Hi & Hk)%has_key_true. apply has_key_true. exists i, n. split; [|done]. simpl.
    destruct (ch_notification ch') as [[u n']|]; simpl; [|done].
    rewrite lookup_insert_ne; [done|]. intros ->. specialize (Hn i n' eq_refl). congruence.
Qed.

Lemma has_key_back k d d' :
  evolves d d' → dom (notifications d') = dom (notifications d) →
  has_key k (notifications d') = true → has_key k (notifications d) = true.
Proof.
  intros Hev Hdom (i & n' & Hi & Hk)%has_key_true. apply has_key_true.
  assert (i ∈ dom (notifications d)) as [n Hn]%elem_of_dom by (rewrite <-Hdom; by eapply elem_of_dom_2).
  exists i, n. split; [done|]. destruct (ev_notifications _ _ Hev i n Hn) as (n2 & Hn2 & Hle).
  assert (n2 = n') as -> by congruence. destruct Hle as [->|(_ & t & ->)]; done.
Qed.

Lemma has_fingerprint_back fp d d' :
  evolves d d' → dom (citizens d') = dom (citizens d) →
  has_fingerprint fp (citizens d') = true → has_fingerprint fp (citizens d) = true.
Proof.
  intros Hev Hdom (i & c' & Hi & Hf)%has_fingerprint_true. apply has_fingerprint_true.
  assert (i ∈ dom (citizens d)) as [c Hc]%elem_of_dom by (rewrite <-Hdom; by eapply elem_of_dom_2).
  exists i, c. split; [done|]. destruct (ev_citizens _ _ Hev i c Hc) as (c2 & Hc2 & Hle & _).
  congruence.
Qed.

Lemma undisturbed_bystander ch d d' : wf d → no_insert d d' → undisturbed ch d d'.
Proof.
  intros Hwf (Hs & Hc & Hn & Ho). destruct (Hs Hwf) as [_ Hev]. split.
  - intros [fp|k|u|u|u] _; simpl.
    + rewrite <-!not_true_iff_false. intros Ha Hb. by apply Ha, (has_fingerprint_back fp d d').
    + rewrite <-!not_true_iff_false. intros Ha Hb. by apply Ha, (has_key_back k d d').
    + rewrite <-!not_elem_of_dom. by rewrite Hc.
    + rewrite <-!not_elem_of_dom. by rewrite Hn.
    + rewrite <-!not_elem_of_dom. by rewrite Ho.
  - apply Hev.
  - intros k. by apply has_key_evolves.
Qed.

(** ** A commit is the specification's step *)

Lemma citizen_written_ensured p now d ct cid :
  citizen_written svc p now d ct → citizen_found svc p d ct cid →
  ensured svc p now d (set_citizens (insert_opt ct (citizens d)) d) cid.
Proof.
  intros Hw (c & Hc & Hf). split; [|by exists c]. destruct ct as [[u c0]|]; simpl in *.
  - destruct Hw as (-> & Hfp & Hu). right. split; [done|]. exists u. done.
  - left. by destruct d.
Qed.

Lemma progress_recorded d b inserted :
  progress svc d b → dl_phase b = AtCommit inserted →
  recorded svc (dl_event b) (dl_now b) d (overlay d (dl_own b)) inserted.
Proof.
  intros Hp. destruct Hp as [| | |p now ct cid Hw Hf Hk|
    |p now ct cid nid srcTS oid created payload text Hw Hf [Ht Htx Hk Hid] Ho Hpay Hj];
    intros Heq; try done; injection Heq as <-; simpl.
  - pose proof (citizen_written_ensured _ _ _ _ _ Hw Hf) as He.
    replace (overlay d (Changes ct None None)) with (set_citizens (insert_opt ct (citizens d)) d)
      by by destruct d.
    by eapply recorded_dup.
  - pose proof (citizen_written_ensured _ _ _ _ _ Hw Hf) as He.
    exact (recorded_new svc p now d srcTS _ cid nid oid created payload text Ht Htx He Hk Hid Ho Hpay Hj).
Qed.

(** The specification's step is sound: its statements are. *)
Lemma ensured_sound p now d d1 cid : ensured svc p now d d1 cid → sound d d1.
Proof.
  intros [[->|(Hf & u & Hu & ->)] _]; [reflexivity|].
  apply (insert_citizen_sound (fingerprint_of svc p)
           {| cx_uuid := u; cx_now := now; cx_locked := ∅ |} d tt).
  unfold insert_citizen. simpl. by rewrite Hf, Hu.
Qed.

Lemma recorded_sound p now d d' b : recorded svc p now d d' b → sound d d'.
Proof.
  intros [srcTS d1 cid nid oid created payload text Hts Htx Hens Hk Hn Ho Hpay Hj|d1 cid Hens _];
    pose proof (ensured_sound _ _ _ _ _ Hens) as Hs1; [|done].
  pose proof (ensured_tables _ _ _ _ _ _ Hens) as (Hnt & Hot & _).
  destruct Hens as [_ (c & Hc & _)].
  set (d2 := set_notifications (<[nid := event_row p now cid srcTS]> (notifications d)) d1).
  etrans; [exact Hs1|]. transitivity d2.
  - apply (insert_notification_sound cid (insert_params svc p srcTS)
             {| cx_uuid := nid; cx_now := now; cx_locked := ∅ |} d1 nid).
    unfold insert_notification. simpl. unfold event_texts in Htx. simpl in Htx. rewrite Htx. simpl.
    by rewrite Hnt, Hk, Hn, Hc.
  - apply (insert_outbox_sound cid nid payload
             {| cx_uuid := oid; cx_now := now; cx_locked := ∅ |} d2 tt).
    unfold insert_outbox. simpl. rewrite Hj, Hot, Ho, Hc, lookup_insert_eq. by rewrite <-Hot.
Qed.
End undisturbed.

(** ** Every reachable intake is in order *)

Section invariant.
Context `{UuidText} `{PostgresOk}.
Variable svc : Service.

Definition inserted_keys (answers : list (string * bool)) : list string :=
  omap (λ a : string * bool, if a.2 then Some a.1 else None) answers.

Record intake_ok (s : intake) : Prop := {
  io_wf : wf (in_db s);
  io_progress i b : in_open s !! i = Some b → progress svc (in_db s) b;
  io_disjoint i j b b' v : i ≠ j → in_open s !! i = Some b → in_open s !! j = Some b' →
    holds (dl_own b) v → ¬ holds (dl_own b') v;
  io_known k x : (k, x) ∈ in_answers s → has_key k (notifications (in_db s)) = true;
  io_once : NoDup (inserted_keys (in_answers s))
}.

(** A step of one transaction that holds nothing the others hold. *)
Lemma advance_ok s i b b' :
  intake_ok s → in_open s !! i = Some b ∨ in_open s !! i = None →
  progress svc (in_db s) b' →
  (∀ v, holds (dl_own b') v → free s i v) → intake_ok (advance s i b').
Proof.
  intros [Hwf Hpr Hdis Hkn Hon] _ Hp Hfree. split; simpl; try done.
  - intros j bj [[<- <-]|[Hne Hj]]%lookup_insert_Some; [done|by eapply Hpr].
  - intros j k bj bk v Hjk [[<- <-]|[Hne Hj]]%lookup_insert_Some
      [[<- <-]|[Hne' Hk]]%lookup_insert_Some Hv Hv'; [done| | |by eapply (Hdis j k)].
    + by eapply Hfree.
    + eapply (Hfree v Hv' j bj); [congruence|done|done].
Qed.

(** What a transaction held it goes on holding alone. *)
Lemma held_free s i b v : intake_ok s → in_open s !! i = Some b → holds (dl_own b) v → free s i v.
Proof. intros Hok Hi Hv j bj Hne Hj. by eapply (io_disjoint s Hok i j). Qed.

Lemma no_changes_holds v : ¬ holds no_changes v.
Proof. destruct v; simpl; naive_solver. Qed.

Lemma intake_step_ok s s' : intake_step svc s s' → intake_ok s → intake_ok s'.
Proof.
  intros Hstep Hok. pose proof (io_progress s Hok) as Hpr.
  destruct Hstep as [? [i p now Hi|i p now Hi Hk|i p now u Hi Hf Hff Hu Hfu|i p now own cid c Hi Hc Hcf
    |i p now own cid Hi Hk|i p now ct cid nid srcTS Hi Hts Htx Hk Hfk Hn Hfn
    |i p now ct nt cid nid oid created payload text Hi Hpay Hj Ho Hfo|i p now own inserted Hi
    |i b Hi]|d Hd]; try specialize (Hpr _ _ Hi).
  - apply (advance_ok _ _ (Delivery p now no_changes AtCitizen)); [done|by right|constructor|].
    intros v Hv. by apply no_changes_holds in Hv.
  - eapply advance_ok; [done|by left|by apply (pg_citizen svc _ p now None)|].
    intros v Hv. by apply no_changes_holds in Hv.
  - eapply advance_ok; [done|by left|by apply pg_citizen|].
    intros [fp|k|u'|u'|u'] Hv; simpl in Hv; [|by destruct Hv as (? & ? & ? & _)| |by destruct Hv..].
    + destruct Hv as (? & ? & [= <- <-] & <-). done.
    + destruct Hv as (? & [= <- <-]). done.
  - eapply advance_ok; [done|by left| |intros v; exact (held_free _ _ _ v Hok Hi)].
    inversion Hpr; subst. apply pg_selected; [done|]. by exists c.
  - eapply advance_ok; [done|by left| |intros v; exact (held_free _ _ _ v Hok Hi)].
    inversion Hpr; subst. by eapply pg_known.
  - eapply advance_ok; [done|by left|inversion Hpr; subst; by apply pg_notified|].
    assert (∀ v, holds (Changes ct None None) v → free s i v) as Hold.
    { intros v. exact (held_free _ _ _ v Hok Hi). }
    intros [fp|k|u|u|u] Hv; simpl in Hv.
    + apply Hold. exact Hv.
    + destruct Hv as (? & ? & [= <- <-] & [= <-]). done.
    + apply Hold. exact Hv.
    + destruct Hv as (? & [= <- <-]). done.
    + by destruct Hv as (? & ?).
  - eapply advance_ok; [done|by left|inversion Hpr; subst; by eapply pg_done|].
    assert (∀ v, holds (Changes ct nt None) v → free s i v) as Hold.
    { intros v. exact (held_free _ _ _ v Hok Hi). }
    intros [fp|k|u|u|u] Hv; simpl in Hv; try (by apply Hold).
    destruct Hv as (? & [= <- <-]). done.
  - assert (∀ j bj, j ≠ i → in_open s !! j = Some bj →
      undisturbed (dl_own bj) (in_db s) (overlay (in_db s) own)) as Hun.
    { intros j bj Hne Hjb. apply undisturbed_commit.
      - intros v Hv. exact (io_disjoint s Hok j i bj _ v Hne Hjb Hi Hv).
      - inversion Hpr as [| | |? ? ct ? Hw|
          |? ? ct ? ? ? ? ? ? ? Hw]; subst; simpl; intros u c ->; apply Hw.
      - inversion Hpr as [| | | | |? ? ct ? ? ? ? ? ? ? ? ? [_ _ _ Hid]]; subst; simpl;
          intros u n; [done|]. by intros [= <- <-]. }
    pose proof (progress_recorded svc _ _ _ Hpr eq_refl) as Hrec. simpl in Hrec.
    pose proof (recorded_sound svc _ _ _ _ _ Hrec (io_wf s Hok)) as [Hwf' Hev].
    assert (has_key (IdempotencyKey p) (notifications (overlay (in_db s) own)) = true) as Hkey.
    { inversion Hpr as [| | |? ? ? ? _ _ Hk| |]; subst.
      - by apply (has_key_evolves _ (in_db s) _ Hev).
      - simpl. apply has_key_true. do 2 eexists. split; [apply lookup_insert_eq|done]. }
    split; simpl.
    + done.
    + intros j bj [Hne Hjb]%lookup_delete_Some.
      eapply progress_undisturbed; [by apply (Hun j)|]. by apply (io_progress s Hok j).
    + intros j k bj bk v Hjk [_ Hjb]%lookup_delete_Some [_ Hkb]%lookup_delete_Some.
      by apply (io_disjoint s Hok j k).
    + intros k x [Hin|[= -> ->]%list_elem_of_singleton]%elem_of_app; [|done].
      apply (has_key_evolves _ (in_db s) _ Hev). by eapply (io_known s Hok).
    + unfold inserted_keys. rewrite omap_app. simpl. apply NoDup_app.
      split; [apply (io_once s Hok)|]. destruct inserted; simpl; [|split; [set_solver|constructor]].
      split; [|apply NoDup_singleton]. intros k Hin ->%list_elem_of_singleton.
      apply list_elem_of_omap in Hin as ([k' []] & Hin & [= ->]).
      apply (io_known s Hok) in Hin.
      inversion Hpr as [| | | | |? ? ? ? ? ? ? ? ? ? _ _ [_ _ Hk _]]; subst. simpl in Hk. congruence.
  - destruct Hok as [Hwf Hall Hdis Hkn Hon]. split; simpl; try done.
    + intros j bj [_ Hjb]%lookup_delete_Some. by apply (Hall j).
    + intros j k bj bk v Hjk [_ Hjb]%lookup_delete_Some [_ Hkb]%lookup_delete_Some. by apply (Hdis j k).
  - pose proof Hd as (Hs & _). destruct (Hs (io_wf s Hok)) as [Hwf' Hev].
    split; simpl; [done| | | |apply (io_once s Hok)].
    + intros j bj Hjb. eapply progress_undisturbed; [|by apply (Hpr j)].
      apply undisturbed_bystander; [apply (io_wf s Hok)|done].
    + apply (io_disjoint s Hok).
    + intros k x Hin. apply (has_key_evolves _ (in_db s) _ Hev). by eapply (io_known s Hok).
Qed.

(** The committed tables, one atomic delivery or bystander at a time. *)
Definition atomic_delivery (d d' : database) : Prop :=
  no_insert d d' ∨ ∃ p now inserted, recorded svc p now d d' inserted.

Lemma delivery_step_atomic s s' :
  delivery_step svc s s' → intake_ok s →
  in_db s' = in_db s ∨ ∃ p now inserted, recorded svc p now (in_db s) (in_db s') inserted.
Proof.
  intros Hstep Hok. destruct Hstep as [| | | | | | |i p now own inserted Hi|]; try (by left).
  right. exists p, now, inserted.
  exact (progress_recorded svc (in_db s) _ _ (io_progress s Hok _ _ Hi) eq_refl).
Qed.

Lemma intake_step_atomic s s' :
  intake_step svc s s' → intake_ok s → in_db s' = in_db s ∨ atomic_delivery (in_db s) (in_db s').
Proof.
  intros [t Ht|d Hd] Hok; [|right; by left].
  destruct (delivery_step_atomic s t Ht Hok) as [->|Hr]; [by left|right; by right].
Qed.
End invariant.

(** ** Theorems *)

Section theorems.
Context `{UuidText} `{PostgresOk}.
Variable svc : Service.

(** The state of a delivery that is alone. *)
Abbreviation solo d b := (Intake d {[ 0%nat := b ]} []).

Lemma solo_step d b b' : advance (solo d b) 0 b' = solo d b'.
Proof. unfold advance. simpl. by rewrite insert_singleton_eq. Qed.

Lemma solo_steps d b b' :
  delivery_step svc (solo d b) (advance (solo d b) 0 b') → delivery_step svc (solo d b) (solo d b').
Proof. by rewrite solo_step. Qed.

Lemma solo_free d b v : free (solo d b) 0 v.
Proof. intros j b' Hj Hb. simpl in Hb. apply lookup_singleton_Some in Hb as [? _]. congruence. Qed.

(** What the specification allows, a delivery alone does. *)
Lemma recorded_steps p now d d' inserted :
  recorded svc p now d d' inserted →
  rtc (delivery_step svc) (Intake d ∅ []) (Intake d' ∅ [(IdempotencyKey p, inserted)]).
Proof.
  assert (∀ d1 cid, ensured svc p now d d1 cid → ∃ ct,
    d1 = set_citizens (insert_opt ct (citizens d)) d ∧ citizen_found svc p d ct cid
    ∧ rtc (delivery_step svc) (Intake d ∅ [])
        (solo d (Delivery p now (Changes ct None None) (AtNotification cid)))) as Hsel.
  { intros d1 cid [Hcase (c & Hc & Hf)].
    assert (∃ ct, d1 = set_citizens (insert_opt ct (citizens d)) d
      ∧ (ct = None → has_fingerprint (fingerprint_of svc p) (citizens d) = true)
      ∧ ∀ u c, ct = Some (u, c) → c = new_citizen svc p now
           ∧ absent d (UniqueFingerprint (fingerprint_of svc p)) ∧ absent d (CitizenId u)) as (ct & -> & Hno & Hyes).
    { destruct Hcase as [->|(Hfp & u & Hu & ->)].
      - exists None. split; [by destruct d|]. split; [|done]. intros _. apply has_fingerprint_true. eauto.
      - exists (Some (u, new_citizen svc p now)). split; [done|]. split; [done|]. by intros u' c' [= <- <-]. }
    exists ct. split; [done|]. split; [by exists c|].
    eapply rtc_l; [apply (in_begin _ _ 0 p now), lookup_empty|].
    change (advance _ 0 ?b) with (solo d b).
    eapply rtc_l; [|apply rtc_once, (solo_steps d (Delivery p now (Changes ct None None) AtSelect));
      eapply in_select; [apply lookup_singleton_eq|exact Hc|exact Hf]].
    apply (solo_steps d (Delivery p now no_changes AtCitizen)). destruct ct as [[u c0]|].
    - destruct (Hyes u c0 eq_refl) as (-> & Hfp & Hu).
      apply in_citizen_new; [apply lookup_singleton_eq|done|apply solo_free|done|apply solo_free].
    - apply (in_citizen_known svc _ 0 p now); [apply lookup_singleton_eq|by apply Hno]. }
  intros [srcTS d1 cid nid oid created payload text Hts Htx Hens Hk Hn Ho Hpay Hj|d1 cid Hens Hk];
    destruct (Hsel _ _ Hens) as (ct & -> & Hfound & Hrun); (etrans; [exact Hrun|]).
  - eapply rtc_l.
    { eapply solo_steps, in_notification_new; [apply lookup_singleton_eq|exact Hts|done|done|
        apply solo_free|exact Hn|apply solo_free]. }
    eapply rtc_l.
    { eapply solo_steps, in_outbox; [apply lookup_singleton_eq|exact Hpay|exact Hj|exact Ho|apply solo_free]. }
    apply rtc_once.
    pose proof (in_commit svc (solo d (Delivery p now (Changes ct (Some (nid, event_row p now cid srcTS))
      (Some (oid, pending_row now cid nid text))) (AtCommit true))) 0 p now _ true (lookup_singleton_eq _ _)) as Hc.
    simpl in Hc. by rewrite delete_singleton_eq in Hc.
  - eapply rtc_l; [eapply solo_steps, in_notification_known; [apply lookup_singleton_eq|done]|].
    apply rtc_once.
    pose proof (in_commit svc (solo d (Delivery p now (Changes ct None None) (AtCommit false)))
      0 p now _ false (lookup_singleton_eq _ _)) as Hc.
    simpl in Hc. rewrite delete_singleton_eq in Hc.
    replace (set_citizens (insert_opt ct (citizens d)) d) with (overlay d (Changes ct None None)); [done|].
    by destruct d.
Qed.

(** Concurrent deliveries act as if they came one by one.  However the
    transactions of any number of deliveries interleave with each other and
    with everything else: the committed tables go through the states that
    whole deliveries, each at its commit, and the others' changes lead
    through, and stay well formed; of all the deliveries of an event, told
    by its key, at most one is answered as new, and the key of every
    answered one is in the tables.  What [persist] does when it succeeds is
    one of these runs. *)
Lemma concurrent_deliveries_are_serial :
  (∀ d s, wf d → rtc (intake_step svc) (Intake d ∅ []) s →
     rtc (atomic_delivery svc) d (in_db s) ∧ wf (in_db s)
     ∧ NoDup (inserted_keys (in_answers s))
     ∧ ∀ k x, (k, x) ∈ in_answers s → has_key k (notifications (in_db s)) = true)
  ∧ (∀ p w w' inserted, w_tx w = None → persist svc p w = (w', Ok inserted) →
     rtc (intake_step svc) (Intake (w_db w) ∅ [])
       (Intake (w_db w') ∅ [(IdempotencyKey p, inserted)])).
Proof.
  split.
  - intros d s Hwf Hrun.
    assert (intake_ok svc s ∧ rtc (atomic_delivery svc) d (in_db s)) as [[Hwf' _ _ Hkn Hon] Hat]; [|done].
    revert s Hrun. apply rtc_ind_r.
    + split; [|done]. split; simpl; [done|intros i b|intros i j b b' v _|by intros k x ?%elem_of_nil|constructor];
        by rewrite lookup_empty.
    + intros s1 s2 _ Hstep [Hok Hat]. split; [by eapply intake_step_ok|].
      destruct (intake_step_atomic svc s1 s2 Hstep Hok) as [->|Hs]; [done|]. by eapply rtc_r.
  - intros p w w' inserted Hw Hp. apply persist_refines in Hp as [_ Hrec]; [|done].
    eapply rtc_subrel; [apply in_delivery|by eapply recorded_steps].
Qed.
End theorems.
