(* ===== verification/DeviceProps.v ===== *)
(** * Push devices: the table refines a registry

    [registry] reads the [push_devices] table as a map from a citizen and a
    token to a platform.  The handlers and the listing the worker's pushes
    start from are the map's insertion, deletion and lookup; a reply that got
    lost leaves the operation done or not done, never half done. *)

From S2P Require Import Prelude GoStrings GoTime Json Uuid World Repo RepoFacts RepoSound.
From S2P Require Import Payload Http Auth Integrations HttpApi.

(** ** The abstract registry *)

Definition device_entry (p : uuid * device) : (uuid * string) * string :=
  ((dv_citizen_id p.2, dv_token p.2), dv_platform p.2).

Definition registry (d : database) : gmap (uuid * string) string :=
  list_to_map (device_entry <$> map_to_list (push_devices d)).

Lemma registry_lookup d cid token platform :
  wf d →
  registry d !! (cid, token) = Some platform ↔
  ∃ i v, push_devices d !! i = Some v ∧ dv_citizen_id v = cid ∧ dv_token v = token
         ∧ dv_platform v = platform.
Proof.
  intros Hwf. unfold registry. rewrite <-elem_of_list_to_map.
  - rewrite list_elem_of_fmap. split.
    + intros ([i v] & [= -> -> ->] & Hi%elem_of_map_to_list). eauto 10.
    + intros (i & v & Hi & <- & <- & <-). exists (i, v). split; [done|].
      by apply elem_of_map_to_list.
  - rewrite <-list_fmap_compose. apply NoDup_fmap_2_strong; [|apply NoDup_map_to_list].
    intros [i v] [j v'] Hi%elem_of_map_to_list Hj%elem_of_map_to_list [= Hc Ht].
    assert (i = j) as -> by (eapply wf_device_token; eauto). congruence.
Qed.

(** A table represents the registry its rows spell out. *)
Lemma registry_eq d r :
  wf d →
  (∀ cid token platform, r !! (cid, token) = Some platform ↔
     ∃ i v, push_devices d !! i = Some v ∧ dv_citizen_id v = cid ∧ dv_token v = token
            ∧ dv_platform v = platform) →
  registry d = r.
Proof.
  intros Hwf Hr. apply map_eq. intros [cid token]. apply option_eq. intros platform.
  by rewrite registry_lookup, Hr.
Qed.

Section registry.
Context `{PostgresOk}.

Lemma select_token_nil d cid token :
  wf d → select (λ _ v, has_token cid token v) (push_devices d) = [] ↔
         registry d !! (cid, token) = None.
Proof.
  intros Hwf. rewrite select_nil, eq_None_not_Some. split.
  - intros Hno [platform (i & v & Hi & Hc & Ht & _)%registry_lookup]; [|done].
    specialize (Hno i v Hi). by rewrite (proj2 (has_token_true _ _ _)) in Hno.
  - intros Hno i v Hi. apply not_true_is_false. intros [Hc Ht]%has_token_true. apply Hno.
    exists (dv_platform v). apply registry_lookup; [done|]. eauto 10.
Qed.

Lemma upsert_device_registry cid platform token cx d d' :
  wf d → upsert_device cid platform token cx d = Ok (tt, d') →
  registry d' = <[(cid, token) := platform]> (registry d).
Proof.
  intros Hwf Hup. destruct (upsert_device_sound _ _ _ _ _ _ _ Hup Hwf) as [Hwf' _].
  assert (∃ i v, d' = set_devices (<[i := v]> (push_devices d)) d
            ∧ has_token cid token v = true ∧ dv_platform v = platform
            ∧ ∀ v0, push_devices d !! i = Some v0 → has_token cid token v0 = true)
    as (i & v & -> & [Hc Ht]%has_token_true & Hp & Hold).
  { unfold upsert_device, bad_text, unique_violation, foreign_key_violation in Hup.
    destruct (negb _); [done|]. destruct (select _ _) as [|[i v] l] eqn:Es.
    - destruct (push_devices d !! _) eqn:Ed; [done|]. destruct (citizens d !! cid); [|done].
      injection Hup as <-. do 2 eexists. split; [done|]. split; [by apply has_token_true|].
      split; [done|]. intros v0 Hv0. congruence.
    - injection Hup as <-. do 2 eexists. split; [done|]. split; [by apply has_token_true|].
      split; [done|]. intros v0 Hv0.
      assert ((i, v) ∈ select (λ _ v, has_token cid token v) (push_devices d)) as Hin
        by (rewrite Es; left).
      apply elem_of_select in Hin as [Hi Ht]. congruence. }
  apply registry_eq; [done|]. intros c t p. simpl. rewrite lookup_insert_Some. split.
  - intros [[[= <- <-] <-]|[Hne Hr]].
    + exists i, v. by rewrite lookup_insert_eq.
    + apply registry_lookup in Hr as (j & u & Hj & <- & <- & <-); [|done].
      exists j, u. rewrite lookup_insert_ne; [done|]. intros <-.
      apply Hold, has_token_true in Hj as [? ?]. apply Hne. congruence.
  - intros (j & u & [[<- <-]|[Hne Hj]]%lookup_insert_Some & <- & <- & <-).
    + left. by rewrite Hc, Ht.
    + right. split; [|apply registry_lookup; eauto 10]. intros [= Hcu Htu].
      apply Hne. rewrite <-Hc in Hcu. rewrite <-Ht in Htu.
      eapply (wf_device_token _ Hwf'); simpl;
        [apply lookup_insert_eq|by rewrite lookup_insert_ne|done..].
Qed.

Definition without_token (cid : uuid) (token : string) (d : database) : database :=
  set_devices (filter (λ p, has_token cid token p.2 = false) (push_devices d)) d.

Lemma without_token_registry cid token d :
  wf d → registry (without_token cid token d) = delete (cid, token) (registry d).
Proof.
  intros Hwf. apply registry_eq.
  { apply (sound_set_devices (filter (λ p, has_token cid token p.2 = false) (push_devices d)) d);
      [|done]. intros _. split.
    - intros i v [Hi _]%map_lookup_filter_Some. by eapply wf_device_citizen.
    - intros i j v v' [Hi _]%map_lookup_filter_Some [Hj _]%map_lookup_filter_Some.
      by eapply wf_device_token. }
  intros c t p. simpl.
  rewrite lookup_delete_Some. split.
  - intros [Hne (i & v & Hi & Hc & Ht & Hp)%registry_lookup]; [|done].
    exists i, v. split; [|done]. apply map_lookup_filter_Some. split; [done|].
    apply not_true_is_false. intros [? ?]%has_token_true. simpl in *. congruence.
  - intros (i & v & [Hi Hf]%map_lookup_filter_Some & Hc & Ht & Hp). split.
    + intros [= <- <-]. simpl in Hf. by rewrite (proj2 (has_token_true _ _ _)) in Hf.
    + apply registry_lookup; [done|]. eauto 10.
Qed.
End registry.

(** ** The handlers *)

Section handlers.
Context `{UuidText} `{PostgresOk} `{Unicode}.

Definition device_fields (body : registerDeviceBody) : string * string :=
  (TrimSpace (rd_Token body), TrimSpace (ToLower (rd_Platform body))).

Definition device_ok : response := c_JSON StatusOK [("ok", JBool true)].

(** Registration, whatever the environment does. *)
Lemma handleRegisterDevice_spec cid rq w w' rsp :
  wf (w_db w) →
  handleRegisterDevice (Some (Some cid)) rq w = (w', rsp) →
  match device_fields <$> ShouldBindJSON (rq_body rq) with
  | Some (token, platform) =>
      if String.eqb token "" || String.eqb platform "" then rsp = invalid_request ∧ w' = w
      else
        let put := <[(cid, token) := platform]> (registry (w_db w)) in
        rsp = device_ok ∧ registry (w_db w') = put
        ∨ rsp = internal_error
          ∧ (registry (w_db w') = registry (w_db w) ∨ registry (w_db w') = put)
  | None => rsp = invalid_request ∧ w' = w
  end.
Proof.
  intros Hwf. unfold handleRegisterDevice. cbn [CitizenID].
  destruct (ShouldBindJSON _) as [body|]; simpl; [|by intros [= <- <-]].
  destruct (_ || _); [by intros [= <- <-]|].
  intros (w1 & r & Hq & Hr)%bind_inv. injection Hr as <- <-. cbv zeta.
  apply pool_sql_inv in Hq as (_ & _ & Hq).
  destruct r as [[]|[|m]].
  - left. split; [done|]. by eapply upsert_device_registry.
  - right. split; [done|]. left. by destruct Hq as [_ ->].
  - right. split; [done|]. destruct Hq as [->|[[] Hq]]; [by left|right].
    by eapply upsert_device_registry.
Qed.

(** Without failures, a citizen's acceptable token is registered. *)
Lemma handleRegisterDevice_fine cid rq w body :
  w_faults w = [] → is_Some (citizens (w_db w) !! cid) →
  push_devices (w_db w) !! gen_random_uuid (w_gen w) = None →
  ShouldBindJSON (rq_body rq) = Some body →
  let '(token, platform) := device_fields body in
  token ≠ "" → platform ≠ "" → text_ok [platform; token] = true →
  (handleRegisterDevice (Some (Some cid)) rq w).2 = device_ok.
Proof.
  intros Hf [c Hc] Hfresh Hbody. unfold device_fields. intros Ht Hp Htext.
  unfold handleRegisterDevice. cbn [CitizenID]. rewrite Hbody. cbv zeta.
  rewrite (proj2 (String.eqb_neq _ _) Ht), (proj2 (String.eqb_neq _ _) Hp). simpl.
  unfold UpsertPushDevice, mbind, ST_bind. rewrite pool_sql_fine by done. cbv zeta.
  unfold upsert_device. rewrite Htext. simpl.
  destruct (select _ _) as [|[i v] l]; simpl; [|done]. by rewrite Hfresh, Hc.
Qed.

(** Removal, whatever the environment does. *)
Lemma handleDeleteDevice_spec cid rq w w' rsp :
  wf (w_db w) →
  handleDeleteDevice (Some (Some cid)) rq w = (w', rsp) →
  let token := TrimSpace (rq_query rq "token") in
  let dropped := delete (cid, token) (registry (w_db w)) in
  if String.eqb token "" then rsp = c_error StatusBadRequest "missing_token" ∧ w' = w
  else
    (rsp = c_Status StatusNoContent ∧ is_Some (registry (w_db w) !! (cid, token))
     ∧ registry (w_db w') = dropped)
    ∨ (rsp = not_found ∧ registry (w_db w) !! (cid, token) = None
       ∧ registry (w_db w') = registry (w_db w))
    ∨ (rsp = internal_error
       ∧ (registry (w_db w') = registry (w_db w) ∨ registry (w_db w') = dropped)).
Proof.
  intros Hwf. unfold handleDeleteDevice. cbn [CitizenID]. cbv zeta.
  destruct (String.eqb _ ""); [by intros [= <- <-]|].
  intros (w1 & r & Hq & Hr)%bind_inv. injection Hr as <- <-.
  set (token := TrimSpace (rq_query rq "token")) in *.
  assert (∀ n, (if negb (text_ok [token]) then bad_text
     else Ok (count_rows (select (λ _ v, has_token cid token v) (push_devices (w_db w))),
              without_token cid token (w_db w))) = Ok (n, w_db w1) →
    registry (w_db w1) = delete (cid, token) (registry (w_db w))
    ∧ n = count_rows (select (λ _ v, has_token cid token v) (push_devices (w_db w)))) as Hdel.
  { intros n. unfold bad_text. destruct (negb _); [done|]. intros [= <- <-].
    by rewrite without_token_registry. }
  apply pool_sql_inv in Hq as (_ & _ & Hq). destruct r as [n|[|m]].
  - apply Hdel in Hq as [Hreg ->]. unfold count_rows.
    pose proof (select_token_nil _ cid token Hwf) as Hnil.
    destruct (select _ _) as [|p l]; simpl.
    + right. left. pose proof (proj1 Hnil eq_refl) as Hno. split; [done|]. split; [done|].
      by rewrite Hreg, delete_id.
    + left. split; [done|]. split; [|done]. apply not_eq_None_Some. intros Hno.
      by apply Hnil in Hno.
  - right. right. split; [done|]. left. by destruct Hq as [_ ->].
  - right. right. split; [done|]. destruct Hq as [->|[n Hq]]; [by left|].
    right. by apply Hdel in Hq as [? _].
Qed.

(** What the worker's pushes go to. *)
Lemma ListPushTokensByCitizen_spec cid w w' ts :
  wf (w_db w) → ListPushTokensByCitizen cid w = (w', Ok ts) →
  NoDup ts ∧ ∀ token, token ∈ ts ↔ is_Some (registry (w_db w) !! (cid, token)).
Proof.
  intros Hwf (_ & _ & Hq)%pool_sql_inv. injection Hq as <- _. split.
  - apply NoDup_fmap_2_strong; [|eapply NoDup_fmap_1, select_NoDup].
    intros [i v] [j v'] [Hi Hc%bool_decide_eq_true]%elem_of_select
      [Hj Hc'%bool_decide_eq_true]%elem_of_select Ht. simpl in *.
    assert (i = j) as -> by (eapply wf_device_token; eauto; congruence). congruence.
  - intros token. rewrite list_elem_of_fmap. split.
    + intros ([i v] & -> & [Hi Hc%bool_decide_eq_true]%elem_of_select).
      exists (dv_platform v). apply registry_lookup; [done|]. eauto 10.
    + intros [p (i & v & Hi & Hc & Ht & Hp)%registry_lookup]; [|done]. exists (i, v).
      split; [done|]. apply elem_of_select. split; [done|]. by apply bool_decide_eq_true.
Qed.

(** C22: the device routes and the push listing implement a registry from
    citizens and tokens to platforms, under every pattern of failures.  A
    registration with a blank token or platform is refused; any other one is
    answered 200 and sets that one entry, or 500 and has set it or not.  A
    removal is answered 204 exactly when the entry was there, and then it
    alone is gone; 404 changes nothing.  A citizen's pushes go to each token
    registered for them, once. *)
Theorem devices_refine_registry cid rq w (Hwf : wf (w_db w)) :
  let r := registry (w_db w) in
  (let '(w', rsp) := handleRegisterDevice (Some (Some cid)) rq w in
   match device_fields <$> ShouldBindJSON (rq_body rq) with
   | Some (token, platform) =>
       if String.eqb token "" || String.eqb platform "" then rsp = invalid_request ∧ w' = w
       else rsp = device_ok ∧ registry (w_db w') = <[(cid, token) := platform]> r
            ∨ rsp = internal_error
              ∧ (registry (w_db w') = r ∨ registry (w_db w') = <[(cid, token) := platform]> r)
   | None => rsp = invalid_request ∧ w' = w
   end)
  ∧ (let '(w', rsp) := handleDeleteDevice (Some (Some cid)) rq w in
     let token := TrimSpace (rq_query rq "token") in
     if String.eqb token "" then rsp = c_error StatusBadRequest "missing_token" ∧ w' = w
     else (rsp = c_Status StatusNoContent ∧ is_Some (r !! (cid, token))
           ∧ registry (w_db w') = delete (cid, token) r)
          ∨ (rsp = not_found ∧ r !! (cid, token) = None ∧ registry (w_db w') = r)
          ∨ (rsp = internal_error
             ∧ (registry (w_db w') = r ∨ registry (w_db w') = delete (cid, token) r)))
  ∧ (∀ w' ts, ListPushTokensByCitizen cid w = (w', Ok ts) →
       NoDup ts ∧ ∀ token, token ∈ ts ↔ is_Some (r !! (cid, token)))
  ∧ (∀ body, w_faults w = [] → is_Some (citizens (w_db w) !! cid) →
       push_devices (w_db w) !! gen_random_uuid (w_gen w) = None →
       ShouldBindJSON (rq_body rq) = Some body →
       let '(token, platform) := device_fields body in
       token ≠ "" → platform ≠ "" → text_ok [platform; token] = true →
       (handleRegisterDevice (Some (Some cid)) rq w).2 = device_ok).
Proof.
  cbv zeta. split_and!.
  - destruct (handleRegisterDevice _ _ w) as [w' rsp] eqn:E.
    by apply handleRegisterDevice_spec in E.
  - destruct (handleDeleteDevice _ _ w) as [w' rsp] eqn:E.
    by apply handleDeleteDevice_spec in E.
  - intros w' ts. by apply ListPushTokensByCitizen_spec.
  - intros body. by apply handleRegisterDevice_fine.
Qed.
End handlers.
