(* ===== verification/WsBusFacts.v ===== *)
(** * Invariants of the hub *)

From S2P Require Import Prelude Uuid WsBus.

(** Registered clients belong to the citizen they are filed under and have
    not closed their channel; no empty set is kept; buffers are bounded; a
    closed hub has no clients. *)
Record hub_inv (h : Hub) : Prop := {
  hi_registered cid m p :
    byCitizen h !! cid = Some m → p ∈ m →
    ∃ c, clients h !! p = Some c ∧ c_citizenID c = cid ∧ (c_once c = Fresh ∨ c_once c = Entered);
  hi_nonempty cid m : byCitizen h !! cid = Some m → m ≠ ∅;
  hi_buffer p c : clients h !! p = Some c → (length (c_send c) ≤ defaultSendBuffer)%nat;
  hi_closed : closed h = true → byCitizen h = ∅
}.

Definition registered (h : Hub) (p : positive) : Prop := ∃ cid, p ∈ clients_of h cid.

Lemma elem_of_clients_of h cid p :
  p ∈ clients_of h cid ↔ ∃ m, byCitizen h !! cid = Some m ∧ p ∈ m.
Proof.
  unfold clients_of. destruct (byCitizen h !! cid) as [m|]; simpl.
  - split; [eauto|]. by intros (m' & [= ->] & ?).
  - split; [set_solver|]. by intros (m' & ? & _).
Qed.

Lemma registered_client h cid p :
  hub_inv h → p ∈ clients_of h cid →
  ∃ c, clients h !! p = Some c ∧ c_citizenID c = cid ∧ (c_once c = Fresh ∨ c_once c = Entered).
Proof. intros Hi (m & Hm & Hp)%elem_of_clients_of. by eapply hi_registered. Qed.

Lemma registered_open h cid p c :
  hub_inv h → p ∈ clients_of h cid → clients h !! p = Some c → chan_closed c = false.
Proof.
  intros Hi Hp Hc. destruct (registered_client h cid p Hi Hp) as (c' & Hc' & _ & Ho).
  rewrite Hc in Hc'. simplify_eq. unfold chan_closed. by destruct Ho as [-> | ->].
Qed.

Lemma NewHub_inv : hub_inv NewHub.
Proof. split; simpl; intros *; try by rewrite ?lookup_empty. Qed.

(** ** Replacing a client's record *)

Lemma update_client_lookup f p h q :
  clients (update_client f p h) !! q
  = if decide (q = p) then f <$> clients h !! q else clients h !! q.
Proof.
  unfold update_client. simpl. destruct (decide (q = p)) as [->|Hne].
  - by rewrite lookup_alter_eq.
  - by rewrite lookup_alter_ne.
Qed.

Lemma update_client_inv f p h :
  hub_inv h →
  (∀ c, clients h !! p = Some c →
     c_citizenID (f c) = c_citizenID c ∧ (length (c_send (f c)) ≤ defaultSendBuffer)%nat
     ∧ (registered h p → c_once (f c) = Fresh ∨ c_once (f c) = Entered)) →
  hub_inv (update_client f p h).
Proof.
  intros Hi Hf. split.
  - intros cid m q Hm Hq. simpl in Hm.
    destruct (hi_registered h Hi cid m q Hm Hq) as (c & Hc & Hcid & Ho).
    rewrite update_client_lookup. destruct (decide (q = p)) as [->|Hne].
    + rewrite Hc. simpl. exists (f c). destruct (Hf c Hc) as (Hfc & _ & Hfo).
      split; [done|]. split; [congruence|]. apply Hfo. exists cid. apply elem_of_clients_of. eauto.
    + exists c. done.
  - intros cid m Hm. by eapply hi_nonempty.
  - intros q c. rewrite update_client_lookup. destruct (decide (q = p)) as [->|Hne].
    + destruct (clients h !! p) as [c0|] eqn:E; [|done]. simpl. intros [= <-]. by apply Hf.
    + by apply hi_buffer.
  - exact (hi_closed h Hi).
Qed.

(** ** Unregister *)

Lemma Unregister_clients p h : clients (Unregister p h) = clients h.
Proof. unfold Unregister. by repeat case_match. Qed.

Lemma Unregister_closed p h : closed (Unregister p h) = closed h.
Proof. unfold Unregister. by repeat case_match. Qed.

Lemma Unregister_lookup p h c cid :
  hub_inv h → clients h !! p = Some c →
  clients_of (Unregister p h) cid = clients_of h cid ∖ {[p]}.
Proof.
  intros Hi Hc. unfold Unregister. rewrite Hc.
  assert (∀ cid, cid ≠ c_citizenID c → p ∉ clients_of h cid) as Hother.
  { intros x Hx Hp. destruct (registered_client h x p Hi Hp) as (c' & Hc' & Hcid & _). congruence. }
  destruct (byCitizen h !! c_citizenID c) as [m|] eqn:Em.
  - unfold clients_of at 1. simpl. destruct (decide (cid = c_citizenID c)) as [->|Hne].
    + unfold clients_of. rewrite Em. simpl. case_bool_decide as He.
      * rewrite lookup_delete_eq. simpl. symmetry. exact He.
      * by rewrite lookup_insert_eq.
    + case_bool_decide; rewrite ?lookup_delete_ne, ?lookup_insert_ne by done;
        fold (clients_of h cid); specialize (Hother cid Hne); set_solver.
  - destruct (decide (cid = c_citizenID c)) as [->|Hne].
    + unfold clients_of. rewrite Em. simpl. set_solver.
    + specialize (Hother cid Hne). set_solver.
Qed.

Lemma Unregister_not_registered p h c :
  hub_inv h → clients h !! p = Some c → ¬ registered (Unregister p h) p.
Proof. intros Hi Hc [cid Hp]. rewrite (Unregister_lookup p h c) in Hp by done. set_solver. Qed.

Lemma Unregister_inv p h : hub_inv h → hub_inv (Unregister p h).
Proof.
  intros Hi. destruct (clients h !! p) as [c|] eqn:Hc; [|unfold Unregister; by rewrite Hc].
  split; rewrite ?Unregister_clients, ?Unregister_closed.
  - intros cid m q Hm Hq. assert (q ∈ clients_of (Unregister p h) cid) as Hin
      by (apply elem_of_clients_of; eauto).
    rewrite (Unregister_lookup p h c) in Hin by done.
    apply registered_client; [done|set_solver].
  - intros cid m. unfold Unregister. rewrite Hc.
    destruct (byCitizen h !! c_citizenID c) as [m'|] eqn:Em; [|by eapply hi_nonempty].
    simpl. case_bool_decide.
    + intros [_ Hm]%lookup_delete_Some. by eapply hi_nonempty.
    + intros [[_ <-]|[_ Hm]]%lookup_insert_Some; [done|by eapply hi_nonempty].
  - intros q c'. by apply hi_buffer.
  - intros Hcl. apply hi_closed in Hcl as He; [|done].
    unfold Unregister. rewrite Hc, He, lookup_empty. done.
Qed.

(** ** Connections *)

Lemma Connect_inv p cid h : hub_inv h → clients h !! p = None → hub_inv (Connect p cid h).
Proof.
  intros Hi Hp. unfold Connect, Register. simpl. rewrite lookup_insert_eq.
  set (h1 := set_clients (<[p:=NewClient cid]> (clients h)) h).
  assert (∀ q c, clients h1 !! q = Some c →
            (length (c_send c) ≤ defaultSendBuffer)%nat) as Hbuf.
  { intros q c. simpl. rewrite lookup_insert_Some.
    intros [[_ <-]|[_ Hq]]; [simpl; unfold defaultSendBuffer; lia|by eapply hi_buffer]. }
  assert (∀ x m q, byCitizen h !! x = Some m → q ∈ m →
     ∃ c, clients h1 !! q = Some c ∧ c_citizenID c = x ∧ (c_once c = Fresh ∨ c_once c = Entered))
    as Hreg.
  { intros x m q Hm Hq. destruct (hi_registered h Hi x m q Hm Hq) as (c & Hc & ?).
    exists c. simpl. rewrite lookup_insert_ne by congruence. done. }
  destruct (closed h) eqn:Hcl; simpl.
  - split; simpl; [exact Hreg|by apply hi_nonempty|exact Hbuf|]. by intros _; apply hi_closed.
  - split; simpl; [| |exact Hbuf|congruence].
    + intros x m q. rewrite lookup_insert_Some. intros [[<- <-]|[_ Hm]] Hq; [|by eapply Hreg].
      apply elem_of_union in Hq as [->%elem_of_singleton|Hq].
      * exists (NewClient cid). simpl. rewrite lookup_insert_eq. auto.
      * apply elem_of_clients_of in Hq as (m & Hm & Hq). by eapply Hreg.
    + intros x m. rewrite lookup_insert_Some. intros [[_ <-]|[_ Hm]]; [set_solver|].
      by eapply hi_nonempty.
Qed.

(** ** Steps *)

Lemma not_registered_once h p c :
  hub_inv h → clients h !! p = Some c → c_once c ≠ Fresh → c_once c ≠ Entered → ¬ registered h p.
Proof.
  intros Hi Hc Hf He [cid Hp]. destruct (registered_client h cid p Hi Hp) as (c' & Hc' & _ & Ho).
  rewrite Hc in Hc'. simplify_eq. tauto.
Qed.

Lemma registered_once h p c :
  hub_inv h → clients h !! p = Some c → registered h p → c_once c = Fresh ∨ c_once c = Entered.
Proof.
  intros Hi Hc [cid Hp]. destruct (registered_client h cid p Hi Hp) as (c' & Hc' & _ & Ho).
  rewrite Hc in Hc'. by simplify_eq.
Qed.

Lemma act_inv h a h' new : hub_inv h → act h a h' new → hub_inv h'.
Proof.
  intros Hi Ha. destruct Ha; try done.
  1, 2, 3: apply update_client_inv; [done|]; intros c' Hc';
    pose proof (hi_buffer h Hi _ _ Hc') as Hb; simplify_eq; simpl;
    (split; [done|]); (split; [|intros Hr; by eapply registered_once]).
  - match goal with E : c_send _ = _ |- _ => rewrite E in Hb; simpl in Hb; lia end.
  - match goal with E : c_send _ = _ |- _ => rewrite E in Hb; simpl in Hb; lia end.
  - rewrite length_app. simpl. lia.
  - apply update_client_inv; [done|]. intros c' Hc'. simplify_eq. simpl.
    split; [done|]. split; [by eapply hi_buffer|by right].
  - apply update_client_inv; [by apply Unregister_inv|]. intros c' Hc'.
    rewrite Unregister_clients in Hc'. simplify_eq. simpl. split; [done|].
    split; [by eapply hi_buffer|]. intros Hr. by apply (Unregister_not_registered p h c) in Hr.
  - apply update_client_inv; [done|]. intros c' Hc'. simplify_eq. simpl. split; [done|].
    split; [by eapply hi_buffer|]. intros Hr. exfalso.
    eapply (not_registered_once h p c); try done; congruence.
  - apply update_client_inv; [done|]. intros c' Hc'. simplify_eq. simpl. split; [done|].
    split; [by eapply hi_buffer|]. intros Hr. exfalso.
    eapply (not_registered_once h p c); try done; congruence.
  - split; simpl; [by intros *; rewrite lookup_empty..|exact (hi_buffer h Hi)|done].
Qed.

(** ** One operation at a time *)

(** Between operations run one at a time, no shutdown is under way. *)
Definition quiet (h : Hub) : Prop :=
  hub_inv h ∧ ∀ p c, clients h !! p = Some c → c_once c = Fresh ∨ c_once c = Done.

Lemma quiet_registered_fresh h cid p :
  quiet h → p ∈ clients_of h cid →
  ∃ c, clients h !! p = Some c ∧ c_citizenID c = cid ∧ c_once c = Fresh.
Proof.
  intros [Hi Hq] Hp. destruct (registered_client h cid p Hi Hp) as (c & Hc & Hcid & Ho).
  exists c. split; [done|]. split; [done|]. destruct (Hq p c Hc), Ho; congruence.
Qed.

Lemma shutdown_fresh h p c :
  clients h !! p = Some c → c_once c = Fresh →
  shutdown p h = update_client (with_once Done) p (Unregister p h).
Proof. intros Hc Ho. unfold shutdown. rewrite Hc. simpl. by rewrite Ho. Qed.

Lemma shutdown_quiet h p c :
  quiet h → clients h !! p = Some c → c_once c = Fresh → quiet (shutdown p h).
Proof.
  intros [Hi Hq] Hc Ho. rewrite (shutdown_fresh h p c) by done. split.
  - apply update_client_inv; [by apply Unregister_inv|]. intros c' Hc'.
    rewrite Unregister_clients in Hc'. simplify_eq. simpl. split; [done|].
    split; [by eapply hi_buffer|]. intros Hr. by apply (Unregister_not_registered p h c) in Hr.
  - intros q c'. rewrite update_client_lookup, Unregister_clients.
    destruct (decide (q = p)) as [->|_]; [|apply Hq]. rewrite Hc. simpl. intros [= <-]. by right.
Qed.

Lemma send_quiet h p c m :
  quiet h → clients h !! p = Some c → (length (c_send c) < defaultSendBuffer)%nat →
  quiet (update_client (with_send (c_send c ++ [m])) p h).
Proof.
  intros [Hi Hq] Hc Hlt. split.
  - apply update_client_inv; [done|]. intros c' Hc'. simplify_eq. split; [done|]. simpl.
    rewrite length_app. simpl. split; [lia|]. intros Hr. by eapply registered_once.
  - intros q c'. rewrite update_client_lookup. destruct (decide (q = p)) as [->|_]; [|apply Hq].
    rewrite Hc. simpl. intros [= <-]. exact (Hq p c Hc).
Qed.

(** What a dispatch does to one client, and to the registrations. *)
Definition after_send (m : string) (c : Client) : Client :=
  if (length (c_send c) <? defaultSendBuffer)%nat then with_send (c_send c ++ [m]) c
  else with_once Done c.

Definition full (h : Hub) (p : positive) : bool :=
  match clients h !! p with
  | Some c => negb (length (c_send c) <? defaultSendBuffer)%nat
  | None => false
  end.

Lemma send_one_spec h cid p m :
  quiet h → p ∈ clients_of h cid →
  ∃ h', send_one m p h = Some h' ∧ quiet h' ∧ closed h' = closed h
    ∧ (∀ q, clients h' !! q = if decide (q = p) then after_send m <$> clients h !! q
                              else clients h !! q)
    ∧ (∀ x, clients_of h' x = if full h p then clients_of h x ∖ {[p]} else clients_of h x).
Proof.
  intros Hq Hp. destruct (quiet_registered_fresh h cid p Hq Hp) as (c & Hc & Hcid & Ho).
  assert (chan_closed c = false) as Hcc by (unfold chan_closed; by rewrite Ho).
  unfold send_one, full, after_send. rewrite Hc, Hcc.
  destruct (Nat.ltb_spec (length (c_send c)) defaultSendBuffer) as [Hlt|Hge]; simpl.
  - eexists. split; [reflexivity|]. split; [by apply send_quiet|]. split; [done|].
    split; [|done]. intros q. rewrite update_client_lookup.
    destruct (decide (q = p)) as [->|_]; [|done]. rewrite Hc. simpl.
    by rewrite (proj2 (Nat.ltb_lt _ _) Hlt).
  - eexists. split; [reflexivity|]. split; [by eapply shutdown_quiet|].
    rewrite (shutdown_fresh h p c) by done. split; [exact (Unregister_closed p h)|]. split.
    + intros q. rewrite update_client_lookup, Unregister_clients.
      destruct (decide (q = p)) as [->|_]; [|done]. rewrite Hc. simpl.
      by rewrite (proj2 (Nat.ltb_ge _ _) Hge).
    + intros x. change (clients_of (update_client (with_once Done) p (Unregister p h)) x)
        with (clients_of (Unregister p h) x). apply (Unregister_lookup p h c); [apply Hq|done].
Qed.

Lemma send_all_spec h cid ps m :
  quiet h → NoDup ps → (∀ p, p ∈ ps → p ∈ clients_of h cid) →
  ∃ h', send_all m ps h = Some h' ∧ quiet h' ∧ closed h' = closed h
    ∧ (∀ q, clients h' !! q = if decide (q ∈ ps) then after_send m <$> clients h !! q
                              else clients h !! q)
    ∧ (∀ x q, q ∈ clients_of h' x ↔ q ∈ clients_of h x ∧ ¬ (q ∈ ps ∧ full h q = true)).
Proof.
  intros Hq Hnd Hin. revert h Hq Hin. induction ps as [|p ps IH]; intros h Hq Hin.
  { exists h. split; [done|]. split; [done|]. split; [done|]. split; [done|].
    intros x q. split; [|tauto]. intros ?. split; [done|]. by intros [?%elem_of_nil _]. }
  apply NoDup_cons in Hnd as [Hni Hnd].
  destruct (send_one_spec h cid p m Hq) as (h1 & H1 & Hq1 & Hcl1 & Hc1 & Hr1);
    [apply Hin; by left|].
  destruct (IH Hnd h1 Hq1) as (h2 & H2 & Hq2 & Hcl2 & Hc2 & Hr2).
  { intros q Hqp. rewrite Hr1. assert (q ≠ p) by (by intros ->).
    specialize (Hin q). destruct (full h p); set_solver. }
  exists h2. simpl. rewrite H1. split; [done|]. split; [done|]. split; [congruence|].
  assert (∀ q, q ≠ p → full h1 q = full h q) as Hfull.
  { intros q Hne. unfold full. by rewrite Hc1, decide_False. }
  split.
  - intros q. rewrite Hc2, Hc1. destruct (decide (q = p)) as [->|Hne].
    + rewrite decide_False by done. by rewrite decide_True by left.
    + destruct (decide (q ∈ ps)); [rewrite decide_True by (by right)|
        rewrite decide_False by (by intros [?|?]%elem_of_cons)]; done.
  - intros x q. rewrite Hr2, Hr1. destruct (decide (q = p)) as [->|Hne].
    + destruct (full h p); set_solver.
    + rewrite Hfull by done. destruct (full h p); set_solver.
Qed.
