(* ===== verification/WsBusProps.v ===== *)
(** * What the hub guarantees, and how it can crash *)

From S2P Require Import Prelude Uuid WsBus WsBusFacts.

(** ** Isolation *)

(** Everything buffered or written for a client was dispatched to its
    citizen. *)
Definition isolated (h : Hub) (log : list (uuid * string)) : Prop :=
  ∀ p c m, clients h !! p = Some c → m ∈ c_send c ∨ m ∈ c_written c → (c_citizenID c, m) ∈ log.

(** What a pending action will deliver was dispatched to the right citizen. *)
Definition justified (h : Hub) (log : list (uuid * string)) (a : action) : Prop :=
  match a with
  | ADispatch cid m => (cid, m) ∈ log
  | ASend p m => ∃ c, clients h !! p = Some c ∧ (c_citizenID c, m) ∈ log
  | _ => True
  end.

Definition state_inv (s : state) : Prop :=
  hub_inv (hub s) ∧ isolated (hub s) (dispatched s)
  ∧ ∀ t a, t ∈ threads s → a ∈ t → justified (hub s) (dispatched s) a.

(** Clients stay, with their citizen. *)
Definition clients_le (h h' : Hub) : Prop :=
  ∀ p c, clients h !! p = Some c → ∃ c', clients h' !! p = Some c' ∧ c_citizenID c' = c_citizenID c.

Lemma clients_le_refl h : clients_le h h.
Proof. intros p c Hc. eauto. Qed.

Lemma update_client_le f p h :
  (∀ c, c_citizenID (f c) = c_citizenID c) → clients_le h (update_client f p h).
Proof.
  intros Hf q c Hc. rewrite update_client_lookup. destruct (decide (q = p)) as [->|_]; [|eauto].
  rewrite Hc. simpl. eauto.
Qed.

Lemma act_clients_le h a h' new : act h a h' new → clients_le h h'.
Proof.
  destruct 1; try apply clients_le_refl; try (by apply update_client_le).
  - intros q c' Hc'. rewrite <-(Unregister_clients p h) in Hc'.
    by apply (update_client_le (with_once Unregistered) p (Unregister p h)) in Hc'.
  - intros q c' Hc'. by exists c'.
Qed.

Lemma justified_mono h h' log log' a :
  clients_le h h' → (∀ x, x ∈ log → x ∈ log') → justified h log a → justified h' log' a.
Proof.
  intros Hle Hl. destruct a; simpl; auto. intros (c & Hc & Hin).
  destruct (Hle _ _ Hc) as (c' & Hc' & Hcid). exists c'. rewrite Hcid. auto.
Qed.

Lemma update_isolated f p h log :
  isolated h log →
  (∀ c m, clients h !! p = Some c → m ∈ c_send (f c) ∨ m ∈ c_written (f c) →
     (c_citizenID (f c), m) ∈ log) →
  isolated (update_client f p h) log.
Proof.
  intros Hi Hf q c m. rewrite update_client_lookup.
  destruct (decide (q = p)) as [->|_]; [|by apply Hi].
  destruct (clients h !! p) as [c0|] eqn:E; [|done]. simpl. intros [= <-]. by apply Hf.
Qed.

Lemma act_isolated h a h' new log :
  isolated h log → justified h log a → act h a h' new → isolated h' log.
Proof.
  intros Hi Hj Ha. destruct Ha; try done.
  all: try (apply update_isolated; [done|]; intros c' m' Hc'; simplify_eq; simpl; intros Hm;
            eapply Hi; [eassumption|]; by destruct Hm as [Hm|Hm]; [left|right]).
  - apply update_isolated; [done|]. intros c' m' Hc'. simplify_eq. simpl. intros Hm.
    eapply Hi; [eassumption|]. match goal with E : c_send _ = _ |- _ => rewrite E end. set_solver.
  - apply update_isolated; [done|]. intros c' m' Hc'. simplify_eq. simpl. intros Hm.
    eapply Hi; [eassumption|]. match goal with E : c_send _ = _ |- _ => rewrite E end. set_solver.
  - destruct Hj as (c' & Hc' & Hj). apply update_isolated; [done|]. intros c2 m' Hc2. simplify_eq.
    simpl. rewrite elem_of_app, list_elem_of_singleton. intros [[Hm| ->]|Hm]; [|done|];
      eapply Hi; eauto.
  - apply update_isolated; [intros q c'; rewrite Unregister_clients; apply Hi|].
    intros c' m' Hc'. rewrite Unregister_clients in Hc'. simplify_eq. simpl. intros Hm. eapply Hi; eassumption.
Qed.

Lemma act_justified h a h' new log b :
  hub_inv h → act h a h' new → justified h log a → b ∈ new → justified h' log b.
Proof.
  intros Hi Ha Hj Hb.
  destruct Ha; simpl in *; try (by apply elem_of_nil in Hb);
    try (apply list_elem_of_singleton in Hb as ->; exact I).
  - apply list_elem_of_fmap in Hb as (p & -> & Hp). match goal with E : _ ≡ₚ _ |- _ => rewrite E, elem_of_elements in Hp end.
    destruct (registered_client h cid p Hi Hp) as (c & Hc & <- & _). exists c. done.
  - apply list_elem_of_fmap in Hb as (p & -> & _). exact I.
Qed.

Lemma step_inv s s' : state_inv s → step s s' → state_inv s'.
Proof.
  intros (Hi & Hiso & Hj) Hs. unfold state_inv. destruct Hs; cbn [hub threads dispatched] in *.
  - assert (justified h log a) as Hja.
    { apply (Hj (a :: t)); [apply elem_of_app; right; left|left]. }
    assert (clients_le h h') as Hle by (by eapply act_clients_le).
    split; [by eapply act_inv|]. split; [by eapply act_isolated|].
    intros t' b Ht Hb. apply elem_of_app in Ht as [Ht|[->|Ht]%elem_of_cons].
    + eapply justified_mono; [done|done|]. eapply Hj; [|done]. apply elem_of_app. by left.
    + apply elem_of_app in Hb as [Hb|Hb]; [by eapply act_justified|].
      eapply justified_mono; [done|done|]. eapply Hj; [apply elem_of_app; right; left|by right].
    + eapply justified_mono; [done|done|]. eapply Hj; [|done]. apply elem_of_app. right. by right.
  - done.
  - assert (clients (Connect p cid h) = <[p:=NewClient cid]> (clients h)) as Hcl.
    { unfold Connect, Register. simpl. rewrite lookup_insert_eq. by destruct (closed h). }
    assert (clients_le h (Connect p cid h)) as Hle.
    { intros q c Hc. rewrite Hcl. exists c. rewrite lookup_insert_ne by congruence. done. }
    split; [by apply Connect_inv|]. split.
    + intros q c m. rewrite Hcl, lookup_insert_Some. intros [[_ <-]|[_ Hq]]; [|intros Hm; eapply Hiso; eassumption].
      simpl. by intros [?%elem_of_nil|?%elem_of_nil].
    + intros t b Ht Hb. rewrite !elem_of_cons in Ht.
      destruct Ht as [->|[->|Ht]]; [by apply list_elem_of_singleton in Hb as ->..|].
      eapply justified_mono; [done|done|]. by eapply Hj.
  - split; [done|]. split; [intros q c m Hc Hm; right; by eapply Hiso|].
    intros t b [->|Ht]%elem_of_cons Hb.
    + apply list_elem_of_singleton in Hb as ->. simpl. by left.
    + eapply justified_mono; [apply clients_le_refl| |by eapply Hj]. intros x Hx. by right.
  - split; [done|]. split; [done|]. intros t b [->|Ht]%elem_of_cons Hb; [|by eapply Hj].
    by apply list_elem_of_singleton in Hb as ->.
Qed.

Lemma reachable_inv s : reachable s → state_inv s.
Proof.
  intros Hr. unfold reachable in Hr.
  apply (rtc_ind_r (R := step) (λ s, state_inv s) init_state); [| |done].
  - split; [apply NewHub_inv|]. split; [|by intros t a ?%elem_of_nil].
    intros p c m. simpl. by rewrite lookup_empty.
  - intros x y _ Hs Hx. by eapply step_inv.
Qed.

(** C25: whatever the interleaving of connections, dispatches, pumps and
    shutdowns: a client is filed only under its own citizen and not once its
    channel is closed, no buffer exceeds 16 payloads, a closed hub is empty,
    and everything buffered for a connection or written to it was dispatched
    to that connection's citizen. *)
Theorem hub_invariant s (Hreach : reachable s) :
  (∀ cid p, p ∈ clients_of (hub s) cid →
     ∃ c, clients (hub s) !! p = Some c ∧ c_citizenID c = cid ∧ chan_closed c = false)
  ∧ (∀ p c, clients (hub s) !! p = Some c → (length (c_send c) ≤ 16)%nat)
  ∧ (closed (hub s) = true → byCitizen (hub s) = ∅)
  ∧ isolated (hub s) (dispatched s).
Proof.
  destruct (reachable_inv s Hreach) as (Hi & Hiso & _). split_and!; [|apply Hi|apply Hi|done].
  intros cid p Hp. destruct (registered_client _ _ _ Hi Hp) as (c & Hc & Hcid & Ho).
  exists c. split; [done|]. split; [done|]. by eapply registered_open.
Qed.

(** ** The crash *)

(** A citizen connects, a payload is dispatched, the connection drops before
    the send. *)
Lemma panic_trace : ∃ s s', reachable s ∧ step s s' ∧ panicked s' = true.
Proof.
  set (cid := Uuid 1). set (p := 1%positive).
  eexists _, _. split; [|split; [|shelve]].
  { eapply rtc_l; [apply (step_connect NewHub [] p cid); reflexivity|].
    eapply rtc_l; [eapply (step_dispatch _ _ cid "m")|].
    eapply rtc_l.
    { eapply (step_act _ _ [] _ (ADispatch cid "m")).
      by apply (act_dispatch cid "m" _ [p]); [|vm_compute]. }
    eapply rtc_l.
    { eapply (step_act _ _ [[ASend p "m"]] [[AWriteLoop p]] (AReadLoop p)). apply act_read_end. }
    eapply rtc_l.
    { eapply (step_act _ _ [[ASend p "m"]] [[AWriteLoop p]] (AShutdown p)).
      by eapply act_shutdown_first. }
    eapply rtc_l.
    { eapply (step_act _ _ [[ASend p "m"]] [[AWriteLoop p]] (AOnceBody p)). by eapply act_unregister. }
    eapply rtc_l.
    { eapply (step_act _ _ [[ASend p "m"]] [[AWriteLoop p]] (AOnceBody p)). by eapply act_close_chan. }
    apply rtc_refl. }
  { by eapply (step_panic _ [] [[AOnceBody p]; [AWriteLoop p]] p "m" []). }
  Unshelve. reflexivity.
Qed.

(** C24: the process can crash, in one way.  [Dispatch] copies the set of
    clients and lets go of the lock before it sends; a connection that ends in
    between has its channel closed, and the send panics.  A reachable state
    crashes in no other step: only in a send of [Dispatch] to a client that
    has left every set since the snapshot. *)
Theorem dispatch_can_panic :
  (∃ s, reachable s ∧ panicked s = true)
  ∧ ∀ s s', reachable s → step s s' → panicked s' = true →
      ∃ p payload t c, (ASend p payload :: t) ∈ threads s
        ∧ clients (hub s) !! p = Some c ∧ chan_closed c = true
        ∧ ∀ cid, p ∉ clients_of (hub s) cid.
Proof.
  split.
  { destruct panic_trace as (s & s' & Hr & Hs & Hp). exists s'. split; [|done].
    eapply rtc_r; [exact Hr|exact Hs]. }
  intros s s' Hreach Hstep Hpanic. destruct (reachable_inv s Hreach) as (Hi & _ & _).
  inversion Hstep; subst; simpl in *; try done.
  exists p, payload, t, c. split; [apply elem_of_app; right; left|]. split; [done|]. split; [done|].
  intros cid Hp. pose proof (registered_open h cid p c Hi Hp). intuition congruence.
Qed.

(** ** One operation at a time *)

(** Run on its own, [Dispatch] never panics and reaches everyone.  Every
    registered client of the citizen either gets the payload at the end of
    its buffer or, when that is full, is shut down and unregistered; every
    other client is as before. *)
Lemma Dispatch_delivers h cid m
  (Hquiet : quiet h) (Hopen : closed h = false) :
  ∃ h', Dispatch cid m h = Some h' ∧ quiet h'
  ∧ ∀ p c, clients h !! p = Some c →
      if decide (p ∈ clients_of h cid) then
        if (length (c_send c) <? defaultSendBuffer)%nat
        then clients h' !! p = Some (with_send (c_send c ++ [m]) c) ∧ p ∈ clients_of h' cid
        else clients h' !! p = Some (with_once Done c) ∧ ∀ x, p ∉ clients_of h' x
      else clients h' !! p = Some c ∧ ∀ x, p ∈ clients_of h' x ↔ p ∈ clients_of h x.
Proof.
  unfold Dispatch. rewrite Hopen.
  destruct (send_all_spec h cid (elements (clients_of h cid)) m Hquiet) as (h' & Hs & Hq' & _ & Hc' & Hr').
  { apply NoDup_elements. }
  { intros p. by rewrite elem_of_elements. }
  exists h'. split; [done|]. split; [done|]. intros p c Hc.
  specialize (Hc' p). rewrite Hc in Hc'. unfold after_send in Hc'. simpl in Hc'.
  assert (full h p = negb (length (c_send c) <? defaultSendBuffer)%nat) as Hfull
    by (unfold full; by rewrite Hc).
  setoid_rewrite elem_of_elements in Hr'.
  destruct (decide (p ∈ clients_of h cid)) as [Hp|Hp].
  - rewrite decide_True in Hc' by (by apply elem_of_elements).
    destruct (length (c_send c) <? defaultSendBuffer)%nat; simpl in Hfull; (split; [done|]).
    + apply Hr'. split; [done|]. intros [_ ?]. congruence.
    + intros x [_ Hno]%Hr'. auto.
  - rewrite decide_False in Hc' by (by rewrite elem_of_elements). split; [done|].
    intros x. rewrite Hr'. tauto.
Qed.

Lemma shutdown_all_quiet ps h :
  quiet h → (∀ p, p ∈ ps → is_Some (clients h !! p)) → (∀ p, ¬ registered h p) →
  quiet (shutdown_all ps h) ∧ byCitizen (shutdown_all ps h) = byCitizen h
  ∧ closed (shutdown_all ps h) = closed h
  ∧ ∀ p c, clients h !! p = Some c →
      clients (shutdown_all ps h) !! p = Some (if decide (p ∈ ps) then with_once Done c else c).
Proof.
  revert h. induction ps as [|p ps IH]; intros h Hq Hex Hno.
  { split; [done|]. split; [done|]. split; [done|]. intros p c Hc.
    by rewrite decide_False by set_solver. }
  change (shutdown_all (p :: ps) h) with (shutdown_all ps (shutdown p h)).
  destruct (Hex p) as [c Hc]; [by left|].
  assert (Unregister p h = h) as Hu.
  { unfold Unregister. rewrite Hc. destruct (byCitizen h !! c_citizenID c) as [m|] eqn:Em; [|done].
    exfalso. assert (m ≠ ∅) as Hne by (by eapply (hi_nonempty h (proj1 Hq))).
    apply set_choose_L in Hne as [q Hqm]. apply (Hno q). exists (c_citizenID c).
    apply elem_of_clients_of. eauto. }
  assert (shutdown p h = update_client (with_once Done) p h) as Hsd.
  { unfold shutdown. rewrite Hc. simpl. destruct (proj2 Hq p c Hc) as [Ho|Ho]; rewrite Ho, ?Hu; [done|].
    unfold update_client, set_clients. destruct h as [bc cl cs]. simpl in *. f_equal.
    apply map_eq. intros q. destruct (decide (q = p)) as [->|Hne].
    - rewrite lookup_alter_eq, Hc. simpl. destruct c. simpl in *. by subst.
    - by rewrite lookup_alter_ne. }
  assert (quiet (shutdown p h)) as Hq1.
  { destruct (proj2 Hq p c Hc) as [Ho|Ho]; [by eapply shutdown_quiet|].
    unfold shutdown. rewrite Hc. simpl. by rewrite Ho. }
  destruct (IH (shutdown p h)) as (Hq2 & Hb2 & Hcl2 & Hc2); [done| | |].
  - intros q Hqp. rewrite Hsd, update_client_lookup. destruct (Hex q) as [c' Hc']; [by right|].
    destruct (decide _) as [->|_]; rewrite Hc'; simpl; eauto.
  - intros q Hr. apply (Hno q). by rewrite Hsd in Hr.
  - split; [done|]. split; [by rewrite Hb2, Hsd|]. split; [by rewrite Hcl2, Hsd|].
    intros q c' Hc'. rewrite (Hc2 q (if decide (q = p) then with_once Done c' else c')).
    + destruct (decide (q = p)) as [->|Hne].
      * rewrite (decide_True (P := p ∈ p :: ps)) by left. by destruct (decide (p ∈ ps)).
      * destruct (decide (q ∈ ps)); [rewrite decide_True by (by right)|
          rewrite decide_False by set_solver]; done.
    + rewrite Hsd, update_client_lookup. destruct (decide (q = p)) as [->|_]; [|done].
      by rewrite Hc'.
Qed.

Lemma elem_of_all_clients h p : p ∈ all_clients h ↔ registered h p.
Proof.
  unfold all_clients, registered. rewrite list_elem_of_bind. split.
  - intros ([cid m] & Hp & Hm). simpl in Hp. exists cid. apply elem_of_clients_of. exists m.
    by rewrite <-elem_of_map_to_list, <-elem_of_elements.
  - intros (cid & (m & Hm & Hp)%elem_of_clients_of). exists (cid, m). simpl.
    by rewrite elem_of_elements, elem_of_map_to_list.
Qed.

Lemma closed_hub_inert h :
  closed h = true →
  (∀ p, Register p h = h) ∧ (∀ cid m, Dispatch cid m h = Some h) ∧ Close h = h.
Proof. intros Hc. unfold Register, Dispatch, Close. by rewrite Hc. Qed.

(** Closing the hub, run on its own, shuts down every registered client
    and empties the hub for good: afterwards a registration has no effect, a
    dispatch delivers nothing, and closing again changes nothing. *)
Lemma Close_is_final h (Hquiet : quiet h) :
  quiet (Close h) ∧ closed (Close h) = true ∧ byCitizen (Close h) = ∅
  ∧ (∀ p cid, p ∈ clients_of h cid → c_once <$> clients (Close h) !! p = Some Done)
  ∧ (∀ p, Register p (Close h) = Close h)
  ∧ (∀ cid m, Dispatch cid m (Close h) = Some (Close h)) ∧ Close (Close h) = Close h.
Proof.
  assert (quiet (Close h) ∧ closed (Close h) = true ∧ byCitizen (Close h) = ∅
    ∧ ∀ p cid, p ∈ clients_of h cid → c_once <$> clients (Close h) !! p = Some Done)
    as (Hq & Hcl & He & Hd).
  { unfold Close. destruct (closed h) eqn:Ecl.
    - pose proof (hi_closed h (proj1 Hquiet) Ecl) as He. split; [done|]. split; [done|].
      split; [done|]. intros p cid. unfold clients_of. rewrite He, lookup_empty. simpl. set_solver.
    - destruct (shutdown_all_quiet (all_clients h) (mkHub ∅ true (clients h))) as (Hq & Hb & Hc & Hcs).
      + split; [|apply Hquiet]. split; simpl;
          [by intros *; rewrite lookup_empty..|exact (hi_buffer h (proj1 Hquiet))|done].
      + intros p Hp%elem_of_all_clients. destruct Hp as [cid Hp].
        destruct (registered_client h cid p (proj1 Hquiet) Hp) as (c & Hc & _). simpl. by exists c.
      + intros p [cid Hp]. unfold clients_of in Hp. simpl in Hp. rewrite lookup_empty in Hp.
        simpl in Hp. set_solver.
      + split; [done|]. split; [done|]. split; [done|]. intros p cid Hp.
        destruct (registered_client h cid p (proj1 Hquiet) Hp) as (c & Hcp & _).
        rewrite (Hcs p c Hcp), decide_True; [done|]. apply elem_of_all_clients. by exists cid. }
  split; [done|]. split; [done|]. split; [done|]. split; [done|].
  by apply closed_hub_inert.
Qed.

(** ** The sequential functions are runs of the goroutines *)

(** Between the other goroutines [l1] and [l2]. *)
Definition at_ (h : Hub) (l1 l2 : list thread) (log : list (uuid * string)) (t : thread) : state :=
  State h (l1 ++ t :: l2) log false.

Lemma shutdown_steps h p c l1 l2 log t :
  clients h !! p = Some c → c_once c = Fresh →
  rtc step (at_ h l1 l2 log (AShutdown p :: t)) (at_ (shutdown p h) l1 l2 log t).
Proof.
  intros Hc Ho. rewrite (shutdown_fresh h p c Hc Ho).
  assert (∀ f g q h0, update_client f q (update_client g q h0) = update_client (f ∘ g) q h0) as Hcomp.
  { intros f g q h0. unfold update_client, set_clients. simpl. f_equal. apply map_eq. intros i.
    destruct (decide (i = q)) as [->|Hne];
      [rewrite !lookup_alter_eq; by destruct (clients h0 !! q)|by rewrite !lookup_alter_ne]. }
  eapply rtc_l; [eapply step_act, act_shutdown_first; eassumption|].
  set (h1 := update_client (with_once Entered) p h).
  assert (clients h1 !! p = Some (with_once Entered c)) as Hc1.
  { unfold h1. rewrite update_client_lookup, decide_True by done. by rewrite Hc. }
  eapply rtc_l; [eapply step_act, act_unregister; [eassumption|done]|].
  assert (Unregister p h1 = update_client (with_once Entered) p (Unregister p h)) as ->.
  { unfold Unregister. rewrite Hc, Hc1. simpl.
    destruct (byCitizen h !! c_citizenID c); done. }
  rewrite Hcomp. set (h2 := update_client _ p (Unregister p h)).
  assert (clients h2 !! p = Some (with_once Unregistered c)) as Hc2.
  { unfold h2. rewrite update_client_lookup, decide_True, Unregister_clients by done. by rewrite Hc. }
  eapply rtc_l; [eapply step_act, act_close_chan; [eassumption|done]|].
  unfold h2. rewrite Hcomp. set (h3 := update_client _ p (Unregister p h)).
  assert (clients h3 !! p = Some (with_once ChanClosed c)) as Hc3.
  { unfold h3. rewrite update_client_lookup, decide_True, Unregister_clients by done. by rewrite Hc. }
  eapply rtc_l; [eapply step_act, act_close_conn; [eassumption|done]|].
  unfold h3. rewrite Hcomp. simpl.
  replace (update_client _ p (Unregister p h))
    with (update_client (with_once Done) p (Unregister p h)) by done.
  apply rtc_refl.
Qed.

Lemma send_all_steps h ps m h' l1 l2 log t :
  (∀ p c, clients h !! p = Some c → c_once c = Fresh ∨ c_once c = Done) →
  send_all m ps h = Some h' →
  rtc step (at_ h l1 l2 log (((λ p, ASend p m) <$> ps) ++ t)) (at_ h' l1 l2 log t).
Proof.
  revert h. induction ps as [|p ps IH]; intros h Hq Hs; simpl in *; [by injection Hs as <-|].
  destruct (send_one m p h) as [h1|] eqn:E1; [|done].
  assert ((∀ q c, clients h1 !! q = Some c → c_once c = Fresh ∨ c_once c = Done)
    ∧ rtc step (at_ h l1 l2 log (ASend p m :: ((λ p, ASend p m) <$> ps) ++ t))
        (at_ h1 l1 l2 log (((λ p, ASend p m) <$> ps) ++ t))) as [Hq1 Hstep];
    [|etrans; [exact Hstep|by apply IH]].
  unfold send_one in E1. destruct (clients h !! p) as [c|] eqn:Hc; [|done].
  destruct (chan_closed c) eqn:Hcc; [done|].
  destruct (Nat.ltb_spec (length (c_send c)) defaultSendBuffer) as [Hlt|Hge]; injection E1 as <-.
  - split.
    + intros q c'. rewrite update_client_lookup. destruct (decide (q = p)) as [->|_]; [|apply Hq].
      rewrite Hc. simpl. intros [= <-]. exact (Hq p c Hc).
    + apply rtc_once. eapply (step_act _ _ _ _ _ _ []). by eapply act_send.
  - assert (c_once c = Fresh) as Ho.
    { destruct (Hq p c Hc) as [Ho|Ho]; [done|]. unfold chan_closed in Hcc. by rewrite Ho in Hcc. }
    split.
    + intros q c'. rewrite (shutdown_fresh h p c) by done.
      rewrite update_client_lookup, Unregister_clients.
      destruct (decide (q = p)) as [->|_]; [|apply Hq]. rewrite Hc. simpl. intros [= <-]. by right.
    + eapply rtc_l; [by eapply step_act, act_send_full|]. by eapply shutdown_steps.
Qed.

(** The function [Dispatch] is a run of the goroutine: from a quiet hub,
    stepping [h.Dispatch] without interference, whatever else is waiting,
    ends with the hub the function computes and leaves the goroutine to go
    on. *)
Lemma Dispatch_refines_steps h cid m h' l1 l2 log t
  (Hquiet : quiet h) (Hrun : Dispatch cid m h = Some h') :
  rtc step (State h (l1 ++ (ADispatch cid m :: t) :: l2) log false)
           (State h' (l1 ++ t :: l2) log false).
Proof.
  unfold Dispatch in Hrun. destruct (closed h) eqn:Ecl.
  - injection Hrun as <-. apply rtc_once. change t with ([] ++ t) at 2.
    by apply step_act, act_dispatch_closed.
  - eapply rtc_l; [by apply step_act, act_dispatch|].
    eapply (send_all_steps h (elements (clients_of h cid)) m h'); [apply Hquiet|done].
Qed.
