(* ===== verification/Feed.v ===== *)
(** * From Redis to the connections, in order

    WsBus lets any number of goroutines call [Dispatch].  The program has one
    that does, the subscriber's: it takes a message, waits for [Dispatch] to
    return, takes the next.  With the pumps, connections and shutdowns going
    on around it, the order of messages and their completeness can be
    followed to each connection. *)

From S2P Require Import Prelude Uuid WsBus WsBusFacts WsBusProps.
From S2P Require Import GoStrings GoTime Json Identity World Repo Payload Http Integrations Notify.

(** ** State *)

Record feed := Feed {
  fd_hub : Hub;
  fd_threads : list thread;                          (** pumps, and [h.Close()] *)
  fd_sub : thread;                                   (** what is left of the call of [Dispatch] *)
  fd_received : list (option (string * string));     (** taken from Redis, oldest first *)
  fd_panicked : bool
}.

Definition init_feed : feed := Feed NewHub [] [] [] false.

Section steps.
Context `{UuidText}.

Inductive feed_step : feed → feed → Prop :=
| fs_thread h h' l1 l2 a t new sub r :
    act h a h' new →
    feed_step (Feed h (l1 ++ (a :: t) :: l2) sub r false) (Feed h' (l1 ++ (new ++ t) :: l2) sub r false)
| fs_sub h h' ts a t new r :
    act h a h' new → feed_step (Feed h ts (a :: t) r false) (Feed h' ts (new ++ t) r false)
| fs_panic h ts p m t c r :
    clients h !! p = Some c → chan_closed c = true →
    feed_step (Feed h ts (ASend p m :: t) r false) (Feed h ts (ASend p m :: t) r true)
| fs_message h ts msg cid m r :
    dispatch_of msg = Some (cid, m) →
    feed_step (Feed h ts [] r false) (Feed h ts [ADispatch cid m] (r ++ [msg]) false)
| fs_skip h ts msg r :
    dispatch_of msg = None → feed_step (Feed h ts [] r false) (Feed h ts [] (r ++ [msg]) false)
| fs_connect h ts p cid sub r :
    clients h !! p = None →
    feed_step (Feed h ts sub r false)
      (Feed (Connect p cid h) ([AReadLoop p] :: [AWriteLoop p] :: ts) sub r false)
| fs_close h ts sub r : feed_step (Feed h ts sub r false) (Feed h ([AClose] :: ts) sub r false).

Definition feed_reachable : feed → Prop := rtc feed_step init_feed.

(** A citizen's messages among those received. *)
Definition to_citizen (cid : uuid) (msg : option (string * string)) : option string :=
  match dispatch_of msg with
  | Some (c, m) => if decide (c = cid) then Some m else None
  | None => None
  end.
Definition inbox (cid : uuid) (r : list (option (string * string))) : list string :=
  omap (to_citizen cid) r.

(** ** The subscriber's runs are runs of the hub *)

(** A call that has returned leaves an empty goroutine behind. *)
Definition same_state (s : feed) (t : state) : Prop :=
  hub t = fd_hub s ∧ panicked t = fd_panicked s
  ∧ dispatched t = reverse (omap dispatch_of (fd_received s))
  ∧ ∃ n, [] :: threads t ≡ₚ fd_sub s :: replicate n [] ++ fd_threads s.

Lemma goroutine_in (a : action) u rest ths :
  [] :: ths ≡ₚ (a :: u) :: rest → ∃ l1 l2, ths = l1 ++ (a :: u) :: l2 ∧ [] :: l1 ++ l2 ≡ₚ rest.
Proof.
  intros Hth. assert ((a :: u) ∈ [] :: ths) as [?|Hin]%elem_of_cons by (rewrite Hth; by left); [done|].
  apply list_elem_of_split in Hin as (l1 & l2 & ->). exists l1, l2. split; [done|].
  apply (Permutation_cons_inv (a := a :: u)). rewrite <-Hth. solve_Permutation.
Qed.

Lemma same_state_act s' a u new rest h' t :
  act (hub t) a h' new → panicked t = false → [] :: threads t ≡ₚ (a :: u) :: rest →
  (∀ t', hub t' = h' → panicked t' = false → [] :: threads t' ≡ₚ (new ++ u) :: rest →
     dispatched t' = dispatched t → same_state s' t') →
  ∃ t', rtc step t t' ∧ same_state s' t'.
Proof.
  intros Ha Hp Hth Hs'. destruct t as [h0 ths log0 pk]. simpl in *. subst.
  apply goroutine_in in Hth as (l1 & l2 & -> & Hth).
  eexists. split; [by apply rtc_once, step_act|]. apply Hs'; [done|done| |done]. simpl.
  rewrite <-Hth. solve_Permutation.
Qed.

Lemma feed_step_simulated s s' t :
  feed_step s s' → same_state s t → ∃ t', rtc step t t' ∧ same_state s' t'.
Proof.
  intros Hstep (Hh & Hp & Hlog & n & Hth).
  destruct Hstep as [h h' l1 l2 a u new sub r Ha|h h' ts a u new r Ha|h ts p m u c r Hc Hcc
    |h ts msg cid m r Hd|h ts msg r Hd|h ts p cid sub r Hc|h ts sub r]; simpl in *.
  - apply (same_state_act _ a u new (sub :: replicate n [] ++ l1 ++ l2) h' t); [by rewrite Hh|done| |].
    + rewrite Hth. solve_Permutation.
    + intros t' Hh' Hp' Hth' Hl'. split_and!; [done|done|simpl; congruence|]. exists n. simpl.
      rewrite Hth'. solve_Permutation.
  - apply (same_state_act _ a u new (replicate n [] ++ ts) h' t); [by rewrite Hh|done|done|].
    intros t' Hh' Hp' Hth' Hl'. split_and!; [done|done|simpl; congruence|]. by exists n.
  - destruct t as [h0 ths log pk]. simpl in *. subst.
    pose proof Hth as Hth2. apply goroutine_in in Hth2 as (l1 & l2 & -> & _).
    eexists. split; [eapply rtc_once, step_panic; eassumption|]. split_and!; [done|done|done|by exists n].
  - destruct t as [h0 ths log pk]. simpl in *. subst. eexists.
    split; [apply rtc_once, (step_dispatch h ths cid m)|]. split_and!; [done|done| |].
    + simpl. rewrite omap_app. simpl. rewrite Hd. by rewrite reverse_app.
    + exists (S n). simpl. rewrite (Permutation_swap [ADispatch cid m]). by apply perm_skip.
  - exists t. split; [done|]. split_and!; [done|done| |by exists n].
    simpl. rewrite omap_app. simpl. by rewrite Hd, app_nil_r.
  - destruct t as [h0 ths log pk]. simpl in *. subst. eexists.
    split; [by apply rtc_once, (step_connect h ths p cid)|]. split_and!; [done|done|done|].
    exists n. simpl. transitivity ([AReadLoop p] :: [AWriteLoop p] :: [] :: ths); [solve_Permutation|].
    rewrite Hth. solve_Permutation.
  - destruct t as [h0 ths log pk]. simpl in *. subst. eexists.
    split; [by apply rtc_once, (step_close h ths)|]. split_and!; [done|done|done|].
    exists n. simpl. rewrite Permutation_swap, Hth. solve_Permutation.
Qed.

Lemma feed_simulated s : feed_reachable s → ∃ t, reachable t ∧ same_state s t.
Proof.
  revert s. apply rtc_ind_r.
  - exists init_state. split; [apply rtc_refl|]. split_and!; [done|done|done|by exists 0%nat].
  - intros s s' _ Hstep (t & Ht & Hs). destruct (feed_step_simulated s s' t Hstep Hs) as (t' & Ht' & Hs').
    exists t'. split; [unfold reachable in *; by etrans|done].
Qed.

Lemma feed_hub_inv s : feed_reachable s → hub_inv (fd_hub s).
Proof. intros (t & Ht & <- & _)%feed_simulated. by apply reachable_inv. Qed.
End steps.
