(* ===== verification/FeedProps.v ===== *)
(** * Each connection gets every message, in order

    Followed through the pumps, shutdowns and new connections: what has been
    written to a connection and what waits in its buffer are a stretch of the
    messages received for its citizen, without gap, repetition or exchange. *)

From S2P Require Import Prelude Uuid WsBus WsBusFacts WsBusProps.
From S2P Require Import GoStrings GoTime Json Identity World Repo Payload Http Integrations Notify Feed.

(** ** The goroutines *)

(** Part of a call of [Dispatch]. *)
Definition sending (a : action) : bool :=
  match a with ADispatch _ _ | ASend _ _ => true | _ => false end.

Definition writer (a : action) : option positive :=
  match a with AWriteLoop p => Some p | _ => None end.

(** The connections whose write pump is running. *)
Definition pumps (ts : list thread) : list positive := omap writer (concat ts).

(** What the loop of [Dispatch] has before its next send. *)
Definition before_send (pre : thread) (ps : list positive) : Prop :=
  pre = [] ∨ ∃ q, (q ∉ ps) ∧ (pre = [AShutdown q] ∨ pre = [AOnceBody q]).

Section shape.
Context `{UuidText}.

(** The subscriber is idle, about to look at the hub, or in the loop. *)
Inductive call_shape : list (option (string * string)) → thread → Prop :=
| cs_idle r : call_shape r []
| cs_call r msg cid m : dispatch_of msg = Some (cid, m) → call_shape (r ++ [msg]) [ADispatch cid m]
| cs_loop r pre m ps :
    before_send pre ps → NoDup ps → call_shape r (pre ++ ((λ p, ASend p m) <$> ps)).

Record feed_ok (s : feed) : Prop := {
  fo_hub : hub_inv (fd_hub s);
  fo_threads t a : t ∈ fd_threads s → a ∈ t → sending a = false;
  fo_pumps : NoDup (pumps (fd_threads s));
  fo_pumped p : p ∈ pumps (fd_threads s) → is_Some (clients (fd_hub s) !! p);
  fo_sub : call_shape (fd_received s) (fd_sub s);
  fo_targets p m : ASend p m ∈ fd_sub s → is_Some (clients (fd_hub s) !! p)
}.
End shape.

(** ** One action *)

Lemma act_sending h a h' new b : act h a h' new → sending a = false → b ∈ new → sending b = false.
Proof.
  intros Ha Hs Hb. destruct Ha; simpl in *; try done; try (by apply elem_of_nil in Hb);
    try (by apply list_elem_of_singleton in Hb as ->).
  by apply list_elem_of_fmap in Hb as (? & -> & _).
Qed.

Lemma act_pumps h a h' new : act h a h' new → omap writer new `sublist_of` omap writer [a].
Proof.
  intros Ha. destruct Ha; simpl; try done; try apply sublist_nil_l.
  all: clear; by induction ps.
Qed.

Lemma pumps_app ts ts' : pumps (ts ++ ts') = pumps ts ++ pumps ts'.
Proof. unfold pumps. by rewrite concat_app, omap_app. Qed.

Lemma pumps_act h a h' new l1 t l2 :
  act h a h' new → pumps (l1 ++ (new ++ t) :: l2) `sublist_of` pumps (l1 ++ (a :: t) :: l2).
Proof.
  intros Ha%act_pumps. rewrite !pumps_app. apply sublist_app; [done|].
  change (pumps ((new ++ t) :: l2)) with (omap writer ((new ++ t) ++ concat l2)).
  change (pumps ((a :: t) :: l2)) with (omap writer ([a] ++ t ++ concat l2)).
  rewrite <-app_assoc, !(omap_app writer). by apply sublist_app.
Qed.

(** What an action of a pump or of a shutdown does to one client. *)
Definition same_client (c c' : Client) : Prop :=
  c_citizenID c' = c_citizenID c ∧ c_written c' = c_written c ∧ c_send c' = c_send c.

Lemma update_client_same f p h q c :
  (∀ c, same_client c (f c)) → clients h !! q = Some c →
  ∃ c', clients (update_client f p h) !! q = Some c' ∧ same_client c c'.
Proof.
  intros Hf Hc. rewrite update_client_lookup. destruct (decide (q = p)); rewrite Hc; simpl; eauto.
  exists c. by split_and!.
Qed.

Definition framed (h h' : Hub) (p : positive) (c : Client) : Prop :=
  (∃ c', clients h' !! p = Some c' ∧ same_client c c') ∧ (registered h' p → registered h p).

Lemma Unregister_registered q h p : hub_inv h → registered (Unregister q h) p → registered h p.
Proof.
  intros Hi [cid Hp]. destruct (clients h !! q) as [c|] eqn:Hc.
  - rewrite (Unregister_lookup q h c) in Hp by done. exists cid. set_solver.
  - unfold Unregister in Hp. rewrite Hc in Hp. by exists cid.
Qed.

Lemma act_client h a h' new p c :
  hub_inv h → act h a h' new → sending a = false → clients h !! p = Some c →
  framed h h' p c
  ∨ ∃ m q, a = AWriteLoop p ∧ c_send c = m :: q ∧ byCitizen h' = byCitizen h
      ∧ (clients h' !! p = Some (with_written q (c_written c ++ [m]) c) ∧ new = [AWriteLoop p]
         ∨ clients h' !! p = Some (with_send q c) ∧ new = [AShutdown p]).
Proof.
  intros Hi Ha Hs Hc. assert (framed h h p c) as Hsame by (split; [exists c; by split_and!|done]).
  destruct Ha as [| |q h c' m rest Hc' Hq|q h c' m rest Hc' Hq| | | | | | | |q h c' Hc' Ho|
    |q h c' Hc' Ho|q h c' Hc' Ho|q h c' Hc' Ho| |h ps Hcl Hps]; simpl in Hs; try done; try (by left).
  - destruct (decide (p = q)) as [->|Hne]; [right|left].
    + assert (c' = c) as -> by congruence. exists m, rest. split_and!; [done..|]. left.
      by rewrite update_client_lookup, decide_True, Hc.
    + split; [|done]. exists c. rewrite update_client_lookup, decide_False by done. by split_and!.
  - destruct (decide (p = q)) as [->|Hne]; [right|left].
    + assert (c' = c) as -> by congruence. exists m, rest. split_and!; [done..|]. right.
      by rewrite update_client_lookup, decide_True, Hc.
    + split; [|done]. exists c. rewrite update_client_lookup, decide_False by done. by split_and!.
  - left. split; [by apply update_client_same|done].
  - left. split; [apply update_client_same; [done|by rewrite Unregister_clients]|].
    by apply Unregister_registered.
  - left. split; [by apply update_client_same|done].
  - left. split; [by apply update_client_same|done].
  - left. split; [exists c; by split_and!|]. intros [cid Hp]. unfold clients_of in Hp. simpl in Hp.
    rewrite lookup_empty in Hp. simpl in Hp. set_solver.
Qed.

(** ** Every reachable feed is in order *)

Section invariant.
Context `{UuidText}.

(** The possible next actions of the subscriber. *)
Lemma call_next r a t :
  call_shape r (a :: t) →
  (∃ cid m, a = ADispatch cid m ∧ t = [])
  ∨ (∃ p m ps, a = ASend p m ∧ t = (λ p, ASend p m) <$> ps ∧ (p ∉ ps) ∧ NoDup ps)
  ∨ ∃ q m ps, (a = AShutdown q ∨ a = AOnceBody q) ∧ t = (λ p, ASend p m) <$> ps ∧ (q ∉ ps) ∧ NoDup ps.
Proof.
  intros Hs. remember (a :: t) as sub eqn:Heq. destruct Hs as [|r msg cid m Hd|r pre m ps Hpre Hnd]; [done|..].
  { injection Heq as <- <-. left. eauto. }
  right. destruct Hpre as [->|(q & Hq & [->| ->])]; simpl in *.
  - left. destruct ps as [|p ps]; [done|]. injection Heq as <- <-.
    apply NoDup_cons in Hnd as [? ?]. by exists p, m, ps.
  - right. injection Heq as <- <-. exists q, m, ps. auto.
  - right. injection Heq as <- <-. exists q, m, ps. auto.
Qed.

Lemma loop_shape r m ps : NoDup ps → call_shape r ((λ p, ASend p m) <$> ps).
Proof. intros Hnd. apply (cs_loop r [] m ps); [by left|done]. Qed.

Lemma drop_shape r q a m ps :
  a = AShutdown q ∨ a = AOnceBody q → q ∉ ps → NoDup ps →
  call_shape r (a :: ((λ p, ASend p m) <$> ps)).
Proof.
  intros Ha Hq Hnd. apply (cs_loop r [a] m ps); [|done]. right. exists q.
  split; [done|]. by destruct Ha as [-> | ->]; [left|right].
Qed.

Lemma call_act h a h' new t r :
  act h a h' new → call_shape r (a :: t) → call_shape r (new ++ t).
Proof.
  intros Ha [(cid & m & -> & ->)|[(p & m & ps & -> & -> & Hp & Hnd)
    |(q & m & ps & Hq & -> & Hni & Hnd)]]%call_next.
  - inversion Ha; subst; rewrite app_nil_r; [apply cs_idle|]. apply loop_shape.
    match goal with E : _ ≡ₚ elements _ |- _ => rewrite E; apply NoDup_elements end.
  - inversion Ha; subst; simpl; [by apply loop_shape|]. eapply drop_shape; eauto.
  - destruct Hq as [-> | ->]; inversion Ha; subst; simpl; first [by apply loop_shape|eapply drop_shape; eauto].
Qed.

(** Its sends go to clients that exist. *)
Lemma act_targets h a h' new p m :
  hub_inv h → act h a h' new → ASend p m ∈ new → is_Some (clients h !! p).
Proof.
  intros Hi Ha Hin. destruct Ha; simpl in *; try (by apply elem_of_nil in Hin);
    try (by apply list_elem_of_singleton in Hin).
  - apply list_elem_of_fmap in Hin as (q & [= <- <-] & Hq).
    match goal with E : _ ≡ₚ elements _ |- _ => rewrite E in Hq end.
    apply elem_of_elements in Hq. destruct (registered_client _ _ _ Hi Hq) as (c & Hc & _). by exists c.
  - by apply list_elem_of_fmap in Hin as (? & ? & _).
Qed.

Lemma clients_le_is_Some h h' p : clients_le h h' → is_Some (clients h !! p) → is_Some (clients h' !! p).
Proof. intros Hle [c Hc]. destruct (Hle p c Hc) as (c' & Hc' & _). by exists c'. Qed.

Lemma Connect_clients p cid h : clients (Connect p cid h) = <[p := NewClient cid]> (clients h).
Proof. unfold Connect, Register. simpl. rewrite lookup_insert_eq. by destruct (closed h). Qed.

Lemma Connect_le p cid h : clients h !! p = None → clients_le h (Connect p cid h).
Proof.
  intros Hp q c Hq. rewrite Connect_clients. exists c. rewrite lookup_insert_ne by congruence. done.
Qed.

Lemma feed_step_ok s s' : feed_step s s' → feed_ok s → feed_ok s'.
Proof.
  intros Hstep [Hi Hth Hnd Hex Hsub Htg].
  destruct Hstep as [h h' l1 l2 a u new sub r Ha|h h' ts a u new r Ha|h ts p m u c r Hc Hcc
    |h ts msg cid m r Hd|h ts msg r Hd|h ts p cid sub r Hc|h ts sub r]; simpl in *; [| |done|..].
  - pose proof (act_clients_le _ _ _ _ Ha) as Hle. pose proof (pumps_act _ _ _ _ l1 u l2 Ha) as Hp.
    split; simpl; [by eapply act_inv| | | |done|].
    + intros t b Ht Hb. apply elem_of_app in Ht as [Ht|[->|Ht]%elem_of_cons].
      * eapply (Hth t); [|done]. apply elem_of_app. by left.
      * assert (∀ b, b ∈ a :: u → sending b = false) as Hau.
        { intros b'. apply Hth, elem_of_app. right. by left. }
        apply elem_of_app in Hb as [Hb|Hb]; [|apply Hau; by right].
        eapply act_sending; [exact Ha|apply Hau; by left|done].
      * eapply (Hth t); [|done]. apply elem_of_app. right. by right.
    + by eapply sublist_NoDup.
    + intros p Hin. eapply clients_le_is_Some, Hex; [done|]. by eapply elem_of_sublist.
    + intros p m Hin. by eapply clients_le_is_Some, Htg.
  - pose proof (act_clients_le _ _ _ _ Ha) as Hle.
    split; simpl; [by eapply act_inv|done|done| |by eapply call_act|].
    + intros p Hp. by eapply clients_le_is_Some, Hex.
    + intros p m [Hin|Hin]%elem_of_app; eapply clients_le_is_Some; [done| |done|].
      * by eapply act_targets.
      * eapply Htg. by right.
  - split; simpl; [done|done|done|done|by eapply cs_call|]. intros p m' Hin%list_elem_of_singleton. done.
  - split; simpl; [done|done|done|done|apply cs_idle|]. intros p m' Hin%elem_of_nil. done.
  - pose proof (Connect_le p cid h Hc) as Hle.
    split; simpl; [by apply Connect_inv| | | |done|].
    + intros t b [->|[->|Ht]%elem_of_cons]%elem_of_cons Hb;
        [by apply list_elem_of_singleton in Hb as ->..|by eapply Hth].
    + change (pumps _) with (p :: pumps ts). apply NoDup_cons. split; [|done].
      intros [c Hin]%Hex. congruence.
    + intros q. change (pumps _) with (p :: pumps ts). rewrite Connect_clients, elem_of_cons.
      intros [->|Hq]; [by rewrite lookup_insert_eq; eexists|]. rewrite <-Connect_clients.
      by eapply clients_le_is_Some, Hex.
    + intros q m Hin. by eapply clients_le_is_Some, Htg.
  - split; simpl; try done. intros t b [->|Ht]%elem_of_cons Hb; [|by eapply Hth].
    by apply list_elem_of_singleton in Hb as ->.
Qed.

Lemma feed_reachable_ok s : feed_reachable s → feed_ok s.
Proof.
  revert s. apply rtc_ind_r.
  - split; simpl; [apply NewHub_inv|by intros t a ?%elem_of_nil|constructor|by intros p ?%elem_of_nil|
      apply cs_idle|by intros p m ?%elem_of_nil].
  - intros s s' _ Hstep Hok. by eapply feed_step_ok.
Qed.
End invariant.

(** ** What a connection has had, has, and will have *)

Section line.
Context `{UuidText}.

Definition owed_by (cid : uuid) (p : positive) (a : action) : option string :=
  match a with
  | ADispatch c m => if decide (c = cid) then Some m else None
  | ASend q m => if decide (q = p) then Some m else None
  | _ => None
  end.

(** The payloads the running call still has for the client. *)
Definition owed (cid : uuid) (p : positive) (sub : thread) : list string := omap (owed_by cid p) sub.

(** The running call is not dropping the client, and has it in its snapshot or
    will find it registered. *)
Definition tracked (h : Hub) (sub : thread) (p : positive) : Prop :=
  (AShutdown p ∉ sub) ∧ (AOnceBody p ∉ sub) ∧ (registered h p ∨ ∃ m, ASend p m ∈ sub).

(** Written, perhaps one lost in a failed write (the last that is written),
    buffered and owed: from position [k] of the inbox on, after [base]. *)
Definition line (base : list string) (k : nat) (p : positive) (s : feed) : Prop :=
  ∃ c lost rest,
    clients (fd_hub s) !! p = Some c
    ∧ (k ≤ length (inbox (c_citizenID c) (fd_received s)))%nat
    ∧ (lost = [] ∨ (∃ m, lost = [m]) ∧ p ∉ pumps (fd_threads s))
    ∧ c_written c ++ lost ++ c_send c ++ rest
      = base ++ drop k (inbox (c_citizenID c) (fd_received s))
    ∧ (tracked (fd_hub s) (fd_sub s) p → rest = owed (c_citizenID c) p (fd_sub s)).

(** A step that does not concern the client. *)
Lemma line_frame base k p h h' ts ts' sub sub' r pk pk' :
  (∀ c, clients h !! p = Some c →
     (∃ c', clients h' !! p = Some c' ∧ same_client c c')
     ∧ (tracked h' sub' p → tracked h sub p ∧ owed (c_citizenID c) p sub' = owed (c_citizenID c) p sub)) →
  (p ∈ pumps ts' → p ∈ pumps ts) →
  line base k p (Feed h ts sub r pk) → line base k p (Feed h' ts' sub' r pk').
Proof.
  intros Hc Hp (c & lost & rest & Hl & Hk & Hlost & Heq & Ht). simpl in *.
  destruct (Hc c Hl) as [(c' & Hc' & Hcid & Hw & Hs) Htr]. exists c', lost, rest. simpl.
  rewrite Hcid, Hw, Hs. split_and!; [done|done| |done|].
  - destruct Hlost as [->|[? ?]]; [by left|right; auto].
  - intros [Hold ->]%Htr. by apply Ht.
Qed.

(** A thread's action. *)
Lemma line_thread base k p h h' l1 l2 a t new sub r :
  hub_inv h → act h a h' new → sending a = false → NoDup (pumps (l1 ++ (a :: t) :: l2)) →
  line base k p (Feed h (l1 ++ (a :: t) :: l2) sub r false) →
  line base k p (Feed h' (l1 ++ (new ++ t) :: l2) sub r false).
Proof.
  intros Hi Ha Hs Hnd Hline. pose proof (pumps_act _ _ _ _ l1 t l2 Ha) as Hsub.
  pose proof Hline as (c & lost & rest & Hc & Hk & Hlost & Heq & Ht). simpl in *.
  destruct (act_client h a h' new p c Hi Ha Hs Hc) as [[Hc' Hr]|(m & q & -> & Hq & Hby & Hcase)].
  { eapply line_frame; [| |exact Hline].
    - intros c0 Hc0. assert (c0 = c) as -> by congruence. split; [done|].
      intros (? & ? & [?|?]); (split; [|done]); split_and!; auto.
    - intros Hin. by eapply elem_of_sublist. }
  assert (p ∈ pumps (l1 ++ (AWriteLoop p :: t) :: l2)) as Hin.
  { rewrite pumps_app. apply elem_of_app. right. by left. }
  destruct Hlost as [->|[_ Hno]]; [|done]. simpl in Heq. rewrite Hq in Heq.
  assert (tracked h' sub p → tracked h sub p) as Htr.
  { unfold tracked, registered, clients_of. by rewrite Hby. }
  destruct Hcase as [[Hc' ->]|[Hc' ->]].
  - exists (with_written q (c_written c ++ [m]) c), [], rest. simpl.
    split_and!; [done|done|by left|by rewrite <-app_assoc|auto].
  - exists (with_send q c), [m], rest. simpl. split_and!; [done|done| |done|auto].
    right. split; [eauto|]. rewrite pumps_app in Hnd |- *. simpl in Hnd |- *.
    intros Hin'. rewrite NoDup_app in Hnd. destruct Hnd as (_ & Hdis & Hnd').
    change (pumps ((AWriteLoop p :: t) :: l2)) with (p :: pumps (t :: l2)) in *.
    apply NoDup_cons in Hnd' as [Hni _].
    apply elem_of_app in Hin' as [Hin'|Hin']; [by apply (Hdis p Hin'); left|].
    by apply Hni.
Qed.

Lemma owed_sends cid p m ps :
  NoDup ps → owed cid p ((λ q, ASend q m) <$> ps) = if decide (p ∈ ps) then [m] else [].
Proof.
  unfold owed. induction ps as [|q ps IH]; intros Hnd; [done|]. apply NoDup_cons in Hnd as [Hq Hnd].
  csimpl. rewrite IH by done. destruct (decide (q = p)) as [->|Hne].
  - rewrite (decide_False (P := p ∈ ps)) by done. rewrite decide_True; [done|by left].
  - destruct (decide (p ∈ ps)) as [Hin|Hni]; [rewrite decide_True; [done|by right]|].
    rewrite decide_False; [done|]. intros [?|?]%elem_of_cons; [congruence|done].
Qed.

Lemma not_in_sends a m (ps : list positive) :
  sending a = false → a ∉ ((λ p, ASend p m) <$> ps).
Proof. intros Ha (q & -> & _)%list_elem_of_fmap. done. Qed.

Lemma in_sends p m m' (ps : list positive) : ASend p m' ∈ ((λ q, ASend q m) <$> ps) → p ∈ ps.
Proof. by intros (q & [= -> _] & Hq)%list_elem_of_fmap. Qed.

(** The call looks at the hub. *)
Lemma line_call base k p h h' ts cid m r pk new :
  hub_inv h → act h (ADispatch cid m) h' new →
  line base k p (Feed h ts [ADispatch cid m] r pk) → line base k p (Feed h' ts new r pk).
Proof.
  intros Hi Ha (c & lost & rest & Hc & Hk & Hlost & Heq & Ht). simpl in *.
  assert (∀ x, p ∈ clients_of h x → x = c_citizenID c) as Hown.
  { intros x Hx. destruct (registered_client h x p Hi Hx) as (c' & Hc' & <- & _). congruence. }
  inversion Ha as [| | | | | | |? ? ? Hcl|? ? ? ps Hcl Hps| | | | | | | | |]; subst.
  - exists c, lost, rest. simpl. split_and!; [done..|]. intros (_ & _ & [[x Hx]|[? ?%elem_of_nil]]); [|done].
    apply elem_of_clients_of in Hx as (s & Hx & _). by rewrite (hi_closed h' Hi Hcl), lookup_empty in Hx.
  - exists c, lost, rest. simpl. split_and!; [done..|]. intros (_ & _ & Hr).
    assert (p ∈ ps ↔ p ∈ clients_of h' cid) as Hin by (by rewrite Hps, elem_of_elements).
    rewrite owed_sends by (rewrite Hps; apply NoDup_elements).
    assert (registered h' p) as [x Hx].
    { destruct Hr as [Hr|[m' Hm%in_sends]]; [done|]. exists cid. by apply Hin. }
    rewrite Ht.
    + pose proof (Hown x Hx) as ->. unfold owed. simpl.
      destruct (decide (cid = c_citizenID c)) as [->|Hne]; [by rewrite decide_True by (by apply Hin)|].
      rewrite decide_False; [done|]. intros Hp%Hin%Hown. congruence.
    + split_and!; [by intros ?%list_elem_of_singleton..|]. left. by exists x.
Qed.

(** One send of the loop. *)
Lemma line_send base k p h h' ts q m ps r pk new :
  act h (ASend q m) h' new → q ∉ ps → NoDup ps →
  line base k p (Feed h ts (ASend q m :: ((λ p, ASend p m) <$> ps)) r pk) →
  line base k p (Feed h' ts (new ++ ((λ p, ASend p m) <$> ps)) r pk).
Proof.
  intros Ha Hq Hnd Hline. set (t := (λ p, ASend p m) <$> ps) in *.
  destruct (decide (p = q)) as [->|Hne].
  - destruct Hline as (c & lost & rest & Hc & Hk & Hlost & Heq & Ht). simpl in *.
    assert (owed (c_citizenID c) q t = []) as Hnone by (unfold t; by rewrite owed_sends, decide_False).
    assert (rest = [m]) as ->.
    { rewrite Ht.
      - unfold owed in *. csimpl. rewrite decide_True by done. by rewrite Hnone.
      - split_and!; [..|right; exists m; by left];
          (intros [?|Hin]%elem_of_cons; [done|by apply not_in_sends in Hin]). }
    inversion Ha as [| | | | | | | | |? ? ? c' Hc' _ _|? ? ? c' Hc' _ _| | | | | | |]; subst.
    + assert (c' = c) as -> by congruence. exists (with_send (c_send c ++ [m]) c), lost, []. cbn [fd_hub].
      rewrite update_client_lookup, decide_True, Hc by done. split_and!; [done|done|done| |done].
      by rewrite app_nil_r.
    + exists c, lost, [m]. simpl. split_and!; [done..|]. intros [Hno _]. destruct Hno. by left.
  - eapply line_frame; [|exact (λ H, H)|exact Hline]. intros c Hc. split.
    + inversion Ha; subst; [|exists c; by split_and!].
      exists c. rewrite update_client_lookup, decide_False by done. by split_and!.
    + assert (registered h' p → registered h p) as Hreg by (by inversion Ha; subst).
      assert (new = [] ∨ new = [AShutdown q]) as Hnew by (inversion Ha; auto).
      intros (H1 & H2 & H3). unfold owed. split.
      * split_and!; [intros [?|?]%elem_of_cons; [done|]; apply H1, elem_of_app; by right
          |intros [?|?]%elem_of_cons; [done|]; apply H2, elem_of_app; by right|].
        destruct H3 as [?|[m' Hm]]; [left; auto|right; exists m'].
        destruct Hnew as [-> | ->]; simpl in Hm; [by right|].
        apply elem_of_cons in Hm as [?|?]; [done|by right].
      * csimpl. rewrite decide_False by congruence. by destruct Hnew as [-> | ->].
Qed.

(** A step of the shutdown of a slow client. *)
Lemma line_drop base k p h h' ts a q m ps r pk new :
  hub_inv h → act h a h' new → a = AShutdown q ∨ a = AOnceBody q → q ∉ ps →
  line base k p (Feed h ts (a :: ((λ p, ASend p m) <$> ps)) r pk) →
  line base k p (Feed h' ts (new ++ ((λ p, ASend p m) <$> ps)) r pk).
Proof.
  intros Hi Ha Haq Hq Hline. set (t := (λ p, ASend p m) <$> ps) in *.
  eapply line_frame; [|exact (λ H, H)|exact Hline]. intros c Hc.
  assert (sending a = false) as Hs by (by destruct Haq as [-> | ->]).
  destruct (act_client h a h' new p c Hi Ha Hs Hc) as [[Hc' Hreg]|(? & ? & Hw & _)];
    [|by destruct Haq; subst]. split; [done|]. intros (H1 & H2 & H3).
  assert (new = [AOnceBody q] ∨ new = [] ∧ ¬ registered h q) as Hnew.
  { destruct Haq as [-> | ->]; inversion Ha; subst; auto; right; (split; [done|]);
      eapply not_registered_once; try done; congruence. }
  assert (p ≠ q) as Hne.
  { intros ->. destruct Hnew as [->|[-> Hno]]; [destruct H2; by left|].
    destruct H3 as [Hr|[m' Hm%in_sends]]; [by apply Hno, Hreg|done]. }
  assert (∀ b, b = AShutdown p ∨ b = AOnceBody p → b ∉ new ++ t → b ∉ a :: t) as Hno.
  { intros b Hb Hni [->|Hin]%elem_of_cons; [by destruct Haq, Hb; simplify_eq|].
    apply Hni, elem_of_app. by right. }
  split; [split_and!; [apply Hno; auto|apply Hno; auto|]|].
  - destruct H3 as [?|[m' Hm]]; [left; auto|right; exists m']. right.
    apply elem_of_app in Hm as [Hm|Hm]; [|done].
    destruct Hnew as [->|[-> _]]; [by apply list_elem_of_singleton in Hm|by apply elem_of_nil in Hm].
  - unfold owed. rewrite omap_app. csimpl.
    by destruct Hnew as [->|[-> _]]; destruct Haq as [-> | ->].
Qed.

Lemma line_step base k p s s' : feed_step s s' → feed_ok s → line base k p s → line base k p s'.
Proof.
  intros Hstep [Hi Hth Hnd Hex Hsub Htg] Hline.
  destruct Hstep as [h h' l1 l2 a u new sub r Ha|h h' ts a u new r Ha|h ts q m u c r Hc Hcc
    |h ts msg cid m r Hd|h ts msg r Hd|h ts q cid sub r Hc|h ts sub r]; simpl in *.
  - eapply line_thread; [done|done| |done|done].
    eapply (Hth (a :: u)); [apply elem_of_app; right; by left|by left].
  - destruct (call_next _ _ _ Hsub) as [(cid & m & -> & ->)|[(q & m & ps & -> & -> & Hq & Hps)
      |(q & m & ps & Hq & -> & Hni & Hps)]].
    + rewrite app_nil_r. by eapply line_call.
    + by eapply line_send.
    + by eapply line_drop.
  - exact Hline.
  - destruct Hline as (c & lost & rest & Hc & Hk & Hlost & Heq & Ht). simpl in *.
    assert (inbox (c_citizenID c) (r ++ [msg])
            = inbox (c_citizenID c) r ++ owed (c_citizenID c) p [ADispatch cid m]) as Hin.
    { unfold inbox, owed. rewrite omap_app. f_equal. csimpl. unfold to_citizen. by rewrite Hd. }
    exists c, lost, (rest ++ owed (c_citizenID c) p [ADispatch cid m]). simpl. rewrite Hin.
    split_and!; [done|rewrite length_app; lia|done| |].
    + rewrite drop_app_le by done. by rewrite (app_assoc base), <-Heq, <-!app_assoc.
    + intros (_ & _ & [Hr|[m' ?%list_elem_of_singleton]]); [|done]. rewrite Ht; [done|].
      split_and!; [by intros ?%elem_of_nil..|by left].
  - destruct Hline as (c & lost & rest & Hc & Hk & Hlost & Heq & Ht). simpl in *.
    exists c, lost, rest. simpl. unfold inbox in *. rewrite omap_app. csimpl.
    unfold to_citizen at 2 4. rewrite Hd, app_nil_r. done.
  - destruct (decide (p = q)) as [->|Hne].
    { destruct Hline as (c & _ & _ & Hc' & _). simpl in Hc'. congruence. }
    eapply line_frame; [| |exact Hline].
    + intros c Hc'. split.
      * exists c. rewrite Connect_clients, lookup_insert_ne by done. by split_and!.
      * intros (H1 & H2 & H3). split; [|done]. split_and!; [done|done|].
        destruct H3 as [[x Hx]|?]; [left; exists x|by right].
        unfold Connect, Register in Hx. simpl in Hx. rewrite lookup_insert_eq in Hx.
        destruct (closed h); [done|]. unfold clients_of in Hx. simpl in Hx.
        destruct (decide (x = cid)) as [->|Hx'].
        -- rewrite lookup_insert_eq in Hx. simpl in Hx. fold (clients_of h cid) in Hx. set_solver.
        -- rewrite lookup_insert_ne in Hx by done. done.
    + change (pumps ([AReadLoop q] :: [AWriteLoop q] :: ts)) with (q :: pumps ts). by intros [?|?]%elem_of_cons.
  - eapply line_frame; [| |exact Hline]; [|done]. intros c Hc. split; [exists c; by split_and!|done].
Qed.
End line.

(** ** Theorem *)

Section theorem.
Context `{UuidText}.

(** A new connection's messages begin with the one being dispatched, or with
    the next. *)
Lemma line_connect h ts p cid sub r :
  clients h !! p = None → feed_ok (Feed h ts sub r false) →
  ∃ k, line [] k p (Feed (Connect p cid h) ([AReadLoop p] :: [AWriteLoop p] :: ts) sub r false).
Proof.
  intros Hp [_ _ _ _ Hsub Htg]. simpl in *.
  assert (∃ k, (k ≤ length (inbox cid r))%nat ∧ drop k (inbox cid r) = owed cid p sub) as (k & Hk & Heq).
  { assert (∀ q m, ASend q m ∈ sub → q ≠ p) as Hno.
    { intros q m Hin ->. destruct (Htg p m Hin) as [c Hc]. congruence. }
    destruct Hsub as [r|r msg c m Hd|r pre m ps Hpre Hnd].
    - exists (length (inbox cid r)). by rewrite drop_all.
    - exists (length (inbox cid r)). unfold inbox, owed. rewrite omap_app, length_app, drop_app_length.
      split; [lia|]. csimpl. unfold to_citizen. by rewrite Hd.
    - exists (length (inbox cid r)). rewrite drop_all. split; [done|]. unfold owed. rewrite omap_app.
      assert (omap (owed_by cid p) pre = []) as ->
        by (destruct Hpre as [->|(q & _ & [-> | ->])]; done).
      symmetry. change (owed cid p ((λ q, ASend q m) <$> ps) = []).
      rewrite owed_sends, decide_False; [done| |done]. intros Hin. apply (Hno p m); [|done].
      apply elem_of_app. right. apply list_elem_of_fmap. eauto. }
  exists k, (NewClient cid), [], (owed cid p sub). simpl. rewrite Connect_clients, lookup_insert_eq.
  split_and!; [done|done|by left|done|done].
Qed.

Lemma act_no_new_client h a h' new p :
  act h a h' new → clients h !! p = None → clients h' !! p = None.
Proof.
  intros Ha Hp. destruct Ha; try done; rewrite update_client_lookup, ?Unregister_clients, Hp;
    by destruct (decide _).
Qed.

Lemma feed_step_clients s s' : feed_step s s' → clients_le (fd_hub s) (fd_hub s').
Proof.
  intros [] ; simpl; try apply clients_le_refl; [by eapply act_clients_le|by eapply act_clients_le|].
  by apply Connect_le.
Qed.

Lemma reachable_line s p :
  feed_reachable s → is_Some (clients (fd_hub s) !! p) → ∃ k, line [] k p s.
Proof.
  revert s. apply (rtc_ind_r (λ s, is_Some (clients (fd_hub s) !! p) → ∃ k, line [] k p s)).
  { simpl. rewrite lookup_empty. by intros [? ?]. }
  intros s s' Hreach Hstep IH Hp. pose proof (feed_reachable_ok s Hreach) as Hok.
  destruct (clients (fd_hub s) !! p) as [c|] eqn:Hc.
  { destruct IH as [k Hk]; [by exists c|]. exists k. by eapply line_step. }
  destruct Hstep as [h h' l1 l2 a u new sub r Ha|h h' ts a u new r Ha| | | |h ts q cid sub r Hq|];
    simpl in *; try (rewrite Hc in Hp; by destruct Hp).
  - rewrite (act_no_new_client _ _ _ _ p Ha Hc) in Hp. by destruct Hp.
  - rewrite (act_no_new_client _ _ _ _ p Ha Hc) in Hp. by destruct Hp.
  - destruct (decide (q = p)) as [->|Hne]; [by apply line_connect|].
    rewrite Connect_clients, lookup_insert_ne, Hc in Hp by done. by destruct Hp.
Qed.

Lemma feed_steps_grow s s' :
  rtc feed_step s s' → clients_le (fd_hub s) (fd_hub s') ∧ ∃ l, fd_received s' = fd_received s ++ l.
Proof.
  induction 1 as [s|s t s' Hst _ [Hle [l Hl]]].
  - split; [apply clients_le_refl|exists []; by rewrite app_nil_r].
  - pose proof (feed_step_clients s t Hst) as Hle1. split.
    + intros p c Hc. destruct (Hle1 p c Hc) as (c1 & Hc1 & <-).
      destruct (Hle p c1 Hc1) as (c2 & Hc2 & <-). by exists c2.
    + rewrite Hl. destruct Hst; simpl; try (by exists l); eexists; by rewrite <-app_assoc.
Qed.

Lemma line_steps base k p s s' :
  feed_reachable s → rtc feed_step s s' → line base k p s → line base k p s'.
Proof.
  intros Hreach Hrun. pose proof (feed_reachable_ok s Hreach) as Hok. clear Hreach.
  induction Hrun as [s|s t s' Hst _ IH]; [done|]. intros Hl.
  apply IH; [by eapply feed_step_ok|by eapply line_step].
Qed.

(** Between two messages, with the client registered and its write pump
    running. *)
Definition attentive (s : feed) (p : positive) : Prop :=
  fd_sub s = [] ∧ registered (fd_hub s) p ∧ p ∈ pumps (fd_threads s).

(** From a moment at which the connection is attended on. *)
Lemma connection_steps s s' p c :
  feed_reachable s → rtc feed_step s s' → attentive s p → clients (fd_hub s) !! p = Some c →
  ∃ c' next, clients (fd_hub s') !! p = Some c'
    ∧ inbox (c_citizenID c) (fd_received s') = inbox (c_citizenID c) (fd_received s) ++ next
    ∧ c_written c' `prefix_of` c_written c ++ c_send c ++ next
    ∧ (attentive s' p → c_written c' ++ c_send c' = c_written c ++ c_send c ++ next).
Proof.
  intros Hreach Hrun (Hidle & Hr & Hp) Hc. set (cid := c_citizenID c).
  destruct (feed_steps_grow s s' Hrun) as [Hle [l Hl]].
  destruct (Hle p c Hc) as (c' & Hc' & Hcid).
  assert (line (c_written c ++ c_send c) (length (inbox cid (fd_received s))) p s) as Hline.
  { exists c, [], []. rewrite drop_all, !app_nil_r, Hidle. by split_and!; try left. }
  apply (line_steps _ _ _ s s' Hreach Hrun) in Hline as (c2 & lost & rest & Hc3 & _ & Hlost & Heq & Ht).
  assert (c2 = c') as -> by congruence. fold cid in Hcid. rewrite Hcid in *.
  exists c', (inbox cid l). split; [done|]. unfold inbox in *. rewrite Hl, omap_app in *. split; [done|].
  rewrite drop_app_length, <-app_assoc in Heq. split; [rewrite <-Heq; by apply prefix_app_r|].
  intros (Hidle' & Hr' & Hp'). destruct Hlost as [->|[_ Hno]]; [|done].
  rewrite Ht, Hidle' in Heq; [by rewrite app_nil_r in Heq|].
  rewrite Hidle'. split_and!; [by intros ?%elem_of_nil..|by left].
Qed.

(** C7: ordered delivery without gaps.  Whatever the pumps, the other
    connections, failing writes and shutdowns do: what has been written to a
    connection is a stretch of its citizen's messages, in the order in which
    they were received.  From any moment at which a connection is registered
    and attended on, what is written to it later is what it had and then the
    citizen's next messages, one by one; and as long as it is registered and
    attended, all of them are written or in its buffer. *)
Theorem connections_get_every_message :
  (∀ s p c, feed_reachable s → clients (fd_hub s) !! p = Some c →
     ∃ k, c_written c `prefix_of` drop k (inbox (c_citizenID c) (fd_received s)))
  ∧ ∀ s s' p c c', feed_reachable s → rtc feed_step s s' → attentive s p →
      clients (fd_hub s) !! p = Some c → clients (fd_hub s') !! p = Some c' →
      ∃ next, inbox (c_citizenID c) (fd_received s') = inbox (c_citizenID c) (fd_received s) ++ next
        ∧ c_written c' `prefix_of` c_written c ++ c_send c ++ next
        ∧ (attentive s' p → c_written c' ++ c_send c' = c_written c ++ c_send c ++ next).
Proof.
  split.
  - intros s p c Hreach Hc. destruct (reachable_line s p Hreach) as (k & c' & lost & rest & Hc' & _ & _ & Heq & _);
      [by exists c|]. assert (c' = c) as -> by congruence. exists k. simpl in Heq. rewrite <-Heq.
    by apply prefix_app_r.
  - intros s s' p c c' Hreach Hrun Hatt Hc Hc'.
    destruct (connection_steps s s' p c Hreach Hrun Hatt Hc) as (c2 & next & Hc2 & Hspec).
    assert (c2 = c') as -> by congruence. by exists next.
Qed.
End theorem.
