(* ===== verification/KeepAlive.v ===== *)
(** * One connection over time

    [wsbus/client.go] with its clock: the read deadline that each pong moves
    on, the ticker that pings, the deadline of each write, the size limit.
    WsBus lets the pumps go on or give up at any moment; here it is said when.

    A step is a label executed by [conn_step]; the labels of the environment
    are the peer's frames and errors, the hub's sends and shutdowns, and time.
    Each pump ends with its deferred [c.shutdown()], a step of its own: a pump
    whose loop is over is [Leaving] until it has run it.

    Time does not pass over something due: a goroutine that can go on does so
    at once.  When a pump cannot go on is said of that pump alone: a blocked
    read or write fails at its deadline and when the connection is closed, as
    [net.Conn] documents, and [select] goes on when a channel is ready. *)

From S2P Require Import Prelude Uuid GoTime WsBus.

(** ** State *)

(** [Leaving]: out of the loop, [defer c.shutdown()] still to run. *)
Inductive reader := Reading (deadline : time) | ReaderLeaving | ReaderGone.

(** [Writing None _] is a ping. *)
Inductive writer :=
  | Selecting | Writing (w : option string) (deadline : time) | WriterLeaving | WriterGone.

Record conn := Conn {
  cn_now : time;
  cn_reader : reader;
  cn_writer : writer;
  cn_ticker : time;            (** when the ticker fires next *)
  cn_tick : bool;              (** a tick waits in its channel, which holds one *)
  cn_send : list string;       (** the buffered channel *)
  cn_handed : list string;     (** handed to the connection, oldest first *)
  cn_closed : bool;            (** channel and connection are closed *)
  (** for the theorems: the last pong, or the start; the times of the pings
      not yet answered; the messages taken while a tick waited *)
  cn_pong : time;
  cn_pings : list time;
  cn_passed : nat
}.

Definition with_now t c :=
  Conn t (cn_reader c) (cn_writer c) (cn_ticker c) (cn_tick c) (cn_send c) (cn_handed c)
    (cn_closed c) (cn_pong c) (cn_pings c) (cn_passed c).
Definition with_reader r c :=
  Conn (cn_now c) r (cn_writer c) (cn_ticker c) (cn_tick c) (cn_send c) (cn_handed c)
    (cn_closed c) (cn_pong c) (cn_pings c) (cn_passed c).
Definition with_writer w c :=
  Conn (cn_now c) (cn_reader c) w (cn_ticker c) (cn_tick c) (cn_send c) (cn_handed c)
    (cn_closed c) (cn_pong c) (cn_pings c) (cn_passed c).
Definition with_ticker t b n c :=
  Conn (cn_now c) (cn_reader c) (cn_writer c) t b (cn_send c) (cn_handed c)
    (cn_closed c) (cn_pong c) (cn_pings c) n.
Definition with_queue q hs c :=
  Conn (cn_now c) (cn_reader c) (cn_writer c) (cn_ticker c) (cn_tick c) q hs
    (cn_closed c) (cn_pong c) (cn_pings c) (cn_passed c).
Definition with_closed b c :=
  Conn (cn_now c) (cn_reader c) (cn_writer c) (cn_ticker c) (cn_tick c) (cn_send c) (cn_handed c)
    b (cn_pong c) (cn_pings c) (cn_passed c).
Definition with_pings t ps c :=
  Conn (cn_now c) (cn_reader c) (cn_writer c) (cn_ticker c) (cn_tick c) (cn_send c) (cn_handed c)
    (cn_closed c) t ps (cn_passed c).

Inductive label :=
| LElapse (d : duration)
| LFire                       (** the ticker *)
(** [readPump] *)
| LPong
| LData (size : Z)
| LReadTimeout
| LReadError                  (** the peer is gone, or the connection closed *)
| LReadShutdown               (** the deferred [c.shutdown()] *)
(** [writePump] *)
| LTakeMessage
| LTakeTick
| LTakeClosed
| LWritten
| LWriteError
| LWriteShutdown              (** the deferred [c.shutdown()] *)
(** the hub *)
| LOffer (payload : string)   (** [Dispatch] *)
| LClose.                     (** [shutdown] from [Close] or [Dispatch] *)

Section pumps.
Variable pr : client_params.

(** When [Run] has started both pumps. *)
Definition started (now : time) : conn :=
  Conn now (Reading (now + cp_pongWait pr)) Selecting (now + cp_pingInterval pr) false [] [] false
    now [] 0.

(** [c.shutdown()] as the connection sees it: its first caller closes the
    channel and the connection, a later one waits for that. *)
Definition conn_shutdown (c : conn) : conn := with_closed true c.

Definition readPump_step (l : label) (c : conn) : option conn :=
  match cn_reader c, l with
  | Reading deadline, LPong =>
      if cn_closed c then None
      else Some (with_pings (cn_now c) (tail (cn_pings c))
                   (with_reader (Reading (cn_now c + cp_pongWait pr)) c))
  | Reading deadline, LData size =>
      if cn_closed c then None
      else if size <=? cp_readLimit pr then Some c else Some (with_reader ReaderLeaving c)
  | Reading deadline, LReadTimeout =>
      if cn_now c <? deadline then None else Some (with_reader ReaderLeaving c)
  | Reading deadline, LReadError => Some (with_reader ReaderLeaving c)
  | ReaderLeaving, LReadShutdown => Some (conn_shutdown (with_reader ReaderGone c))
  | _, _ => None
  end.

Definition writePump_step (l : label) (c : conn) : option conn :=
  match cn_writer c, l with
  | Selecting, LTakeMessage =>
      match cn_send c with
      | [] => None
      | m :: q =>
          Some (with_queue q (cn_handed c ++ [m])
                  (with_ticker (cn_ticker c) (cn_tick c)
                     (if cn_tick c then S (cn_passed c) else cn_passed c)
                     (with_writer (Writing (Some m) (cn_now c + cp_writeTimeout pr)) c)))
      end
  | Selecting, LTakeTick =>
      if cn_tick c
      then Some (with_ticker (cn_ticker c) false 0
                   (with_writer (Writing None (cn_now c + cp_writeTimeout pr)) c))
      else None
  | Selecting, LTakeClosed =>
      match cn_send c with
      | [] => if cn_closed c then Some (with_writer WriterLeaving c) else None
      | _ => None
      end
  | Writing w _, LWritten =>
      if cn_closed c then None
      else Some (with_writer Selecting
                   match w with
                   | Some _ => c
                   | None => with_pings (cn_pong c) (cn_pings c ++ [cn_now c]) c
                   end)
  | Writing _ _, LWriteError => Some (with_writer WriterLeaving c)
  | WriterLeaving, LWriteShutdown => Some (conn_shutdown (with_writer WriterGone c))
  | _, _ => None
  end.

(** A reader blocked in [ReadMessage] until [t] at least, or gone. *)
Definition reader_waits (t : time) (c : conn) : bool :=
  match cn_reader c with
  | Reading deadline => negb (cn_closed c) && (t <=? deadline)
  | ReaderLeaving => false
  | ReaderGone => true
  end.

(** A writer blocked in its [select] or in a write until [t] at least, its
    ticker not having fired, or gone. *)
Definition writer_waits (t : time) (c : conn) : bool :=
  match cn_writer c with
  | Selecting =>
      negb (cn_closed c) && negb (cn_tick c) && bool_decide (cn_send c = []) && (t <=? cn_ticker c)
  | Writing _ deadline => negb (cn_closed c) && (t <=? deadline) && (t <=? cn_ticker c)
  | WriterLeaving => false
  | WriterGone => true
  end.

Definition may_wait (d : duration) (c : conn) : bool :=
  reader_waits (cn_now c + d) c && writer_waits (cn_now c + d) c.

Definition ticking (c : conn) : bool := match cn_writer c with WriterGone => false | _ => true end.

Definition conn_step (l : label) (c : conn) : option conn :=
  match l with
  | LElapse d => if (0 <? d) && may_wait d c then Some (with_now (cn_now c + d) c) else None
  | LFire =>
      if ticking c && (cn_now c =? cn_ticker c)
      then Some (with_ticker (cn_ticker c + cp_pingInterval pr) true (cn_passed c) c)
      else None
  | LPong | LData _ | LReadTimeout | LReadError | LReadShutdown => readPump_step l c
  | LTakeMessage | LTakeTick | LTakeClosed | LWritten | LWriteError | LWriteShutdown =>
      writePump_step l c
  | LOffer m =>
      if cn_closed c || negb (length (cn_send c) <? defaultSendBuffer)%nat then None
      else Some (with_queue (cn_send c ++ [m]) (cn_handed c) c)
  | LClose => if cn_closed c then None else Some (conn_shutdown c)
  end.

Fixpoint conn_run (ls : list label) (c : conn) : option conn :=
  match ls with
  | [] => Some c
  | l :: ls' => match conn_step l c with Some c' => conn_run ls' c' | None => None end
  end.

Definition conn_moves (c c' : conn) : Prop := ∃ l, conn_step l c = Some c'.

(** The pumps' own steps towards the end: the shutdowns they defer, what the
    select finds ready, a deadline that has come, and the errors that reads
    and writes return once the connection is closed. *)
Definition own_step (l : label) (c : conn) : Prop :=
  match l with
  | LReadShutdown | LWriteShutdown | LTakeMessage | LTakeTick | LTakeClosed | LReadTimeout => True
  | LReadError | LWriteError => cn_closed c = true
  | _ => False
  end.

Definition own_moves (c c' : conn) : Prop := ∃ l, conn_step l c = Some c' ∧ own_step l c.

(** ** What may be said of the surroundings *)

(** A peer that answers a ping within [rtt], a network that takes a frame
    within [stall], a [select] that passes over a waiting tick for at most
    [passes] messages, and nobody who shuts the connection down. *)
Definition attended (stall rtt : duration) (passes : nat) (l : label) (c : conn) : Prop :=
  match l with
  | LElapse d =>
      Forall (λ p, cn_now c + d ≤ p + rtt) (cn_pings c)
      ∧ match cn_writer c with
        | Writing _ deadline => cn_now c + d ≤ deadline - cp_writeTimeout pr + stall
        | _ => True
        end
  | LTakeMessage => cn_tick c = true → (cn_passed c < passes)%nat
  | LWriteError => match cn_writer c with Writing _ deadline => cn_now c = deadline | _ => True end
  | LData size => size ≤ cp_readLimit pr
  | LReadError | LClose => False
  | _ => True
  end.

Definition attended_step (stall rtt : duration) (passes : nat) (c c' : conn) : Prop :=
  ∃ l, conn_step l c = Some c' ∧ attended stall rtt passes l c.

(** A peer that sends pongs in answer to pings only. *)
Definition solicited (l : label) (c : conn) : Prop :=
  match l with LPong => cn_pings c ≠ [] | _ => True end.

Definition solicited_step (c c' : conn) : Prop := ∃ l, conn_step l c = Some c' ∧ solicited l c.
End pumps.
