(* ===== verification/KeepAliveProps.v ===== *)
(** * How long a connection lives

    A peer that answers in time is never dropped, one that does not is,
    within [pongWait]; and the timed pumps are the pumps of WsBus. *)

From S2P Require Import Prelude Uuid GoTime WsBus WsBusFacts KeepAlive.

(** The ways in which time can pass. *)
Inductive reader_waiting (t : time) (c : conn) : Prop :=
| wait_reading deadline :
    cn_reader c = Reading deadline → cn_closed c = false → t ≤ deadline → reader_waiting t c
| wait_reader_gone : cn_reader c = ReaderGone → reader_waiting t c.

Inductive writer_waiting (t : time) (c : conn) : Prop :=
| wait_selecting :
    cn_writer c = Selecting → cn_closed c = false → cn_tick c = false → cn_send c = [] →
    t ≤ cn_ticker c → writer_waiting t c
| wait_writing w deadline :
    cn_writer c = Writing w deadline → cn_closed c = false → t ≤ deadline → t ≤ cn_ticker c →
    writer_waiting t c
| wait_writer_gone : cn_writer c = WriterGone → writer_waiting t c.

Lemma reader_waits_waiting t c : reader_waits t c = true → reader_waiting t c.
Proof.
  unfold reader_waits. destruct (cn_reader c) eqn:Hr; [|done|intros _; by apply wait_reader_gone].
  intros [?%negb_true_iff ?%Z.leb_le]%andb_true_iff. by eapply wait_reading.
Qed.

Lemma writer_waits_waiting t c : writer_waits t c = true → writer_waiting t c.
Proof.
  unfold writer_waits. destruct (cn_writer c) eqn:Hw; [| |done|intros _; by apply wait_writer_gone].
  - rewrite !andb_true_iff, !negb_true_iff, Z.leb_le, bool_decide_eq_true.
    intros [[[? ?] ?] ?]. by apply wait_selecting.
  - rewrite !andb_true_iff, negb_true_iff, !Z.leb_le. intros [[? ?] ?]. by eapply wait_writing.
Qed.

Lemma elapse_waiting pr d c c' :
  conn_step pr (LElapse d) c = Some c' →
  0 < d ∧ reader_waiting (cn_now c + d) c ∧ writer_waiting (cn_now c + d) c
  ∧ c' = with_now (cn_now c + d) c.
Proof.
  simpl. unfold may_wait. destruct (_ && _) eqn:Hb; [|done]. intros [= <-].
  apply andb_true_iff in Hb as [?%Z.ltb_lt [?%reader_waits_waiting ?%writer_waits_waiting]%andb_true_iff].
  done.
Qed.

Ltac step_cases H :=
  repeat match type of H with
         | Some _ = Some _ => injection H as <-
         | None = Some _ => discriminate H
         | context [match ?x with _ => _ end] => destruct x eqn:?
         end.

(** Time, or any other label taken apart. *)
Ltac conn_cases l H :=
  destruct l as [d| | |size| | | | | | | | | |payload|];
  [apply elapse_waiting in H as (? & Hwr & Hww & ->); destruct Hwr, Hww
  |unfold conn_step, readPump_step, writePump_step in H; step_cases H ..];
  try match goal with w : option string |- _ => destruct w end; simplify_eq/=.

(** ** Deadlines *)

(** The parameters of a client are positive. *)
Record positive_params (pr : client_params) : Prop := {
  pp_writeTimeout : 0 < cp_writeTimeout pr;
  pp_pingInterval : 0 < cp_pingInterval pr;
  pp_pongWait : 0 < cp_pongWait pr
}.

Lemma NewClient_positive wt pi pw rl : positive_params (NewClient_params wt pi pw rl).
Proof.
  split; simpl; match goal with |- context [?x <=? 0] => destruct (Z.leb_spec x 0) end; unfold Second; lia.
Qed.

Section deadlines.
Variables (pr : client_params) (t0 : time).
Hypothesis Hpr : positive_params pr.

(** The read deadline is [pongWait] after the last pong, and neither it nor a
    write deadline is behind. *)
Record timely (c : conn) : Prop := {
  tl_reader dl : cn_reader c = Reading dl → dl = cn_pong c + cp_pongWait pr;
  tl_reading : cn_reader c ≠ ReaderGone → cn_now c ≤ cn_pong c + cp_pongWait pr;
  tl_writer w dl : cn_writer c = Writing w dl → cn_now c ≤ dl
}.

Lemma timely_started : timely (started pr t0).
Proof. destruct Hpr. split; simpl; intros; simplify_eq; lia. Qed.

Lemma timely_step l c c' : timely c → conn_step pr l c = Some c' → timely c'.
Proof.
  intros [Hr Hn Hw] Hs. destruct Hpr, c. simpl in *.
  conn_cases l Hs; split; simpl; intros; simplify_eq/=;
    try pose proof (Hr _ eq_refl); try pose proof (Hn ltac:(done)); try (by eauto); try lia.
Qed.

Lemma timely_reachable c : rtc (conn_moves pr) (started pr t0) c → timely c.
Proof.
  revert c. apply rtc_ind_r; [apply timely_started|]. intros c c' _ [l Hs] ?. by eapply timely_step.
Qed.
End deadlines.

(** ** The end of a connection *)

Section ending.
Variable pr : client_params.

(** Over, no time having passed. *)
Definition over_at (t : time) (c : conn) : Prop :=
  cn_reader c = ReaderGone ∧ cn_writer c = WriterGone ∧ cn_closed c = true ∧ cn_now c = t.

(** Both loops run and nobody has shut the client down. *)
Definition in_service (c : conn) : bool :=
  match cn_reader c, cn_writer c with
  | Reading _, Selecting | Reading _, Writing _ _ => negb (cn_closed c)
  | _, _ => false
  end.

(** A pump goes through its deferred shutdown, so the connection is closed
    behind it. *)
Definition deferred (c : conn) : Prop :=
  cn_reader c = ReaderGone ∨ cn_writer c = WriterGone → cn_closed c = true.

Lemma deferred_step l c c' : deferred c → conn_step pr l c = Some c' → deferred c'.
Proof.
  unfold deferred. intros Hd Hs. destruct c. simpl in *.
  conn_cases l Hs; intros [|]; simplify_eq/=; auto.
Qed.

Lemma deferred_reachable t0 c : rtc (conn_moves pr) (started pr t0) c → deferred c.
Proof.
  revert c. apply rtc_ind_r; [intros [Hg|Hg]; discriminate Hg|]. intros c c' _ [l Hs] Hd.
  exact (deferred_step _ _ _ Hd Hs).
Qed.

(** Out of service, time passes only when all is over. *)
Lemma waits_when_over d c c' :
  deferred c → in_service c = false → conn_step pr (LElapse d) c = Some c' → over_at (cn_now c) c.
Proof.
  unfold deferred, in_service, over_at. intros Hd Hs (_ & Hrw & Hww & _)%elapse_waiting.
  destruct Hrw as [? Hr Hc|Hr], Hww as [Hw Hc'|? ? Hw Hc'|Hw]; rewrite Hr, Hw in *;
    try (by rewrite Hc in Hs); assert (cn_closed c = true) by auto;
    first [congruence|by split_and!].
Qed.

(** ** The pumps leave by themselves *)

Abbreviation by_itself := (rtc (own_moves pr)).

Lemma own_l l c c' c'' :
  conn_step pr l c = Some c' → own_step l c → by_itself c' c'' → by_itself c c''.
Proof. intros. eapply rtc_l; [by exists l|done]. Qed.

Lemma closes_itself c :
  deferred c → in_service c = false →
  ∃ c', by_itself c c' ∧ cn_closed c' = true ∧ cn_now c' = cn_now c.
Proof.
  unfold deferred, in_service. intros Hd Hs. destruct (cn_closed c) eqn:Hc; [by exists c|].
  destruct (cn_reader c) as [dl| |] eqn:Hr; [| |discriminate Hd; auto].
  - destruct (cn_writer c) eqn:Hw; [done..| |discriminate Hd; auto].
    eexists. split; [eapply (own_l LWriteShutdown); [|done|apply rtc_refl]|].
    + simpl. unfold writePump_step. by rewrite Hw.
    + done.
  - eexists. split; [eapply (own_l LReadShutdown); [|done|apply rtc_refl]|].
    + simpl. unfold readPump_step. by rewrite Hr.
    + done.
Qed.

Ltac itself l := eapply (own_l l); [reflexivity|done|].

Lemma reader_leaves c :
  cn_closed c = true →
  ∃ c', by_itself c c' ∧ cn_reader c' = ReaderGone ∧ cn_writer c' = cn_writer c
        ∧ cn_closed c' = true ∧ cn_now c' = cn_now c.
Proof.
  intros Hc. destruct c as [now rd wr ticker tick queue handed closed pong pings passed].
  simpl in *. subst. destruct rd as [dl| |]; [| |by eexists].
  - eexists. split; [itself LReadError; itself LReadShutdown; apply rtc_refl|done].
  - eexists. split; [itself LReadShutdown; apply rtc_refl|done].
Qed.

Lemma writer_leaves c :
  cn_closed c = true →
  ∃ c', by_itself c c' ∧ cn_reader c' = cn_reader c ∧ cn_writer c' = WriterGone
        ∧ cn_closed c' = true ∧ cn_now c' = cn_now c.
Proof.
  intros Hc. destruct c as [now rd wr ticker tick queue handed closed pong pings passed].
  simpl in *. subst. destruct wr as [|w dl| |]; [destruct queue as [|m q]| | |by eexists];
    (eexists; split; [|]).
  1: itself LTakeClosed; itself LWriteShutdown; apply rtc_refl.
  2: itself LTakeMessage; itself LWriteError; itself LWriteShutdown; apply rtc_refl.
  3: itself LWriteError; itself LWriteShutdown; apply rtc_refl.
  4: itself LWriteShutdown; apply rtc_refl.
  all: done.
Qed.

Lemma ends_by_itself c :
  deferred c → in_service c = false → ∃ c', by_itself c c' ∧ over_at (cn_now c) c'.
Proof.
  intros Hd Hs. destruct (closes_itself c Hd Hs) as (c1 & H1 & Hc1 & Hn1).
  destruct (reader_leaves c1 Hc1) as (c2 & H2 & Hr2 & Hw2 & Hc2 & Hn2).
  destruct (writer_leaves c2 Hc2) as (c3 & H3 & Hr3 & Hw3 & Hc3 & Hn3).
  exists c3. split; [by do 2 (etrans; [eassumption|])|]. split_and!; congruence.
Qed.

(** What a closed connection can still do before time passes. *)
Definition left_over (c : conn) : nat :=
  match cn_reader c with Reading _ => 2 | ReaderLeaving => 1 | ReaderGone => 0 end
  + match cn_writer c with Selecting => 3 | Writing _ _ => 2 | WriterLeaving => 1 | WriterGone => 0 end
  + (if ticking c && (cn_now c =? cn_ticker c) then 1 else 0).

Lemma left_over_step l c c' :
  0 < cp_pingInterval pr → cn_closed c = true → (∀ d, l ≠ LElapse d) →
  conn_step pr l c = Some c' → cn_closed c' = true ∧ (left_over c' < left_over c)%nat.
Proof.
  intros Hpi Hc Hl Hs.
  destruct c as [now rd wr ticker tick queue handed closed pong pings passed].
  simpl in Hc. subst. destruct l; [by destruct (Hl d)|..];
    unfold conn_step, readPump_step, writePump_step in Hs; step_cases Hs; simplify_eq/=;
    (split; [done|]); unfold left_over, ticking in *; simpl in *;
    repeat match goal with
           | H : andb _ _ = true |- _ => apply andb_true_iff in H as [? ?]
           | H : (_ =? _) = true |- _ => apply Z.eqb_eq in H
           | H : match ?w with _ => _ end = true |- _ => destruct w; try discriminate H
           | |- context [?a =? ?b] => destruct (Z.eqb_spec a b)
           end; simpl; try lia.
Qed.

Lemma left_over_run ls c c' :
  0 < cp_pingInterval pr → cn_closed c = true → Forall (λ l, ∀ d, l ≠ LElapse d) ls →
  conn_run pr ls c = Some c' → (length ls ≤ left_over c)%nat.
Proof.
  intros Hpi. revert c. induction ls as [|l ls IH]; intros c Hc; simpl; [lia|].
  intros [Hl Hls]%Forall_cons Hr. destruct (conn_step pr l c) as [c1|] eqn:Hs; [|done].
  destruct (left_over_step _ _ _ Hpi Hc Hl Hs) as [Hc1 ?]. specialize (IH c1 Hc1 Hls Hr). lia.
Qed.

Lemma left_over_bound c : (left_over c ≤ 6)%nat.
Proof. unfold left_over. repeat case_match; lia. Qed.
End ending.

(** ** A peer that answers *)

Section attended.
Variables (pr : client_params) (stall rtt : duration) (passes : nat) (t0 : time).
Hypothesis Hpr : positive_params pr.
Hypothesis Hstall : 0 ≤ stall < cp_writeTimeout pr.
Hypothesis Hrtt : 0 ≤ rtt.

(** From a tick to the end of its ping, when [k] messages may come before. *)
Definition ping_within (k : Z) : duration := (k + 1) * stall.

(** The latest end of the next ping's write. *)
Definition horizon (c : conn) : time :=
  let queued := ping_within (Z.of_nat passes - Z.of_nat (cn_passed c)) in
  let next := cn_ticker c + stall + ping_within (Z.of_nat passes) in
  match cn_writer c with
  | Writing None deadline => deadline - cp_writeTimeout pr + stall
  | Writing (Some _) deadline =>
      if cn_tick c then deadline - cp_writeTimeout pr + stall + queued else next
  | _ => if cn_tick c then cn_now c + queued else next
  end.

Hypothesis Hslack :
  cp_pingInterval pr + stall + ping_within (Z.of_nat passes) + rtt < cp_pongWait pr.

Record alive (c : conn) : Prop := {
  al_open : cn_closed c = false;
  al_reader : ∃ deadline, cn_reader c = Reading deadline
    ∧ match cn_pings c with [] => horizon c | p :: _ => p end + rtt < deadline;
  al_writer : match cn_writer c with
              | Selecting => True
              | Writing _ deadline =>
                  deadline - cp_writeTimeout pr ≤ cn_now c ≤ deadline - cp_writeTimeout pr + stall
              | WriterLeaving | WriterGone => False
              end;
  al_ticker : cn_now c ≤ cn_ticker c ≤ cn_now c + cp_pingInterval pr;
  al_passed : (cn_passed c ≤ passes)%nat;
  al_pings : Forall (λ p, p ≤ cn_now c ≤ p + rtt) (cn_pings c)
}.

Lemma horizon_bound c :
  alive c → cn_now c ≤ horizon c ≤ cn_now c + cp_pingInterval pr + stall + ping_within (Z.of_nat passes).
Proof.
  intros [_ _ Hw Ht Hp _]. destruct Hpr. unfold horizon, ping_within in *.
  destruct (cn_writer c) as [|[m|] dl| |]; [destruct (cn_tick c)|destruct (cn_tick c)| |done..]; nia.
Qed.

Lemma alive_started : alive (started pr t0).
Proof.
  destruct Hpr. split; simpl; [done| |done|lia|lia|done].
  eexists. split; [done|]. unfold horizon, ping_within in *. simpl. nia.
Qed.

Lemma alive_now c : alive c → ∃ deadline, cn_reader c = Reading deadline ∧ cn_now c < deadline.
Proof.
  intros Ha. pose proof (horizon_bound c Ha). destruct Ha as [_ (dl & Hr & Hd) _ _ _ Hp].
  exists dl. split; [done|]. destruct (cn_pings c) as [|p ps]; [lia|].
  apply Forall_cons in Hp as [? _]. lia.
Qed.

Lemma pings_later t d ps :
  0 < d → Forall (λ p, p ≤ t ≤ p + rtt) ps → Forall (λ p, t + d ≤ p + rtt) ps →
  Forall (λ p, p ≤ t + d ≤ p + rtt) ps.
Proof. rewrite !Forall_forall. intros Hd Hps Hl p Hp. specialize (Hps p Hp). specialize (Hl p Hp). lia. Qed.

Lemma alive_step l c c' :
  alive c → conn_step pr l c = Some c' → attended pr stall rtt passes l c → alive c'.
Proof.
  intros Ha Hs Hl. pose proof (horizon_bound c Ha) as Hh.
  pose proof (alive_now c Ha) as (dl0 & Hdl0 & Hnow).
  destruct Ha as [Ho (dl & Hr & Hd) Hw Ht Hp Hps]. destruct Hpr.
  destruct c as [now rd wr ticker tick queue handed closed pong pings passed].
  unfold horizon, ping_within in *. simpl in *. simplify_eq.
  conn_cases l Hs.
  all: rewrite ?Z.leb_gt, ?Z.ltb_ge, ?Z.eqb_eq in *.
  all: try (exfalso; lia).
  all: split; simpl; [done|eexists; split; [done|unfold horizon, ping_within; simpl]|..].
  all: try done; try lia; try (destruct Hl; by apply pings_later).
  - (* the ticker *) destruct pings; [|done]. destruct wr as [|[]| |]; [destruct tick; nia..|done].
  - (* a pong *) destruct pings as [|p [|p' ps]]; simpl.
    + destruct wr as [|[]| |], tick; try done; nia.
    + destruct wr as [|[]| |], tick; try done; nia.
    + apply Forall_cons in Hps as [_ [? _]%Forall_cons]. nia.
  - by apply Forall_tail.
  - (* a message *) destruct pings; [|done]. destruct tick; [specialize (Hl eq_refl)|]; nia.
  - destruct tick; [specialize (Hl eq_refl); lia|done].
  - (* a tick *) destruct pings; [|done]. nia.
  - (* a message written *) destruct pings; [|done]. destruct tick; nia.
  - (* a ping written *) destruct pings; simpl; [lia|done].
  - apply Forall_app. split; [done|]. apply Forall_singleton. lia.
Qed.
Abbreviation moves := (rtc (attended_step pr stall rtt passes)).

Lemma alive_moves c c' : alive c → moves c c' → alive c'.
Proof. intros Ha Hm. induction Hm as [|c c1 c' [l [Hs Hl]] _ IH]; [done|]. eapply IH, alive_step; eauto. Qed.

Lemma attended_l l c c' c'' :
  conn_step pr l c = Some c' → attended pr stall rtt passes l c → moves c' c'' → moves c c''.
Proof. intros Hs Hl Hm. eapply rtc_l; [by exists l|done]. Qed.

(** ** It goes on for ever *)

(** Nothing is under way, and the ticker is the next to do something. *)
Definition resting (now ticker : time) (handed : list string) (c : conn) : Prop :=
  ∃ deadline pong passed,
    c = Conn now (Reading deadline) Selecting ticker false [] handed false pong [] passed.

Lemma answer_pings now ticker handed pings dl pong passed :
  ∃ c, moves (Conn now (Reading dl) Selecting ticker false [] handed false pong pings passed) c
       ∧ resting now ticker handed c.
Proof.
  revert dl pong. induction pings as [|p ps IH]; intros dl pong; [by eexists; split; [|by do 3 eexists]|].
  destruct (IH (now + cp_pongWait pr) now) as (c & Hm & Hc). exists c. split; [|done].
  by eapply (attended_l LPong).
Qed.

Lemma hand_over now ticker queue handed pings dl pong passed :
  ∃ c, moves (Conn now (Reading dl) Selecting ticker false queue handed false pong pings passed) c
       ∧ resting now ticker (handed ++ queue) c.
Proof.
  revert handed. induction queue as [|m q IH]; intros handed; [rewrite app_nil_r; apply answer_pings|].
  destruct (IH (handed ++ [m])) as (c & Hm & Hc). exists c. rewrite <-app_assoc in Hc. split; [|done].
  eapply (attended_l LTakeMessage); [reflexivity|done|]. by eapply (attended_l LWritten).
Qed.

Lemma take_tick now ticker tick queue handed pings dl pong passed :
  ∃ c, moves (Conn now (Reading dl) Selecting ticker tick queue handed false pong pings passed) c
       ∧ resting now ticker (handed ++ queue) c.
Proof.
  destruct tick; [|apply hand_over].
  destruct (hand_over now ticker queue handed (pings ++ [now]) dl pong 0) as (c & Hm & Hc).
  exists c. split; [|done]. eapply (attended_l LTakeTick); [reflexivity|done|].
  by eapply (attended_l LWritten).
Qed.

Lemma settles c :
  alive c → ∃ c', moves c c' ∧ resting (cn_now c) (cn_ticker c) (cn_handed c ++ cn_send c) c'.
Proof.
  intros [Ho (dl & Hr & _) Hw _ _ _].
  destruct c as [now rd wr ticker tick queue handed closed pong pings passed]. simpl in *. subst.
  destruct wr as [|w wdl| |]; [apply take_tick| |done..].
  destruct (take_tick now ticker tick queue handed
              match w with Some _ => pings | None => pings ++ [now] end dl pong passed) as (c & Hm & Hc).
  exists c. split; [|done]. eapply (attended_l LWritten); [reflexivity|done|]. by destruct w.
Qed.

(** One turn of the ticker. *)
Lemma one_turn now ticker handed c :
  alive c → resting now ticker handed c →
  ∃ c', moves c c' ∧ resting ticker (ticker + cp_pingInterval pr) handed c'.
Proof.
  intros Ha Hc. pose proof (horizon_bound c Ha) as [_ Hh].
  destruct Hc as (dl & pong & passed & ->). pose proof Ha as [_ (dl' & [= <-] & Hd) _ [Hn _] _ _].
  unfold horizon, ping_within in Hd. simpl in *.
  set (c1 := Conn ticker (Reading dl) Selecting ticker false [] handed false pong [] passed).
  set (c2 := Conn ticker (Reading dl) Selecting (ticker + cp_pingInterval pr) true [] handed false
               pong [] passed).
  assert (moves (Conn now (Reading dl) Selecting ticker false [] handed false pong [] passed) c2) as H2.
  { assert (moves c1 c2) as H12.
    { eapply (attended_l LFire); [|done|apply rtc_refl]. simpl. by rewrite Z.eqb_refl. }
    destruct (Z.eq_dec now ticker) as [->|Hne]; [done|].
    eapply (attended_l (LElapse (ticker - now))); [|by split|exact H12].
    simpl. unfold may_wait, reader_waits, writer_waits. simpl.
    rewrite (proj2 (Z.ltb_lt _ _)), !(proj2 (Z.leb_le _ _)) by nia.
    simpl. unfold with_now, c1. simpl. do 2 f_equal. lia. }
  destruct (settles c2) as (c' & Hm & Hc'); [by eapply alive_moves|].
  simpl in Hc'. rewrite app_nil_r in Hc'. exists c'. split; [by etrans|done].
Qed.

Lemma many_turns n now ticker handed c :
  alive c → resting now ticker handed c →
  ∃ c' now', moves c c' ∧ resting now' (ticker + Z.of_nat n * cp_pingInterval pr) handed c'.
Proof.
  revert now ticker c. induction n as [|n IH]; intros now ticker c Ha Hc.
  - exists c, now. split; [done|]. by replace (ticker + Z.of_nat 0 * cp_pingInterval pr) with ticker by lia.
  - destruct (one_turn now ticker handed c Ha Hc) as (c1 & H1 & Hc1).
    destruct (IH _ _ c1 (alive_moves _ _ Ha H1) Hc1) as (c' & now' & H2 & Hc').
    exists c', now'. split; [by etrans|].
    by replace (ticker + Z.of_nat (S n) * cp_pingInterval pr)
      with (ticker + cp_pingInterval pr + Z.of_nat n * cp_pingInterval pr) by lia.
Qed.

Lemma goes_on c T :
  alive c → ∃ c', moves c c' ∧ T ≤ cn_now c' ∧ cn_send c' = [] ∧ cn_handed c' = cn_handed c ++ cn_send c.
Proof.
  intros Ha. destruct (settles c Ha) as (c1 & H1 & Hc1). pose proof (alive_moves _ _ Ha H1) as Ha1.
  destruct (many_turns (Z.to_nat (T + cp_pingInterval pr - cn_ticker c)) _ _ _ c1 Ha1 Hc1)
    as (c2 & now & H2 & Hc2).
  assert (moves c c2) as H02 by by etrans. exists c2. split; [done|].
  pose proof (alive_moves _ _ Ha H02) as [_ _ _ [_ Ht] _ _]. destruct Hpr.
  destruct Hc2 as (dl & pong & passed & ->). simpl in *. split; [nia|done].
Qed.
End attended.

(** ** The pumps are those of the hub *)

Section pumps_of_hub.
Variables (pr : client_params) (p : positive).

(** The hub's client behind a connection; a shutdown runs in one go. *)
Definition behind (h : Hub) (c : conn) : Prop :=
  ∃ cl, clients h !! p = Some cl ∧ c_send cl = cn_send c ∧ c_written cl = cn_handed c
        ∧ c_once cl = if cn_closed c then Done else Fresh.

(** A goroutine alone, action after action. *)
Definition thread_step (x y : Hub * thread) : Prop :=
  ∃ a t new, x.2 = a :: t ∧ act x.1 a y.1 new ∧ y.2 = new ++ t.

(** What a goroutine has to do at a label, and what it leaves to be done:
    time and the ticker are not the hub's, nor is the end of a write. *)
Definition actions_of (l : label) : thread :=
  match l with
  | LPong | LData _ | LReadTimeout | LReadError => [AReadLoop p]
  | LTakeMessage | LTakeTick | LTakeClosed | LWriteError => [AWriteLoop p]
  | LReadShutdown | LWriteShutdown | LClose => [AShutdown p]
  | LOffer m => [ASend p m]
  | LElapse _ | LFire | LWritten => []
  end.

Definition rest_of (l : label) (c : conn) : thread :=
  match l with
  | LPong | LData _ | LReadTimeout | LReadError =>
      match cn_reader c with Reading _ => [AReadLoop p] | _ => [AShutdown p] end
  | LTakeMessage | LTakeTick | LTakeClosed | LWriteError =>
      match cn_writer c with Selecting | Writing _ _ => [AWriteLoop p] | _ => [AShutdown p] end
  | _ => []
  end.

Lemma thread_once h a h' new : act h a h' new → rtc thread_step (h, [a]) (h', new).
Proof. intros Ha. apply rtc_once. exists a, [], new. by rewrite app_nil_r. Qed.

Lemma behind_update f h cl c :
  clients h !! p = Some cl → c_send (f cl) = cn_send c → c_written (f cl) = cn_handed c →
  (c_once (f cl) = if cn_closed c then Done else Fresh) → behind (update_client f p h) c.
Proof. intros Hcl Hq Hw Hc. exists (f cl). split; [|done]. simpl. by rewrite lookup_alter_eq, Hcl. Qed.

Lemma update_lookup f h cl :
  clients h !! p = Some cl → clients (update_client f p h) !! p = Some (f cl).
Proof. intros Hcl. simpl. by rewrite lookup_alter_eq, Hcl. Qed.

(** [c.shutdown()] from its entry to its end: the once body for the first
    caller, nothing for a later one. *)
Lemma shutdown_runs h c :
  behind h c → ∃ h', rtc thread_step (h, [AShutdown p]) (h', []) ∧ behind h' (conn_shutdown c).
Proof.
  intros (cl & Hcl & Hq & Hw & Ho). destruct (cn_closed c) eqn:Hc.
  { exists h. split; [by eapply thread_once, act_shutdown_again|].
    exists cl. split_and!; simpl; congruence. }
  pose proof (update_lookup (with_once Entered) _ _ Hcl) as H1.
  set (h1 := update_client (with_once Entered) p h) in *.
  assert (clients (update_client (with_once Unregistered) p (Unregister p h1)) !! p
          = Some (with_once Unregistered (with_once Entered cl))) as H2
    by (apply update_lookup; by rewrite Unregister_clients).
  set (h2 := update_client _ p (Unregister p h1)) in *.
  pose proof (update_lookup (with_once ChanClosed) _ _ H2) as H3.
  set (h3 := update_client _ p h2) in *.
  exists (update_client (with_once Done) p h3). split.
  - etrans; [by eapply thread_once, act_shutdown_first|].
    etrans; [by eapply thread_once, act_unregister|].
    etrans; [by eapply thread_once, act_close_chan|]. by eapply thread_once, act_close_conn.
  - by eapply behind_update.
Qed.

(** Every step of a connection is run by the hub's goroutines, or changes
    nothing there; the deferred shutdown is what WsBus calls [AShutdown]. *)
Lemma timed_pumps_are_pumps l c c' h :
  conn_step pr l c = Some c' → behind h c →
  ∃ h', behind h' c' ∧ rtc thread_step (h, actions_of l) (h', rest_of l c').
Proof.
  intros Hs Hb. pose proof (shutdown_runs h c Hb) as (hs & Hrun & Hbs).
  destruct Hb as (cl & Hcl & Hq & Hw & Hc).
  assert (chan_closed cl = cn_closed c) as Hcc by (unfold chan_closed; rewrite Hc; by case_match).
  assert (∀ c', cn_send c' = cn_send c → cn_handed c' = cn_handed c → cn_closed c' = cn_closed c →
    behind h c') as Hsame by (intros c0 E1 E2 E3; exists cl; by rewrite E1, E2, E3).
  destruct l as [d| | |size| | | | | | | | | |m|]; simpl in Hs; unfold readPump_step, writePump_step in Hs;
    step_cases Hs; simpl in *.
  all: try (exists h; split; [by apply Hsame|]; try apply rtc_refl; apply thread_once; constructor).
  - (* a frame within the limit *) exists h. split; [by apply Hsame|]. rewrite Heqr.
    apply thread_once. constructor.
  - by exists hs.
  - (* a message *) eexists. split; [|eapply thread_once, act_write; [done|by rewrite Hq]].
    apply (behind_update _ _ cl); simpl; congruence.
  - (* the end of a write *) exists h. split; [apply Hsame; by case_match|apply rtc_refl].
  - by exists hs.
  - (* a send *) apply orb_false_iff in Heqb as [Hcl' Hlen%negb_false_iff%Nat.ltb_lt].
    eexists. split; [|eapply thread_once, act_send; [done|congruence|by rewrite Hq]].
    apply (behind_update _ _ cl); simpl; congruence.
  - (* the hub's shutdown *) by exists hs.
Qed.
End pumps_of_hub.

(** ** What the deadlines do *)

(** Before the first tick there is no ping, and no pong that answers one. *)
Lemma no_ping_in_time pr t0 c :
  positive_params pr → cp_pongWait pr < cp_pingInterval pr →
  rtc (solicited_step pr) (started pr t0) c → cn_reader c ≠ ReaderGone →
  (∀ dl, cn_reader c = Reading dl → dl = t0 + cp_pongWait pr) ∧ cn_now c ≤ t0 + cp_pongWait pr
  ∧ cn_pings c = [] ∧ cn_tick c = false ∧ cn_ticker c = t0 + cp_pingInterval pr
  ∧ ∀ dl, cn_writer c ≠ Writing None dl.
Proof.
  intros [] Hlt. revert c.
  apply (rtc_ind_r (λ c, _ → _)); [simpl; intros _; split_and!; try done; naive_solver lia|].
  intros c c' _ (l & Hs & Hl) IH Hr'.
  destruct c as [now rd wr ticker tick queue handed closed pong pings passed].
  conn_cases l Hs; destruct (IH ltac:(done)) as (Hr & Hn & Hp & Ht & Htk & Hw); simplify_eq/=;
    try done; try (by exfalso; eapply Hw);
    rewrite ?andb_true_iff, ?Z.eqb_eq in *; try (exfalso; lia);
    try pose proof (Hr _ eq_refl);
    (split_and!; try done; try lia; try (by intros; simplify_eq); by intros; apply Hr).
Qed.

(** C8: a peer that answers is never dropped.  When the peer answers each ping
    within [rtt], the network takes a frame within [stall] and the writer's
    [select] passes over a waiting tick for at most [passes] messages, with
    [pingInterval + (passes + 2) * stall + rtt < pongWait]: the read deadline
    stays ahead in every state, both pumps run, and time can always go on,
    beyond any bound, with all that is buffered handed to the connection. *)
Theorem responsive_peers_stay_connected wt pi pw rl stall rtt passes t0 :
  let pr := NewClient_params wt pi pw rl in
  0 ≤ stall < cp_writeTimeout pr → 0 ≤ rtt →
  cp_pingInterval pr + (Z.of_nat passes + 2) * stall + rtt < cp_pongWait pr →
  ∀ c, rtc (attended_step pr stall rtt passes) (started pr t0) c →
    cn_closed c = false ∧ cn_writer c ≠ WriterLeaving ∧ cn_writer c ≠ WriterGone
    ∧ (∃ deadline, cn_reader c = Reading deadline ∧ cn_now c < deadline)
    ∧ ∀ T, ∃ c', rtc (attended_step pr stall rtt passes) c c' ∧ T ≤ cn_now c'
        ∧ cn_send c' = [] ∧ cn_handed c' = cn_handed c ++ cn_send c.
Proof.
  intros pr Hstall Hrtt Hslack c Hc. pose proof (NewClient_positive wt pi pw rl : positive_params pr) as Hpr.
  assert (cp_pingInterval pr + stall + ping_within stall (Z.of_nat passes) + rtt < cp_pongWait pr) as Hs
    by (unfold ping_within; nia).
  assert (alive pr stall rtt passes c) as Ha by by eapply alive_moves; [..|apply alive_started|exact Hc].
  split; [apply Ha|]. pose proof (al_writer _ _ _ _ _ Ha) as Hw.
  split; [intros E; by rewrite E in Hw|]. split; [intros E; by rewrite E in Hw|].
  split; [by eapply alive_now|]. intros T. by eapply goes_on.
Qed.

(** C9: a peer that falls silent is dropped in time, and what is left of a
    connection does not linger.  Whatever the peer and the hub do, the read
    loop is over at most [pongWait] after the last pong, and no write lasts
    longer than its deadline; data does not count.  A pump that is gone has
    shut the connection down, by its deferred [c.shutdown()].  From the moment
    a pump left its loop or the client was shut down, time does not pass
    before both pumps are gone and the connection is closed: the pumps' own
    steps lead there, nobody's help needed, and once it is closed at most six
    steps are left until then.  Pongs nobody asked for count as pongs, so a
    peer may stay by sending those; but one that only answers pings is dropped
    after [pongWait] when the ping interval is longer, which the configuration
    may set: no ping is ever sent. *)
Theorem silent_peers_are_dropped wt pi pw rl t0 :
  let pr := NewClient_params wt pi pw rl in
  (∀ c, rtc (conn_moves pr) (started pr t0) c →
     (cn_reader c ≠ ReaderGone → cn_now c ≤ cn_pong c + cp_pongWait pr)
     ∧ (∀ w deadline, cn_writer c = Writing w deadline → cn_now c ≤ deadline)
     ∧ (cn_reader c = ReaderGone ∨ cn_writer c = WriterGone → cn_closed c = true)
     ∧ (in_service c = false →
          (∀ d c', conn_step pr (LElapse d) c = Some c' → over_at (cn_now c) c)
          ∧ ∃ c', rtc (own_moves pr) c c' ∧ over_at (cn_now c) c')
     ∧ (cn_closed c = true → ∀ ls c',
          Forall (λ l, ∀ d, l ≠ LElapse d) ls → conn_run pr ls c = Some c' → (length ls ≤ 6)%nat))
  ∧ (cp_pongWait pr < cp_pingInterval pr →
     ∀ c, rtc (solicited_step pr) (started pr t0) c → cn_reader c ≠ ReaderGone →
       cn_now c ≤ t0 + cp_pongWait pr ∧ cn_pings c = []).
Proof.
  intros pr. pose proof (NewClient_positive wt pi pw rl : positive_params pr) as Hpr. split.
  - intros c Hc. pose proof (deferred_reachable pr t0 c Hc) as Hd.
    apply timely_reachable in Hc as [_ Hr Hw]; [|done].
    split; [done|]. split; [done|]. split; [done|]. split.
    + intros Hs. split; [intros d c'; by apply waits_when_over|by apply ends_by_itself].
    + intros Hcl ls c' Hls Hrun. etrans; [|apply (left_over_bound c)].
      eapply left_over_run; [apply Hpr|done..].
  - intros Hlt c Hc Hr'. by destruct (no_ping_in_time pr t0 c Hpr Hlt Hc Hr') as (_ & ? & ? & _).
Qed.
