(* ===== verification/System.v ===== *)
(** * The running system

    The state is the world; a step is one request, to a registered route or
    not, one batch of the outbox worker, one acknowledgement goroutine, one
    ping of the mapas client, or a change of the environment (clocks, failures
    to come, locks held elsewhere).  Invariants of the tables and of what has
    been published hold in every reachable world. *)

From S2P Require Import Prelude GoStrings GoTime Json Uuid Identity World Repo RepoFacts RepoSound.
From S2P Require Import CitizenFacts Payload Http WebhookService WebhookFacts Integrations.
From S2P Require Import IntegrationsProps Auth HttpApi HttpFacts AuthProps WsBus Notify NotifyFacts Server.

(** What the environment may change between two operations. *)
Definition environment (w w' : world) : Prop :=
  w_db w' = w_db w ∧ w_tx w' = w_tx w ∧ w_effects w' = w_effects w.

Section system.
Context `{UuidText} `{Postgres} `{Jwt} `{Gobreaker} `{Unicode} `{Gin}.
Variables (stubs : bool) (deps : Deps) (wk : Worker).

(** The mapas client in its present state. *)
Definition with_Mapas (m : option MapasClient) (d : Deps) : Deps :=
  Build_Deps (dp_Pool d) (dp_Redis d) (dp_Webhook d) (dp_AuthJWT d) (dp_Hub d) (dp_JWTSecret d)
    (dp_CPFPepper d) (dp_JWTIssuer d) (dp_JWTAudience d) (dp_WSWriteTimeout d)
    (dp_WSPingInterval d) (dp_WSPongWait d) (dp_WSReadLimit d) (dp_Chamados d) m.

Inductive sys_step : world → world → Prop :=
| sys_request method path len m rq w w' rep :
    server_serve stubs len (with_Mapas m deps) method path rq w = (w', rep) → sys_step w w'
| sys_batch w w' r : processBatch wk w = (w', r) → sys_step w w'
| sys_notify chamadoID ref w w' r :
    readNotify (dp_Chamados deps) chamadoID ref w = (w', r) → sys_step w w'
| sys_ping m w w' r : pingOnce m w = (w', r) → sys_step w w'
| sys_environment w w' : environment w w' → sys_step w w'.

(** The server starts on the empty schema. *)
Definition sys_reachable (w : world) : Prop := rtc sys_step (init_world empty_database) w.
End system.

(** ** The invariants *)

(** Every notification has exactly one outbox row, of the same citizen. *)
Definition outbox_complete (d : database) : Prop :=
  ∀ nid n, notifications d !! nid = Some n →
    ∃ oid o, event_outbox d !! oid = Some o ∧ ob_notification_id o = nid
             ∧ ob_citizen_id o = nt_citizen_id n
             ∧ ∀ oid' o', event_outbox d !! oid' = Some o' → ob_notification_id o' = nid → oid' = oid.

(** A row marked sent was published on its citizen's channel. *)
Definition sent_published `{UuidText} (d : database) (effs : list effect) : Prop :=
  ∀ oid o, event_outbox d !! oid = Some o → ob_status o = sent → publication o ∈ effs.

(** Attempts fit their column, stay below the maximum while a row is pending,
    and reach it exactly when the row is given up. *)
Definition attempts_bounded (max : Z) (d : database) : Prop :=
  ∀ oid o, event_outbox d !! oid = Some o →
    0 ≤ ob_attempts o ≤ Z.min max (2 ^ 31 - 1) ∧ (ob_status o = pending → ob_attempts o < max)
    ∧ (ob_status o = dead → ob_attempts o = max).

(** ** Steps that leave the outbox alone *)

(** Outbox and ownership are as before. *)
Definition calm (d d' : database) : Prop :=
  event_outbox d' = event_outbox d
  ∧ ∀ i, nt_citizen_id <$> notifications d' !! i = nt_citizen_id <$> notifications d !! i.

#[export] Instance calm_pre : PreOrder calm.
Proof.
  split; [done|]. intros d1 d2 d3 [H1 H2] [H3 H4]. split; [congruence|].
  intros i. by rewrite H4, H2.
Qed.

Lemma calm_outbox_complete d d' : calm d d' → outbox_complete d → outbox_complete d'.
Proof.
  intros [Ho Hn] Hc nid n Hnid. specialize (Hn nid). rewrite Hnid in Hn. simpl in Hn.
  destruct (notifications d !! nid) as [n0|] eqn:E; [|done]. injection Hn as Hn.
  rewrite Hn, Ho. by apply Hc.
Qed.

Section calm.
Context `{UuidText} `{PostgresOk} `{JwtOk} `{Gobreaker} `{Unicode}.

Lemma touch_last_seen_calm cid : sql_respects calm (touch_last_seen cid).
Proof. by intros cx d a d' [= <- <-]. Qed.

Lemma mark_read_calm cid nid : sql_respects calm (mark_read cid nid).
Proof.
  intros cx d a d'. unfold mark_read. destruct (notifications d !! nid) as [n|] eqn:E; [|done].
  destruct (_ && _); [|done]. intros [= <- <-]. split; [done|]. simpl. intros i.
  destruct (decide (i = nid)) as [->|Hne]; [by rewrite lookup_insert_eq, E|by rewrite lookup_insert_ne].
Qed.

Lemma mark_all_read_calm cid : sql_respects calm (mark_all_read cid).
Proof.
  intros cx d a d' [= <- <-]. split; [done|]. simpl. intros i. rewrite lookup_fmap.
  destruct (notifications d !! i); [|done]. simpl. by destruct (to_mark _ _).
Qed.

Lemma upsert_device_calm cid p t : sql_respects calm (upsert_device cid p t).
Proof.
  intros cx d a d'. unfold upsert_device. repeat case_match; intros; simplify_eq; done.
Qed.

Lemma delete_device_calm cid t : sql_respects calm (delete_device cid t).
Proof.
  intros cx d a d'. unfold delete_device, bad_text. repeat case_match; intros; simplify_eq; done.
Qed.

Lemma insert_dead_letter_calm body sig code msg :
  sql_respects calm (insert_dead_letter body sig code msg).
Proof.
  intros cx d a d'. unfold insert_dead_letter, bad_text, unique_violation.
  repeat case_match; intros; simplify_eq; done.
Qed.

Definition all_handlers (d : Deps) : list handler :=
  read_handlers (dp_Chamados d) (dp_Mapas d)
  ++ [handleMarkRead (dp_Chamados d); handleDeleteDevice; handleMarkAllRead (dp_Chamados d);
      handleRegisterDevice].

(** What holds of the repository calls holds of the handlers, for anyone. *)
Lemma all_handlers_respect (R : database → database → Prop) `{!PreOrder R} d h ctx rq :
  h ∈ all_handlers d →
  (∀ cid nid, pool_op R (MarkNotificationRead cid nid)) →
  (∀ cid, pool_op R (MarkAllNotificationsRead cid)) →
  (∀ cid p t, pool_op R (UpsertPushDevice cid p t)) →
  (∀ cid t, pool_op R (DeletePushDevice cid t)) →
  pool_op R (h ctx rq).
Proof.
  intros Hh Hm Ha Hu Hd. unfold all_handlers in Hh.
  apply elem_of_app in Hh as [Hr|Hh]; [apply inert_pool_op; [apply _|]; by eapply read_handlers_inert|].
  assert (∀ rsp, pool_op R (mret rsp : ST response)) as Hret
    by (intros rsp; apply inert_pool_op; [apply _|apply inert_ret]).
  rewrite !elem_of_cons, elem_of_nil in Hh.
  destruct Hh as [->|[->|[->|[->|[]]]]]; (destruct ctx as [[cid|]|]; try apply Hret).
  - by apply handleMarkRead_respects.
  - by apply handleDeleteDevice_respects.
  - by apply handleMarkAllRead_respects.
  - by apply handleRegisterDevice_respects.
Qed.

(** Behind the two middlewares. *)
Lemma authenticated_respects (R : database → database → Prop) `{!PreOrder R} auth h rq :
  (∀ ctx, pool_op R (h ctx rq)) → (∀ cid, pool_op R (TouchCitizenLastSeen cid)) →
  pool_op R (authenticated auth h rq).
Proof.
  intros Hh Ht. unfold authenticated, Middleware.
  destruct (BearerFromRequest rq) as [raw|]; [|apply inert_pool_op; [apply _|apply inert_ret]].
  apply pool_op_bind; [apply _|apply inert_pool_op; [apply _|apply ResolveCitizenFromToken_inert]|].
  intros [id|[]]; try (apply inert_pool_op; [apply _|apply inert_ret]).
  unfold TouchLastSeenMiddleware. destruct (CitizenID _) as [cid|]; [|apply Hh].
  by apply pool_op_bind; [apply _|apply Ht|intros _; apply Hh].
Qed.
End calm.

(** ** The webhook's step *)

Section webhook.
Context `{UuidText} `{PostgresOk}.

Lemma keeps_db (R : database → database → Prop) `{!PreOrder R} {A} (m : M A) :
  keeps R m → keeps R (db m).
Proof.
  intros Hm. apply keeps_bind; [apply _|done|]. intros r. apply inert_keeps; [apply _|].
  apply inert_ret.
Qed.

Lemma persist_sound s p : pool_op sound (persist s p).
Proof.
  unfold persist. destruct (ParsedTimestamp p) as [ts|];
    [|apply inert_pool_op; [apply _|apply inert_ret]].
  apply pool_op_transaction. unfold persist_tx.
  apply keeps_ebind; [apply _|apply keeps_db, keeps_Begin; apply _|intros _].
  apply keeps_ebind; [apply _|apply keeps_db, InsertNotificationIdempotent_sound; apply _|].
  intros [[inserted cid] nid]. apply keeps_ebind; [apply _| |intros _].
  - destruct inserted; [|apply inert_keeps, inert_ret; apply _].
    apply keeps_bind; [apply _|apply inert_keeps, inert_time_Now; apply _|intros now].
    destruct (OutboxPayloadJSON _ _ _); [|apply inert_keeps, inert_ret; apply _].
    apply keeps_db, InsertOutbox_sound; apply _.
  - apply keeps_ebind; [apply _|apply keeps_db, keeps_Commit; apply _|intros _].
    apply inert_keeps, inert_ret; apply _.
Qed.

(** Either nothing happens, or an accepted event is persisted and answered. *)
Lemma HandlePOST_cases s rq w :
  HandlePOST s rq w = (w, (HandlePOST s rq w).2)
  ∨ ∃ body p, HandlePOST s rq w = (persist s p ≫= answer rq body) w.
Proof.
  destruct (HandlePOST s rq w) as [w' rsp] eqn:E.
  unfold HandlePOST in E |- *. destruct (readLimitedBody _ _) as [body|e] eqn:Hb;
    [|left; by injection E as <- <-].
  cbv zeta in E |- *. destruct (VerifySignature _ _ _) as [[]|] eqn:Hv; try (left; by injection E as <- <-).
  unfold handle_verified in E |- *.
  destruct (unmarshalStrictJSON _ _) as [p0|] eqn:Hu; [|left; by injection E as <- <-].
  destruct (Validate p0) as [p [e|]] eqn:Hval; [left; by injection E as <- <-|].
  right. exists body, p. by rewrite <-E.
Qed.

Lemma answer_sound rq body r : pool_op sound (answer rq body r).
Proof.
  destruct r as [[]|e]; simpl; try (apply inert_pool_op; [apply _|apply inert_ret]).
  apply pool_op_then; [apply _|apply InsertWebhookDLQ_sound|]. intros x. apply inert_ret.
Qed.

Lemma HandlePOST_sound s rq : pool_op sound (HandlePOST s rq).
Proof.
  intros w w' rsp Hw Hr. destruct (HandlePOST_cases s rq w) as [E|(body & p & E)].
  - rewrite E in Hr. injection Hr as <- _. split; [done|reflexivity].
  - rewrite E in Hr. eapply pool_op_bind; [apply _|apply persist_sound| |exact Hw|exact Hr].
    intros r. apply answer_sound.
Qed.

(** The tables after a request: as before or as specified for an event, plus
    possibly a dead letter. *)
Lemma HandlePOST_change s rq w w' rsp :
  w_tx w = None → HandlePOST s rq w = (w', rsp) →
  ∃ d1, (d1 = w_db w ∨ ∃ p b, recorded s p (w_pgnow w) (w_db w) d1 b)
        ∧ ∃ m, w_db w' = set_dlq m d1.
Proof.
  assert (∀ d, d = set_dlq (webhook_dlq d) d) as Hid by (by intros []).
  intros Hw Hr. destruct (HandlePOST_cases s rq w) as [E|(body & p & E)].
  - rewrite E in Hr. injection Hr as <- _. exists (w_db w). split; [by left|]. eauto.
  - rewrite E in Hr. apply bind_inv in Hr as (w1 & r & Hp & Ha).
    apply persist_refines in Hp as [_ Hp]; [|done]. exists (w_db w1).
    assert (w_db w1 = w_db w ∨ ∃ b, recorded s p (w_pgnow w) (w_db w) (w_db w1) b) as Hd
      by (destruct r; eauto).
    split; [destruct Hd as [?|[b ?]]; [by left|right; eauto]|].
    destruct r as [[]|e]; [injection Ha as <- _; eauto..|].
    apply bind_inv in Ha as (w2 & x & Hdl & Ha). injection Ha as <- _.
    apply InsertWebhookDLQ_inv in Hdl as [_ [->|(u & msg & _ & ->)]]; eauto.
Qed.
End webhook.

(** ** Effects are never taken back *)

Definition appends {A} (m : ST A) : Prop :=
  ∀ w w' a, m w = (w', a) → ∃ effs, w_effects w' = w_effects w ++ effs.

Lemma appends_silent {A} (m : ST A) : silent m → appends m.
Proof. intros Hm w w' a [He _]%Hm. exists []. by rewrite app_nil_r. Qed.

Lemma appends_ret {A} (a : A) : appends (mret a).
Proof. apply appends_silent, silent_ret. Qed.

Lemma appends_bind {A B} (m : ST A) (k : A → ST B) :
  appends m → (∀ a, appends (k a)) → appends (m ≫= k).
Proof.
  intros Hm Hk w w' b (w1 & a & [e1 E1]%Hm & [e2 E2]%Hk)%bind_inv. exists (e1 ++ e2).
  by rewrite E2, E1, app_assoc.
Qed.

Lemma appends_ebind {E A B} (m : ST (result E A)) (k : A → ST (result E B)) :
  appends m → (∀ a, appends (k a)) → appends (ebind m k).
Proof.
  intros Hm Hk w w' b (w1 & [a|e] & [e1 E1]%Hm & Hr)%ebind_inv.
  - apply Hk in Hr as [e2 E2]. exists (e1 ++ e2). by rewrite E2, E1, app_assoc.
  - destruct Hr as [-> _]. eauto.
Qed.

Lemma appends_emit e : appends (emit e).
Proof. intros w w' a [= <- _]. by exists [e]. Qed.

Lemma appends_time_Now : appends time_Now.
Proof. intros w w' a [= <- _]. exists []. by rewrite app_nil_r. Qed.

Lemma appends_defer {A} (m : ST A) : appends m → appends (defer_rollback m).
Proof.
  intros Hm w w' a. unfold defer_rollback. destruct (m w) as [w1 b] eqn:E. intros [= <- _].
  by apply Hm in E.
Qed.

Create HintDb appends discriminated.
#[export] Hint Resolve appends_ret appends_bind appends_ebind appends_emit appends_time_Now
  appends_defer : appends.
#[export] Hint Extern 1 (appends (pool_sql _)) => apply appends_silent, silent_run_sql : appends.
#[export] Hint Extern 1 (appends (tx_sql _)) => apply appends_silent, silent_run_sql : appends.

Section appends.
Context `{UuidText} `{PostgresOk} `{Jwt} `{Gobreaker} `{Unicode}.

Lemma appends_send_request m u b : appends (send_request m u b).
Proof.
  intros w w' o Hs. destruct (send_request_spec m u b w) as (w1 & E & He & _).
  rewrite E in Hs. injection Hs as <- _. eauto.
Qed.

Lemma appends_Execute {A} b (a0 : A) f : lawful b → appends f → appends (Execute b a0 f).
Proof.
  intros Hb Hf w w' r Hr. destruct (refusal b w) as [e|] eqn:He.
  - destruct (Execute_refused b a0 f w e Hb He) as (w1 & E & Heff & _).
    rewrite E in Hr. injection Hr as <- _. exists []. by rewrite app_nil_r.
  - destruct (Execute_admitted b a0 f w Hb He) as (w1 & (Heff & _) & Hk).
    destruct (f w1) as [w2 r2] eqn:E. pose proof (Hf _ _ _ E) as [effs E2].
    destruct (Hk _ _ eq_refl) as (w3 & E3 & Heff3 & _). rewrite E3 in Hr. injection Hr as <- _.
    exists effs. congruence.
Qed.

Lemma appends_discard_call p m u b : appends (discard_call p m u b).
Proof. apply appends_bind; [apply appends_send_request|]. intros o. apply appends_ret. Qed.

Lemma appends_GetSummary c id : appends (GetSummary c id).
Proof.
  unfold GetSummary. destruct c as [c|]; [|apply appends_ret].
  destruct (String.eqb _ _); [apply appends_ret|].
  apply appends_bind; [|intros r; apply appends_ret]. apply appends_Execute; [apply chamados_lawful|].
  apply appends_bind; [apply appends_send_request|]. intros o. apply appends_ret.
Qed.

Lemma appends_readNotify c id r : appends (readNotify c id r).
Proof.
  unfold readNotify, NotifyRead. destruct c as [c|]; [|apply appends_ret].
  destruct (String.eqb _ _); [apply appends_ret|]. apply appends_bind; [|intros ?; apply appends_ret].
  apply appends_bind; [|intros ?; apply appends_ret].
  apply appends_Execute; [apply chamados_lawful|apply appends_discard_call].
Qed.

Lemma appends_pingOnce m : appends (pingOnce m).
Proof.
  unfold pingOnce. destruct m as [m|]; [|apply appends_ret].
  destruct (String.eqb _ _); [apply appends_ret|].
  apply appends_bind; [apply appends_Execute; [apply mapas_lawful|apply appends_discard_call]|].
  intros r. apply appends_bind; [apply appends_time_Now|]. intros t. apply appends_ret.
Qed.

Lemma appends_db {A} (m : M A) : appends m → appends (db m).
Proof. intros Hm. apply appends_bind; [done|]. intros r. apply appends_ret. Qed.

Lemma appends_HandlePOST s rq : appends (HandlePOST s rq).
Proof.
  intros w w' rsp Hr. destruct (HandlePOST_cases s rq w) as [E|(body & p & E)]; rewrite E in Hr.
  { injection Hr as <- _. exists []. by rewrite app_nil_r. }
  revert Hr. apply (appends_bind (persist s p) (answer rq body)).
  - unfold persist. destruct (ParsedTimestamp p); [|apply appends_ret]. apply appends_defer.
    unfold persist_tx. apply appends_ebind; [apply appends_db, appends_silent, silent_Begin|intros _].
    apply appends_ebind; [apply appends_db|intros [[ins cid] nid]].
    { apply appends_ebind; [apply appends_ebind; [auto with appends|intros _; auto with appends]|].
      intros cid. apply appends_bind; [auto with appends|]. intros [|[]]; apply appends_ret. }
    apply appends_ebind; [|intros _; apply appends_ebind;
      [apply appends_db, appends_silent, silent_Commit|intros _; apply appends_ret]].
    destruct ins; [|apply appends_ret]. apply appends_bind; [apply appends_time_Now|intros now].
    destruct (OutboxPayloadJSON _ _ _); [|apply appends_ret].
    apply appends_db. unfold InsertOutbox. auto with appends.
  - intros [[]|e]; simpl; try apply appends_ret. apply appends_bind; [|intros; apply appends_ret].
    unfold InsertWebhookDLQ. auto with appends.
Qed.
End appends.

(** ** The routes, by kind *)

Section routes.
Context `{UuidText} `{PostgresOk} `{JwtOk} `{Gobreaker} `{Unicode}.

Lemma appends_catch {A B} (m : ST A) (k : A → B) : appends m → appends (a ← m; mret (k a)).
Proof. intros Hm. apply appends_bind; [done|]. intros a. apply appends_ret. Qed.

Lemma appends_schedule ch c r : appends (scheduleChamadosReadNotify ch c r).
Proof.
  unfold scheduleChamadosReadNotify. destruct ch; [|apply appends_ret].
  destruct (String.eqb _ _); [apply appends_ret|apply appends_emit].
Qed.

Lemma appends_notify_unseen ch r l seen : appends (notify_unseen ch r seen l).
Proof.
  revert seen. induction l as [|c l IH]; intros seen; simpl; [apply appends_ret|].
  destruct (String.eqb _ _); [apply IH|]. destruct (bool_decide _); [apply IH|].
  apply appends_bind; [apply appends_schedule|]. intros _. apply IH.
Qed.

Lemma appends_query {A B} (st : sql A) (k : result db_error A → result db_error B) :
  appends (r ← pool_sql st; mret (k r)).
Proof. apply appends_catch, appends_silent, silent_run_sql. Qed.

Lemma silent_appends_repo {A} (m : ST A) : silent m → appends m.
Proof. apply appends_silent. Qed.

Lemma silent_row {A B} (st : sql A) (k : result db_error A → M B) :
  (∀ r, silent (k r)) → silent (pool_sql st ≫= k).
Proof. intros Hk. apply silent_bind; [apply silent_run_sql|done]. Qed.

Lemma silent_ListNotifications cid l o : silent (ListNotificationsByCitizen cid l o).
Proof.
  apply silent_ebind; [apply silent_run_sql|intros t]. apply silent_ebind; [apply silent_run_sql|].
  intros rows. apply silent_ret.
Qed.

Lemma silent_MarkRead cid nid : silent (MarkNotificationRead cid nid).
Proof. apply silent_row. intros [|[]]; apply silent_ret. Qed.

Lemma silent_GetNotification cid nid : silent (GetNotificationByCitizen cid nid).
Proof. apply silent_row. intros [|[]]; apply silent_ret. Qed.

Lemma silent_GetCitizen cid : silent (GetCitizenByID cid).
Proof. apply silent_row. intros [|[]]; apply silent_ret. Qed.

Lemma silent_MarkAll cid : silent (MarkAllNotificationsRead cid).
Proof. apply silent_ebind; [apply silent_run_sql|]. intros l. apply silent_ret. Qed.

Lemma silent_Lookup fp : silent (LookupCitizenID fp).
Proof. apply silent_row. intros [|[]]; apply silent_ret. Qed.

Lemma appends_all_handlers d h ctx rq : h ∈ all_handlers d → appends (h ctx rq).
Proof.
  assert (∀ rsp, appends (mret rsp : ST response)) as Hret by (intros rsp; apply appends_ret).
  unfold all_handlers, read_handlers. simpl. rewrite !elem_of_cons, elem_of_nil.
  intros [->|[->|[->|[->|[->|[->|[->|[->|[->|[->|[]]]]]]]]]]].
  - unfold handleListNotifications. destruct (parsePagination rq) as [[l o]|]; [|apply Hret].
    destruct (CitizenID ctx); [|apply Hret]. apply appends_catch, appends_silent, silent_ListNotifications.
  - unfold handleUnreadCount. destruct (CitizenID ctx); [|apply Hret].
    apply appends_catch, appends_silent, silent_run_sql.
  - unfold handleGetNotification. destruct (CitizenID ctx); [|apply Hret].
    destruct (uuid_Parse _); [|apply Hret]. apply appends_catch, appends_silent, silent_GetNotification.
  - unfold handleCitizenMe. destruct (CitizenID ctx); [|apply Hret].
    apply appends_bind; [apply appends_silent, silent_GetCitizen|].
    intros [[row|]|e]; try apply Hret. apply appends_catch, appends_silent, silent_run_sql.
  - unfold handleChamadosSummary. destruct (dp_Chamados d); [|apply Hret].
    destruct (CitizenID ctx); [|apply Hret]. destruct (String.eqb _ _); [apply Hret|].
    apply appends_bind; [apply appends_silent, silent_CitizenHasNotificationForChamado|].
    intros [[]|e]; try apply Hret. apply appends_catch, appends_GetSummary.
  - unfold handleMapasStatus. destruct (dp_Mapas d) as [m|]; [|apply Hret].
    apply appends_catch. unfold StatusJSON. destruct (String.eqb _ _); [apply appends_ret|].
    intros w w' a [= <- _]. exists []. by rewrite app_nil_r.
  - unfold handleMarkRead. destruct (CitizenID ctx); [|apply Hret].
    destruct (uuid_Parse _); [|apply Hret].
    apply appends_bind; [apply appends_silent, silent_MarkRead|]. intros [[c|]|e]; try apply Hret.
    apply appends_bind; [apply appends_schedule|]. intros _. apply Hret.
  - unfold handleDeleteDevice. destruct (CitizenID ctx); [|apply Hret].
    destruct (String.eqb _ _); [apply Hret|]. apply appends_catch, appends_silent, silent_run_sql.
  - unfold handleMarkAllRead. destruct (CitizenID ctx); [|apply Hret].
    apply appends_bind; [apply appends_silent, silent_MarkAll|]. intros [[c n]|e]; [|apply Hret].
    apply appends_bind; [apply appends_notify_unseen|]. intros _. apply Hret.
  - unfold handleRegisterDevice. destruct (CitizenID ctx); [|apply Hret].
    destruct (ShouldBindJSON _); [|apply Hret]. destruct (_ || _); [apply Hret|].
    apply appends_catch, appends_silent, silent_run_sql.
Qed.

Lemma appends_Resolve cfg raw : appends (ResolveCitizenFromToken cfg raw).
Proof.
  apply appends_bind; [apply appends_time_Now|]. intros t.
  destruct (ParseWithClaims _ _ _) as [claims|]; [|apply appends_ret].
  apply appends_bind; [apply appends_time_Now|]. intros t2.
  destruct (claims_cpf _ _ _); [|apply appends_ret]. apply appends_catch, appends_silent, silent_Lookup.
Qed.

Lemma appends_authenticated auth h rq : (∀ ctx, appends (h ctx rq)) → appends (authenticated auth h rq).
Proof.
  intros Hh. unfold authenticated, Middleware.
  destruct (BearerFromRequest rq); [|apply appends_ret].
  apply appends_bind; [apply appends_Resolve|]. intros [id|[]]; try apply appends_ret.
  unfold TouchLastSeenMiddleware. destruct (CitizenID _); [|apply Hh].
  apply appends_bind; [apply appends_silent, silent_run_sql|]. intros _. apply Hh.
Qed.

(** An endpoint that changes no table. *)
Lemma inert_answers f : (∀ rq, inert (f rq)) → ∀ rq, inert (answers f rq).
Proof. intros Hf rq. apply inert_bind; [apply Hf|]. intros r. apply inert_ret. Qed.

Lemma inert_pool_Ping : inert pool_Ping.
Proof.
  intros w w' a. unfold pool_Ping. destruct (next_fault w) as [w1 f] eqn:E. intros [= <- _].
  apply next_fault_state in E. tauto.
Qed.

Lemma inert_redis_Ping : inert redis_Ping.
Proof. intros w w' a. unfold redis_Ping. destruct (w_redis w); intros [= <- _]; done. Qed.

Lemma appends_pool_Ping : appends pool_Ping.
Proof.
  intros w w' a. unfold pool_Ping. destruct (next_fault w) as [w1 f] eqn:E. intros [= <- _].
  apply silent_next_fault in E as [-> _]. exists []. by rewrite app_nil_r.
Qed.

Lemma appends_redis_Ping : appends redis_Ping.
Proof.
  intros w w' a. unfold redis_Ping. destruct (w_redis w); intros [= <- _]; exists [];
    by rewrite app_nil_r.
Qed.

Lemma readyHandler_quiet deps rq :
  inert (readyHandler deps rq) ∧ appends (readyHandler deps rq).
Proof.
  unfold readyHandler. destruct deps as [d|]; [|split; [apply inert_ret|apply appends_ret]].
  destruct (_ || _); [split; [apply inert_ret|apply appends_ret]|]. split.
  - apply inert_bind; [apply inert_pool_Ping|]. intros [m|]; [apply inert_ret|].
    apply inert_bind; [apply inert_redis_Ping|]. intros [m|]; apply inert_ret.
  - apply appends_bind; [apply appends_pool_Ping|]. intros [m|]; [apply appends_ret|].
    apply appends_bind; [apply appends_redis_Ping|]. intros [m|]; apply appends_ret.
Qed.

Lemma handleWS_quiet deps rq : inert (handleWS deps rq) ∧ appends (handleWS deps rq).
Proof.
  unfold handleWS. destruct deps as [d|]; [|split; [apply inert_ret|apply appends_ret]].
  destruct (negb _); [split; [apply inert_ret|apply appends_ret]|].
  destruct (BearerFromRequest rq); [|split; [apply inert_ret|apply appends_ret]]. split.
  - apply inert_bind; [apply ResolveCitizenFromToken_inert|]. intros [[id|]|[]]; apply inert_ret.
  - apply appends_bind; [apply appends_Resolve|]. intros [[id|]|[]]; apply appends_ret.
Qed.

(** An endpoint that changes no table, one behind the middlewares, or the
    webhook. *)
Lemma route_cases d method pattern e :
  (method, pattern, e) ∈ httpapi_Register (Some d) →
  (∀ rq, inert (e rq) ∧ appends (e rq))
  ∨ (∃ auth h, h ∈ all_handlers d ∧ e = answers (authenticated auth h))
  ∨ ∃ s, e = answers (HandlePOST s).
Proof.
  assert (∀ f rq, inert (answer_pure f rq) ∧ appends (answer_pure f rq)) as Hpure
    by (intros f rq; split; [apply inert_ret|apply appends_ret]).
  unfold httpapi_Register. rewrite !elem_of_app, !elem_of_cons, !elem_of_nil.
  intros [[Hr|[Hr|[Hr|[]]]]|[Hr|[Hr|[]]]]; try (injection Hr as -> -> ->).
  - left. apply Hpure.
  - left. intros rq. destruct (readyHandler_quiet (Some d) rq) as [Hi Ha]. split.
    + apply inert_bind; [done|]. intros r. apply inert_ret.
    + by apply appends_catch.
  - simpl. destruct (dp_Webhook d) as [s|]; [right; right; by exists s|left; apply Hpure].
  - simpl in Hr.
    assert ((method, pattern, e) ∈ stub_routes → ∀ rq, inert (e rq) ∧ appends (e rq)) as Hstub.
    { unfold stub_routes. rewrite !elem_of_cons, elem_of_nil.
      intros Hin; repeat destruct Hin as [Hin|Hin]; try (injection Hin as -> -> ->; apply Hpure); done. }
    destruct (dp_Pool d); [|left; by apply Hstub].
    destruct (dp_AuthJWT d) as [auth|]; [|left; by apply Hstub].
    right. left. unfold citizen_routes in Hr. rewrite !elem_of_cons, elem_of_nil in Hr.
    repeat destruct Hr as [Hr|Hr]; try done; injection Hr as -> -> ->; exists auth; eexists;
      (split; [|reflexivity]); unfold all_handlers, read_handlers; simpl; repeat first [by left|right].
  - left. apply handleWS_quiet.
Qed.

Lemma server_route_cases stubs len d method pattern e :
  (method, pattern, e) ∈ server_routes stubs len d →
  (∀ rq, inert (e rq) ∧ appends (e rq))
  ∨ (∃ auth h, h ∈ all_handlers d ∧ e = answers (authenticated auth h))
  ∨ ∃ s, e = answers (HandlePOST s).
Proof.
  unfold server_routes. rewrite elem_of_app. intros [Hup|Hr]; [left|by apply (route_cases d method pattern)].
  apply list_elem_of_fmap in Hup as ([[m pat] f] & Heq & _). injection Heq as -> -> ->.
  intros rq. split; [apply inert_ret|apply appends_ret].
Qed.
End routes.
