(* ===== verification/SystemProps.v ===== *)
(** * Invariants of the running system *)

From S2P Require Import Prelude GoStrings GoTime Json Uuid Identity World Repo RepoFacts RepoSound.
From S2P Require Import CitizenFacts Payload Http WebhookService WebhookFacts Integrations.
From S2P Require Import IntegrationsProps Auth HttpApi HttpFacts AuthProps WsBus Notify NotifyFacts Server.
From S2P Require Import System.

(** ** How each invariant survives each kind of step *)

Section outbox.
Context `{UuidText} `{PostgresOk}.

(** Only the statuses of outbox rows change. *)
Definition same_links (d d' : database) : Prop :=
  notifications d' = notifications d
  ∧ ∀ id, (λ o, (ob_notification_id o, ob_citizen_id o)) <$> event_outbox d' !! id
          = (λ o, (ob_notification_id o, ob_citizen_id o)) <$> event_outbox d !! id.

Lemma same_links_complete d d' : same_links d d' → outbox_complete d → outbox_complete d'.
Proof.
  intros [Hn Hl] Hc nid n Hnid. rewrite Hn in Hnid.
  destruct (Hc nid n Hnid) as (oid & o & Ho & Hon & Hoc & Huniq).
  pose proof (Hl oid) as He. rewrite Ho in He. simpl in He.
  apply fmap_Some in He as (o' & Ho' & He). injection He as He1 He2.
  exists oid, o'. split; [done|]. split; [congruence|]. split; [congruence|].
  intros oid2 o2 Ho2 Hon2. pose proof (Hl oid2) as He. rewrite Ho2 in He. simpl in He.
  symmetry in He. apply fmap_Some in He as (o3 & Ho3 & He). injection He as He3 He4.
  eapply Huniq; [exact Ho3|congruence].
Qed.

Lemma batch_same_links wk pgnow rows effs d d' jobs :
  batch_run wk pgnow rows effs d d' jobs → NoDup (or_ID <$> rows) → same_links d d'.
Proof.
  intros Hb Hnd. apply batch_run_effect in Hb as (Hother & Hrow & Htab); [|done]. split.
  - by rewrite Htab.
  - intros id. destruct (decide (id ∈ or_ID <$> rows)) as [Hin|Hni]; [|by rewrite Hother].
    destruct (Hrow id Hin) as (o & o' & -> & _ & -> & Hs). by destruct Hs as [-> _|msg t _ ->].
Qed.

(** A new event brings its notification and outbox row together. *)
Lemma recorded_complete s p now d d1 b :
  wf d → recorded s p now d d1 b → outbox_complete d → outbox_complete d1.
Proof.
  intros Hwf Hrec Hc. inversion Hrec as
    [ts d2 cid nid oid created payload text Hts Htx Hens Hk Hfn Hfo Hp Hj|d2 cid Hens Hk]; subst.
  - pose proof (ensured_tables _ _ _ _ _ _ Hens) as (Hn2 & Ho2 & _).
    intros i n. simpl. rewrite lookup_insert_Some. intros [[<- <-]|[Hne Hi]].
    + exists oid, (pending_row now cid nid text). rewrite lookup_insert_eq.
      split; [done|]. split; [done|]. split; [done|].
      intros o' x. rewrite lookup_insert_Some. intros [[<- _]|[_ Ho']]; [done|].
      intros Hx. destruct (wf_outbox_notification d Hwf o' x Ho') as [n' Hn']. congruence.
    + destruct (Hc i n Hi) as (o1 & x1 & Hx1 & Hxn & Hxc & Huniq). exists o1, x1.
      rewrite lookup_insert_ne by congruence. split; [done|]. split; [done|]. split; [done|].
      intros o' x. rewrite lookup_insert_Some. intros [[<- <-]|[_ Ho']]; [|by apply Huniq].
      simpl. congruence.
  - pose proof (ensured_tables _ _ _ _ _ _ Hens) as (Hn2 & Ho2 & _).
    apply (calm_outbox_complete d); [|done]. split; [done|]. intros i. by rewrite Hn2.
Qed.

(** Outbox rows of the tables after a request: the old ones and pending ones
    never tried. *)
Lemma recorded_rows s p now d d1 b id o :
  recorded s p now d d1 b → event_outbox d1 !! id = Some o →
  event_outbox d !! id = Some o ∨ ob_status o = pending ∧ ob_attempts o = 0.
Proof.
  intros Hrec Ho. inversion Hrec as
    [ts d2 cid nid oid created payload text Hts Htx Hens Hk Hfn Hfo Hp Hj|d2 cid Hens Hk]; subst.
  - simpl in Ho. apply lookup_insert_Some in Ho as [[_ <-]|[_ Ho]]; [by right|by left].
  - left. by rewrite <-(proj1 (proj2 (ensured_tables _ _ _ _ _ _ Hens))).
Qed.
End outbox.

(** ** The invariant of the tables, and its steps *)

Section tables.
Context `{UuidText} `{PostgresOk}.
Variable max : Z.
Hypothesis max_positive : 1 ≤ max.

(** [effs]: the effects so far. *)
Record tables_inv (effs : list effect) (d : database) : Prop := {
  ti_wf : wf d;
  ti_complete : outbox_complete d;
  ti_published : sent_published d effs;
  ti_attempts : attempts_bounded max d
}.

Lemma tables_inv_empty : tables_inv [] empty_database.
Proof. split; [apply wf_empty|..]; intros id o; simpl; by rewrite lookup_empty. Qed.

Lemma tables_inv_effects effs effs' d :
  (∀ e, e ∈ effs → e ∈ effs') → tables_inv effs d → tables_inv effs' d.
Proof. intros He [Hwf Hc Hp Ha]. split; [done|done| |done]. intros id o Ho Hs. by eapply He, Hp. Qed.

(** Rows that were there, or have never been tried. *)
Lemma tables_inv_rows effs d d' :
  tables_inv effs d → wf d' → outbox_complete d' →
  (∀ id o, event_outbox d' !! id = Some o →
     event_outbox d !! id = Some o ∨ ob_status o = pending ∧ ob_attempts o = 0) →
  tables_inv effs d'.
Proof.
  intros [Hwf Hc Hp Ha] Hwf' Hc' Hrows. split; [done|done|..].
  - intros id o [Ho|[Hpend _]]%Hrows Hs; [by eapply Hp|congruence].
  - intros id o [Ho|[Hpend Hz]]%Hrows; [by eapply Ha|]. rewrite Hz, Hpend.
    split; [lia|]. split; [lia|done].
Qed.

Lemma calm_tables_inv effs d d' : calm d d' → wf d' → tables_inv effs d → tables_inv effs d'.
Proof.
  intros Hcalm Hwf' [Hwf Hc Hp Ha]. pose proof Hcalm as [Hout _].
  split; [done|by eapply calm_outbox_complete|..].
  - intros id o. rewrite Hout. by apply Hp.
  - intros id o. rewrite Hout. by apply Ha.
Qed.

Lemma recorded_tables_inv effs s p now d d' b :
  recorded s p now d d' b → wf d' → tables_inv effs d → tables_inv effs d'.
Proof.
  intros Hrec Hwf' Hi. eapply tables_inv_rows; [done|done| |].
  - eapply recorded_complete; [apply Hi|done|apply Hi].
  - intros id o. by eapply recorded_rows.
Qed.

Lemma batch_tables_inv wk now rows effs effs' d d' jobs :
  wk_MaxAttempts wk = max → batch_run wk now rows effs' d d' jobs → NoDup (or_ID <$> rows) →
  (∀ e, e ∈ effs' → e ∈ effs) → wf d' → tables_inv effs d → tables_inv effs d'.
Proof.
  intros Hmax Hb Hnd Hsub Hwf' [Hwf Hc Hp Ha].
  pose proof (batch_same_links _ _ _ _ _ _ _ Hb Hnd) as Hl.
  apply batch_run_effect in Hb as (Hother & Hrow & _); [|done].
  split; [done|by eapply same_links_complete|..].
  - intros id o Ho Hsent. destruct (decide (id ∈ or_ID <$> rows)) as [Hin|Hni].
    + destruct (Hrow id Hin) as (o0 & o1 & _ & _ & Ho1 & Hset). rewrite Ho in Ho1. simplify_eq.
      destruct Hset as [-> Hpub|msg t _ ->]; [by apply Hsub|]. simpl in Hsent. by destruct (_ <=? _).
    + rewrite Hother in Ho by done. by eapply Hp.
  - intros id o Ho. destruct (decide (id ∈ or_ID <$> rows)) as [Hin|Hni].
    + destruct (Hrow id Hin) as (o0 & o1 & Ho0 & Hpend & Ho1 & Hset). rewrite Ho in Ho1.
      simplify_eq. destruct (Ha id o0 Ho0) as (Hb & Hlt & _). specialize (Hlt Hpend).
      destruct Hset as [-> _|msg t Hfit ->]; simpl; [split; [done|by split]|].
      destruct (Z.leb_spec (wk_MaxAttempts wk) (ob_attempts o0 + 1)); simpl;
        (split; [lia|]); split; try done; lia.
    + rewrite Hother in Ho by done. by eapply Ha.
Qed.
End tables.

Section invariant.
Context `{UuidText} `{PostgresOk} `{JwtOk} `{Gobreaker} `{Unicode}.
Variables (deps : Deps) (wk : Worker).
Hypothesis max_positive : 1 ≤ wk_MaxAttempts wk.

Record sys_inv (w : world) : Prop := {
  si_tx : w_tx w = None;
  si_tables : tables_inv (wk_MaxAttempts wk) (w_effects w) (w_db w)
}.

(** Effects are only added. *)
Lemma tables_inv_app max effs effs' d : tables_inv max effs d → tables_inv max (effs ++ effs') d.
Proof. apply tables_inv_effects. intros e He. apply elem_of_app. by left. Qed.

Lemma inv_calm w w' effs :
  sys_inv w → w_tx w' = None → wf (w_db w') → calm (w_db w) (w_db w') →
  w_effects w' = w_effects w ++ effs → sys_inv w'.
Proof.
  intros [Htx Hi] Htx' Hwf' Hcalm He. split; [done|]. rewrite He.
  by eapply calm_tables_inv, tables_inv_app.
Qed.

(** Tables as before, or as specified for an event. *)
Lemma inv_webhook s p w w' effs d1 :
  sys_inv w → w_tx w' = None → wf (w_db w') →
  (d1 = w_db w ∨ ∃ b, recorded s p (w_pgnow w) (w_db w) d1 b) →
  (∃ m, w_db w' = set_dlq m d1) → w_effects w' = w_effects w ++ effs → sys_inv w'.
Proof.
  intros [Htx Hi] Htx' Hwf' Hd [m Hm] He. split; [done|]. rewrite He. apply tables_inv_app.
  assert (event_outbox (w_db w') = event_outbox d1 ∧ notifications (w_db w') = notifications d1)
    as [Hout Hnot] by (by rewrite Hm).
  eapply tables_inv_rows; [done|exact Hi|done| |].
  - apply (calm_outbox_complete d1); [split; [done|]; intros i; by rewrite Hnot|].
    destruct Hd as [->|[b Hrec]]; [apply Hi|]. eapply recorded_complete; [apply Hi|done|apply Hi].
  - rewrite Hout. intros id o Ho. destruct Hd as [->|[b Hrec]]; [by left|]. by eapply recorded_rows.
Qed.

Lemma inv_batch w w' r : sys_inv w → processBatch wk w = (w', r) → sys_inv w'.
Proof.
  intros Hinv Hr. pose proof Hinv as [Htx Hi].
  pose proof (processBatch_sound wk w w' r Htx Hr) as [Htx' Hs]. destruct (Hs (ti_wf _ _ _ Hi)) as [Hwf' _].
  apply processBatch_refines in Hr as (_ & effs & reqs & He & _ & _ & Hr); [|done].
  assert (w_db w' = w_db w ∨ ∃ jobs, batch_run wk (w_pgnow w) (batch_rows wk w) effs
            (w_db w) (w_db w') jobs) as [Hd|[jobs Hb]].
  { destruct r; [by right|]. tauto. }
  - eapply inv_calm; [done|done|done|by rewrite Hd|exact He].
  - split; [done|]. rewrite He. eapply batch_tables_inv;
      [done|done|exact Hb|apply batch_rows_NoDup| |done|by apply tables_inv_app].
    intros e Hin. set_solver.
Qed.
End invariant.

Section reachable.
Context `{UuidText} `{PostgresOk} `{JwtOk} `{Gobreaker} `{Unicode} `{Gin}.
Variables (stubs : bool) (deps : Deps) (wk : Worker).
Hypothesis Hmax : 1 ≤ wk_MaxAttempts wk.

Lemma inv_request w w' method pattern e len d rq rep :
  sys_inv wk w → (method, pattern, e) ∈ server_routes stubs len d →
  e rq w = (w', rep) → sys_inv wk w'.
Proof.
  intros Hinv Hin Hr. pose proof Hinv as [Htx [Hwf _ _ _]].
  apply server_route_cases in Hin as [Hq|[(auth & h & Hh & ->)|[s ->]]].
  - destruct (Hq rq) as [Hi Ha]. destruct (Hi _ _ _ Hr) as [Hd Ht]. destruct (Ha _ _ _ Hr) as [effs He].
    eapply inv_calm; [done|congruence|by rewrite Hd|by rewrite Hd|exact He].
  - apply bind_inv in Hr as (w1 & r & Hr & Hret). injection Hret as <- _.
    assert (∀ ctx, appends (h ctx rq)) as Hap by (intros ctx; by eapply appends_all_handlers).
    destruct (appends_authenticated auth h rq Hap _ _ _ Hr) as [effs He].
    assert (pool_op sound (authenticated auth h rq)) as Hs.
    { apply authenticated_respects; [apply _| |apply TouchCitizenLastSeen_sound]. intros ctx.
      eapply all_handlers_respect; [apply _|done|apply MarkNotificationRead_sound|
        apply MarkAllNotificationsRead_sound|apply UpsertPushDevice_sound|apply DeletePushDevice_sound]. }
    assert (pool_op calm (authenticated auth h rq)) as Hc.
    { apply authenticated_respects; [apply _| |intros cid; apply pool_op_sql, touch_last_seen_calm; apply _].
      intros ctx. eapply all_handlers_respect; [apply _|done| | |intros cid p t|intros cid t];
        [..|apply pool_op_sql, upsert_device_calm; apply _|apply pool_op_sql, delete_device_calm; apply _].
      - intros cid nid. apply pool_op_then; [apply _| |intros [|[]]; apply inert_ret].
        apply pool_op_sql; [apply _|apply mark_read_calm].
      - intros cid. apply pool_op_ebind; [apply _| |].
        + apply pool_op_sql; [apply _|apply mark_all_read_calm].
        + intros l. apply inert_pool_op, inert_ret. apply _. }
    destruct (Hs _ _ _ Htx Hr) as [Htx' Hsd]. destruct (Hc _ _ _ Htx Hr) as [_ Hcalm].
    destruct (Hsd Hwf) as [Hwf' _]. by eapply inv_calm.
  - apply bind_inv in Hr as (w1 & r & Hr & Hret). injection Hret as <- _.
    destruct (HandlePOST_sound s rq _ _ _ Htx Hr) as [Htx' Hsd]. destruct (Hsd Hwf) as [Hwf' _].
    destruct (appends_HandlePOST s rq _ _ _ Hr) as [effs He].
    apply HandlePOST_change in Hr as (d1 & Hd & Hm); [|done].
    destruct Hd as [->|(p & b & Hrec)].
    + eapply (inv_webhook wk Hmax s empty_payload w w1 effs (w_db w)); eauto.
    + eapply (inv_webhook wk Hmax s p w w1 effs d1); eauto.
Qed.

(** A request goes to one of the routes, or is answered by the router. *)
Lemma router_serve_cases routes method path rq w w' rep :
  router_serve routes method path rq w = (w', rep) →
  (∃ m pattern e rq', (m, pattern, e) ∈ routes ∧ e rq' w = (w', rep)) ∨ w' = w.
Proof.
  unfold router_serve. destruct (gin_route _ _ _) as [i params|r|]; [|by intros [= <- _]; right..].
  destruct (routes !! i) as [[[m pattern] e]|] eqn:Hi; [|intros [= <- _]; by right].
  intros Hr. left. exists m, pattern, e, (with_params params rq).
  split; [by eapply list_elem_of_lookup_2|done].
Qed.

Lemma inv_step w w' : sys_inv wk w → sys_step stubs deps wk w w' → sys_inv wk w'.
Proof.
  intros Hinv Hs. pose proof Hinv as [Htx [Hwf _ _ _]].
  assert (∀ A (m : ST A), inert m → appends m → ∀ r, m w = (w', r) → sys_inv wk w') as Hinert.
  { intros A m Hi Ha r Hr. destruct (Hi _ _ _ Hr) as [Hd Ht]. destruct (Ha _ _ _ Hr) as [effs He].
    eapply inv_calm; [done|congruence|by rewrite Hd|by rewrite Hd|exact He]. }
  destruct Hs as [method path len m rq w w' rep Hr|w w' r Hr|c ref w w' r Hr|m w w' r Hr|w w' Henv].
  - apply router_serve_cases in Hr as [(m' & p & e & rq' & Hin & Hr)| ->]; [by eapply inv_request|done].
  - by eapply inv_batch.
  - eapply Hinert; [|apply appends_readNotify|exact Hr].
    apply inert_bind; [apply NotifyRead_inert|]. intros x. apply inert_ret.
  - eapply Hinert; [|apply appends_pingOnce|exact Hr]. unfold pingOnce.
    destruct m as [m|]; [|apply inert_ret]. destruct (String.eqb _ _); [apply inert_ret|].
    apply inert_bind; [apply inert_Execute; [apply mapas_lawful|apply inert_discard_call]|].
    intros x. apply inert_bind; [apply inert_time_Now|]. intros t. apply inert_ret.
  - destruct Henv as (Hd & Ht & He). eapply (inv_calm wk w w' []);
      [done|congruence|by rewrite Hd|by rewrite Hd|by rewrite app_nil_r].
Qed.

(** C1: nothing is lost, nothing is invented.  Whatever requests arrive,
    whatever fails, however batches and acknowledgements interleave with
    them: the tables stay well formed (unique fingerprints and keys, no
    dangling reference), every notification has exactly one outbox row, of
    its own citizen, every row marked sent was published on that citizen's
    channel, and a row is given up exactly at the maximum of attempts. *)
Theorem system_invariant w
  (Hreach : sys_reachable stubs deps wk w) :
  wf (w_db w) ∧ outbox_complete (w_db w) ∧ sent_published (w_db w) (w_effects w)
  ∧ attempts_bounded (wk_MaxAttempts wk) (w_db w).
Proof.
  cut (sys_inv wk w); [by intros [_ []]|]. unfold sys_reachable in Hreach.
  apply (rtc_ind_r (R := sys_step stubs deps wk) (λ w, sys_inv wk w)
           (init_world empty_database)); [| |done].
  - split; [done|]. apply tables_inv_empty.
  - intros x y _ Hs Hx. by eapply inv_step.
Qed.
End reachable.
