(* ===== verification/Shared.v ===== *)
(** * The servers on one database, statement by statement

    Deliveries interleaves the transactions of webhooks and Replicas those of
    workers, each against an environment.  Here both run on the same tables,
    with the single statements of the citizens' requests and the dead letters
    between them: the environment of each is what the others do. *)

From S2P Require Import Prelude GoStrings GoTime Json Uuid Identity World Repo RepoFacts RepoSound.
From S2P Require Import CitizenFacts Payload Http WebhookService WebhookFacts Integrations.
From S2P Require Import WsBus Notify NotifyFacts System SystemProps.
From S2P Require Import Replicas Deliveries.

(** ** State *)

Record shared := Shared {
  sh_db : database;                    (** committed *)
  sh_deliveries : gmap nat delivery;   (** open transactions of webhooks *)
  sh_batches : gmap nat batch;         (** open transactions of workers *)
  sh_effects : list effect;
  sh_answers : list (string * bool)
}.

(** What the webhooks see, and what the workers see. *)
Definition intake_of (s : shared) : intake := Intake (sh_db s) (sh_deliveries s) (sh_answers s).
Definition cluster_of (s : shared) : cluster := Cluster (sh_db s) (sh_batches s) (sh_effects s).

Definition with_intake (t : intake) (s : shared) : shared :=
  Shared (in_db t) (in_open t) (sh_batches s) (sh_effects s) (in_answers t).
Definition with_cluster (t : cluster) (s : shared) : shared :=
  Shared (cl_db t) (sh_deliveries s) (cl_open t) (cl_effects t) (sh_answers s).
Definition with_db (d : database) (s : shared) : shared :=
  Shared d (sh_deliveries s) (sh_batches s) (sh_effects s) (sh_answers s).

Definition empty_shared : shared := Shared empty_database ∅ ∅ [] [].

(** ** Steps *)

Section steps.
Context `{UuidText} `{Postgres}.
Variables (svc : Service) (wks : nat → Worker).

(** The statements that commit on their own: the citizens' writes, and the
    dead letter of a delivery that failed. *)
Inductive statement (cx : sql_context) (d : database) : database → Prop :=
| st_touch cid a d' : touch_last_seen cid cx d = Ok (a, d') → statement cx d d'
| st_read cid nid a d' : mark_read cid nid cx d = Ok (a, d') → statement cx d d'
| st_read_all cid a d' : mark_all_read cid cx d = Ok (a, d') → statement cx d d'
| st_upsert cid platform token a d' :
    upsert_device cid platform token cx d = Ok (a, d') → statement cx d d'
| st_delete cid token a d' : delete_device cid token cx d = Ok (a, d') → statement cx d d'
| st_dead_letter body sig code msg a d' :
    insert_dead_letter body sig code msg cx d = Ok (a, d') → statement cx d d'.

Inductive shared_step (s : shared) : shared → Prop :=
| sh_delivery t : delivery_step svc (intake_of s) t → shared_step s (with_intake t s)
| sh_worker t : worker_step wks (cluster_of s) t → shared_step s (with_cluster t s)
| sh_statement cx d : statement cx (sh_db s) d → shared_step s (with_db d s).

(** ** The serial view: whole deliveries, whole batches, single statements *)

Inductive serial_step (published : list effect) (d d' : database) : Prop :=
| serial_delivery p now inserted : recorded svc p now d d' inserted → serial_step published d d'
| serial_batch : atomic_batch wks published d d' → serial_step published d d'
| serial_statement cx : statement cx d d' → serial_step published d d'.
End steps.

(** ** Each part is part of the others' environment *)

Section environment.
Context `{UuidText} `{PostgresOk}.
Variables (svc : Service) (wks : nat → Worker).

#[export] Instance no_insert_pre : PreOrder no_insert.
Proof.
  split; [done|]. intros d1 d2 d3 (Hs & Hc & Hn & Ho) (Hs' & Hc' & Hn' & Ho').
  split_and!; [by etrans|congruence..].
Qed.

(** A statement is sound, leaves the outbox and the ownership alone, and
    inserts into none of the three tables. *)
Lemma statement_facts cx d d' : statement cx d d' → sound d d' ∧ calm d d' ∧ no_insert d d'.
Proof.
  intros Hst. assert (sound d d' ∧ calm d d') as [Hs Hc].
  { destruct Hst as [? ? ? E|? ? ? ? E|? ? ? E|? ? ? ? ? E|? ? ? ? E|? ? ? ? ? ? E]; split.
    all: first [by eapply touch_last_seen_sound in E|by eapply touch_last_seen_calm in E
      |by eapply mark_read_sound in E|by eapply mark_read_calm in E
      |by eapply mark_all_read_sound in E|by eapply mark_all_read_calm in E
      |by eapply upsert_device_sound in E|by eapply upsert_device_calm in E
      |by eapply delete_device_sound in E|by eapply delete_device_calm in E
      |by eapply insert_dead_letter_sound in E|by eapply insert_dead_letter_calm in E]. }
  split; [done|]. split; [done|]. pose proof Hc as [Ho Hn]. split; [done|]. split_and!.
  - clear Hs Hc Ho Hn. destruct Hst as [? ? ? E|? ? ? ? E|? ? ? E|? ? ? ? ? E|? ? ? ? E|? ? ? ? ? ? E];
      unfold touch_last_seen, mark_read, mark_all_read, upsert_device, delete_device,
        insert_dead_letter, bad_text, unique_violation, foreign_key_violation in E;
      repeat case_match; simplify_eq; simpl; try done. apply dom_alter_L.
  - apply set_eq. intros i. rewrite !elem_of_dom, <-!(fmap_is_Some nt_citizen_id). by rewrite Hn.
  - by rewrite Ho.
Qed.

(** A batch settles rows, and adds none. *)
Lemma atomic_batch_no_insert effs d d' : atomic_batch wks effs d d' → no_insert d d'.
Proof.
  intros (i & now & rows & effs' & jobs & Hb & Hnd & _).
  assert (NoDup (or_ID <$> (outbox_row <$> rows))) as Hnd' by by rewrite <-list_fmap_compose.
  split; [by eapply batch_run_sound|].
  destruct (batch_same_links _ _ _ _ _ _ _ Hb Hnd') as [Hn Hl].
  apply batch_run_effect in Hb as (_ & _ & Htab); [|done].
  split; [by rewrite Htab|]. split; [by rewrite Hn|].
  apply set_eq. intros id.
  rewrite !elem_of_dom, <-!(fmap_is_Some (λ o, (ob_notification_id o, ob_citizen_id o))).
  by rewrite Hl.
Qed.

(** A delivery adds outbox rows, and changes none. *)
Lemma recorded_bystander p now d d' b : recorded svc p now d d' b → bystander d d'.
Proof.
  intros Hrec. split; [by eapply recorded_sound|]. intros id o Ho.
  destruct Hrec as [srcTS d1 cid nid oid created payload text _ _ Hens _ _ Hfree _ _|d1 cid Hens _];
    destruct (ensured_tables _ _ _ _ _ _ Hens) as (_ & Hout & _).
  - simpl. rewrite lookup_insert_ne; [done|]. congruence.
  - by rewrite Hout.
Qed.

Lemma statement_bystander cx d d' : statement cx d d' → bystander d d'.
Proof. intros (Hs & [Ho _] & _)%statement_facts. split; [done|]. by rewrite Ho. Qed.

(** ** Projections *)

Record shared_ok (s : shared) : Prop := {
  so_intake : intake_ok svc (intake_of s);
  so_cluster : cluster_ok wks (cluster_of s)
}.

(** A step of the whole is for the webhooks one of theirs or somebody
    else's ... *)
Lemma shared_step_intake s s' :
  shared_ok s → shared_step svc wks s s' → intake_step svc (intake_of s) (intake_of s').
Proof.
  intros [_ Hcl] [t Ht|t Ht|cx d Hst].
  - apply in_delivery. by destruct t.
  - apply (in_bystander svc (intake_of s)). simpl.
    destruct (worker_step_atomic wks _ _ Ht Hcl) as [->|Hb]; [done|by eapply atomic_batch_no_insert].
  - apply (in_bystander svc (intake_of s)). by apply statement_facts in Hst as (_ & _ & ?).
Qed.

(** ... and the same for the workers. *)
Lemma shared_step_cluster s s' :
  shared_ok s → shared_step svc wks s s' → cluster_step wks (cluster_of s) (cluster_of s').
Proof.
  intros [Hin _] [t Ht|t Ht|cx d Hst].
  - apply (step_bystander wks (cluster_of s)). simpl.
    destruct (delivery_step_atomic svc _ _ Ht Hin) as [->|(p & now & b & Hr)];
      [by split|by eapply recorded_bystander].
  - apply step_worker. by destruct t.
  - apply (step_bystander wks (cluster_of s)). by eapply statement_bystander.
Qed.

Lemma shared_step_ok s s' : shared_ok s → shared_step svc wks s s' → shared_ok s'.
Proof.
  intros Hok Hstep. split.
  - eapply intake_step_ok; [by eapply shared_step_intake|apply Hok].
  - eapply cluster_step_ok; [by eapply shared_step_cluster|apply Hok].
Qed.

(** The committed tables move as one whole operation moves them, or not. *)
Lemma shared_step_serial s s' :
  shared_ok s → shared_step svc wks s s' →
  sh_db s' = sh_db s ∨ serial_step svc wks (sh_effects s') (sh_db s) (sh_db s').
Proof.
  intros [Hin Hcl] [t Ht|t Ht|cx d Hst].
  - destruct (delivery_step_atomic svc _ _ Ht Hin) as [?|(p & now & b & Hr)]; [by left|right].
    by eapply serial_delivery.
  - destruct (worker_step_atomic wks _ _ Ht Hcl) as [?|Hb]; [by left|right]. by apply serial_batch.
  - right. by eapply serial_statement.
Qed.

Lemma shared_step_effects s s' e :
  shared_step svc wks s s' → e ∈ sh_effects s → e ∈ sh_effects s'.
Proof.
  intros [t Ht|t Ht|cx d Hst] He; [done| |done].
  by apply (cluster_step_effects wks _ _ e (step_worker wks _ _ Ht)).
Qed.

Lemma serial_step_mono effs effs' d d' :
  (∀ e, e ∈ effs → e ∈ effs') → serial_step svc wks effs d d' → serial_step svc wks effs' d d'.
Proof.
  intros Hsub [p now b Hr|(i & now & rows & effs0 & jobs & Hb & Hnd & He)|cx Hst];
    [by eapply serial_delivery| |by eapply serial_statement].
  apply serial_batch. exists i, now, rows, effs0, jobs. split_and!; [done|done|auto].
Qed.

(** ** The invariant of the tables *)

Lemma serial_tables_inv max effs d d' :
  1 ≤ max → (∀ i, wk_MaxAttempts (wks i) = max) →
  serial_step svc wks effs d d' → tables_inv max effs d → tables_inv max effs d'.
Proof.
  intros Hpos Hmax Hs Hi. pose proof (ti_wf _ _ _ Hi) as Hwf.
  destruct Hs as [p now b Hr|Hb|cx Hst].
  - pose proof (recorded_sound svc _ _ _ _ _ Hr Hwf) as [Hwf' _].
    by eapply recorded_tables_inv.
  - pose proof (atomic_batch_no_insert _ _ _ Hb) as [Hs _].
    destruct Hb as (i & now & rows & effs' & jobs & Hb & Hnd & He).
    eapply batch_tables_inv; [done|apply (Hmax i)|exact Hb| |done|by apply Hs|done].
    by rewrite <-list_fmap_compose.
  - apply statement_facts in Hst as (Hs & Hc & _). eapply calm_tables_inv; [done|by apply Hs|done].
Qed.
End environment.

(** ** Theorems *)

Section theorems.
Context `{UuidText} `{PostgresOk} `{Gobreaker} `{Unicode}.
Variables (svc : Service) (wks : nat → Worker) (max : Z).

(** A transaction run in the whole, the rest standing still. *)
Lemma delivery_steps_shared s t :
  rtc (delivery_step svc) (intake_of s) t → rtc (shared_step svc wks) s (with_intake t s).
Proof.
  intros Hrun. set (u := intake_of s) in Hrun.
  replace s with (with_intake u s) at 1 by by destruct s. clearbody u.
  induction Hrun as [u|u v t Huv _ IH]; [done|]. eapply rtc_l; [|exact IH].
  apply (sh_delivery svc wks (with_intake u s)). by destruct u.
Qed.

Lemma worker_steps_shared s t :
  rtc (worker_step wks) (cluster_of s) t → rtc (shared_step svc wks) s (with_cluster t s).
Proof.
  intros Hrun. set (u := cluster_of s) in Hrun.
  replace s with (with_cluster u s) at 1 by by destruct s. clearbody u.
  induction Hrun as [u|u v t Huv _ IH]; [done|]. eapply rtc_l; [|exact IH].
  apply (sh_worker svc wks (with_cluster u s)). by destruct u.
Qed.

Lemma empty_shared_ok : shared_ok svc wks empty_shared.
Proof.
  split; split; simpl; try (intros *; by rewrite lookup_empty).
  - apply wf_empty.
  - by intros k x ?%elem_of_nil.
  - constructor.
Qed.

Hypothesis max_positive : 1 ≤ max.
Hypothesis max_everywhere : ∀ i, wk_MaxAttempts (wks i) = max.

Lemma shared_reachable s :
  rtc (shared_step svc wks) empty_shared s →
  shared_ok svc wks s ∧ tables_inv max (sh_effects s) (sh_db s)
  ∧ rtc (serial_step svc wks (sh_effects s)) empty_database (sh_db s).
Proof.
  revert s. apply rtc_ind_r.
  { split; [apply empty_shared_ok|]. split; [apply tables_inv_empty|done]. }
  intros s1 s2 _ Hstep (Hok & Hi & Hser). split; [by eapply shared_step_ok|].
  pose proof (λ e, shared_step_effects svc wks s1 s2 e Hstep) as Heff.
  assert (rtc (serial_step svc wks (sh_effects s2)) empty_database (sh_db s1)) as Hser'.
  { eapply rtc_subrel; [|exact Hser]. intros d d'. by apply serial_step_mono. }
  apply (tables_inv_effects _ _ _ _ Heff) in Hi.
  destruct (shared_step_serial svc wks s1 s2 Hok Hstep) as [->|Hs]; [done|].
  split; [by eapply serial_tables_inv|by eapply rtc_r].
Qed.

(** C2: the servers together.  However the statements of any number of
    deliveries, workers' batches and citizens' requests interleave, each
    transaction committing or rolling back whenever it likes: the committed
    tables go through states that whole deliveries, whole batches and single
    statements, one after another, lead through; they are well formed, every
    notification has its one outbox row, attempts are bounded; no two batches
    hold a row; of all deliveries of an event at most one is answered as new;
    and each answered event is in the tables with its outbox row, which is
    [sent] only if it was published.  The transactions of [persist] and
    [processBatch], when they succeed, are runs of this system. *)
Theorem interleaved_servers :
  (∀ s, rtc (shared_step svc wks) empty_shared s →
     rtc (serial_step svc wks (sh_effects s)) empty_database (sh_db s)
     ∧ wf (sh_db s) ∧ outbox_complete (sh_db s) ∧ attempts_bounded max (sh_db s)
     ∧ (∀ i j b b', i ≠ j → sh_batches s !! i = Some b → sh_batches s !! j = Some b' →
          bt_locks b ## bt_locks b')
     ∧ NoDup (inserted_keys (sh_answers s))
     ∧ ∀ k x, (k, x) ∈ sh_answers s → ∃ nid n oid o,
         notifications (sh_db s) !! nid = Some n ∧ nt_idempotency_key n = Some k
         ∧ event_outbox (sh_db s) !! oid = Some o ∧ ob_notification_id o = nid
         ∧ (ob_status o = sent → publication o ∈ sh_effects s))
  ∧ (∀ p w w' b, w_tx w = None → persist svc p w = (w', Ok b) →
       rtc (shared_step svc wks) (Shared (w_db w) ∅ ∅ (w_effects w) [])
         (Shared (w_db w') ∅ ∅ (w_effects w) [(IdempotencyKey p, b)]))
  ∧ (∀ i w w', w_tx w = None → w_locked w = ∅ → processBatch (wks i) w = (w', Ok tt) →
       ∃ effs reqs, w_effects w' = w_effects w ++ effs ++ reqs ∧ only_requests reqs
         ∧ rtc (shared_step svc wks) (Shared (w_db w) ∅ ∅ (w_effects w) [])
             (Shared (w_db w') ∅ ∅ (w_effects w ++ effs) [])).
Proof.
  split; [|split].
  - intros s (Hok & [Hwf Hc Hp Ha] & Hser)%shared_reachable.
    split; [done|]. split; [done|]. split; [done|]. split; [done|].
    split; [apply (co_disjoint wks _ (so_cluster svc wks s Hok))|].
    split; [apply (io_once svc _ (so_intake svc wks s Hok))|].
    intros k x Hk. apply (io_known svc _ (so_intake svc wks s Hok)) in Hk.
    apply has_key_true in Hk as (nid & n & Hn & Hkey).
    destruct (Hc nid n Hn) as (oid & o & Ho & Hon & _). exists nid, n, oid, o.
    do 4 (split; [done|]). exact (Hp oid o Ho).
  - intros p w w' b Hw Hrun. apply persist_refines in Hrun as [_ Hrec]; [|done].
    set (s := Shared (w_db w) ∅ ∅ (w_effects w) []).
    exact (delivery_steps_shared s _ (recorded_steps svc p (w_pgnow w) _ _ b Hrec)).
  - intros i w w' Hw Hl (effs & reqs & He & Hreq & Hrun)%(processBatch_steps wks); [|done|done].
    exists effs, reqs. split; [done|]. split; [done|].
    exact (worker_steps_shared (Shared (w_db w) ∅ ∅ (w_effects w) []) _ Hrun).
Qed.
End theorems.
