(* ===== verification/JourneyProps.v ===== *)
(** * From the webhook to the citizen's screen

    The webhook, the token resolution and the REST API meet in the tables: an
    event accepted for a CPF is read back by whoever holds a token for that
    CPF, and by nobody else. *)

From S2P Require Import Prelude GoStrings GoTime Json Identity Uuid Payload World Repo RepoFacts RepoSound.
From S2P Require Import CitizenFacts Http WebhookService WebhookFacts Auth Integrations HttpApi HttpFacts AuthProps.

(** ** Through the middlewares *)

Section gate.
Context `{UuidText} `{PostgresOk} `{Jwt}.
Variable cfg : AuthConfig.

(** The citizens with a fingerprint: none, or the one the lookup finds. *)
Lemma LookupCitizenID_fine fp w :
  w_faults w = [] →
  ∃ r, LookupCitizenID fp w = (with_db (w_db w) (with_gen (S (w_gen w)) w), Ok r)
    ∨ LookupCitizenID fp w = (with_gen (S (w_gen w)) w, Ok r) ∧ r = None.
Proof.
  intros Hf. unfold LookupCitizenID, mbind, ST_bind. rewrite pool_sql_fine by done. cbv zeta.
  destruct (select _ _) as [|[i c] l]; simpl; [exists None; by right|exists (Some i); by left].
Qed.

Lemma resolve_fine raw claims cpf w :
  w_faults w = [] →
  ParseWithClaims raw (keyfunc cfg) (w_clock w (w_reads w)) = Some claims →
  claims_cpf cfg claims (w_clock w (S (w_reads w))) = Some cpf →
  ∃ w' r, ResolveCitizenFromToken cfg raw w = (w', Ok r)
    ∧ w_faults w' = [] ∧ w_db w' = w_db w
    ∧ match r with
      | Some id => ∃ c, citizens (w_db w) !! id = Some c
                        ∧ ct_fingerprint c = CitizenFingerprint (au_cpfPepper cfg) cpf
      | None => has_fingerprint (CitizenFingerprint (au_cpfPepper cfg) cpf) (citizens (w_db w)) = false
      end.
Proof.
  intros Hf Hp Hc. unfold ResolveCitizenFromToken, time_Now, mbind, ST_bind. rewrite Hp. simpl.
  rewrite Hc. set (w1 := with_reads _ _).
  destruct (LookupCitizenID_fine (CitizenFingerprint (au_cpfPepper cfg) cpf) w1 Hf)
    as (r & [E|[E ->]]); rewrite E; (do 2 eexists; split; [reflexivity|]);
    apply LookupCitizenID_inv in E as [_ E]; done.
Qed.

(** A request with a valid token for a CPF runs as the citizen with that
    fingerprint, if any; only when they were last seen is written before. *)
Lemma authenticated_fine raw claims cpf (h : handler) rq w :
  w_faults w = [] →
  BearerFromRequest rq = Some raw →
  ParseWithClaims raw (keyfunc cfg) (w_clock w (w_reads w)) = Some claims →
  claims_cpf cfg claims (w_clock w (S (w_reads w))) = Some cpf →
  ∃ w' r, authenticated cfg h rq w = h (Some r) rq w'
    ∧ w_faults w' = [] ∧ notifications (w_db w') = notifications (w_db w)
    ∧ match r with
      | Some id => ∃ c, citizens (w_db w) !! id = Some c
                        ∧ ct_fingerprint c = CitizenFingerprint (au_cpfPepper cfg) cpf
      | None => has_fingerprint (CitizenFingerprint (au_cpfPepper cfg) cpf) (citizens (w_db w)) = false
      end.
Proof.
  intros Hf Hb Hp Hc. destruct (resolve_fine raw claims cpf w Hf Hp Hc) as (w1 & r & E & Hf1 & Hd1 & Hr).
  unfold authenticated, Middleware, TouchLastSeenMiddleware. rewrite Hb.
  unfold mbind at 1, ST_bind. rewrite E. destruct r as [id|]; simpl.
  - unfold TouchCitizenLastSeen, mbind, ST_bind. rewrite pool_sql_fine by done. cbv beta iota zeta.
    do 2 eexists. split; [reflexivity|]. simpl. by rewrite Hf1, Hd1.
  - exists w1, None. by rewrite Hd1.
Qed.

(** ** One notification, as its handler answers *)

Lemma handleGetNotification_fine r rq w nid :
  w_faults w = [] → uuid_Parse (rq_param rq "id") = Some nid →
  (handleGetNotification (Some r) rq w).2
  = match r, notifications (w_db w) !! nid with
    | Some cid, Some n => if owned_by cid n then c_JSON_or_empty StatusOK (row_json (notification_row (nid, n)))
                          else not_found
    | _, _ => not_found
    end.
Proof.
  intros Hf Hid. unfold handleGetNotification. cbn [CitizenID]. destruct r as [cid|]; [|done].
  rewrite Hid. unfold GetNotificationByCitizen, mbind, ST_bind. rewrite pool_sql_fine by done. cbv zeta.
  destruct (notifications (w_db w) !! nid) as [n|]; [|done]. by destruct (owned_by cid n).
Qed.

Lemma handleListNotifications_fine r rq w limit offset :
  w_faults w = [] → parsePagination rq = Ok (limit, offset) →
  (handleListNotifications (Some r) rq w).2
  = match r with
    | Some cid =>
        c_JSON_or_empty StatusOK
          (items ← mapM row_json (list_page cid limit offset (w_db w));
           Some (list_json items limit offset (count_rows (citizen_rows cid (w_db w)))))
    | None => Response StatusOK (JsonBody (list_json [] limit offset 0))
    end.
Proof.
  intros Hf Hp. unfold handleListNotifications. rewrite Hp. cbv beta iota. cbn [CitizenID].
  destruct r as [cid|]; [|done]. cbv iota. unfold ListNotificationsByCitizen, ebind, mbind, ST_bind.
  rewrite pool_sql_fine by done. cbv beta iota zeta. by rewrite pool_sql_fine by done.
Qed.
End gate.

(** ** End to end *)

Section journey.
Context `{UuidText} `{PostgresOk} `{Jwt}.

(** A valid token's holder passes the gate as the citizen with his
    fingerprint, on the same notifications. *)
Lemma authenticated_reader cfg rq w raw claims cpf cid c h :
  w_faults w = [] → wf (w_db w) → BearerFromRequest rq = Some raw →
  ParseWithClaims raw (keyfunc cfg) (w_clock w (w_reads w)) = Some claims →
  claims_cpf cfg claims (w_clock w (S (w_reads w))) = Some cpf →
  citizens (w_db w) !! cid = Some c →
  ∃ w' r, authenticated cfg h rq w = h (Some r) rq w' ∧ w_faults w' = []
    ∧ notifications (w_db w') = notifications (w_db w)
    ∧ (r = Some cid ↔ CitizenFingerprint (au_cpfPepper cfg) cpf = ct_fingerprint c).
Proof.
  intros Hf Hwf Hb Hpc Hcl Hc.
  destruct (authenticated_fine cfg raw claims cpf h rq w Hf Hb Hpc Hcl)
    as (w' & r & E & Hf' & Hnt & Hr). exists w', r. do 3 (split; [done|]). destruct r as [id|].
  - destruct Hr as (c' & Hc' & Hfp'). rewrite <-Hfp'. split; [congruence|].
    intros Heq. f_equal. by eapply wf_fingerprint.
  - split; [done|]. intros Heq. exfalso. rewrite Heq in Hr.
    by apply (has_fingerprint_false _ _ cid c) in Hr.
Qed.

(** A first page long enough shows every row of the citizen. *)
Lemma first_page_complete cid limit d nid n :
  notifications d !! nid = Some n → nt_citizen_id n = cid →
  count_rows (citizen_rows cid d) ≤ limit →
  notification_row (nid, n) ∈ list_page cid limit 0 d.
Proof.
  intros Hn Hown Hall. rewrite list_page_slice. apply list_elem_of_fmap.
  exists (nid, n). split; [done|]. rewrite drop_0, take_ge.
  - rewrite sorted_rows_perm. by apply citizen_rows_own, own_lookup.
  - rewrite (Permutation_length (sorted_rows_perm _ _)). unfold count_rows in Hall. lia.
Qed.

(** C5: an accepted event reaches its citizen and nobody else.  When an event
    is answered [ok], a notification with its chamado, title and text exists.
    At any later time, on tables that evolved from there and without
    failures, the holder of a valid token for the event's CPF reads it: by
    its id, with its content as reported, and in the listing.  The holder of
    a token for a CPF with another fingerprint is answered 404. *)
Theorem reported_events_reach_their_citizen s cfg rq body p w w1
  (Hacc : accepted s rq body p) (Htx : w_tx w = None)
  (Hpepper : au_cpfPepper cfg = svc_pepper s)
  (Hrun : HandlePOST s rq w = (w1, ok_response)) :
  ∃ nid n, notifications (w_db w) !! nid = None ∧ notifications (w_db w1) !! nid = Some n
    ∧ nt_chamado_id n = ChamadoID p ∧ nt_title n = Titulo p ∧ nt_body n = Descricao p
    ∧ unread n = true
    ∧ ∀ w2 rq2 raw claims cpf,
        evolves (w_db w1) (w_db w2) → wf (w_db w2) → w_faults w2 = [] →
        BearerFromRequest rq2 = Some raw →
        ParseWithClaims raw (keyfunc cfg) (w_clock w2 (w_reads w2)) = Some claims →
        claims_cpf cfg claims (w_clock w2 (S (w_reads w2))) = Some cpf →
        ∃ n2, notifications (w_db w2) !! nid = Some n2 ∧ notification_le n n2 ∧
        if decide (CitizenFingerprint (svc_pepper s) cpf = CitizenFingerprint (svc_pepper s) (CPF p))
        then
          (uuid_Parse (rq_param rq2 "id") = Some nid →
           (authenticated cfg handleGetNotification rq2 w2).2
           = c_JSON_or_empty StatusOK (row_json (notification_row (nid, n2))))
          ∧ (∀ limit offset, parsePagination rq2 = Ok (limit, offset) →
             ∃ rows total,
               (authenticated cfg handleListNotifications rq2 w2).2
               = c_JSON_or_empty StatusOK
                   (items ← mapM row_json rows; Some (list_json items limit offset total))
               ∧ (offset = 0 → total ≤ limit → notification_row (nid, n2) ∈ rows))
        else
          uuid_Parse (rq_param rq2 "id") = Some nid →
          (authenticated cfg handleGetNotification rq2 w2).2 = not_found.
Proof.
  rewrite (HandlePOST_accepted _ _ _ _ _ Hacc) in Hrun.
  apply bind_inv in Hrun as (wp & [[]|e] & Hp & Hk);
    [|discriminate Hk|by apply bind_inv in Hk as (? & ? & _ & Hk)].
  injection Hk as <-. apply persist_refines in Hp as [_ Hp]; [|done].
  inversion Hp as [srcTS d1 cid nid oid created payload text Hts _ [Hd1 (c & Hc & Hfp)]
                     _ Hfresh _ _ _ Hdb|].
  exists nid, (event_row p (w_pgnow w) cid srcTS). split; [done|].
  split; [apply lookup_insert_eq|]. split_and!; [done..|].
  intros w2 rq2 raw claims cpf Hev Hwf Hf Hb Hpc Hcl.
  destruct (ev_notifications _ _ Hev nid (event_row p (w_pgnow w) cid srcTS)) as (n2 & Hn2 & Hle).
  { apply lookup_insert_eq. }
  exists n2. split; [done|]. split; [done|].
  assert (nt_citizen_id n2 = cid) as Hown by (by destruct Hle as [->|(_ & t & ->)]).
  destruct (ev_citizens _ _ Hev cid c) as (c2 & Hc2 & Hfp2 & _); [done|].
  rewrite Hfp in Hfp2. unfold fingerprint_of in Hfp2.
  assert (Hrun := λ h, authenticated_reader cfg rq2 w2 raw claims cpf cid c2 h Hf Hwf Hb Hpc Hcl Hc2).
  rewrite Hfp2, Hpepper in Hrun. destruct (decide _) as [Heq|Hne].
  - split.
    + intros Hid. destruct (Hrun handleGetNotification) as (w3 & r & -> & Hf3 & Hnt & Hr).
      rewrite (handleGetNotification_fine _ _ _ nid Hf3 Hid), Hnt, Hn2.
      rewrite (proj2 Hr Heq). by rewrite (proj2 (owned_by_true _ _) Hown).
    + intros limit offset Hpage.
      destruct (Hrun handleListNotifications) as (w3 & r & -> & Hf3 & Hnt & Hr).
      rewrite (handleListNotifications_fine _ _ _ _ _ Hf3 Hpage), (proj2 Hr Heq).
      do 2 eexists. split; [reflexivity|]. intros -> Hall.
      apply first_page_complete; [by rewrite Hnt|done..].
  - intros Hid. destruct (Hrun handleGetNotification) as (w3 & r & -> & Hf3 & Hnt & Hr).
    rewrite (handleGetNotification_fine _ _ _ nid Hf3 Hid), Hnt, Hn2. destruct r as [id|]; [|done].
    destruct (owned_by id n2) eqn:Eo; [|done]. apply owned_by_true in Eo. destruct Hne.
    apply Hr. congruence.
Qed.
End journey.
