(* ===== verification/UrlProps.v ===== *)
(** * What the program's URLs are

    The summary URL of a chamado as the peer receives it, and the database URL
    handed to the migration driver. *)

From S2P Require Import Prelude GoStrings GoTime Json Url UrlFacts UrlRoundtrip World Integrations Migrate.

(** ** A text appended to a URL *)

Lemma validEncoded_plain s : validEncoded encodePath s = true → Forall (plain path_seps) s.
Proof.
  intros Hs%forallb_Forall. eapply Forall_impl; [exact Hs|]. intros a.
  by destruct a as [[] [] [] [] [] [] [] []].
Qed.

Lemma no_query s : Forall (plain path_seps) s → split_query s = (s, false, []).
Proof.
  intros Hs. unfold split_query. rewrite (proj2 (cut_None "?" s)); [done|].
  eapply plain_avoids; [|exact Hs]. set_solver.
Qed.

Lemma rooted_app s t : rooted s = true → rooted (s ++ t) = true.
Proof. destruct s as [|a s]; [done|]. by destruct a as [[] [] [] [] [] [] [] []]. Qed.

Lemma unescape_rooted s d :
  rooted s = true → unescape encodePath s = Ok d → ∃ d', d = "/"%char :: d'.
Proof.
  destruct s as [|a s]; [done|]. intros Hr. assert (a = "/"%char) as ->.
  { by destruct a as [[] [] [] [] [] [] [] []]. }
  cbn. destruct (unescape encodePath s); [|done]. intros [= <-]. eauto.
Qed.

(** A path appended to the path of a URL. *)
Lemma parse_hier_extend s rest suf user host path raw omit d :
  parse_hier s rest = Ok (user, host, path, raw, omit) → nonempty s = true → nonempty host = true →
  rooted suf = true → unescape encodePath suf = Ok d →
  validEncoded encodePath rest = true → validEncoded encodePath suf = true →
  ∃ raw', parse_hier s (rest ++ suf) = Ok (user, host, path ++ d, raw', false)
    ∧ shown encodePath raw' (path ++ d) = shown encodePath raw path ++ suf ∧ path_like path.
Proof.
  intros Hp Hs Hh Hr Hu Hv Hvs. unfold parse_hier in Hp.
  destruct (split_authority s rest) as [[a p]|] eqn:E.
  2:{ destruct (decoded encodePath rest) as [[? ?]|]; [|done]. by injection Hp as <- <- <- <- <-. }
  apply split_authority_Some in E as (-> & Ha & Hlike).
  destruct (parseAuthority a) as [[us ho]|] eqn:Ea; [|done].
  destruct (decoded encodePath p) as [[pa ra]|] eqn:Ed; [|done]. injection Hp as <- <- <- <- <-.
  unfold validEncoded in Hv. rewrite !forallb_app in Hv. apply andb_true_iff in Hv as [_ Hv].
  apply andb_true_iff in Hv as [_ Hv]. fold (validEncoded encodePath p) in Hv.
  destruct (shown_path _ _ _ Ed Hlike) as (_ & Hpath & _).
  rewrite (shown_valid _ _ _ _ Ed Hv). apply decoded_Ok in Ed as [Eu _].
  assert (∃ raw', decoded encodePath (p ++ suf) = Ok (pa ++ d, raw')) as [raw' Hd].
  { unfold decoded, unescaped. rewrite (unescape_app _ _ _ _ Eu), Hu. eauto. }
  exists raw'. split.
  - unfold parse_hier. rewrite <-!app_assoc, split_authority_print, Ea, Hd; [done..|].
    destruct Hlike as [->|Hl]; right; [done|by apply rooted_app].
  - split; [|done]. apply (shown_valid _ _ _ _ Hd). unfold validEncoded. rewrite forallb_app. by apply andb_true_iff.
Qed.

Lemma parse_extend base suf b d :
  parse_url base = Ok b → nonempty (u_Scheme b) = true → nonempty (u_Host b) = true →
  rooted suf = true → unescape encodePath suf = Ok d →
  validEncoded encodePath base = true → validEncoded encodePath suf = true →
  ∃ u, parse_url (base ++ suf) = Ok u
    ∧ u_Scheme u = u_Scheme b ∧ u_Opaque u = [] ∧ u_User u = u_User b ∧ u_Host u = u_Host b
    ∧ u_ForceQuery u = false ∧ u_RawQuery u = [] ∧ u_Fragment u = []
    ∧ u_Path u = u_Path b ++ d
    ∧ EscapedPath u = EscapedPath b ++ suf.
Proof.
  intros Hp Hs Hh Hr Hu Hv Hvs.
  pose proof (validEncoded_plain _ Hv) as Hpl. pose proof (validEncoded_plain _ Hvs) as Hpls.
  assert (Forall (plain path_seps) (base ++ suf)) as Hall by by apply Forall_app.
  assert (∀ s, Forall (plain path_seps) s →
    parse_url s = match parse s with Ok r => Ok r | Err e => Err (s, e) end) as Hurl.
  { intros s Hs'. assert ("#"%char ∉ s) as Hno by (eapply plain_avoids; [|exact Hs']; left).
    unfold parse_url. by rewrite (proj2 (cut_None "#" s)), before_id. }
  rewrite Hurl in Hp by done. rewrite Hurl by done.
  destruct (parse base) as [r|] eqn:E; [|done]. injection Hp as ->.
  unfold parse in *. rewrite (plain_no_control path_seps) in E |- * by done.
  destruct (bytes_eqb base ["*"%char]) eqn:Estar; [by injection E as <-|].
  destruct (getScheme base) as [[s0 rest]|] eqn:Eg; [|done].
  assert (s0 ≠ []) as Hs0.
  { intros ->. revert E. destruct (split_query rest) as [[x f] q]. cbv zeta. cbn [map nonempty].
    rewrite andb_false_r. destruct (negb _ && _); [done|].
    destruct (parse_hier [] x) as [[[[[? ?] ?] ?] ?]|]; [by intros [= <-]|done]. }
  destruct (getScheme_any _ _ _ (rest ++ suf) Eg Hs0) as [-> Hg].
  assert (Forall (plain path_seps) rest) as Hrest by (apply Forall_app in Hpl as [_ Hpl]; by inversion Hpl).
  assert (bytes_eqb ((s0 ++ ":"%char :: rest) ++ suf) ["*"%char] = false) as ->.
  { apply bool_decide_eq_false_2. intros Heq%(f_equal length). rewrite !length_app in Heq.
    destruct s0; [done|]. simpl in Heq. lia. }
  rewrite <-app_assoc. cbn [app]. rewrite Hg.
  rewrite no_query in E |- * by (try apply Forall_app; done). cbv zeta in E |- *.
  fold (rooted rest) in E. fold (rooted (rest ++ suf)).
  assert (nonempty (map ascii_lower s0) = true) as Hne by by destruct s0.
  rewrite Hne, andb_true_r in *. destruct (rooted rest) eqn:Erest; [|by injection E as <-].
  rewrite rooted_app by done. cbn [negb andb] in E |- *.
  destruct (parse_hier _ rest) as [[[[[user host] path] raw] omit]|] eqn:Eh; [|done].
  injection E as <-. simpl in Hs, Hh.
  destruct (parse_hier_extend _ _ suf _ _ _ _ _ d Eh Hne Hh Hr Hu) as (raw' & -> & Hsh & Hpath); [|done|].
  { unfold validEncoded in *. rewrite forallb_app in Hv. apply andb_true_iff in Hv as [_ Hv].
    cbn [forallb] in Hv. by apply andb_true_iff in Hv as [_ Hv]. }
  eexists. split; [reflexivity|]. repeat split. rewrite !EscapedPath_shown; [done..|].
  simpl. destruct Hpath as [->|Hpr]; [|right; by apply rooted_app]. simpl.
  destruct (unescape_rooted suf d Hr Hu) as [d' ->]. by right.
Qed.

(** ** The summary of a chamado *)

Definition summary_path (id : bytes) : bytes :=
  chars "/v1/chamados/" ++ escape encodePathSegment id ++ chars "/summary".

Lemma chars_summary_url c id :
  chars (summary_url c id) = chars (cc_base c) ++ summary_path (chars id).
Proof. unfold summary_url, PathEscape, summary_path. by rewrite !chars_app, chars_unchars. Qed.

Lemma summary_path_valid id : validEncoded encodePath (summary_path id) = true.
Proof.
  unfold validEncoded, summary_path. rewrite !forallb_app.
  assert (forallb (λ a, one_of (chars "!$&'()*+,;=:@[]%") a || negb (shouldEscape encodePath a))
            (escape encodePathSegment id) = true) as ->; [|done].
  apply forallb_Forall, escape_Forall; [done|]. intros a. by destruct a as [[] [] [] [] [] [] [] []].
Qed.

Lemma summary_path_decoded id :
  unescape encodePath (summary_path id) = Ok (chars "/v1/chamados/" ++ id ++ chars "/summary").
Proof.
  unfold summary_path. rewrite (unescape_app _ (chars "/v1/chamados/") _ (chars "/v1/chamados/")) by done.
  by rewrite unescape_segment_app.
Qed.

(** Bytes that end a path segment or a path. *)
Definition url_delimiter (a : ascii) : bool := one_of (chars "/?#; ") a.

Section summary.
Context `{Unicode}.

Lemma url_Parse_Ok s u : url_Parse s = Ok u ↔ parse_url (chars s) = Ok u.
Proof. unfold url_Parse. destruct (parse_url (chars s)) as [v|[x e]]; split; by intros [= ->]. Qed.

Lemma removeEmptyPort_nonempty host :
  nonempty (removeEmptyPort host) = true → nonempty host = true.
Proof. by destruct host. Qed.

(** What can be sent has a scheme and a host. *)
Lemma sendable u :
  unsendable (with_Host (removeEmptyPort (u_Host u)) u) = None →
  nonempty (u_Scheme u) = true ∧ nonempty (u_Host u) = true.
Proof.
  unfold unsendable. simpl. destruct (negb (_ || _)) eqn:Es; [done|].
  destruct (negb (nonempty _)) eqn:Eh; [done|]. intros _. apply negb_false_iff in Es, Eh.
  split; [by destruct (u_Scheme u)|by apply removeEmptyPort_nonempty].
Qed.

(** C32: the summary request reaches the chamado it names.  For a base URL the
    client can send to and whose bytes need no further encoding, the summary
    URL parses and can be sent: to the base's scheme, host and credentials,
    without query or fragment.  What goes over the wire is the base's path
    and one segment between [/v1/chamados/] and [/summary]; that segment has
    no delimiter, the peer decodes it to exactly the chamado's id, and no
    other id has the same URL. *)
Theorem summary_request_names_the_chamado c id b
  (Hbase : url_Parse (cc_base c) = Ok b)
  (Hsend : request_error "GET" (cc_base c) = None)
  (Hvalid : validEncoded encodePath (chars (cc_base c)) = true) :
  request_error "GET" (summary_url c id) = None
  ∧ (∃ u, url_Parse (summary_url c id) = Ok u
       ∧ u_Scheme u = u_Scheme b ∧ u_User u = u_User b ∧ u_Host u = u_Host b
       ∧ print_query u = [] ∧ print_fragment u = []
       ∧ u_Path u = u_Path b ++ chars ("/v1/chamados/" +:+ id +:+ "/summary")
       ∧ EscapedPath u = EscapedPath b ++ chars ("/v1/chamados/" +:+ PathEscape id +:+ "/summary"))
  ∧ Forall (λ a, url_delimiter a = false) (chars (PathEscape id))
  ∧ unescape encodePathSegment (chars (PathEscape id)) = Ok (chars id)
  ∧ (∀ id', summary_url c id = summary_url c id' → id = id').
Proof.
  pose proof Hsend as Hs. unfold request_error in Hs. rewrite Hbase in Hs.
  destruct (unsendable _) eqn:Eu; [done|]. apply sendable in Eu as Hne. destruct Hne as [Hsch Hho].
  apply url_Parse_Ok in Hbase.
  destruct (parse_extend _ (summary_path (chars id)) _ _ Hbase Hsch Hho eq_refl
              (summary_path_decoded (chars id)) Hvalid (summary_path_valid (chars id)))
    as (u & Hu & E1 & E2 & E3 & E4 & E5 & E6 & E7 & E8 & E9).
  rewrite <-chars_summary_url, <-url_Parse_Ok in Hu. split; [|split; [|split; [|split]]].
  - unfold request_error. rewrite Hu. cbv zeta. unfold unsendable in *. simpl in *.
    rewrite E1, E4. by destruct (negb _); [|destruct (negb _)].
  - exists u. unfold print_query, print_fragment. rewrite E5, E6, E7, !chars_app. split_and!; try done.
    rewrite E9. unfold summary_path, PathEscape. by rewrite chars_unchars.
  - unfold PathEscape. rewrite chars_unchars. apply escape_Forall; [done|].
    intros a. by destruct a as [[] [] [] [] [] [] [] []].
  - unfold PathEscape. rewrite chars_unchars. by apply unescape_escape, escapable_outside.
  - intros id' He. apply (f_equal chars) in He. unfold summary_url in He. rewrite !chars_app in He.
    apply app_inv_head, app_inv_head, app_inv_tail in He. by apply PathEscape_inj, chars_inj.
Qed.
End summary.

(** A base with a byte that needs encoding makes the printed path lose the
    hint: the slash of such an id is sent bare. *)
Example unencoded_base_splits_the_id :
  (λ s, match parse_url (chars s) with Ok u => unchars (EscapedPath u) | Err _ => "" end)
  <$> [summary_url {| cc_base := "http://h/api"; cc_timeout := 0 |} "a/b";
       summary_url {| cc_base := "http://h/a b"; cc_timeout := 0 |} "a/b"]
  = ["/api/v1/chamados/a%2Fb/summary"; "/a%20b/v1/chamados/a/b/summary"].
Proof. reflexivity. Qed.

(** ** The database URL of the migrations *)

Section migrations.
Context `{Unicode}.

Lemma pgx5_scheme : scheme_like (chars "pgx5").
Proof. split; [done|done|done|]. by repeat constructor. Qed.

(** The schemes the command knows. *)
Definition postgres_schemes : list bytes := [chars "postgres"; chars "postgresql"; chars "pgx5"].

Lemma toPgx5URL_known dsn u :
  url_Parse dsn = Ok u → u_Scheme u ∈ postgres_schemes →
  toPgx5URL dsn = Ok (url_String (with_Scheme (chars "pgx5") u)).
Proof.
  unfold toPgx5URL, postgres_schemes. intros -> Hs. cbv zeta.
  rewrite !elem_of_cons in Hs. destruct Hs as [Hs|[Hs|[Hs|[]%elem_of_nil]]];
    destruct u; simpl in Hs; subst; done.
Qed.

Lemma toPgx5URL_unknown dsn u :
  url_Parse dsn = Ok u → u_Scheme u ∉ postgres_schemes → is_ok (toPgx5URL dsn) = false.
Proof.
  unfold toPgx5URL, postgres_schemes. intros -> Hs. cbv zeta. rewrite !not_elem_of_cons in Hs.
  assert (∀ s, u_Scheme u ≠ chars s → String.eqb (unchars (u_Scheme u)) s = false) as Hneq.
  { intros s Hne. apply String.eqb_neq. intros <-. by rewrite chars_unchars in Hne. }
  by rewrite !Hneq by tauto.
Qed.

(** C33: the migration command rewrites the database URL without changing the
    database.  It accepts exactly the URLs that parse and have one of the
    three schemes.  The URL it hands to the driver has the scheme [pgx5], and
    is read back with the same credentials, host, path, query and fragment,
    as decoded and as sent, whatever characters they contain; only an IPv6
    zone, credentials that are both empty, and a path without an authority
    are not covered. *)
Theorem toPgx5URL_keeps_the_database dsn :
  (is_ok (toPgx5URL dsn) = true ↔ ∃ u, url_Parse dsn = Ok u ∧ u_Scheme u ∈ postgres_schemes)
  ∧ (∀ u out, url_Parse dsn = Ok u → toPgx5URL dsn = Ok out →
       u_OmitHost u = false → no_zone (u_Host u) → prints_user (u_User u) →
       ∃ v, url_Parse out = Ok v ∧ same_url (with_Scheme (chars "pgx5") u) v).
Proof.
  split; [split|].
  - destruct (url_Parse dsn) as [u|e] eqn:Hp; [|by unfold toPgx5URL; rewrite Hp].
    intros Hok. exists u. split; [done|]. destruct (decide (u_Scheme u ∈ postgres_schemes)); [done|].
    by rewrite (toPgx5URL_unknown dsn u) in Hok.
  - intros (u & Hp & Hs). by rewrite (toPgx5URL_known dsn u).
  - intros u out Hp Hout Hom Hz Hu. destruct (decide (u_Scheme u ∈ postgres_schemes)) as [Hs|Hs].
    2:{ apply (toPgx5URL_unknown dsn u) in Hs; [|done]. by rewrite Hout in Hs. }
    rewrite (toPgx5URL_known dsn u) in Hout by done. injection Hout as <-.
    apply url_Parse_Ok in Hp. assert (nonempty (u_Scheme u) = true) as Hne.
    { unfold postgres_schemes in Hs. destruct (u_Scheme u); [|done]. set_solver. }
    destruct (url_parts_of _ _ Hp Hne) as (Hh & [Hq Hf] & Hfr).
    destruct (print_parse (with_Scheme (chars "pgx5") u)) as (v & Hv & Hsame);
      [apply pgx5_scheme| |by split|exact Hfr|done..|].
    + destruct Hh as [| |]; [by apply OpaquePart|by eapply AuthorityPart|by apply OmittedHost].
    + exists v. split; [|done]. apply url_Parse_Ok. unfold url_String. by rewrite chars_unchars.
Qed.
End migrations.
