(* ===== verification/ServerProps.v ===== *)
(** * What a started server can rely on

    Positivity of every configured quantity, the guards of [main], the
    migration command. *)

From S2P Require Import Prelude GoStrings GoTime Json Uuid World Http Integrations WebhookService Auth.
From S2P Require Import HttpApi WsBus Notify Config Upstream Migrate Server.

(** ** Configuration *)

Section config.
Variable Getenv : string → string.

Lemma duration_sum_range n d s r :
  0 ≤ d ≤ 2 ^ 63 → duration_sum n d s = Some r → 0 ≤ r ≤ 2 ^ 63.
Proof.
  revert d s. induction n as [|n IH]; intros d s Hd.
  { destruct s as [|a s]; simpl; [by intros [= <-]|done]. }
  destruct s as [|a s]; cbn [duration_sum]; [by intros [= <-]|].
  destruct (_ && _); [done|]. destruct (leading_int 0 _) as [[v s1]|]; [|done].
  destruct (read_fraction s1) as [[[f scale] s2] post].
  destruct (_ && _); [done|]. destruct (span_unit s2) as [[|u us] s3]; [done|].
  destruct (unit_map _) as [unit|]; [|done]. destruct (_ <? v); [done|].
  destruct (2 ^ 63 <? _) eqn:E1; [done|].
  destruct (2 ^ 63 <? (d + _) mod 2 ^ 64) eqn:E2; [done|]. apply IH.
  apply Z.ltb_ge in E2. split; [|exact E2]. by apply Z.mod_pos_bound.
Qed.

Lemma ParseDuration_range s d : ParseDuration s = Some d → in_int64 d = true.
Proof.
  assert (∀ z, 0 ≤ z ≤ max_int64 → in_int64 z = true) as Hnat.
  { intros z Hz. unfold in_int64, min_int64. apply andb_true_iff. rewrite !Z.leb_le. lia. }
  unfold ParseDuration. destruct (split_sign (chars s)) as [neg r].
  case_bool_decide; [intros [= <-]; by apply Hnat|]. destruct r as [|a r]; [done|].
  destruct (duration_sum _ _ _) as [x|] eqn:E; [|done].
  apply duration_sum_range in E; [|done]. destruct neg.
  - intros [= <-]. unfold in_int64, wrap64, min_int64, max_int64.
    pose proof (Z.mod_pos_bound (- x + 2 ^ 63) (2 ^ 64)). apply andb_true_iff. rewrite !Z.leb_le. lia.
  - destruct (Z.ltb_spec (2 ^ 63 - 1) x); [done|]. intros [= <-]. apply Hnat. unfold max_int64. lia.
Qed.

Definition positive64 (z : Z) : Prop := 0 < z ∧ in_int64 z = true.

Lemma getIntDefault_positive key def : positive64 def → positive64 (getIntDefault Getenv key def).
Proof.
  intros Hd. unfold getIntDefault. destruct (String.eqb _ _); [done|].
  destruct (Atoi _) as [n|] eqn:E; [|done]. destruct (Z.ltb_spec 0 n); [|done].
  split; [done|]. by eapply Atoi_range.
Qed.

Lemma getDurationDefault_positive key def :
  positive64 def → positive64 (getDurationDefault Getenv key def).
Proof.
  intros Hd. unfold getDurationDefault. destruct (String.eqb _ _); [done|].
  destruct (ParseDuration _) as [n|] eqn:E; [|done]. destruct (Z.ltb_spec 0 n); [|done].
  split; [done|]. by eapply ParseDuration_range.
Qed.

(** Every configured quantity. *)
Definition quantities (c : Config) : list Z :=
  [OutboxBatchSize c; OutboxPollInterval c; OutboxMaxAttempts c; OutboxBackoffBase c;
   WSWriteTimeout c; WSPingInterval c; WSPongWait c; WSReadLimit c; HTTPClientTimeout c;
   MapasPingInterval c].

Lemma Load_positive : Forall positive64 (quantities (Load Getenv)).
Proof.
  repeat constructor;
    first [by apply getIntDefault_positive|by apply getDurationDefault_positive|
           by apply (getIntDefault_positive "WS_READ_LIMIT")].
Qed.

Lemma positive_worker c : Forall positive64 (quantities c) → Run_defaults (main_worker c) = main_worker c.
Proof.
  unfold quantities. rewrite !Forall_cons. intros ([? _] & [? _] & [? _] & [? _] & _).
  unfold Run_defaults, main_worker. simpl.
  by rewrite !(proj2 (Z.ltb_ge _ 1)), !(proj2 (Z.leb_gt _ 0)) by lia.
Qed.

Lemma getDefault_nonempty key def : def ≠ "" → getDefault Getenv key def ≠ "".
Proof. intros Hd. unfold getDefault. by destruct (String.eqb_spec (Getenv key) ""). Qed.

(** C36: whatever the environment holds, every size, interval, timeout and
    limit [Load] returns is a strictly positive 64-bit value (so no ticker
    panics and no worker or connection default is needed), and the addresses
    and URLs that have defaults are not empty. *)
Theorem Load_is_usable :
  let c := Load Getenv in
  Forall positive64
    [OutboxBatchSize c; OutboxPollInterval c; OutboxMaxAttempts c; OutboxBackoffBase c;
     WSWriteTimeout c; WSPingInterval c; WSPongWait c; WSReadLimit c; HTTPClientTimeout c;
     MapasPingInterval c]
  ∧ Forall (λ s, s ≠ "") [HTTPAddr c; DatabaseURL c; RedisAddr c; OTELServiceName c; OTELTracesExporter c]
  ∧ Run_defaults (main_worker c) = main_worker c
  ∧ NewClient_params (WSWriteTimeout c) (WSPingInterval c) (WSPongWait c) (WSReadLimit c)
    = {| cp_writeTimeout := WSWriteTimeout c; cp_pingInterval := WSPingInterval c;
         cp_pongWait := WSPongWait c; cp_readLimit := WSReadLimit c |}.
Proof.
  cbv zeta. pose proof Load_positive as Hall. split; [exact Hall|]. split.
  { rewrite !Forall_cons, Forall_nil. split_and!; try done; by apply getDefault_nonempty. }
  split; [by apply positive_worker|]. revert Hall. generalize (Load Getenv) as c.
  unfold quantities. intros c. rewrite !Forall_cons.
  intros (_ & _ & _ & _ & [? _] & [? _] & [? _] & [? _] & _).
  unfold NewClient_params. by rewrite !(proj2 (Z.leb_gt _ 0)) by lia.
Qed.

(** ** Start-up *)

Section start.
Context `{UuidText} `{Postgres} `{Jwt} `{Gobreaker} `{Unicode} `{Migrator}.

(** What gin keys its routes by. *)
Definition route_key (r : string * string * endpoint) : string * string := r.1.

Definition all_route_keys : list (string * string) :=
  [("GET", "/_upstream/v1/chamados/:chamado_id/summary"); ("POST", "/_upstream/callbacks/citizen-read");
   ("GET", "/_upstream/mapas/health"); ("POST", "/_upstream/v1/push/dispatch");
   ("GET", "/health"); ("GET", "/ready"); ("POST", "/webhook");
   ("GET", "/notifications/unread-count"); ("PATCH", "/notifications/read-all");
   ("GET", "/notifications/:id"); ("GET", "/notifications"); ("PATCH", "/notifications/:id/read");
   ("GET", "/citizens/me"); ("POST", "/devices"); ("DELETE", "/devices");
   ("GET", "/chamados/:chamado_id/summary"); ("GET", "/mapas/status"); ("GET", "/ws")].

Lemma started_route_keys c stubs len :
  route_key <$> server_routes stubs len (main_deps c)
  = (if stubs then all_route_keys else drop 4 all_route_keys).
Proof. by destruct stubs. Qed.

Lemma all_route_keys_NoDup (stubs : bool) :
  NoDup (if stubs then all_route_keys else drop 4 all_route_keys).
Proof. by destruct stubs; apply (bool_decide_unpack _). Qed.

(** C37: the server starts exactly when the webhook key, the CPF pepper and
    the JWT key are set, telemetry can be set up (or is off), the migrations
    run, and both stores answer.  A server that has started serves the API
    itself and no stub: the WebSocket handshake is configured with the very
    parameters of the REST middleware, every other quantity is usable as it
    is, and no two routes collide. *)
Theorem main_starts_iff env st :
  let c := Load Getenv in
  ((∃ a, (main c env st).2 = Ok a) ↔
     WebhookSecret c ≠ "" ∧ CPFPepper c ≠ "" ∧ JWTSecret c ≠ ""
     ∧ (EqualFold (TrimSpace (OTELTracesExporter c)) "none" = true
        ∨ en_resource env = None ∧ en_exporter env = None)
     ∧ (Up (en_iofs env) (DatabaseURL c) st).2 = None ∧ en_db_parse env = None ∧ en_db_new env = None
     ∧ en_db_ping env = None ∧ en_redis_ping env = None)
  ∧ ∀ a len, (main c env st).2 = Ok a →
      ws_ready (ap_deps a) = true ∧ dp_AuthJWT (ap_deps a) = Some (ws_auth (ap_deps a))
      ∧ is_Some (dp_Webhook (ap_deps a)) ∧ Run_defaults (ap_worker a) = ap_worker a
      ∧ NoDup (route_key <$> server_routes (ap_stubs a) len (ap_deps a)).
Proof.
  cbv zeta. pose proof (positive_worker _ Load_positive) as Hw. revert Hw.
  generalize (Load Getenv) as c. intros c Hw.
  unfold main, telemetry_Init, db_Connect, rdb_Connect.
  destruct (String.eqb_spec (WebhookSecret c) "") as [?|?]; simpl;
    [split; [split; [by intros [? ?]|tauto]|done]|].
  destruct (String.eqb_spec (CPFPepper c) "") as [Hp|Hp]; simpl;
    [split; [split; [by intros [? ?]|tauto]|done]|].
  destruct (String.eqb_spec (JWTSecret c) "") as [Hj|Hj]; simpl;
    [split; [split; [by intros [? ?]|tauto]|done]|].
  split.
  - destruct env as [[?|] [?|] fs [?|] [?|] [?|] [?|]]; simpl;
      destruct (EqualFold _ _); simpl; destruct (Up fs _ st) as [? [?|]]; simpl;
      (split; [intros [a Ha]; first [discriminate Ha|split_and!; first [done|by left|by right]]
              |intros Hall; first [eexists; reflexivity|exfalso; intuition discriminate]]).
  - intros a len Ha.
    assert (ap_deps a = main_deps c ∧ ap_worker a = main_worker c) as [-> ->].
    { revert Ha. destruct (Up _ _ st) as [? up]. repeat case_match; simpl; intros; simplify_eq; done. }
    split_and!; try done.
    + unfold ws_ready. simpl. apply andb_true_iff. by rewrite !negb_true_iff, !String.eqb_neq.
    + rewrite started_route_keys. apply all_route_keys_NoDup.
Qed.
End start.

(** ** Migrations *)

Section migrate.
Context `{Unicode} `{Migrator}.

(** The migration command.  [-version] wins over [-up], which wins over
    [-down N]; the URL of [-database] wins over the configured one, which is
    never empty, so the command never stops for lack of a URL; "no change"
    is success, and an empty schema prints version 0. *)
Lemma migrate_main_spec fs f st :
  let url := if String.eqb (fl_database f) "" then DatabaseURL (Load Getenv)
             else fl_database f in
  migrate_main fs (DatabaseURL (Load Getenv)) f st
  = (if fl_version f then
       (st, match newMigrate fs url st with
            | Ok m => match migrate_Version m st with
                      | Ok (v, dirty) => PrintedVersion v dirty
                      | Err ErrNilVersion => PrintedVersion 0 false
                      | Err _ => Fatal "version"
                      end
            | Err _ => Fatal "version"
            end)
     else if fl_up f then
       match newMigrate fs url st with
       | Ok m => let '(st', e) := migrate_Up m st in
                 (st', match e with None | Some ErrNoChange => Silent | Some _ => Fatal "up" end)
       | Err _ => (st, Fatal "up")
       end
     else if 0 <? fl_down f then
       match newMigrate fs url st with
       | Ok m => let '(st', e) := migrate_Steps m (- fl_down f) st in
                 (st', match e with None | Some ErrNoChange => Silent | Some _ => Fatal "down" end)
       | Err _ => (st, Fatal "down")
       end
     else (st, Fatal "usage")).
Proof.
  cbv zeta. set (conf := DatabaseURL (Load Getenv)).
  assert (conf ≠ "") as Hconf.
  { unfold conf. simpl. unfold getDefault. by destruct (String.eqb_spec (Getenv "DATABASE_URL") ""). }
  unfold migrate_main.
  set (url := if String.eqb (fl_database f) "" then conf else fl_database f).
  assert (String.eqb url "" = false) as ->.
  { unfold url. destruct (String.eqb_spec (fl_database f) ""); by apply String.eqb_neq. }
  unfold Version, Up, Down, settle. destruct (fl_version f).
  { destruct (newMigrate fs url st) as [m|]; [|done]. by destruct (migrate_Version m st) as [[]|[]]. }
  destruct (fl_up f).
  { destruct (newMigrate fs url st) as [m|]; [|done]. by destruct (migrate_Up m st) as [? [[]|]]. }
  destruct (Z.ltb_spec 0 (fl_down f)); [|done]. rewrite (proj2 (Z.ltb_ge _ _)) by lia.
  destruct (newMigrate fs url st) as [m|]; [|done]. by destruct (migrate_Steps _ _ st) as [? [[]|]].
Qed.
End migrate.
End config.
