(* ===== verification/SchemaProps.v ===== *)
(** * The schema under the migration commands, and what it admits

    Golang-migrate as an interface with laws; that every sequence of commands
    leaves the schema of the version it reports; and that the schema of a
    started server admits exactly the well-formed tables. *)

From S2P Require Import Prelude GoStrings Uuid GoTime Json Url World Schema SchemaFacts.
From S2P Require Import RepoFacts WebhookService WsBus Notify System SystemProps Config Migrate Server.
From S2P Require Import Replicas Deliveries Shared.

(** ** The files *)

Abbreviation latest := (length migration_files).

(** Between any two versions, up or down, the files lead from the schema of
    the one to the schema of the other; to a later one they only add. *)
Definition connected (m n : nat) : bool :=
  match schema_at m with
  | Ok s => bool_decide (migrate_to m n s = schema_at n) && all_ok (statements m n) s
            && (negb (m <=? n)%nat || forallb only_adds (statements m n))
  | Err _ => false
  end.

Lemma versions_connected m n : (m ≤ latest)%nat → (n ≤ latest)%nat → connected m n = true.
Proof.
  assert (forallb (λ m, forallb (connected m) (seq 0 (S latest))) (seq 0 (S latest)) = true) as Hall
    by by vm_compute.
  intros Hm Hn. rewrite forallb_forall in Hall.
  specialize (Hall m). rewrite in_seq in Hall. specialize (Hall ltac:(lia)).
  rewrite forallb_forall in Hall. apply Hall. rewrite in_seq. lia.
Qed.

Lemma moved m n s s' c :
  (m ≤ latest)%nat → (n ≤ latest)%nat → schema_at m = Ok s → migrate_to m n s = Ok s' →
  stored s c →
  schema_at n = Ok s' ∧ stored s' (exec_all_rows (statements m n) c)
  ∧ ((m ≤ n)%nat → ∀ name, Forall2 prefix (c name) (exec_all_rows (statements m n) c name)).
Proof.
  intros Hm Hn Hs Hmove Hst. pose proof (versions_connected m n Hm Hn) as Hc. unfold connected in Hc.
  rewrite Hs in Hc. apply andb_true_iff in Hc as [[Heq%bool_decide_eq_true Hok]%andb_true_iff Hadds].
  split; [congruence|]. split; [by eapply exec_all_stored|].
  intros Hle name. apply exec_all_rows_extend. apply orb_true_iff in Hadds as [Hgt|]; [|done].
  by apply negb_true_iff, Nat.leb_gt in Hgt; lia.
Qed.

(** ** The driver *)

(** What golang-migrate keeps in its table: the last version whose file was
    begun, none as 0, and whether that file was left unfinished; and what it
    works on, the schema and the rows. *)
Class Versions `(Migrator) := {
  store_version : store → nat;
  store_dirty : store → bool;
  store_schema : store → schema;
  store_rows : store → string → list row
}.

(** The files between two versions were run. *)
Definition files_run `{Versions} (st st' : store) : Prop :=
  migrate_to (store_version st) (store_version st') (store_schema st) = Ok (store_schema st')
  ∧ store_rows st' = exec_all_rows (statements (store_version st) (store_version st')) (store_rows st).

(** Its documented behaviour.  Files run in the order of their numbers, each
    recorded before and after; a dirty database is refused. *)
Class VersionsOk `(Versions) := {
  Up_moves m st st' e :
    store_dirty st = false → (store_version st ≤ latest)%nat →
    migrate_Up m st = (st', e) → store_dirty st' = false →
    (store_version st ≤ store_version st' ≤ latest)%nat
    ∧ files_run st st';
  Up_completes m st st' e :
    migrate_Up m st = (st', e) → e = None ∨ e = Some ErrNoChange →
    store_dirty st' = false ∧ store_version st' = latest;
  Steps_moves m n st st' e :
    0 < n → store_dirty st = false → migrate_Steps m (- n) st = (st', e) → store_dirty st' = false →
    (store_version st' ≤ store_version st)%nat
    ∧ files_run st st';
  Steps_completes m n st st' :
    0 < n → migrate_Steps m (- n) st = (st', None) →
    store_dirty st' = false ∧ Z.of_nat (store_version st') + n = Z.of_nat (store_version st);
  Steps_no_change m n st st' :
    0 < n → migrate_Steps m (- n) st = (st', Some ErrNoChange) → st' = st;
  Up_refuses_dirty m st :
    store_dirty st = true → ∃ msg, migrate_Up m st = (st, Some (MigrateError msg));
  Steps_refuses_dirty m n st :
    0 < n → store_dirty st = true → ∃ msg, migrate_Steps m (- n) st = (st, Some (MigrateError msg));
  Version_reports m st v dirty :
    migrate_Version m st = Ok (v, dirty) →
    v = Z.of_nat (store_version st) ∧ dirty = store_dirty st;
  Version_none m st :
    migrate_Version m st = Err ErrNilVersion → store_version st = 0%nat
}.

Section commands.
Context `{Unicode} `{VersionsOk}.

(** The schema is the one of the recorded version and the rows satisfy it,
    unless a file was left unfinished. *)
Record at_version (st : store) : Prop := {
  av_clean : store_dirty st = false;
  av_known : (store_version st ≤ latest)%nat;
  av_schema : schema_at (store_version st) = Ok (store_schema st);
  av_stored : stored (store_schema st) (store_rows st)
}.

Definition consistent (st : store) : Prop := store_dirty st = true ∨ at_version st.

(** Every row is where it was, with the fields it had and perhaps more. *)
Definition rows_kept (st st' : store) : Prop :=
  ∀ name, Forall2 prefix (store_rows st name) (store_rows st' name).

Lemma at_version_move st st' :
  at_version st → (store_version st' ≤ latest)%nat → files_run st st' → store_dirty st' = false →
  at_version st' ∧ ((store_version st ≤ store_version st')%nat → rows_kept st st').
Proof.
  intros [_ Hv Hs Hst] Hv' [Hm Hr] Hd'.
  destruct (moved _ _ _ _ _ Hv Hv' Hs Hm Hst) as (Hs' & Hst' & Hkept). split.
  - split; [done..|]. by rewrite Hr.
  - intros Hle name. rewrite Hr. by apply Hkept.
Qed.

Lemma dirty_dec st : store_dirty st = true ∨ store_dirty st = false.
Proof. destruct (store_dirty st); auto. Qed.

Lemma Up_consistent fs url st st' e :
  consistent st → Up fs url st = (st', e) →
  consistent st'
  ∧ (e = None → at_version st' ∧ store_version st' = latest ∧ rows_kept st st')
  ∧ (store_dirty st = true → st' = st ∧ e ≠ None).
Proof.
  intros Hst. unfold Up. destruct (newMigrate fs url st) as [m|]; [|by intros [= <- <-]; split_and!].
  destruct (migrate_Up m st) as [st2 e2] eqn:Hup. intros [= <- <-].
  destruct Hst as [Hd|Hat].
  - destruct (Up_refuses_dirty m st Hd) as [msg Hm]. rewrite Hm in Hup. simplify_eq.
    split; [by left|]. by split.
  - pose proof Hat as [Hd Hv _ _].
    assert (store_dirty st2 = false → at_version st2 ∧ rows_kept st st2) as Hmv.
    { intros Hd2. destruct (Up_moves m st st2 e2 Hd Hv Hup Hd2) as [[Hle ?] ?].
      destruct (at_version_move st st2 Hat) as [? Hk]; auto. }
    split; [destruct (dirty_dec st2); [by left|right; by apply Hmv]|]. split; [|congruence].
    intros He. destruct (Up_completes m st st2 e2 Hup) as [Hd2 ?].
    { destruct e2 as [[]|]; auto; discriminate. }
    destruct (Hmv Hd2). done.
Qed.

Lemma Down_consistent fs url n st st' e :
  0 < n → consistent st → Down fs url n st = (st', e) →
  consistent st'
  ∧ (e = None → at_version st'
     ∧ (st' = st ∨ Z.of_nat (store_version st') + n = Z.of_nat (store_version st)))
  ∧ (store_dirty st = true → st' = st ∧ e ≠ None).
Proof.
  intros Hn Hst. unfold Down. rewrite (proj2 (Z.ltb_ge _ _)) by lia.
  destruct (newMigrate fs url st) as [m|]; [|by intros [= <- <-]; split_and!].
  destruct (migrate_Steps m (- n) st) as [st2 e2] eqn:Hsteps. intros [= <- <-].
  destruct Hst as [Hd|Hat].
  - destruct (Steps_refuses_dirty m n st Hn Hd) as [msg Hm]. rewrite Hm in Hsteps. simplify_eq.
    split; [by left|]. by split.
  - pose proof Hat as [Hd Hv _ _].
    assert (store_dirty st2 = false → at_version st2) as Hmv.
    { intros Hd2. destruct (Steps_moves m n st st2 e2 Hn Hd Hsteps Hd2) as [? ?].
      apply (at_version_move st st2 Hat); [lia|done..]. }
    split; [destruct (dirty_dec st2); [by left|right; auto]|]. split; [|congruence].
    intros He. destruct e2 as [[]|]; try discriminate.
    + apply Steps_no_change in Hsteps as ->; auto.
    + apply Steps_completes in Hsteps as [? ?]; auto.
Qed.

(** A sequence of runs of the command, each with what the opening of the
    embedded files answers it. *)
Definition run_commands (conf : string) (l : list (option string * migrate_flags)) (st : store)
  : store :=
  foldl (λ st p, (migrate_main p.1 conf p.2 st).1) st l.

(** What one run does to a consistent database. *)
Record command_spec (f : migrate_flags) (st st' : store) (res : command_result) : Prop := {
  cs_consistent : consistent st';
  cs_version : fl_version f = true → st' = st;
  cs_printed v dirty : res = PrintedVersion v dirty →
    v = Z.of_nat (store_version st) ∧ (0 < v → dirty = store_dirty st);
  cs_up : res = Silent → fl_up f = true →
    at_version st' ∧ store_version st' = latest ∧ rows_kept st st';
  cs_down : res = Silent → fl_up f = false →
    at_version st'
    ∧ (st' = st ∨ Z.of_nat (store_version st') + fl_down f = Z.of_nat (store_version st));
  cs_dirty : store_dirty st = true → st' = st ∧ res ≠ Silent
}.

Lemma no_command f st res :
  consistent st → res ≠ Silent → (∀ v dirty, res ≠ PrintedVersion v dirty) → command_spec f st st res.
Proof. intros Hst Hres Hp. split; try done. intros v dirty ?. by destruct (Hp v dirty). Qed.

Lemma migrate_main_consistent fs conf f st st' res :
  consistent st → migrate_main fs conf f st = (st', res) → command_spec f st st' res.
Proof.
  intros Hst. unfold migrate_main. cbv zeta.
  set (url := if String.eqb (fl_database f) "" then conf else fl_database f).
  destruct (String.eqb url ""); [intros [= <- <-]; by apply no_command|].
  destruct (fl_version f) eqn:Hv.
  { intros [= <- <-]. unfold Version.
    destruct (newMigrate fs url st) as [m|]; [|by apply no_command].
    destruct (migrate_Version m st) as [[v dirty]|[]] eqn:Hr; try by apply no_command.
    - apply Version_reports in Hr as [-> ->]. split; try done. by intros v dirty [= <- <-].
    - apply Version_none in Hr. split; try done. intros v dirty [= <- <-]. by rewrite Hr. }
  destruct (fl_up f) eqn:Hu.
  { destruct (Up fs url st) as [st2 e] eqn:Hup. intros [= <- <-].
    destruct (Up_consistent fs url st st2 e Hst Hup) as (Hs & He & Hd).
    split; try congruence; destruct e; try done; try (by intros; apply He).
    - intros Hdirty. by destruct (Hd Hdirty).
    - intros Hdirty. by destruct (Hd Hdirty). }
  destruct (Z.ltb_spec 0 (fl_down f)) as [Hn|_]; [|intros [= <- <-]; by apply no_command].
  destruct (Down fs url (fl_down f) st) as [st2 e] eqn:Hdown. intros [= <- <-].
  destruct (Down_consistent fs url (fl_down f) st st2 e Hn Hst Hdown) as (Hs & He & Hd).
  split; try congruence; destruct e; try done; try (by intros; apply He).
  - intros Hdirty. by destruct (Hd Hdirty).
  - intros Hdirty. by destruct (Hd Hdirty).
Qed.

Lemma run_commands_consistent conf l st : consistent st → consistent (run_commands conf l st).
Proof.
  revert st. induction l as [|[fs f] l IH]; [done|]. intros st Hst. apply IH. simpl.
  destruct (migrate_main fs conf f st) as [st' res] eqn:Hrun. simpl.
  by eapply cs_consistent, migrate_main_consistent.
Qed.

(** C34: the migration files undo and redo each other exactly, also with rows
    in the tables.  However the migration command is run, up or down, any
    number of times and with any failures of the driver: the schema is the
    one that the up files of the recorded version give from nothing, and the
    rows satisfy its types, keys, references and checks, unless a file was
    left unfinished.  From there a silent [-up] leads to the latest version
    and its schema, whatever was undone before, and leaves every row where it
    is with all the fields it had; a silent [-down n] leads to the schema that
    many versions back; [-version] prints the recorded version and changes
    nothing; and a database left dirty is touched by none of them, and none
    is silent about it. *)
Theorem migrations_undo_and_redo conf l st :
  consistent st →
  let st1 := run_commands conf l st in
  consistent st1
  ∧ ∀ fs f st2 res, migrate_main fs conf f st1 = (st2, res) → command_spec f st1 st2 res.
Proof.
  intros Hst st1. pose proof (run_commands_consistent conf l st Hst).
  split; [done|]. intros *. by apply migrate_main_consistent.
Qed.
End commands.

(** ** The contents the latest schema admits *)

(** Rows are rendered from a map: each has its key, and stands once. *)
Section rows.
Context {A : Type} (f : uuid * A → row) (m : gmap uuid A).

Lemma rows_forall (P : row → Prop) :
  Forall P (f <$> map_to_list m) ↔ ∀ k a, m !! k = Some a → P (f (k, a)).
Proof.
  rewrite Forall_fmap, Forall_forall. split.
  - intros Hall k a Hk. by apply (Hall (k, a)), elem_of_map_to_list.
  - intros Hall [k a] ?%elem_of_map_to_list. by apply Hall.
Qed.

Lemma rows_exists (P : row → Prop) :
  Exists P (f <$> map_to_list m) ↔ ∃ k a, m !! k = Some a ∧ P (f (k, a)).
Proof.
  rewrite Exists_fmap, Exists_exists. split.
  - intros ([k a] & ?%elem_of_map_to_list & ?). eauto.
  - intros (k & a & ? & ?). exists (k, a). by rewrite elem_of_map_to_list.
Qed.

Lemma rows_distinct cols :
  distinct_on cols (f <$> map_to_list m) ↔
  ∀ k k' a a', m !! k = Some a → m !! k' = Some a' →
    Forall (λ c, get c (f (k, a)) = get c (f (k', a')) ∧ get c (f (k, a)) ≠ VNull) cols → k = k'.
Proof.
  split.
  - intros Hd k k' a a' Hk Hk' Hall.
    apply elem_of_map_to_list, list_elem_of_lookup in Hk as [i Hi], Hk' as [j Hj].
    assert (i = j) as <-; [|congruence].
    apply (Hd i j (f (k, a)) (f (k', a'))); [by rewrite list_lookup_fmap, Hi|
      by rewrite list_lookup_fmap, Hj|done].
  - intros Hd i j r r' Hr Hr' Hall. rewrite list_lookup_fmap in Hr, Hr'.
    apply fmap_Some in Hr as ([k a] & Hi & ->), Hr' as ([k' a'] & Hj & ->).
    pose proof (list_elem_of_lookup_2 _ _ _ Hi) as Hk%elem_of_map_to_list.
    pose proof (list_elem_of_lookup_2 _ _ _ Hj) as Hk'%elem_of_map_to_list.
    pose proof (Hd k k' a a' Hk Hk' Hall) as <-. simplify_eq.
    exact (NoDup_lookup _ _ _ _ (NoDup_map_to_list m) Hi Hj).
Qed.
End rows.

Definition latest_schema : schema :=
  Eval vm_compute in match schema_at latest with Ok s => s | Err _ => empty_schema end.

Lemma schema_at_latest : schema_at latest = Ok latest_schema.
Proof. vm_compute. reflexivity. Qed.

(** The attempts of a row fit their [int] column. *)
Definition attempts_int4 (d : database) : Prop :=
  map_Forall (λ _ o, int4 (ob_attempts o) = true) (event_outbox d).

Definition latest_table (name : string) : table :=
  default (Table [] []) (assoc name (sc_tables latest_schema)).

Lemma latest_admits contents :
  admits latest_schema contents ↔
  let ok name := table_admits contents (contents name) (latest_table name) in
  ok "citizens" ∧ ok "notifications" ∧ ok "event_outbox" ∧ ok "webhook_dlq" ∧ ok "push_devices".
Proof. unfold admits. simpl. rewrite !Forall_cons, Forall_nil. tauto. Qed.

(** A row fits its columns when each value does; the optional ones either way. *)
Ltac fit_row :=
  repeat (apply Forall2_cons; split;
          [first [exact I | match goal with |- context [opt _ ?o] => by destruct o end
                 | unfold fits; simpl; match goal with H : _ = true |- _ => by rewrite H end]|]);
  by apply Forall2_nil.

Section admitted.
Variable d : database.
Abbreviation contents := (contents_of d).

Lemma key_distinct {A} (f : uuid * A → row) (m : gmap uuid A) :
  (∀ p, get "id" (f p) = VUuid p.1) → distinct_on ["id"] (f <$> map_to_list m).
Proof.
  intros Hid. apply rows_distinct. intros k k' a a' _ _ [[Heq _] _]%Forall_cons.
  rewrite !Hid in Heq. by simplify_eq.
Qed.

Lemma refers_to {A} (f : uuid * A → row) (m : gmap uuid A) {B} (g : uuid * B → row) (t : string)
    (n : gmap uuid B) (c : string) (ref : A → uuid) :
  contents t = g <$> map_to_list n → (∀ p, get "id" (g p) = VUuid p.1) →
  (∀ p, get c (f p) = VUuid (ref p.2)) →
  holds_in contents (f <$> map_to_list m) (References c t "id")
  ↔ ∀ k a, m !! k = Some a → is_Some (n !! ref a).
Proof.
  intros Ht Hg Hf. simpl. rewrite rows_forall, Ht. setoid_rewrite rows_exists.
  apply forall_proper. intros k. apply forall_proper. intros a. rewrite Hf. simpl. split.
  - intros Hall Hk. destruct (Hall Hk) as (k' & b & Hb & Heq); [done|].
    rewrite Hg in Heq. simplify_eq. by exists b.
  - intros Hall Hk _. destruct (Hall Hk) as [b Hb]. exists (ref a), b. by rewrite Hg.
Qed.

(** The primary key never says anything. *)
Lemma table_rows {A} (f : uuid * A → row) (m : gmap uuid A) rows t ks :
  rows = f <$> map_to_list m → (∀ p, get "id" (f p) = VUuid p.1) →
  tb_constraints t = PrimaryKey "id" :: ks →
  table_admits contents rows t ↔
  (∀ k a, m !! k = Some a → Forall2 fits (tb_columns t) (f (k, a)))
  ∧ Forall (holds_in contents rows) ks.
Proof.
  intros -> Hid Ht. unfold table_admits. rewrite rows_forall, Ht, Forall_cons.
  pose proof (key_distinct f m Hid). simpl. tauto.
Qed.

Lemma citizens_admitted :
  table_admits contents (contents "citizens") (latest_table "citizens") ↔
  ∀ i j c c', citizens d !! i = Some c → citizens d !! j = Some c' →
    ct_fingerprint c = ct_fingerprint c' → i = j.
Proof.
  rewrite (table_rows citizen_row (citizens d)) by done. rewrite Forall_singleton. simpl.
  change (contents "citizens") with (citizen_row <$> map_to_list (citizens d)).
  rewrite rows_distinct. split.
  - intros [_ Hu] i j c c' Hi Hj Heq. apply (Hu i j c c' Hi Hj), Forall_singleton. unfold get, assoc. simpl.
    by rewrite Heq.
  - intros Hu. split; [intros k c _; fit_row|].
    intros i j c c' Hi Hj [[[= Heq] _] _]%Forall_cons. by eapply Hu.
Qed.

Lemma notifications_admitted :
  table_admits contents (contents "notifications") (latest_table "notifications") ↔
  (∀ i n, notifications d !! i = Some n → is_Some (citizens d !! nt_citizen_id n))
  ∧ ∀ i j n n' k, notifications d !! i = Some n → notifications d !! j = Some n' →
      nt_idempotency_key n = Some k → nt_idempotency_key n' = Some k → i = j.
Proof.
  rewrite (table_rows notification_sql_row (notifications d)) by done.
  change (contents "notifications") with (notification_sql_row <$> map_to_list (notifications d)).
  rewrite Forall_cons, Forall_singleton.
  rewrite (refers_to notification_sql_row _ citizen_row _ (citizens d) _ nt_citizen_id) by done.
  cbn [holds_in]. rewrite rows_distinct. split.
  - intros (_ & Hc & Hu). split; [done|]. intros i j n n' k Hi Hj Hk Hk'.
    apply (Hu i j n n' Hi Hj), Forall_singleton. unfold get, assoc. simpl.
    by rewrite Hk, Hk'.
  - intros [Hc Hu]. split; [intros k n _; fit_row|]. split; [done|].
    intros i j n n' Hi Hj [[Heq Hnull] _]%Forall_cons. unfold get, assoc in Heq, Hnull. simpl in Heq, Hnull.
    destruct (nt_idempotency_key n) eqn:Hk, (nt_idempotency_key n') eqn:Hk'; simplify_eq/=.
    by eapply Hu.
Qed.

Lemma outbox_admitted :
  table_admits contents (contents "event_outbox") (latest_table "event_outbox") ↔
  attempts_int4 d
  ∧ (∀ i o, event_outbox d !! i = Some o → is_Some (citizens d !! ob_citizen_id o))
  ∧ ∀ i o, event_outbox d !! i = Some o → is_Some (notifications d !! ob_notification_id o).
Proof.
  rewrite (table_rows outbox_sql_row (event_outbox d)) by done.
  change (contents "event_outbox") with (outbox_sql_row <$> map_to_list (event_outbox d)).
  rewrite !Forall_cons, Forall_nil.
  rewrite (refers_to outbox_sql_row _ citizen_row _ (citizens d) _ ob_citizen_id) by done.
  rewrite (refers_to outbox_sql_row _ notification_sql_row _ (notifications d) _ ob_notification_id)
    by done.
  cbn [holds_in]. rewrite rows_forall. split.
  - intros (Hfit & Hc & Hn & _). split; [|done]. intros k o Ho.
    pose proof (Forall2_lookup_lr _ _ _ 5 _ _ (Hfit k o Ho) eq_refl eq_refl) as Ha.
    unfold fits in Ha. simpl in Ha. by destruct (int4 (ob_attempts o)).
  - intros (Ha & Hc & Hn). split; [|split_and!; [done|done| |done]].
    + intros k o Ho. pose proof (Ha k o Ho) as Hi. simpl in Hi. fit_row.
    + intros k o _ _. exists (status_text (ob_status o)). split; [done|]. destruct (ob_status o); set_solver.
Qed.

Lemma dlq_admitted :
  table_admits contents (contents "webhook_dlq") (latest_table "webhook_dlq").
Proof. apply (table_rows dlq_row (webhook_dlq d) _ _ []); [done..|]. split; [|done]. intros k q _. fit_row. Qed.

Lemma devices_admitted :
  table_admits contents (contents "push_devices") (latest_table "push_devices") ↔
  (∀ i v, push_devices d !! i = Some v → is_Some (citizens d !! dv_citizen_id v))
  ∧ ∀ i j v v', push_devices d !! i = Some v → push_devices d !! j = Some v' →
      dv_citizen_id v = dv_citizen_id v' → dv_token v = dv_token v' → i = j.
Proof.
  rewrite (table_rows device_row (push_devices d)) by done.
  change (contents "push_devices") with (device_row <$> map_to_list (push_devices d)).
  rewrite Forall_cons, Forall_singleton.
  rewrite (refers_to device_row _ citizen_row _ (citizens d) _ dv_citizen_id) by done.
  cbn [holds_in]. rewrite rows_distinct. split.
  - intros (_ & Hc & Hu). split; [done|]. intros i j v v' Hi Hj Hcit Htok.
    apply (Hu i j v v' Hi Hj). repeat constructor; try done; unfold get, assoc; simpl; by rewrite ?Hcit, ?Htok.
  - intros [Hc Hu]. split; [intros k v _; fit_row|]. split; [done|].
    intros i j v v' Hi Hj [[[= ?] _] [[[= ?] _] _]%Forall_cons]%Forall_cons. by eapply Hu.
Qed.

Lemma contents_admitted : admits latest_schema contents ↔ wf d ∧ attempts_int4 d.
Proof.
  rewrite latest_admits. cbv zeta.
  rewrite citizens_admitted, notifications_admitted, outbox_admitted, devices_admitted.
  pose proof dlq_admitted. split.
  - intros (? & [? ?] & (? & ? & ?) & _ & ? & ?). by repeat split.
  - intros [[] ?]. by split_and!.
Qed.
End admitted.

Lemma bounded_int4 max d : attempts_bounded max d → attempts_int4 d.
Proof.
  intros Hb id o Ho. destruct (Hb id o Ho) as [? _]. unfold int4. apply andb_true_iff.
  rewrite !Z.leb_le. lia.
Qed.

(** ** The server on its schema *)

Section server.
Context `{Unicode} `{VersionsOk} `{UuidText} `{PostgresOk}.

(** C35: the program and the schema agree.  A server that starts, on a
    database in whatever version and with whatever rows the migration command
    left it, finds the latest schema: its types, [NOT NULL], [CHECK], keys and
    references admit exactly the tables that are well formed and whose
    attempts fit the column.  So the tables it finds are of that kind, with
    every row and field there was before; and the servers' own tables are, in
    every state that their interleaved statements reach from empty ones, their
    workers having one [MaxAttempts]: no constraint is ever violated. *)
Theorem started_schema_admits_tables cfg env st st' a :
  consistent st → main cfg env st = (st', Ok a) →
  (∀ d, admits (store_schema st') (contents_of d) ↔ wf d ∧ attempts_int4 d)
  ∧ (rows_kept st st'
     ∧ ∀ d, (∀ name, contents_of d name = store_rows st' name) → wf d ∧ attempts_int4 d)
  ∧ ∀ svc wks max s, 1 ≤ max → (∀ i, wk_MaxAttempts (wks i) = max) →
      rtc (shared_step svc wks) empty_shared s →
      admits (store_schema st') (contents_of (sh_db s)).
Proof.
  intros Hst. unfold main. repeat (case_match; [done|]).
  destruct (telemetry_Init _ _ _ _); [|done].
  destruct (Up (en_iofs env) (DatabaseURL cfg) st) as [st2 e] eqn:Hup. intros Hmain.
  destruct (Up_consistent _ _ _ _ _ Hst Hup) as (_ & He & _).
  assert (e = None ∧ st' = st2) as [-> ->] by by destruct e; simplify_eq.
  destruct He as ([_ _ Hs Hrows] & Hv & Hkept); [done|]. rewrite Hv, schema_at_latest in Hs.
  injection Hs as Hs. rewrite <-Hs in Hrows |- *. split; [apply contents_admitted|].
  split; [split; [done|]|].
  - intros d Hd. by apply contents_admitted, (stored_ext _ _ _ Hd Hrows).
  - intros svc wks max s Hmax Hwks (_ & [Hwf _ _ Hb] & _)%(shared_reachable svc wks max Hmax Hwks).
    apply contents_admitted. split; [done|by eapply bounded_int4].
Qed.
End server.
