(* ===== verification/ContractProps.v ===== *)
(** * The contract of the API

    For each route, the statuses and error codes it may answer with, and the
    proof that every handler keeps to its row whatever the request, the
    tables and the environment, but for one answer on which the code and
    [docs/] disagree: [GET /notifications/:id] with an id that is no UUID.

    A row is what [docs/] says of the route where it says anything
    ([docs/webhook.md], [docs/notifications.md], [docs/websocket.md] and
    [docs/rest-api.md] with its table of common errors).  The docs are silent
    on much: the error codes of the webhook, [500] outside the webhook, the
    [501] of a route that is not wired, the [503] of [/ready], the [404] of
    [read-all] and [citizens/me] for a token without a citizen, all of
    [devices] but that the routes exist, the [400] of a blank chamado and the
    [503] of an unconfigured [/ws].  These entries record the code's choice,
    so that no other can slip in.  A missing token is [401] by
    [docs/notifications.md] and the table of common errors, though line 10 of
    [docs/rest-api.md] reads as [404]. *)

From S2P Require Import Prelude GoStrings GoTime Json Uuid World Repo RepoFacts Payload Http.
From S2P Require Import Integrations WebhookService Auth HttpApi WsBus Notify Config Upstream Migrate Server.

(** ** The table *)

Definition auth_errors : list (Z * string) :=
  [(StatusUnauthorized, "unauthorized"); (StatusInternalServerError, "internal_error")].
Definition missing : Z * string := (StatusNotFound, "not_found").
Definition bad_id : Z * string := (StatusBadRequest, "invalid_id").

(** The statuses of success and the error codes of a route.  [501] is the
    stub of a route that is not wired.  An id that is no UUID is [404] on
    [GET /notifications/:id] by [docs/rest-api.md] (line 10) and
    [docs/notifications.md] (line 76), and [404] or [400] on
    [PATCH /notifications/:id/read] by [docs/notifications.md] (lines 67 and
    68, which contradict each other). *)
Definition contract_table : list ((string * string) * (list Z * list (Z * string))) :=
  [(("GET", "/health"), ([StatusOK], []));
   (("GET", "/ready"), ([StatusOK; StatusServiceUnavailable], []));
   (("POST", "/webhook"),
      ([StatusOK; StatusNotImplemented],
       auth_errors ++ [(StatusBadRequest, "invalid_request");
                       (StatusRequestEntityTooLarge, "payload_too_large")]));
   (("GET", "/notifications"),
      ([StatusOK; StatusNotImplemented],
       auth_errors ++ [(StatusBadRequest, "invalid_limit"); (StatusBadRequest, "invalid_offset")]));
   (("GET", "/notifications/unread-count"), ([StatusOK; StatusNotImplemented], auth_errors));
   (("PATCH", "/notifications/read-all"),
      ([StatusOK; StatusNotImplemented], missing :: auth_errors));
   (("GET", "/notifications/:id"),
      ([StatusOK; StatusNotImplemented], missing :: auth_errors));
   (("PATCH", "/notifications/:id/read"),
      ([StatusNoContent; StatusNotImplemented], missing :: bad_id :: auth_errors));
   (("GET", "/citizens/me"), ([StatusOK; StatusNotImplemented], missing :: auth_errors));
   (("POST", "/devices"),
      ([StatusOK; StatusNotImplemented],
       missing :: (StatusBadRequest, "invalid_request") :: auth_errors));
   (("DELETE", "/devices"),
      ([StatusNoContent; StatusNotImplemented],
       missing :: (StatusBadRequest, "missing_token") :: auth_errors));
   (("GET", "/chamados/:chamado_id/summary"),
      ([StatusBadGateway; StatusServiceUnavailable; StatusNotImplemented],
       missing :: bad_id :: auth_errors));
   (("GET", "/mapas/status"), ([StatusOK; StatusNotImplemented], auth_errors));
   (("GET", "/ws"), ([], (StatusServiceUnavailable, "unavailable") :: auth_errors))].

Definition route_eqb (x y : string * string) : bool :=
  String.eqb x.1 y.1 && String.eqb x.2 y.2.

Definition contract_of (r : string * string) : list Z * list (Z * string) :=
  match List.find (λ e, route_eqb e.1 r) contract_table with
  | Some e => e.2
  | None => ([], [])
  end.

(** [{"error": code}], and nothing else. *)
Definition error_code (rsp : response) : option string :=
  match rs_content rsp with
  | JsonBody (JObj [(k, JStr code)]) => if String.eqb k "error" then Some code else None
  | _ => None
  end.

(** A body passed on from a peer. *)
Definition is_raw (rsp : response) : bool :=
  match rs_content rsp with RawBody _ _ => true | _ => false end.

(** An error of the route's list, a success of the route, or the answer of
    the chamados peer below 500. *)
Definition conforms (r : string * string) (rsp : response) : bool :=
  match error_code rsp with
  | Some code => existsb (λ e, (e.1 =? rs_status rsp) && String.eqb e.2 code) (contract_of r).2
  | None =>
      if is_raw rsp
      then route_eqb r ("GET", "/chamados/:chamado_id/summary") && (rs_status rsp <? 500)
      else existsb (Z.eqb (rs_status rsp)) (contract_of r).1
  end.

Definition reply_conforms (r : string * string) (rep : reply) : bool :=
  match rep with
  | Reply rsp => conforms r rsp
  | Upgrade _ _ => route_eqb r ("GET", "/ws")
  end.

(** ** What an operation may return *)

Definition returns {A} (Q : A → Prop) (m : ST A) : Prop := ∀ w, Q (m w).2.

Lemma returns_ret {A} (Q : A → Prop) a : Q a → returns Q (mret a).
Proof. by intros HQ w. Qed.

Lemma returns_bind {A B} (Q : B → Prop) (m : ST A) (k : A → ST B) :
  (∀ a, returns Q (k a)) → returns Q (m ≫= k).
Proof. intros Hk w. unfold mbind, ST_bind. destruct (m w) as [w1 a]. apply Hk. Qed.

Lemma returns_bind_post {A B} (P : A → Prop) (Q : B → Prop) (m : ST A) (k : A → ST B) :
  returns P m → (∀ a, P a → returns Q (k a)) → returns Q (m ≫= k).
Proof.
  intros Hm Hk w. unfold mbind, ST_bind. specialize (Hm w). destruct (m w) as [w1 a]. by apply Hk.
Qed.

Lemma returns_impl {A} (P Q : A → Prop) (m : ST A) :
  (∀ a, P a → Q a) → returns P m → returns Q m.
Proof. intros Hi Hm w. apply Hi, Hm. Qed.

(** Follow a handler to its answers. *)
Ltac conform :=
  repeat first
    [ apply returns_ret; reflexivity
    | apply returns_bind; intros ?
    | case_match ].

Section contract.
Context `{UuidText} `{Postgres} `{Jwt} `{Gobreaker} `{Unicode}.

Abbreviation meets r := (returns (λ rsp, conforms r rsp = true)).

(** What an encoded value looks like; a value that cannot be encoded leaves
    the body empty. *)
Lemma conforms_or_empty r status v :
  existsb (Z.eqb status) (contract_of r).1 = true →
  (∀ j, v = Some j → error_code (Response status (JsonBody j)) = None) →
  conforms r (c_JSON_or_empty status v) = true.
Proof.
  intros Hs Hv. destruct v as [j|]; [|exact Hs]. unfold conforms, c_JSON_or_empty.
  rewrite (Hv j eq_refl). exact Hs.
Qed.

Lemma HandlePOST_conforms s rq : meets ("POST", "/webhook") (HandlePOST s rq).
Proof. unfold HandlePOST, handle_verified, writeWebhookError. conform. Qed.

Lemma handleListNotifications_conforms ctx rq :
  meets ("GET", "/notifications") (handleListNotifications ctx rq).
Proof.
  unfold handleListNotifications. destruct (parsePagination rq) as [[limit offset]|rsp] eqn:E.
  - destruct (CitizenID ctx) as [cid|]; [|by apply returns_ret].
    apply returns_bind. intros [[rows total]|e]; apply returns_ret; [|done].
    apply conforms_or_empty; [done|]. intros j. by destruct (mapM _ rows); intros [= <-].
  - apply returns_ret. revert E. unfold parsePagination. repeat case_match; by intros [= <-].
Qed.

Lemma handleUnreadCount_conforms ctx rq :
  meets ("GET", "/notifications/unread-count") (handleUnreadCount ctx rq).
Proof. unfold handleUnreadCount. conform. Qed.

Lemma handleMarkAllRead_conforms ch ctx rq :
  meets ("PATCH", "/notifications/read-all") (handleMarkAllRead ch ctx rq).
Proof. unfold handleMarkAllRead. conform. Qed.

Lemma handleMarkRead_conforms ch ctx rq :
  meets ("PATCH", "/notifications/:id/read") (handleMarkRead ch ctx rq).
Proof. unfold handleMarkRead. conform. Qed.

(** The answer outside the contract: the code tells an id that is no UUID
    from one that names nothing. *)
Definition deviates (r : string * string) (rq : request) (rep : reply) : Prop :=
  r = ("GET", "/notifications/:id") ∧ uuid_Parse (rq_param rq "id") = None
  ∧ rep = Reply invalid_id.

(** The answers of [GET /notifications/:id], the deviation included. *)
Definition detail_answer (rq : request) (rsp : response) : Prop :=
  conforms ("GET", "/notifications/:id") rsp = true
  ∨ deviates ("GET", "/notifications/:id") rq (Reply rsp).

Lemma handleGetNotification_conforms ctx rq :
  returns (detail_answer rq) (handleGetNotification ctx rq).
Proof.
  unfold handleGetNotification. destruct (CitizenID ctx) as [cid|];
    [|by apply returns_ret; left].
  destruct (uuid_Parse _) as [nid|] eqn:En; [|by apply returns_ret; right].
  eapply returns_impl; [intros a; apply or_introl|].
  apply returns_bind. intros [[row|]|e]; apply returns_ret; try done.
  apply conforms_or_empty; [done|]. intros j. unfold row_json, notificationJSON_value, optional, mbind, option_bind.
  repeat case_match; intros; by simplify_eq.
Qed.

Lemma handleCitizenMe_conforms ctx rq : meets ("GET", "/citizens/me") (handleCitizenMe ctx rq).
Proof.
  unfold handleCitizenMe. destruct (CitizenID ctx) as [cid|]; [|by apply returns_ret].
  apply returns_bind. intros [[row|]|e]; [|by apply returns_ret..].
  apply returns_bind. intros [n|e]; apply returns_ret; [|done].
  apply conforms_or_empty; [done|]. intros j. unfold citizen_json, optional, mbind, option_bind.
  repeat case_match; intros; by simplify_eq.
Qed.

Lemma handleRegisterDevice_conforms ctx rq :
  meets ("POST", "/devices") (handleRegisterDevice ctx rq).
Proof. unfold handleRegisterDevice. conform. Qed.

Lemma handleDeleteDevice_conforms ctx rq :
  meets ("DELETE", "/devices") (handleDeleteDevice ctx rq).
Proof. unfold handleDeleteDevice. conform. Qed.

Lemma handleMapasStatus_conforms m ctx rq :
  meets ("GET", "/mapas/status") (handleMapasStatus m ctx rq).
Proof.
  unfold handleMapasStatus. destruct m as [m|]; [|by apply returns_ret].
  apply (returns_bind_post (λ st, error_code (c_JSON StatusOK st) = None)).
  - unfold StatusJSON. destruct (String.eqb _ _); [by apply returns_ret|].
    repeat (apply returns_bind; intros ?). by apply returns_ret.
  - intros st Hst. apply returns_ret. unfold conforms. by rewrite Hst.
Qed.

(** ** The peer's answer *)

Definition below_500 (r : (string * Z) * option string) : Prop := r.2 = None → r.1.2 < 500.

Lemma Execute_returns b a0 f :
  returns below_500 f →
  returns (λ r, r.2 = None → r.1.2 < 500) (Execute b (a0 : string * Z) f).
Proof.
  intros Hf. unfold Execute. apply returns_bind. intros now. apply returns_bind. intros h.
  destruct (breaker_refuses _ _ _); apply returns_bind; intros _; [by apply returns_ret|].
  apply (returns_bind_post below_500); [done|]. intros [a e] He.
  apply returns_bind. intros t. apply returns_bind. intros _. apply returns_ret.
  destruct e; [done|]. intros _. by apply He.
Qed.

Lemma GetSummary_returns ch id :
  returns (λ r, r.2 = None → r.1.2 < 500) (GetSummary ch id).
Proof.
  unfold GetSummary. destruct ch as [c|]; [|by apply returns_ret].
  destruct (String.eqb _ _); [by apply returns_ret|].
  apply (returns_bind_post (λ r : (string * Z) * option call_error, r.2 = None → r.1.2 < 500)).
  - apply Execute_returns. unfold summary_call. apply returns_bind.
    intros [e|status body rerr]; apply returns_ret; [done|]. unfold below_500. simpl.
    destruct (Z.leb_spec 500 status); [done|]. by intros _.
  - intros [[body status] [e|]] He; apply returns_ret; simpl;
      [destruct (is_open_state e); discriminate|]. intros _. by apply He.
Qed.

Lemma handleChamadosSummary_conforms ch ctx rq :
  meets ("GET", "/chamados/:chamado_id/summary") (handleChamadosSummary ch ctx rq).
Proof.
  unfold handleChamadosSummary. destruct ch as [c|]; [|by apply returns_ret].
  destruct (CitizenID ctx) as [cid|]; [|by apply returns_ret].
  destruct (String.eqb _ _); [by apply returns_ret|].
  apply returns_bind. intros [[]|e]; [|by apply returns_ret..].
  apply (returns_bind_post _ _ _ _ (GetSummary_returns (Some c) _)).
  intros [[body status] [e|]] He; apply returns_ret; [by destruct (is_open_state e)|].
  specialize (He eq_refl). simpl in He. destruct (Z.eqb_spec status StatusOK) as [->|_]; [done|].
  unfold conforms. simpl. by apply Z.ltb_lt.
Qed.

(** ** The routes *)

Lemma authenticated_returns (Q : response → Prop) auth (h : handler) rq :
  Q unauthorized → Q internal_error →
  (∀ ctx, returns Q (h ctx rq)) → returns Q (authenticated auth h rq).
Proof.
  intros Hu Hi Hh. unfold authenticated, Middleware.
  destruct (BearerFromRequest rq) as [raw|]; [|by apply returns_ret].
  apply returns_bind. intros [id|[|e]]; [|by apply returns_ret..].
  unfold TouchLastSeenMiddleware. destruct (CitizenID (Some id)) as [cid|]; [|done].
  by apply returns_bind.
Qed.

Definition conforming (r : (string * string) * endpoint) : Prop :=
  ∀ rq, returns (λ rep, reply_conforms r.1 rep = true ∨ deviates r.1 rq rep) (r.2 rq).

Lemma answers_conforming method pattern f :
  (∀ rq, meets (method, pattern) (f rq)) → conforming (method, pattern, answers f).
Proof.
  intros Hf rq. apply (returns_bind_post _ _ _ _ (Hf rq)). intros rsp Hr.
  apply returns_ret. by left.
Qed.

Lemma detail_conforming auth :
  conforming ("GET", "/notifications/:id", answers (authenticated auth handleGetNotification)).
Proof.
  intros rq. apply (returns_bind_post (detail_answer rq)).
  - apply authenticated_returns; [by left..|]. intros ctx. apply handleGetNotification_conforms.
  - intros rsp [Hr|Hr]; apply returns_ret; [by left|by right].
Qed.

Lemma citizen_routes_conform d auth : Forall conforming (citizen_routes d auth).
Proof.
  unfold citizen_routes. repeat (apply Forall_cons; split); [..|apply Forall_nil; exact I];
    try apply detail_conforming;
    apply answers_conforming; intros rq; apply authenticated_returns; try reflexivity; intros ctx.
  - apply handleUnreadCount_conforms.
  - apply handleMarkAllRead_conforms.
  - apply handleListNotifications_conforms.
  - apply handleMarkRead_conforms.
  - apply handleCitizenMe_conforms.
  - apply handleRegisterDevice_conforms.
  - apply handleDeleteDevice_conforms.
  - apply handleChamadosSummary_conforms.
  - apply handleMapasStatus_conforms.
Qed.

Lemma stub_routes_conform : Forall conforming stub_routes.
Proof. repeat constructor; intros rq w; left; reflexivity. Qed.

Lemma handleWS_conforming deps : conforming ("GET", "/ws", handleWS deps).
Proof.
  intros rq. eapply returns_impl; [intros a; apply or_introl|].
  unfold handleWS. destruct deps as [d|]; [|by intros w].
  destruct (negb (ws_ready d)); [by intros w|]. cbn [fst snd]. conform.
Qed.

Lemma routes_conform deps : Forall conforming (httpapi_Register deps).
Proof.
  unfold httpapi_Register. apply Forall_app. split; [|apply Forall_app; split].
  - repeat (apply Forall_cons; split); [..|apply Forall_nil; exact I].
    + intros rq w. by left.
    + apply answers_conforming. intros rq. unfold readyHandler. conform.
    + unfold webhook_endpoint. destruct deps as [d|]; [destruct (dp_Webhook d) as [s|]|].
      * apply answers_conforming. intros rq. apply HandlePOST_conforms.
      * intros rq w. by left.
      * intros rq w. by left.
  - unfold api_routes. destruct deps as [d|]; [|apply stub_routes_conform].
    destruct (dp_Pool d), (dp_AuthJWT d); try apply stub_routes_conform.
    apply citizen_routes_conform.
  - apply Forall_singleton, handleWS_conforming.
Qed.

(** C21: the API keeps its contract but for one answer.  Whatever the
    request, the tables and the environment, a route answers with one of its
    statuses of success or with exactly [{"error": code}] for one of its
    error codes and that code's status; only the chamados proxy passes a
    peer's body on, and only below 500; only the WebSocket route upgrades;
    [/mapas/status] has no failure of its own.  The exception is
    [GET /notifications/:id] when the id is no UUID: there the answer
    [400 invalid_id] is outside the contract, whose docs say 404, and it is
    the answer every citizen with an account gets, nothing being read. *)
Theorem API_keeps_its_contract :
  (∀ deps method pattern e rq w w' rep,
     (method, pattern, e) ∈ httpapi_Register deps → e rq w = (w', rep) →
     reply_conforms (method, pattern) rep = true ∨ deviates (method, pattern) rq rep)
  ∧ (∀ r rq rep, deviates r rq rep → reply_conforms r rep = false)
  ∧ (∀ cid rq w, uuid_Parse (rq_param rq "id") = None →
     handleGetNotification (Some (Some cid)) rq w = (w, invalid_id)).
Proof.
  split_and!.
  - intros deps method pattern e rq w w' rep Hin Hrun.
    pose proof (routes_conform deps) as Hall. rewrite Forall_forall in Hall.
    specialize (Hall _ Hin rq w). simpl in Hall. by rewrite Hrun in Hall.
  - by intros r rq rep (-> & _ & ->).
  - intros cid rq w Hn. unfold handleGetNotification. simpl. by rewrite Hn.
Qed.
End contract.
