(* ===== verification/PipelineProps.v ===== *)
(** * From the event to the open connection

    The whole way of an event, over every component: the webhook's
    transaction, the worker's ticks, Redis, the subscriber, the hub with its
    pumps. *)

From S2P Require Import Prelude GoStrings GoTime Json Uuid Identity Payload World Repo RepoFacts RepoSound.
From S2P Require Import Http WebhookService WebhookFacts Integrations WsBus WsBusFacts WsBusProps.
From S2P Require Import Notify NotifyFacts NotifyProps DrainFacts DrainProps DeliveryProps Feed FeedProps.

Section pipeline.
Context `{UuidTextOk} `{PostgresOk} `{!PostgresJsonb _} `{Gobreaker} `{Unicode}.

(** What Redis makes of a publication. *)
Definition message_of (o : outbox) : option (string * string) :=
  Some (CitizenChannel (ob_citizen_id o), ob_payload o).

Lemma message_inbox o r :
  message_of o ∈ r → ob_payload o ∈ inbox (ob_citizen_id o) r.
Proof.
  intros Hin. apply list_elem_of_omap. exists (message_of o). split; [done|].
  unfold to_citizen, message_of. by rewrite dispatch_of_channel, decide_True.
Qed.

(** C3: from end to end.  When an event is answered [ok], there is a new,
    pending outbox row for the citizen with the CPF's fingerprint.  At any
    later time at which the row is due and Redis and the database answer,
    enough ticks publish it and mark it [sent].  A connection of that citizen
    that is registered and attended when the message comes and when it has
    been dispatched, whatever happens at other connections meanwhile, then
    has the payload written or in its buffer; and what it decodes is the
    event. *)
Theorem events_reach_open_connections s rq body p w w1
  (Hacc : accepted s rq body p) (Htx : w_tx w = None)
  (Hrun : HandlePOST s rq w = (w1, ok_response)) :
  ∃ oid o, event_outbox (w_db w) !! oid = None ∧ event_outbox (w_db w1) !! oid = Some o
    ∧ ob_status o = pending
    ∧ (∃ c, citizens (w_db w1) !! ob_citizen_id o = Some c
            ∧ ct_fingerprint c = CitizenFingerprint (svc_pepper s) (CPF p))
    ∧ (∀ wk w2 n, calm_world w2 → event_outbox (w_db w2) !! oid = Some o →
         ob_next_attempt_at o ≤ w_pgnow w2 → oid ∉ w_locked w2 →
         (length (due w2) ≤ n * batch_limit wk)%nat →
         ∃ w3 effs, run_ticks wk n w2 = (w3, tt) ∧ w_effects w3 = w_effects w2 ++ effs
           ∧ publication o ∈ effs
           ∧ event_outbox (w_db w3) !! oid = Some (mark_sent (w_pgnow w2) o))
    ∧ ∀ f f' q c l, feed_reachable f → rtc feed_step f f' → attentive f q → attentive f' q →
        clients (fd_hub f) !! q = Some c → c_citizenID c = ob_citizen_id o →
        fd_received f' = fd_received f ++ l → message_of o ∈ l →
        ∃ c' raw, clients (fd_hub f') !! q = Some c' ∧ raw ∈ c_written c' ++ c_send c'
          ∧ carries raw p.
Proof.
  destruct (accepted_row _ _ _ _ _ _ Hacc Htx Hrun)
    as (oid & o & c & Hnew & Ho & Hc & Hfp & Hpend & _ & Hcar).
  exists oid, o. do 3 (split; [done|]). split; [by exists c|]. split.
  - intros wk w2 n Hcalm Ho2 Hdue Hlock Hn.
    assert ((oid, o) ∈ due w2) as Hin.
    { apply elem_of_due. split; [done|]. unfold claimable. simpl.
      by rewrite bool_decide_eq_true_2, (proj2 (Z.leb_le _ _) Hdue), bool_decide_eq_false_2. }
    destruct (run_ticks_up wk w2 n Hcalm) as (w3 & effs & E & He & Hp & Hd).
    rewrite take_ge in Hp, Hd by done. exists w3, effs. split; [done|]. split; [done|]. split.
    + assert (publication o ∈ List.filter is_published effs) as Hpub.
      { rewrite Hp. apply list_elem_of_fmap. by exists (oid, o). }
      by apply list_elem_of_In, filter_In in Hpub as [?%list_elem_of_In _].
    + rewrite Hd, sent_all_lookup, Ho2, decide_True; [done|].
      apply list_elem_of_fmap. by exists (oid, o).
  - intros f f' q cl l Hreach Hsteps Hatt Hatt' Hq Hcid Hl Hin.
    destruct (connection_steps f f' q cl Hreach Hsteps Hatt Hq) as (c' & next & Hc' & Hinbox & _ & Hall).
    exists c', (ob_payload o). split; [done|]. split; [|done]. rewrite (Hall Hatt').
    assert (next = inbox (ob_citizen_id o) l) as ->.
    { rewrite Hcid, Hl in Hinbox. unfold inbox in Hinbox. rewrite omap_app in Hinbox.
      by apply app_inv_head in Hinbox. }
    rewrite !elem_of_app. right. right. by apply message_inbox.
Qed.
End pipeline.
