(* ===== verification/Lifecycle.v ===== *)
(** * The process from start to exit

    [cmd/server/main.go] as the trace of what it opens, starts and closes:
    [defer] runs what it was given when the function returns, and
    [log.Fatal] ends the process without running any of it. *)

From S2P Require Import Prelude GoStrings GoTime World Integrations WsBus Notify Config Migrate Server.

(** Without an exporter the tracer's shutdown does nothing, but is deferred all
    the same. *)
Inductive resource := Tracer | PgPool | RedisConn | RootContext | MapasPinger.

#[export] Instance resource_eq_dec : EqDecision resource.
Proof. solve_decision. Defined.

Inductive goroutine := PingLoop | WorkerLoop | SubscriberLoop | HttpServer.

Inductive life_event :=
| Opened (r : resource)
| Closed (r : resource)
| Started (g : goroutine)
| Stopping (s : shutdown_step)
| Fatal (msg : string).

(** A run of the rest of [main]: its events, and how it ends. *)
Inductive run_end := Returned | Exited.
Definition life : Type := list life_event * run_end.

Definition fatal (msg : string) : life := ([Fatal msg], Exited).
Definition event (e : life_event) (rest : life) : life := (e :: rest.1, rest.2).

(** [defer close(r)] in front of the rest of the function. *)
Definition defer_close (r : resource) (rest : life) : life :=
  match rest.2 with
  | Returned => (rest.1 ++ [Closed r], Returned)
  | Exited => rest
  end.

(** What ends a running server: a signal, or [ListenAndServe]'s error. *)
Inductive ending := OnSignal | OnServeError (msg : string).

(** [rdb.Client.Close]: nothing to close without a client. *)
Definition rdb_Close (has_client has_inner : bool) : list life_event :=
  if negb has_client || negb has_inner then [] else [Closed RedisConn].

(** What [Connect] opened and, when its ping fails, closed again. *)
Definition db_opened (parse_err new_err ping_err : option string) : list life_event :=
  match parse_err, new_err, ping_err with
  | None, None, None => [Opened PgPool]
  | None, None, Some _ => [Opened PgPool; Closed PgPool]
  | _, _, _ => []
  end.
Definition rdb_opened (ping_err : option string) : list life_event :=
  match ping_err with
  | None => [Opened RedisConn]
  | Some _ => Opened RedisConn :: rdb_Close true true
  end.

Definition emit_all (es : list life_event) (rest : life) : life := (es ++ rest.1, rest.2).

(** From the HTTP server's start. *)
Definition serve (e : ending) : life :=
  event (Started HttpServer)
    match e with
    | OnServeError m => fatal ("server: " +:+ m)
    | OnSignal => (Stopping <$> waitShutdown true true, Returned)
    end.

(** Is there a client to ping with?  The nil client starts no loop and is
    not stopped. *)
Definition mapas_configured (cfg : Config) : bool :=
  match main_mapas cfg with Some _ => true | None => false end.

(** From the root context on. *)
Definition main_running (cfg : Config) (e : ending) : life :=
  event (Opened RootContext) (defer_close RootContext
    (let rest := event (Started WorkerLoop) (event (Started SubscriberLoop) (serve e)) in
     if mapas_configured cfg
     then event (Opened MapasPinger) (event (Started PingLoop) (defer_close MapasPinger rest))
     else rest)).

Section main_life.
Context `{Unicode} `{Migrator}.

Definition main_life (cfg : Config) (env : startup_env) (st : store) (e : ending) : life :=
  if String.eqb (WebhookSecret cfg) "" || String.eqb (CPFPepper cfg) ""
  then fatal "WEBHOOK_SECRET and CPF_PEPPER must be set (see .env.example)"
  else if String.eqb (JWTSecret cfg) ""
  then fatal "JWT_SECRET must be set (see .env.example)"
  else
    match telemetry_Init (OTELServiceName cfg) (OTELTracesExporter cfg)
            (en_resource env) (en_exporter env) with
    | Err m => fatal ("telemetry: " +:+ m)
    | Ok _ =>
        event (Opened Tracer) (defer_close Tracer
          match (Up (en_iofs env) (DatabaseURL cfg) st).2 with
          | Some m => fatal ("migrations: " +:+ migrate_error_text m)
          | None =>
              emit_all (db_opened (en_db_parse env) (en_db_new env) (en_db_ping env))
              match db_Connect (en_db_parse env) (en_db_new env) (en_db_ping env)
                      (DatabaseURL cfg) with
              | Err m => fatal ("database: " +:+ m)
              | Ok _ =>
                  defer_close PgPool (emit_all (rdb_opened (en_redis_ping env))
                    match rdb_Connect (en_redis_ping env) (RedisAddr cfg) with
                    | Err m => fatal ("redis: " +:+ m)
                    | Ok _ => defer_close RedisConn (main_running cfg e)
                    end)
              end
          end)
    end.
End main_life.

(** ** Reading a trace *)

Definition opened (tr : list life_event) : list resource :=
  omap (λ e, match e with Opened r => Some r | _ => None end) tr.
Definition closed (tr : list life_event) : list resource :=
  omap (λ e, match e with Closed r => Some r | _ => None end) tr.

(** ** What the process guarantees *)

Section props.
Context `{Unicode} `{Migrator}.

(** What is open when a running server is told to stop. *)
Definition all_open (cfg : Config) : list resource :=
  [Tracer; PgPool; RedisConn; RootContext] ++ (if mapas_configured cfg then [MapasPinger] else []).

Definition started_loops (cfg : Config) : list life_event :=
  (if mapas_configured cfg then [Opened MapasPinger; Started PingLoop] else [])
  ++ [Started WorkerLoop; Started SubscriberLoop; Started HttpServer].

(** C38: the life of the server process.  A start-up that fails ends with the
    fatal message of [main] and nothing it left open is closed, a pool or a
    Redis client whose ping failed apart.  A start-up that succeeds opens
    tracer, pool, Redis and root context and starts the loops; on a signal
    the loops are cancelled, the hub closed and the HTTP server drained,
    and only then everything is closed, once, in the reverse order of its
    opening.  When serving fails instead, the process exits at once: nothing
    is cancelled, drained or closed. *)
Theorem main_life_spec cfg env st e :
  match (main cfg env st).2 with
  | Err m =>
      ∃ tr, main_life cfg env st e = (tr ++ [Fatal m], Exited)
        ∧ (closed tr = []
           ∨ (en_db_ping env ≠ None ∧ closed tr = [PgPool])
           ∨ (en_redis_ping env ≠ None ∧ closed tr = [RedisConn]))
        ∧ (∀ g, Started g ∉ tr)
  | Ok _ =>
      let start := [Opened Tracer; Opened PgPool; Opened RedisConn; Opened RootContext]
                   ++ started_loops cfg in
      opened start = all_open cfg
      ∧ main_life cfg env st e
        = match e with
          | OnSignal =>
              (start ++ (Stopping <$> [CancelRoot; CloseHub; ServerShutdown (10 * Second)])
                 ++ (Closed <$> rev (all_open cfg)), Returned)
          | OnServeError m => (start ++ [Fatal ("server: " +:+ m)], Exited)
          end
  end.
Proof.
  unfold main, main_life. destruct (_ || _).
  { exists []. split; [done|]. split; [by left|]. intros g. apply not_elem_of_nil. }
  destruct (String.eqb (JWTSecret cfg) "").
  { exists []. split; [done|]. split; [by left|]. intros g. apply not_elem_of_nil. }
  destruct (telemetry_Init _ _ _ _) as [tele|m].
  2:{ exists []. split; [done|]. split; [by left|]. intros g. apply not_elem_of_nil. }
  destruct (Up _ _ st) as [st' [m|]]; simpl.
  { exists [Opened Tracer]. split; [done|]. split; [by left|]. intros g. set_solver. }
  destruct (en_db_parse env), (en_db_new env), (en_db_ping env);
    try (eexists [_]; split; [done|]; split; [by left|]; set_solver); simpl.
  - exists [Opened Tracer; Opened PgPool; Closed PgPool]. split; [done|].
    split; [right; left; by split|]. set_solver.
  - destruct (en_redis_ping env); simpl.
    + exists [Opened Tracer; Opened PgPool; Opened RedisConn; Closed RedisConn]. split; [done|].
      split; [right; right; by split|]. set_solver.
    + unfold all_open, started_loops, main_running. split; [by destruct (mapas_configured cfg)|].
      destruct (mapas_configured cfg), e; reflexivity.
Qed.
End props.
