(* ===== verification/Witnesses.v ===== *)
(** * The hypotheses of the theorems can be met

    A concrete JWT library and breaker, a small database, and one
    application of each theorem that has hypotheses. *)

From S2P Require Import Prelude GoStrings Sha256 GoTime Json Identity Uuid Payload World Repo.
From S2P Require Import RepoFacts RepoSound CitizenFacts Http Integrations IntegrationsProps.
From S2P Require Import WebhookService WebhookFacts Examples WebhookProps Auth HttpApi HttpFacts HttpProps.
From S2P Require Import WsBus Notify Config Upstream Migrate Server AuthProps NotifyFacts NotifyProps.
From S2P Require Import WsBusFacts WsBusProps System SystemProps ServerProps JsonFacts DeliveryProps.

(** ** Instances *)

(** A token is the key, a period and the CPF it names. *)
Definition example_claims (cpf : string) : accessClaims :=
  {| cl_ExpiresAt := Some (10 * Second); cl_Issuer := "idp"; cl_Audience := ["app"];
     cl_PreferredUsername := cpf |}.

Definition cpf_of_token (key raw : string) : option string :=
  unchars <$> strip (chars (key +:+ ".")) (chars raw).

#[export] Instance example_jwt : Jwt := {|
  ParseWithClaims raw kf t :=
    match kf SigningMethodHMAC with
    | Some key => example_claims <$> cpf_of_token key raw
    | None => None
    end;
  jwt_verifies m key raw claims :=
    m = SigningMethodHMAC ∧ ∃ cpf, cpf_of_token key raw = Some cpf ∧ claims = example_claims cpf
|}.

#[export] Instance example_jwt_ok : JwtOk example_jwt.
Proof.
  constructor. intros raw kf t claims. simpl. destruct (kf SigningMethodHMAC) as [key|] eqn:E; [|done].
  intros (cpf & Hcpf & ->)%fmap_Some. exists SigningMethodHMAC, key. eauto.
Qed.

(** Failures since the last success, latest first, and when the last ended. *)
Fixpoint failing (h : list breaker_event) : Z * option time :=
  match h with
  | Finished t false :: h' => let '(n, _) := failing h' in (n + 1, Some t)
  | Finished _ true :: _ => (0, None)
  | _ :: h' => failing h'
  | [] => (0, None)
  end.

#[export] Instance example_gobreaker : Gobreaker := {|
  breaker_refuses s h now :=
    match failing (rev h) with
    | (n, Some t) => if st_ReadyToTrip s n && (now <? t + st_Timeout s) then Some ErrOpenState else None
    | _ => None
    end;
  breaker_State s h now :=
    match failing (rev h) with
    | (n, Some t) => if st_ReadyToTrip s n
                     then (if now <? t + st_Timeout s then StateOpen else StateHalfOpen)
                     else StateClosed
    | _ => StateClosed
    end
|}.

(** Nothing beyond ASCII occurs in the examples. *)
#[export] Instance example_unicode : Unicode := {| unicode_lower s := s; IsPrint _ := true |}.

(** ** A small database *)

Definition ana : uuid := Uuid 1.
Definition bia : uuid := Uuid 2.

Definition example_notification (owner : uuid) (chamado : string) (read : option time) (t : time)
  : notification :=
  Notification owner chamado "Buraco" "Equipe a caminho" read (Some (chamado +:+ "-key")) t None
    None None None.

Definition example_outbox (owner nid : uuid) (t : time) : outbox :=
  Outbox owner nid "{}" pending 0 t None t None.

(** Two notifications and two pending rows of Ana's, one of each of Bia's. *)
Definition example_db : database :=
  {| citizens := {[ ana := Citizen "fp-ana" 0 "{}" None; bia := Citizen "fp-bia" 0 "{}" None ]};
     notifications := {[ Uuid 11 := example_notification ana "CH-1" None 5;
                         Uuid 12 := example_notification ana "CH-2" None 7;
                         Uuid 13 := example_notification bia "CH-3" None 6 ]};
     event_outbox := {[ Uuid 21 := example_outbox ana (Uuid 11) 5;
                        Uuid 22 := example_outbox ana (Uuid 12) 7;
                        Uuid 23 := example_outbox bia (Uuid 13) 6 ]};
     webhook_dlq := ∅; push_devices := ∅ |}.

(** Bia's rows are gone. *)
Definition example_db_without_bia : database :=
  set_notifications {[ Uuid 11 := example_notification ana "CH-1" None 5;
                       Uuid 12 := example_notification ana "CH-2" None 7 ]} example_db.

Definition at_time (t : time) (w : world) : world :=
  World (w_db w) (w_tx w) (w_locked w) (w_gen w) t (w_faults w) (w_redis w) (w_http w)
    (w_clock w) (w_reads w) (w_chamados w) (w_mapas w) (w_push w) (w_effects w).

Definition example_world : world := at_time 100 (init_world example_db).

Definition get_request (k v : string) : request :=
  {| rq_header _ := ""; rq_query _ := ""; rq_param p := if String.eqb p k then v else "";
     rq_body := {| delivered := ""; read_error := None |} |}.

Definition example_client : ChamadosClient := {| cc_base := "http://chamados"; cc_timeout := Second |}.

(** A run, as an equation. *)
Lemma run_eq {A} (m : ST A) w : m w = ((m w).1, (m w).2).
Proof. apply surjective_pairing. Qed.

(** ** HTTP clients and the REST API *)

Definition summary_run := GetSummary (Some example_client) "CH/1" example_world.

Lemma summary_run_eq :
  GetSummary (Some example_client) "CH/1" example_world
  = (summary_run.1, ((summary_run.2.1.1, summary_run.2.1.2), summary_run.2.2)).
Proof. reflexivity. Qed.

Lemma summary_base : cc_base example_client ≠ "".
Proof. done. Qed.

(** Bia has a phone, or no row at all; Ana cannot tell. *)
Definition with_bia : world :=
  at_time 100 (init_world (set_devices {[ Uuid 31 := Device bia "ios" "abc" 0 0 ]} example_db)).
Definition without_bia : world := at_time 100 (init_world example_db_without_bia).

Lemma example_agree : agree ana with_bia without_bia.
Proof. split; [split; vm_compute; reflexivity|reflexivity]. Qed.

Definition device_request : request :=
  {| rq_header _ := ""; rq_query _ := ""; rq_param _ := "";
     rq_body := {| delivered := Marshal (JObj [("token", JStr " abc "); ("platform", JStr "Android")]);
                   read_error := None |} |}.

Lemma example_registrable : registrable with_bia ∧ registrable without_bia.
Proof.
  split; (split; [|reflexivity]); simpl; intros i j v v'; simpl; [|done].
  by intros [<- _]%lookup_singleton_Some [<- _]%lookup_singleton_Some.
Qed.

Lemma unread_private : handleUnreadCount ∈ private_handlers None None.
Proof. right. left. Qed.

Lemma answers_depend_on_own_rows_witness :
  (handleUnreadCount (Some (Some ana)) (get_request "" "") with_bia).2
  = (handleUnreadCount (Some (Some ana)) (get_request "" "") without_bia).2
  ∧ (handleMarkAllRead None (Some (Some ana)) (get_request "" "") with_bia).2
    = (handleMarkAllRead None (Some (Some ana)) (get_request "" "") without_bia).2
  ∧ (handleRegisterDevice (Some (Some ana)) device_request with_bia).2
    = (handleRegisterDevice (Some (Some ana)) device_request without_bia).2.
Proof.
  destruct (answers_depend_on_own_rows None None ana (get_request "" "") _ _ example_agree)
    as (Hp & [Hm _] & _).
  destruct (answers_depend_on_own_rows None None ana device_request _ _ example_agree)
    as (_ & _ & Hr).
  destruct example_registrable as [H1 H2].
  exact (conj (proj1 (Hp _ unread_private)) (conj Hm (proj1 (Hr H1 H2)))).
Defined.

Definition mark_all_run :=
  handleMarkAllRead (Some example_client) (Some (Some ana)) (get_request "" "") example_world.

Lemma mark_all_handler :
  handleMarkAllRead (Some example_client) ∈ citizen_handlers (Some example_client) None.
Proof. do 8 right. left. Qed.

Lemma bia_not_ana : bia ≠ ana.
Proof. done. Qed.

Lemma others_are_untouched_witness : own bia (w_db mark_all_run.1) = own bia example_db.
Proof.
  exact (proj1 (proj2 (others_are_untouched (Some example_client) None _ ana bia (get_request "" "")
    example_world mark_all_run.1 mark_all_run.2 mark_all_handler bia_not_ana eq_refl (run_eq _ _)))).
Defined.

Lemma mark_all_read_settles_witness : unread_rows ana (w_db mark_all_run.1) = [].
Proof.
  exact (proj1 (proj2 (mark_all_read_settles (Some example_client) ana (get_request "" "")
    example_world mark_all_run.1 mark_all_run.2 eq_refl (run_eq _ _)))).
Defined.

Definition page_request : request :=
  {| rq_header _ := ""; rq_query p := if String.eqb p "limit" then "500" else "1"; rq_param _ := "";
     rq_body := {| delivered := ""; read_error := None |} |}.

Lemma list_is_sorted_slice_witness :
  parsePagination page_request = Ok (100, 1)
  ∧ StronglySorted newest_first (sorted_rows ana example_db).
Proof.
  split; [reflexivity|].
  exact (proj1 (proj2 (list_is_sorted_slice ana page_request example_world 100 1 eq_refl eq_refl))).
Defined.

Definition mark_request : request := get_request "id" "12".
Definition mark_run := handleMarkRead (Some example_client) (Some (Some ana)) mark_request example_world.

Lemma mark_request_id : uuid_Parse (rq_param mark_request "id") = Some (Uuid 12).
Proof. reflexivity. Qed.

Lemma mark_read_once_witness : mark_run.2 = c_Status StatusNoContent.
Proof.
  exact (proj1 (proj1 (mark_read_once (Some example_client) ana mark_request (Uuid 12) example_world
    mark_run.1 mark_run.2 eq_refl mark_request_id (run_eq _ _)))).
Defined.

Definition proxy_request : request := get_request "chamado_id" "CH-1".
Definition proxy_run :=
  handleChamadosSummary (Some example_client) (Some (Some ana)) proxy_request example_world.

Lemma summary_is_authorised_witness :
  w_effects proxy_run.1 = [] ∨ ∃ i n, own ana example_db !! i = Some n ∧ nt_chamado_id n = "CH-1".
Proof.
  destruct (summary_is_authorised example_client ana proxy_request example_world proxy_run.1
              proxy_run.2 (run_eq _ _)) as [[He _]|(_ & Hown & _)].
  - left. exact He.
  - right. exact Hown.
Defined.

(** ** Authentication *)

Definition example_auth : AuthConfig :=
  {| au_jwtSecret := "jwt-secret"; au_cpfPepper := "cpf-pepper"; au_wantIssuer := "idp";
     au_wantAudience := "app" |}.

Definition token_run := ResolveCitizenFromToken example_auth "jwt-secret.12345678901" example_world.

Lemma token_run_ok : ResolveCitizenFromToken example_auth "jwt-secret.12345678901" example_world
                     = (token_run.1, Ok None).
Proof. vm_compute. reflexivity. Qed.

Lemma ResolveCitizenFromToken_sound_witness :
  ∃ claims cpf, jwt_verifies SigningMethodHMAC "jwt-secret" "jwt-secret.12345678901" claims
                ∧ grants example_auth claims 0 cpf.
Proof.
  destruct (ResolveCitizenFromToken_sound example_auth "jwt-secret.12345678901" example_world
              token_run.1 None token_run_ok) as (claims & cpf & Hv & Hg & _).
  exact (ex_intro _ claims (ex_intro _ cpf (conj Hv Hg))).
Defined.

Definition example_deps : Deps :=
  {| dp_Pool := true; dp_Redis := true; dp_Webhook := Some example_service;
     dp_AuthJWT := Some example_auth; dp_Hub := true; dp_JWTSecret := "jwt-secret";
     dp_CPFPepper := "cpf-pepper"; dp_JWTIssuer := "idp"; dp_JWTAudience := "app";
     dp_WSWriteTimeout := 0; dp_WSPingInterval := 0; dp_WSPongWait := 0; dp_WSReadLimit := 0;
     dp_Chamados := Some example_client; dp_Mapas := None |}.

Lemma unread_route :
  ("GET", "/notifications/unread-count", answers (authenticated example_auth handleUnreadCount))
  ∈ httpapi_Register (Some example_deps).
Proof. unfold httpapi_Register. simpl. do 3 right. left. Qed.

Lemma unread_pattern : "/notifications/unread-count" ∉ ["/health"; "/ready"; "/webhook"].
Proof. by apply (bool_decide_unpack _). Qed.

Lemma routes_are_guarded_witness :
  guarded_route (answers (authenticated example_auth handleUnreadCount)).
Proof.
  exact (routes_are_guarded (Some example_deps) "GET" "/notifications/unread-count" _
           unread_route unread_pattern).
Defined.

(** ** The worker *)

Definition example_worker (batch : Z) : Worker := NewWorker None batch 1 5 (200 * Millisecond).

(** The second publish is refused. *)
Definition worker_world : world := with_redis [Fine; Failed "timeout"] example_world.
Definition batch_run_2 := processBatch (example_worker 2) worker_world.

Lemma batch_run_2_eq : processBatch (example_worker 2) worker_world = (batch_run_2.1, Ok tt).
Proof. vm_compute. reflexivity. Qed.

Lemma row_21_sent :
  event_outbox (w_db batch_run_2.1) !! Uuid 21
  = Some (mark_sent 100 (example_outbox ana (Uuid 11) 5)).
Proof. vm_compute. reflexivity. Qed.

Lemma sent_rows_were_published_witness :
  event_outbox (w_db worker_world) !! Uuid 21 = Some (mark_sent 100 (example_outbox ana (Uuid 11) 5))
  ∨ ∃ effs, w_effects batch_run_2.1 = w_effects worker_world ++ effs
      ∧ Published (CitizenChannel ana) "{}" ∈ effs.
Proof.
  exact (sent_rows_were_published (example_worker 2) worker_world batch_run_2.1 (Ok tt) (Uuid 21) _
           eq_refl batch_run_2_eq row_21_sent eq_refl).
Defined.

Lemma row_22_pending :
  event_outbox (w_db worker_world) !! Uuid 22 = Some (example_outbox ana (Uuid 12) 7).
Proof. vm_compute. reflexivity. Qed.

Lemma batch_settles_its_rows_witness :
  w_db batch_run_2.1 = set_outbox (event_outbox (w_db batch_run_2.1)) example_db.
Proof.
  destruct (batch_settles_its_rows (example_worker 2) worker_world batch_run_2.1 eq_refl batch_run_2_eq)
    as (effs & reqs & _ & _ & _ & Htab & _).
  exact Htab.
Defined.

Lemma row_22_due : claimable (context_of worker_world) (Uuid 22) (example_outbox ana (Uuid 12) 7) = true.
Proof. vm_compute. reflexivity. Qed.

(** ** The hub *)

Definition example_hub : Hub := Connect 2 bia (Connect 1 ana NewHub).

Lemma example_hub_reachable log : rtc step (State NewHub [] log false)
  (State example_hub [[AReadLoop 2]; [AWriteLoop 2]; [AReadLoop 1]; [AWriteLoop 1]] log false).
Proof.
  eapply rtc_l; [apply (step_connect NewHub [] 1 ana); reflexivity|].
  apply rtc_once. by apply (step_connect (Connect 1 ana NewHub) [[AReadLoop 1]; [AWriteLoop 1]] 2 bia).
Qed.

Lemma example_hub_quiet : quiet example_hub.
Proof.
  split.
  - by apply Connect_inv; [apply Connect_inv; [apply NewHub_inv|]|].
  - assert (clients example_hub = <[2%positive := NewClient bia]> {[1%positive := NewClient ana]}) as Hcl
      by (vm_compute; reflexivity).
    intros p c. rewrite Hcl, lookup_insert_Some, lookup_singleton_Some.
    intros [[_ <-]|[_ [_ <-]]]; by left.
Qed.

Lemma hub_invariant_witness :
  ∃ c, clients example_hub !! 1%positive = Some c ∧ c_citizenID c = ana ∧ chan_closed c = false.
Proof.
  refine (proj1 (hub_invariant _ (example_hub_reachable [])) ana 1%positive _).
  by apply (bool_decide_unpack _).
Defined.

Lemma dispatch_can_panic_witness :
  ∃ s p payload t, reachable s ∧ (ASend p payload :: t) ∈ threads s
    ∧ ∀ cid, p ∉ clients_of (hub s) cid.
Proof.
  destruct panic_trace as (s & s' & Hr & Hs & Hp).
  destruct (proj2 dispatch_can_panic s s' Hr Hs Hp) as (p & m & t & c & Hin & _ & _ & Hno).
  exact (ex_intro _ s (ex_intro _ p (ex_intro _ m (ex_intro _ t (conj Hr (conj Hin Hno)))))).
Defined.


Definition delivered_hub : Hub := update_client (with_send ["hi"]) 1 example_hub.

Lemma example_dispatch : Dispatch ana "hi" example_hub = Some delivered_hub.
Proof. vm_compute. reflexivity. Qed.

Lemma delivered_by_steps :
  rtc step (State example_hub [[ADispatch ana "hi"]] [] false) (State delivered_hub [[]] [] false).
Proof.
  exact (Dispatch_refines_steps example_hub ana "hi" delivered_hub [] [] [] [] example_hub_quiet
           example_dispatch).
Qed.

(** ** The running system *)

(** An event arrives and one batch delivers it. *)
Definition after_event : world :=
  (answers (HandlePOST example_service) example_rq (init_world empty_database)).1.
Definition after_batch : world := (processBatch (example_worker 10) after_event).1.

(** Paths without parameters. *)
#[export] Instance example_gin : Gin := {|
  gin_route routes method path :=
    match list_find (λ r, r = (method, path)) routes with
    | Some (i, _) => Routed i (λ _, "")
    | None => Unrouted
    end
|}.

Lemma example_event_step : sys_step true example_deps (example_worker 10) (init_world empty_database) after_event.
Proof.
  eapply (sys_request true example_deps (example_worker 10) "POST" "/webhook" 0 None example_rq).
  unfold after_event. apply run_eq.
Qed.

Lemma example_batch_step w :
  sys_step true example_deps (example_worker 10) w (processBatch (example_worker 10) w).1.
Proof. eapply sys_batch, run_eq. Qed.

Lemma example_run : sys_reachable true example_deps (example_worker 10) after_batch.
Proof. exact (rtc_l _ _ _ _ example_event_step (rtc_once _ _ (example_batch_step after_event))). Qed.

Lemma max_attempts_positive : 1 ≤ wk_MaxAttempts (example_worker 10).
Proof. done. Qed.

Lemma system_invariant_witness :
  outbox_complete (w_db after_batch) ∧ sent_published (w_db after_batch) (w_effects after_batch).
Proof.
  destruct (system_invariant true example_deps (example_worker 10) max_attempts_positive after_batch
              example_run) as (_ & Hc & Hs & _).
  exact (conj Hc Hs).
Defined.

(** The run did deliver something. *)
Example example_run_delivers :
  (ob_status <$> (map_to_list (event_outbox (w_db after_batch))).*2, length (w_effects after_batch))
  = ([sent], 1%nat).
Proof. vm_compute. reflexivity. Qed.

(** ** From the event to the device *)

#[export] Instance example_pg_jsonb : PostgresJsonb example_pg.
Proof. constructor. intros s t ms [= <-] Hs _. by exists ms. Qed.

Lemma payload_carries_the_event_witness :
  ∃ oid o, event_outbox (w_db first_delivery.1) !! oid = Some o
    ∧ decode_wsPayload (ob_payload o)
      = Some {| pl_Title := "Buraco"; pl_Body := "Equipe a caminho" |}.
Proof.
  destruct (payload_carries_the_event example_service example_rq example_body example_event
              (init_world empty_database) first_delivery.1 example_accepted eq_refl first_delivery_run)
    as (oid & o & _ & Ho & _ & Hp & _).
  exact (ex_intro _ oid (ex_intro _ o (conj Ho Hp))).
Defined.
