(* ===== verification/Interleavings.v ===== *)
(** * Concrete runs of the concurrent parts

    Two deliveries of one event and a worker on shared tables; a connection
    that gets a message while its pumps run; the way of an event to an open
    connection. *)

From S2P Require Import Prelude GoStrings Sha256 GoTime Json Identity Uuid Payload World Repo.
From S2P Require Import RepoFacts RepoSound CitizenFacts Http Integrations IntegrationsProps.
From S2P Require Import WebhookService WebhookFacts Examples WebhookProps WsBus WsBusFacts WsBusProps.
From S2P Require Import Notify NotifyFacts NotifyProps DrainFacts DrainProps DeliveryProps Feed FeedProps.
From S2P Require Import KeepAlive KeepAliveProps.
From S2P Require Import System SystemProps Replicas Deliveries Shared Completion PipelineProps.
From S2P Require Import Witnesses Runs.

(** ** The servers on one database *)

Abbreviation workers := (λ _ : nat, example_worker 1).

Lemma both_answered_shared :
  rtc (shared_step svc workers) empty_shared (with_intake both_answered empty_shared).
Proof. apply delivery_steps_shared, both_steps. Qed.

Lemma interleaved_servers_witness :
  wf after_first ∧ ∃ nid n oid o,
    notifications after_first !! nid = Some n ∧ nt_idempotency_key n = Some (IdempotencyKey event)
    ∧ event_outbox after_first !! oid = Some o ∧ ob_notification_id o = nid.
Proof.
  destruct (proj1 (interleaved_servers svc workers (wk_MaxAttempts (example_worker 1))
             ltac:(by vm_compute) (λ _, eq_refl)) _ both_answered_shared)
    as (_ & Hwf & _ & _ & _ & _ & Hknown).
  split; [exact Hwf|].
  destruct (Hknown (IdempotencyKey event) true) as (nid & n & oid & o & H1 & H2 & H3 & H4 & _); [by left|].
  exact (ex_intro _ nid (ex_intro _ n (ex_intro _ oid (ex_intro _ o (conj H1 (conj H2 (conj H3 H4))))))).
Defined.







(** ** One connection, one message *)

Section connection.
Variables (cid : uuid) (m : string).

Definition one_hub : Hub := Connect 1 cid NewHub.
Definition one_pumps : list thread := [[AReadLoop 1]; [AWriteLoop 1]].
Definition message : option (string * string) := Some (CitizenChannel cid, m).

Definition waiting_feed : feed := Feed one_hub one_pumps [] [] false.
Definition buffered_feed : feed :=
  Feed (update_client (with_send [m]) 1 one_hub) one_pumps [] [message] false.

Lemma one_hub_client : clients one_hub !! 1%positive = Some (NewClient cid).
Proof. unfold one_hub. by rewrite Connect_clients, lookup_insert_eq. Qed.

Lemma one_hub_registered : clients_of one_hub cid = {[1%positive]}.
Proof.
  unfold one_hub, Connect, Register. simpl. rewrite insert_empty, lookup_singleton_eq.
  unfold clients_of. simpl. rewrite insert_empty, lookup_singleton_eq. simpl.
  rewrite lookup_empty. simpl. by rewrite union_empty_r_L.
Qed.

Lemma waiting_reachable : feed_reachable waiting_feed.
Proof. apply rtc_once, (fs_connect NewHub [] 1 cid [] []), lookup_empty. Qed.

Lemma buffered_run : rtc feed_step waiting_feed buffered_feed.
Proof.
  eapply rtc_l; [apply (fs_message _ _ message cid m), dispatch_of_channel|].
  eapply rtc_l.
  { eapply fs_sub, (act_dispatch cid m _ [1%positive]); [done|].
    by rewrite one_hub_registered, elements_singleton. }
  apply rtc_once. apply (fs_sub _ _ _ (ASend 1 m) [] []).
  apply (act_send 1 m one_hub (NewClient cid)); [apply one_hub_client|done|].
  unfold defaultSendBuffer. simpl. lia.
Qed.

Lemma waiting_attentive : attentive waiting_feed 1.
Proof.
  split; [done|]. split; [|by left]. exists cid. simpl. rewrite one_hub_registered. set_solver.
Qed.

Lemma buffered_attentive : attentive buffered_feed 1.
Proof.
  split; [done|]. split; [|by left]. exists cid. change (1%positive ∈ clients_of one_hub cid).
  rewrite one_hub_registered. set_solver.
Qed.

Lemma buffered_client :
  clients (fd_hub buffered_feed) !! 1%positive = Some (with_send [m] (NewClient cid)).
Proof.
  unfold buffered_feed. cbn [fd_hub]. by rewrite update_client_lookup, decide_True, one_hub_client.
Qed.
End connection.

Lemma connections_get_every_message_witness :
  ∃ next, inbox ana [message ana "hi"] = next ∧ c_send (with_send ["hi"] (NewClient ana)) = next.
Proof.
  destruct (proj2 connections_get_every_message (waiting_feed ana) (buffered_feed ana "hi") 1%positive
              (NewClient ana) _ (waiting_reachable ana) (buffered_run ana "hi") (waiting_attentive ana)
              (one_hub_client ana) (buffered_client ana "hi")) as (next & Hn & _ & Hall).
  exact (ex_intro _ next (conj Hn (Hall (buffered_attentive ana "hi")))).
Defined.

(** ** From the event to the connection *)

Lemma events_reach_open_connections_witness :
  ∃ f' c' raw, rtc feed_step init_feed f' ∧ clients (fd_hub f') !! 1%positive = Some c'
    ∧ raw ∈ c_written c' ++ c_send c' ∧ carries raw example_event.
Proof.
  destruct (events_reach_open_connections example_service example_rq example_body example_event
              (init_world empty_database) first_delivery.1 example_accepted eq_refl first_delivery_run)
    as (oid & o & _ & _ & _ & _ & _ & Hfeed).
  pose (f := waiting_feed (ob_citizen_id o)).
  pose (f' := buffered_feed (ob_citizen_id o) (ob_payload o)).
  pose proof (buffered_run (ob_citizen_id o) (ob_payload o)) as Hrun.
  destruct (Hfeed f f' 1%positive (NewClient (ob_citizen_id o)) [message_of o] (waiting_reachable _)
              Hrun (waiting_attentive _) (buffered_attentive _ _) (one_hub_client _)
              eq_refl eq_refl) as (c' & raw & Hc' & Hin & Hcar); [by left|].
  exists f', c', raw. split; [|exact (conj Hc' (conj Hin Hcar))].
  etrans; [apply waiting_reachable|exact Hrun].
Defined.

(** ** A connection over its first half minute *)

Definition default_params : client_params := NewClient_params 0 0 0 0.

(** The message is handed over while a tick waits; then the ping, and its pong
    a second later. *)
Definition half_minute : list label :=
  [LElapse (30 * Second); LOffer "hi"; LFire; LTakeMessage; LElapse (2 * Second); LWritten;
   LTakeTick; LElapse Second; LWritten; LElapse Second; LPong].

Example half_minute_run :
  (λ c, (cn_reader c, cn_handed c, cn_pings c)) <$> conn_run default_params half_minute (started default_params 0)
  = Some (Reading (94 * Second), ["hi"], []).
Proof. vm_compute. reflexivity. Qed.

Definition after_half_minute : conn :=
  default (started default_params 0) (conn_run default_params half_minute (started default_params 0)).

Abbreviation calm_step := (attended_step default_params (5 * Second) Second 3).

Ltac attended_by l :=
  eapply (attended_l _ _ _ _ l);
  [vm_compute; reflexivity|simpl; try (intros _; lia); try (split; [repeat apply Forall_cons_2|])|];
  try done; try (unfold Second; lia).

Lemma half_minute_attended : rtc calm_step (started default_params 0) after_half_minute.
Proof.
  attended_by (LElapse (30 * Second)). attended_by (LOffer "hi"). attended_by LFire.
  attended_by LTakeMessage. attended_by (LElapse (2 * Second)). attended_by LWritten.
  attended_by LTakeTick. attended_by (LElapse Second). attended_by LWritten.
  attended_by (LElapse Second). attended_by LPong.
Qed.

Lemma responsive_peers_stay_connected_witness :
  ∃ c, rtc calm_step after_half_minute c ∧ 3600 * Second ≤ cn_now c ∧ cn_handed c = ["hi"].
Proof.
  destruct (responsive_peers_stay_connected 0 0 0 0 (5 * Second) Second 3 0
              ltac:(split; by vm_compute) ltac:(by vm_compute) ltac:(by vm_compute)
              after_half_minute half_minute_attended) as (_ & _ & _ & _ & Hgo).
  destruct (Hgo (3600 * Second)) as (c & Hm & Ht & _ & Hh). exists c.
  exact (conj Hm (conj Ht Hh)).
Defined.

(** Pinged every 90 seconds, a peer that only answers does not outlive the
    default pong wait of a minute. *)
Definition slow_pings : client_params := NewClient_params 0 (90 * Second) 0 0.

Definition one_minute : conn := with_now (60 * Second) (started slow_pings 0).

Lemma one_minute_reached : rtc (solicited_step slow_pings) (started slow_pings 0) one_minute.
Proof. apply rtc_once. exists (LElapse (60 * Second)). split; [vm_compute; reflexivity|done]. Qed.

(** The peer hangs up: the reader is out of its loop, its shutdown to come. *)
Definition hung_up : conn := with_reader ReaderLeaving (started slow_pings 0).

Lemma hung_up_reached : rtc (conn_moves slow_pings) (started slow_pings 0) hung_up.
Proof. apply rtc_once. by exists LReadError. Qed.

Lemma silent_peers_are_dropped_witness :
  cn_pings one_minute = [] ∧ cn_now one_minute ≤ 0 + cp_pongWait slow_pings
  ∧ conn_step slow_pings (LElapse 1) one_minute = None
  ∧ ∃ c, rtc (own_moves slow_pings) hung_up c ∧ over_at 0 c.
Proof.
  destruct (silent_peers_are_dropped 0 (90 * Second) 0 0 0) as [Hall Hslow].
  destruct (Hslow ltac:(by vm_compute) one_minute one_minute_reached ltac:(discriminate)) as [Hn Hp].
  destruct (Hall hung_up hung_up_reached) as (_ & _ & _ & Hend & _).
  exact (conj Hp (conj Hn (conj eq_refl (proj2 (Hend eq_refl))))).
Defined.
